(* ===== verification/_CoqProject ===== *)
-Q . S2P
Prelude.v
Names.v
Text.v
Files.v
Labels.v
LabelSpec.v
LabelCache.v
NamedGraph.v
GraphClients.v
Consts.v
LayerFiles.v
LayerFileSpec.v
LayerStores.v
Succinct.v
SuccinctList.v
LayerTypes.v
Order.v
Nested.v
SubjectIterator.v
LayerLookup.v
TripleBuilder.v
StackMerge.v
ChangeMerge.v
IdMap.v
ObjectIterator.v
SuccinctBuild.v
SuccinctBuildList.v
SuccinctMerge.v
SuccinctMergeList.v
IndexBuilder.v
PredicateIterator.v
InternalLayer.v
LayerCache.v
LayerIds.v
LayerQueries.v
NewLayerIds.v
FileBuilder.v
FileBuilderSpec.v
SimpleBuilder.v
SimpleBuilderSpec.v
CommitSteps.v
CommitPlan.v
CommitSpec.v
CommitHistory.v
IdMapBuild.v
IdMapSpec.v
RollupIds.v
RollupLayer.v
LayerMaps.v
LayerLoad.v
StoreQueries.v
StoreQuerySpec.v
StoreChanges.v
Delta.v
DeltaSpec.v
RollupHistory.v
CachedStore.v
Archive.v
ArchiveBackend.v
LruBackend.v
LruArchive.v
LruConcurrent.v
ArchiveStore.v
ArchiveStoreSpec.v
ArchiveExamples.v
PersistentStore.v
Examples.v
BuilderExamples.v
LayerProperties.v
StorageExamples.v
StorageProperties.v
StoreProperties.v
ArchiveProperties.v
BuilderProperties.v
DeltaProperties.v
StoreBuilder.v
StoreBuilderSpec.v
StoreBuilderProperties.v
