(* ===== verification/Prelude.v ===== *)
(** * terminus-store, verified

    A Rocq development beside [terminus-store], a store for graphs of triples. The
    names of files below are those of this development (without [.v]) and, with
    their paths under [src/], those of the program.

    ** The program

    A graph is a stack of immutable _layers_. A base layer holds triples of ids and
    the dictionaries that give the ids their strings; a child layer holds the
    triples it adds to its parent and those it removes, and dictionaries for the
    names it brings along; a _rollup_ is a layer that stands for a stack of them.
    The triples of a layer are in two adjacency lists (subjects to predicates,
    pairs of these to objects), an index from objects to pairs, and a wavelet tree
    over the predicates: structures of the crates [tdb_succinct] and [tfc].

    A layer is a directory of files in a _persistent layer store_: in memory, in a
    directory, or in _archives_, one file per layer, that a directory keeps and an
    LRU cache holds in memory. Layers are loaded through a _cache_ of weak
    references. A _label store_ maps the names of graphs to layers, with a version
    for compare-and-set; a _named graph_ moves its head through it.

    ** How Rust becomes Rocq

    Everything is in [Prelude]: [outcome] is a value, an [io::Error] by its kind, a
    panic ([unwrap], an index out of range, an underflow), or a loop of the model
    out of fuel; [io W] is a call on a world [W] that threads the world through and
    returns an outcome, also when it fails. [returns R a m o a'] says that from every
    world that represents [a], the call [m] returns [o] in a world that represents
    [a']. Async functions are calls; where their interleaving matters the calls are cut
    at their awaits into the steps of a transition system ([GraphClients],
    [LruConcurrent]). Traits are classes of operations; what an implementer
    promises is a class of laws beside it, over an abstract state.

    ** The files and what they model

    - [Names], [Text]: layer names and the strings of Rust ([src/storage/layer.rs],
      [name_to_string], [string_to_name], [bytes_to_name]; printing and parsing of numbers,
      lines, paths).
    - [Files]: a directory and its open files, with the calls of
      [src/storage/locking.rs] that are used.
    - [Labels], [LabelSpec], [LabelCache]: [src/storage/label.rs] and the three label stores
      ([src/storage/memory.rs], [src/storage/directory.rs]); the laws of a label store, with
      an instance for each; what a cached store leaves in its directory.
    - [NamedGraph], [GraphClients]: [NamedGraph] and the labels of [Store]
      ([src/store/mod.rs]), proved against the laws of label and layer stores; clients that
      move one head at the same time.
    - [Consts]: the file names of [src/storage/consts.rs] and their numbers.
    - [LayerFiles], [LayerFileSpec], [LayerStores]: the trait [PersistentLayerStore] with its
      provided methods ([src/storage/layer.rs]), the records of files of
      [src/storage/file.rs], the laws of a store over a map from names to files, and the
      stores in memory and in a directory as instances.
    - [Succinct], [SuccinctList]: the interface to [tdb_succinct] and [tfc] as classes of
      operations and laws, and an instance on lists on which examples evaluate.
    - [LayerTypes], [Nested]: [src/layer/layer.rs], and the layout of triples in the two
      adjacency lists as a nested list.
    - [SubjectIterator], [ObjectIterator], [PredicateIterator], [LayerLookup]: the iterators
      over one layer with their seeks, and point lookups ([src/layer/internal/]).
    - [TripleBuilder]: [TripleFileBuilder] of [src/layer/builder.rs].
    - [SuccinctBuild], [SuccinctBuildList]: the builders of [tdb_succinct] as classes of operations
      and laws, and the instance on lists. [Order]: sorting and removing duplicates.
    - [IndexBuilder], [FileBuilder], [FileBuilderSpec]: the object index and the wavelet tree, and the
      file builders of dictionaries, base layers and child layers ([src/layer/builder.rs],
      [src/layer/internal/base.rs], [src/layer/internal/child.rs]); what they write.
    - [SimpleBuilder], [SimpleBuilderSpec], [CommitSteps], [CommitPlan], [CommitSpec], [CommitHistory]:
      [src/layer/simple_builder.rs]; the ids a builder gives while it collects, the loops of a commit one by
      one, what they hand to the file builders, the layer that results, and layers built
      one on top of another. [NewLayerIds]: the ids of a layer that was just built.
    - [StackMerge], [ChangeMerge]: iterators over a stack of layers, for the triples that
      exist and for the changes.
    - [IdMap], [InternalLayer], [LayerIds], [LayerQueries]: [src/layer/id_map.rs], the types of
      layers ([base.rs], [child.rs], [rollup.rs], [mod.rs] of [src/layer/internal/]) and the
      whole [Layer] trait, for ids and for triples.
    - [LayerCache], [LayerMaps], [LayerLoad]: [src/storage/cache.rs], the contents of files
      and the load functions, and [get_layer_with_cache].
    - [StoreQueries], [StoreQuerySpec], [StoreChanges], [CachedStore]: the queries a store
      answers from files ([src/storage/layer.rs]) or from its cache ([src/storage/cache.rs]), and
      the laws that both satisfy.
    - [PersistentStore]: a persistent store with a cache keeps the laws that named graphs rely on.
    - [Archive], [ArchiveBackend], [LruBackend], [LruArchive], [LruConcurrent], [ArchiveStore],
      [ArchiveStoreSpec]: [src/storage/archive.rs], from the format of an archive through its
      back ends to the layer store on top of them, which is an instance of the laws of
      [LayerFileSpec] and [LayerMaps] over any back end.
    - [Examples], [BuilderExamples], [StorageExamples], [ArchiveExamples]: concrete layers and stores.
    - [BuilderProperties], [LayerProperties], [StorageProperties], [StoreProperties], [ArchiveProperties]: the
      theorems that state what the program guarantees, each with an instance.

    ** What the theorems show

    Layers ([LayerProperties]): a stack of layers has an abstract reading, the list of the
    triples each layer adds and removes; every query of a layer, whichever structure it
    reads, returns exactly the triples that exist in that reading, once and in order, and
    the counts, the changes between two layers and the point lookups agree with it.
    Triples that are built are found; names and ids of a stack of layers, with the id maps of its
    rollups, go back and forth.

    Builders ([BuilderProperties]): a history of layers, each built by a [SimpleLayerBuilder] and
    committed on top of the one before, holds exactly the set of triples of names that the
    same additions and removals make of the empty set; no call fails. A commit by names and ids
    is exact for every triple, keeps its parent's ids and leaves a well formed layer; the file
    builders write what the layers of [LayerProperties] are asked for.

    Storage ([StorageProperties], [StoreProperties]): the layer loaded is the one that the
    files describe, whatever is in the cache; queries from files and queries through the
    cache answer as the loaded layer does; registering a rollup changes no answer; walks
    over ancestors end. A label store is a map with compare-and-set; clients of
    a named graph that run at the same time lose no update.

    Archives ([ArchiveProperties]): the format round trips; a layer created in an archive store
    reads back, over any back end; the LRU cache is transparent and stays within its
    limit, under any interleaving of calls, which all end.

    Some theorems state what the code does where it is not what it means to do (an object
    that a layer skips, a rollup of a rollup, a label that is cleared, changes read from
    the wrong layer).

    ** Fuel

    Loops that are not structural take a number of rounds. Each theorem about such a loop
    asks for a number that is enough and shows that it ends with a result: for iterators
    more than the number of triples of the stack ([stack_size]), for walks over parents more
    than the depth of the layer, for the eviction loop of the LRU cache the number of its entries,
    since a round drops an entry or moves one that is being resolved out of the way, for
    [force_set_head] one round when nobody else writes.

    ** Bounds

    Ids, counts and positions, which are [u64] or [usize] in the program, are natural
    numbers here: subtraction is checked ([checked_sub]), overflow of additions is out
    of reach of the data a machine can hold. Widths are kept where the code relies on them:
    the words of names (32 bits), versions of labels (64 bits), presence headers and
    offsets of archives (64 bits, with [fits] as the bound on the size of a layer), and the space counter
    of the LRU cache, whose additions and subtractions wrap around.

    ** What is not modelled

    - [tdb_succinct], [tfc], [lru], [tokio] and the file system: the first three are
      parameters with laws, tokio is left out, and the file system is a map from paths to
      entries ([Files], [LayerStores]) whose calls are atomic. A call that is cancelled at an await is
      not modelled.
    - Poll functions of readers and writers: a file is read and written as a whole.
    - The feature [rollup_metadata_experimental], which is off by default.
    - [src/storage/pack.rs] (tar archives made by the [tar] and [flate2] crates), [src/storage/copy.rs] and
      [src/logging/]: input and output around the stores.
    - [src/storage/delta.rs], [src/layer/internal/base_merge.rs] and the construction of id maps: they merge
      dictionaries with functions of [tdb_succinct]; they are the next to come.
    - The widths of the numbers in the files of a layer, and the files between a builder and
      the layer that is loaded from them: a builder ends with the layer itself.
    - [src/store/sync.rs] and the methods of [Store] that only hand on to the layer store.
    - [src/storage/new_memory.rs], which no module includes. *)

From stdpp Require Export base tactics option list gmap strings sorting.
From Stdlib Require Export Lia.

#[global] Arguments String.append : simpl nomatch.

(** * Errors and panics

    [io::ErrorKind], restricted to the kinds the source constructs or tests. *)
Inductive error_kind :=
  | NotFound
  | InvalidData
  | InvalidInput
  | UnexpectedEof
  | AlreadyExists
  | Other.

#[export] Instance error_kind_eq_dec : EqDecision error_kind.
Proof. solve_decision. Defined.

(** The result of running a piece of Rust code: a value, an [io::Error]
    returned to the caller, a panic, or (in the model only) a loop that used up
    the fuel it was given. *)
Inductive outcome (A : Type) : Type :=
  | Ok (a : A)
  | Err (e : error_kind)
  | Panic
  | NoFuel.
Arguments Ok {A} a.
Arguments Err {A} e.
Arguments Panic {A}.
Arguments NoFuel {A}.

#[export] Instance outcome_eq_dec `{EqDecision A} : EqDecision (outcome A).
Proof. solve_decision. Defined.

#[export] Instance outcome_ret : MRet outcome := @Ok.
#[export] Instance outcome_bind : MBind outcome := λ A B f m,
  match m with Ok a => f a | Err e => Err e | Panic => Panic | NoFuel => NoFuel end.
#[export] Instance outcome_fmap : FMap outcome := λ A B f m,
  match m with Ok a => Ok (f a) | Err e => Err e | Panic => Panic | NoFuel => NoFuel end.

(** [Option::unwrap] and [Option::expect]. *)
Definition unwrap {A} (o : option A) : outcome A :=
  match o with Some a => Ok a | None => Panic end.

(** Unsigned subtraction as Rust computes it with overflow checks. *)
Definition checked_sub (a b : nat) : outcome nat :=
  if decide (b ≤ a) then Ok (a - b) else Panic.

#[global] Arguments checked_sub : simpl never.

Lemma checked_sub_ok a b : b ≤ a → checked_sub a b = Ok (a - b).
Proof. intros. unfold checked_sub. by rewrite decide_True. Qed.

Lemma unwrap_Some {A} (a : A) : unwrap (Some a) = Ok a.
Proof. done. Qed.

Lemma outcome_bind_Ok {A B} (f : A → outcome B) a : mbind f (Ok a) = f a.
Proof. done. Qed.

Lemma outcome_bind_inv {A B} (f : A → outcome B) m b :
  mbind f m = Ok b → ∃ a, m = Ok a ∧ f a = Ok b.
Proof. destruct m; try done. eauto. Qed.

(** * Code with a state

    [async] methods and methods on shared objects are state transformers over
    the part of the world they touch; the state survives errors and panics. *)
Definition io (W A : Type) : Type := W → outcome A * W.

#[export] Instance io_ret {W} : MRet (io W) := λ A a w, (Ok a, w).
#[export] Instance io_bind {W} : MBind (io W) := λ A B f m w,
  match m w with
  | (Ok a, w') => f a w'
  | (Err e, w') => (Err e, w')
  | (Panic, w') => (Panic, w')
  | (NoFuel, w') => (NoFuel, w')
  end.

Definition lift {W A} (o : outcome A) : io W A := λ w, (o, w).
Definition throw {W A} (e : error_kind) : io W A := λ w, (Err e, w).
Definition read_state {W} : io W W := λ w, (Ok w, w).
Definition write_state {W} (w' : W) : io W unit := λ _, (Ok tt, w').

Lemma io_bind_Ok {W A B} (f : A → io W B) (m : io W A) w a w' :
  m w = (Ok a, w') → mbind f m w = f a w'.
Proof. intros Hm. unfold mbind, io_bind. by rewrite Hm. Qed.

Lemma lift_bind_Ok {W A B} (f : A → io W B) a w : mbind f (lift (Ok a)) w = f a w.
Proof. done. Qed.

Lemma io_bind_Err {W A B} (f : A → io W B) (m : io W A) w e w' :
  m w = (Err e, w') → mbind f m w = (Err e, w').
Proof. intros Hm. unfold mbind, io_bind. by rewrite Hm. Qed.

Lemma io_bind_inv {W A B} (f : A → io W B) (m : io W A) w b w2 :
  mbind f m w = (Ok b, w2) → ∃ a w1, m w = (Ok a, w1) ∧ f a w1 = (Ok b, w2).
Proof.
  unfold mbind, io_bind. destruct (m w) as [[a|e| |] w1] eqn:Hm; naive_solver.
Qed.

(** [returns R a m o a']: from a state that represents [a], the call returns [o]
    and leaves a state that represents [a']. *)
Definition returns {W M A} (R : W → M → Prop) (a : M) (m : io W A) (o : outcome A) (a' : M) : Prop :=
  ∀ s, R s a → ∃ s', m s = (o, s') ∧ R s' a'.

Section returns.
Context {W M : Type} (R : W → M → Prop) (a : M).

Lemma returns_lift {A} (o : outcome A) : returns R a (lift o) o a.
Proof. intros s Hs. by exists s. Qed.

Lemma returns_ret {A} (x : A) : returns R a (mret x) (Ok x) a.
Proof. intros s Hs. by exists s. Qed.

Lemma returns_throw {A} e : returns (A := A) R a (throw e) (Err e) a.
Proof. intros s Hs. by exists s. Qed.

Lemma returns_bind {A C} (m : io W A) (k : A → io W C) o a1 f :
  returns R a m o a1 → (∀ x, o = Ok x → returns R a1 (k x) (f x) a1) → returns R a (m ≫= k) (o ≫= f) a1.
Proof.
  intros Hm Hk s Hs. destruct (Hm s Hs) as (s1 & Hm1 & Hs1). unfold mbind at 1, io_bind. rewrite Hm1.
  destruct o as [x|e| |]; simpl; [by apply Hk|by eauto..].
Qed.

(** What every state that represents [a] satisfies may be used. *)
Lemma returns_use (P : Prop) {A} (m : io W A) o a1 : (∀ s, R s a → P) → (P → returns R a m o a1) → returns R a m o a1.
Proof. intros HP Hm s Hs. exact (Hm (HP s Hs) s Hs). Qed.

Lemma returns_eq {A} (m : io W A) o o' a1 : returns R a m o a1 → o = o' → returns R a m o' a1.
Proof. by intros ? <-. Qed.
End returns.

(** Two implementations of a call that answer the same. *)
Lemma same_answer {W1 W2 M A} (R1 : W1 → M → Prop) (R2 : W2 → M → Prop) a (m1 : io W1 A) (m2 : io W2 A) o a1 a2 s1 s2 :
  R1 s1 a → R2 s2 a → returns R1 a m1 o a1 → returns R2 a m2 o a2 → (m1 s1).1 = (m2 s2).1.
Proof. intros H1 H2 Hm1 Hm2. destruct (Hm1 s1 H1) as (? & -> & _), (Hm2 s2 H2) as (? & -> & _). done. Qed.

(** Evaluate the calls of a goal whose state is known. *)
Ltac eval_io := unfold mbind, io_bind, lift, read_state, write_state, mret, io_ret, throw.

(** Run the first call of a monadic goal with a known result. *)
Ltac run_io H := erewrite io_bind_Ok by (exact H || (eapply H; eauto)).

(** Split a successful monadic hypothesis into the calls it is made of. *)
Ltac split_ok :=
  repeat match goal with
  | H : mbind _ _ = Ok _ |- _ =>
      let a := fresh "a" in let Ha := fresh "Ha" in
      apply outcome_bind_inv in H as (a & Ha & H)
  | H : mbind _ _ _ = (Ok _, _) |- _ =>
      let a := fresh "a" in let w := fresh "w" in let Ha := fresh "Ha" in
      apply io_bind_inv in H as (a & w & Ha & H)
  end.

(** * Sorted lists *)

Lemma StronglySorted_app_intro {A} (R : A → A → Prop) l1 l2 :
  StronglySorted R l1 → StronglySorted R l2 → (∀ x y, x ∈ l1 → y ∈ l2 → R x y) →
  StronglySorted R (l1 ++ l2).
Proof.
  intros H1 H2 Hx. induction H1 as [|x l1 H1 IH Hall]; simpl; [done|].
  constructor.
  - apply IH. intros. apply Hx; [by right|done].
  - apply Forall_app. split; [done|]. apply Forall_forall. intros. apply Hx; [by left|done].
Qed.

Lemma StronglySorted_app_inv {A} (R : A → A → Prop) l1 l2 :
  StronglySorted R (l1 ++ l2) →
  StronglySorted R l1 ∧ StronglySorted R l2 ∧ ∀ x y, x ∈ l1 → y ∈ l2 → R x y.
Proof.
  induction l1 as [|x l1 IH]; simpl; intros Hs.
  - split_and!; [constructor|done|]. intros ?? []%not_elem_of_nil.
  - apply StronglySorted_inv in Hs as [Hs Hall]. destruct (IH Hs) as (? & ? & Hx).
    apply Forall_app in Hall as [Hall1 Hall2]. rewrite Forall_forall in Hall2.
    split_and!; [by constructor|done|]. intros ?? [->|?]%elem_of_cons ?; auto.
Qed.

Lemma StronglySorted_fmap {A B} (R : A → A → Prop) (R' : B → B → Prop) (f : A → B) l :
  (∀ x y, R x y → R' (f x) (f y)) → StronglySorted R l → StronglySorted R' (f <$> l).
Proof.
  intros Hf. induction 1 as [|x l Hs IH Hall]; simpl; constructor; [done|].
  apply Forall_fmap. eapply Forall_impl; [done|]. simpl. auto.
Qed.

Lemma StronglySorted_filter {A} (R : A → A → Prop) (P : A → Prop) `{∀ x, Decision (P x)} l :
  StronglySorted R l → StronglySorted R (filter P l).
Proof.
  induction 1 as [|x l Hs IH Hall]; [constructor|]. rewrite filter_cons.
  case_decide; [|done]. constructor; [done|].
  rewrite Forall_forall in *. intros y [_ Hy]%list_elem_of_filter. auto.
Qed.

Lemma StronglySorted_NoDup {A} (R : A → A → Prop) `{!Irreflexive R} l :
  StronglySorted R l → NoDup l.
Proof.
  induction 1 as [|x l Hs IH Hall]; constructor; [|done].
  intros Hx. rewrite Forall_forall in Hall. destruct (irreflexivity R x). auto.
Qed.

Lemma filter_split {A} (P : A → Prop) `{∀ x, Decision (P x)} l1 l2 :
  (∀ x, x ∈ l1 → ¬ P x) → (∀ x, x ∈ l2 → P x) → filter P (l1 ++ l2) = l2.
Proof.
  intros Hl1 Hl2. rewrite filter_app.
  assert (filter P l1 = []) as -> by (induction l1; [done|]; rewrite filter_cons_False;
    [apply IHl1; intros; apply Hl1; by right|apply Hl1; by left]).
  simpl. induction l2 as [|x l2 IH]; [done|].
  rewrite filter_cons_True by (apply Hl2; by left). f_equal. apply IH. intros. apply Hl2. by right.
Qed.

(** In a strictly increasing list the index of an element counts the smaller ones. *)
Lemma sorted_filter_lt (l : list nat) i x :
  StronglySorted lt l → l !! i = Some x → length (filter (λ y, y < x) l) = i.
Proof.
  intros Hs. revert i. induction Hs as [|y l Hs IH Hall]; intros i Hi; [done|].
  rewrite Forall_forall in Hall. rewrite filter_cons.
  destruct i as [|i]; simplify_eq/=.
  - rewrite decide_False by lia. apply length_zero_iff_nil.
    destruct (filter _ l) as [|z l'] eqn:Hf; [done|].
    assert (z ∈ filter (λ y, y < x) l) as Hz by (rewrite Hf; by left).
    apply list_elem_of_filter in Hz as [? ?%Hall]. lia.
  - assert (y < x) by (apply Hall; eapply list_elem_of_lookup_2; done).
    rewrite decide_True by done. simpl. by rewrite (IH i).
Qed.

Lemma sorted_lookup_lt (l : list nat) i j x y :
  StronglySorted lt l → i < j → l !! i = Some x → l !! j = Some y → x < y.
Proof.
  intros Hs. revert i j. induction Hs as [|z l Hs IH Hall]; intros i j Hij Hi Hj; [done|].
  destruct j as [|j]; [lia|]. destruct i as [|i]; simplify_eq/=; [|eapply (IH i j); [lia|done..]].
  rewrite Forall_forall in Hall. eapply Hall; eapply list_elem_of_lookup_2; done.
Qed.

Lemma sorted_index_lt (l : list nat) i x y :
  StronglySorted lt l → l !! i = Some y → y < x ↔ i < length (filter (λ z, z < x) l).
Proof.
  intros Hs. revert i. induction Hs as [|z l Hs IH Hall]; intros i Hi; [done|].
  rewrite Forall_forall in Hall. rewrite filter_cons. destruct i as [|i]; simplify_eq/=.
  - case_decide; simpl; [lia|]. split; [lia|]. intros Hlen.
    destruct (filter _ l) as [|w l'] eqn:Hf; [simpl in Hlen; lia|].
    assert (w ∈ filter (λ z, z < x) l) as [? ?%Hall]%list_elem_of_filter by (rewrite Hf; by left). lia.
  - assert (z < y) by (apply Hall; by eapply list_elem_of_lookup_2).
    case_decide; simpl; rewrite (IH i Hi); [lia|]. split; [|lia]. intros Hi'%(IH i Hi). lia.
Qed.

(** * Lists *)

Lemma drop_lookup_head {A} (l : list A) i x r : drop i l = x :: r → l !! i = Some x ∧ drop (i + 1) l = r.
Proof.
  intros Hd. split.
  - by rewrite <- (Nat.add_0_r i), <- lookup_drop, Hd.
  - by rewrite <- drop_drop, Hd.
Qed.

#[export] Instance lt_irreflexive : Irreflexive lt.
Proof. intros x. unfold complement. lia. Qed.

(** A map made of the keys of a list that have a value. *)
Lemma list_to_map_omap {K A} `{Countable K} (g : K → option A) (l : list K) (k : K) :
  NoDup l →
  (list_to_map (omap (λ k, c ← g k; Some (k, c)) l) : gmap K A) !! k = if decide (k ∈ l) then g k else None.
Proof.
  induction 1 as [|j l Hj _ IH]; [by rewrite decide_False by apply not_elem_of_nil|].
  cbn [omap list_omap]. destruct (g j) as [c|] eqn:Hg; cbn [mbind option_bind list_to_map foldr fst snd];
    (destruct (decide (j = k)) as [<-|Hne]; [rewrite (decide_True (P := j ∈ j :: l)) by by left|]).
  - simpl. by rewrite lookup_insert_eq.
  - simpl. rewrite lookup_insert_ne, IH by done. apply decide_ext. rewrite elem_of_cons. naive_solver.
  - by rewrite IH, decide_False, Hg.
  - rewrite IH. apply decide_ext. rewrite elem_of_cons. naive_solver.
Qed.
