(* ===== verification/Names.v ===== *)
(** Layer names: [name_to_string], [string_to_name] and [bytes_to_name] of
    [src/storage/layer.rs], with the pieces of the standard library they use
    ([u32::from_str_radix], string slicing, [String::from_utf8_lossy]). *)

From S2P Require Import Prelude.

(** A layer name, [[u32; 5]]. *)
Record name := Name { n0 : N; n1 : N; n2 : N; n3 : N; n4 : N }.

#[export] Instance name_eq_dec : EqDecision name.
Proof. solve_decision. Defined.

#[export] Instance name_countable : Countable name.
Proof.
  refine (inj_countable' (λ n, (n0 n, n1 n, n2 n, n3 n, n4 n))
                         (λ '(a, b, c, d, e), Name a b c d e) _).
  by intros [].
Defined.

(** Every component fits its [u32]. *)
Definition u32_bound : N := 4294967296.
Definition name_wf (n : name) : Prop :=
  (n0 n < u32_bound ∧ n1 n < u32_bound ∧ n2 n < u32_bound ∧ n3 n < u32_bound ∧ n4 n < u32_bound)%N.

(** ** Printing: [format!("{:08x}", n)] *)

Definition hex_char (d : N) : Ascii.ascii :=
  Ascii.ascii_of_N (if (d <? 10)%N then 48 + d else 87 + d).

Fixpoint fmt_hex (width : nat) (n : N) : string :=
  match width with
  | O => EmptyString
  | S w => String (hex_char (N.land (N.shiftr n (4 * N.of_nat w)) 15)) (fmt_hex w n)
  end.

Definition fmt_08x (n : N) : string := fmt_hex 8 n.

Definition name_to_string (n : name) : string :=
  fmt_08x (n0 n) +:+ fmt_08x (n1 n) +:+ fmt_08x (n2 n) +:+ fmt_08x (n3 n) +:+ fmt_08x (n4 n).

(** ** Parsing *)

(** [char::to_digit] on one byte. *)
Definition to_digit (radix : N) (c : Ascii.ascii) : option N :=
  let b := Ascii.N_of_ascii c in
  let d := if (48 <=? b)%N && (b <=? 57)%N then Some (b - 48)%N
           else if (97 <=? b)%N && (b <=? 122)%N then Some (b - 87)%N
           else if (65 <=? b)%N && (b <=? 90)%N then Some (b - 55)%N
           else None in
  d ≫= λ d, if (d <? radix)%N then Some d else None.

(** The digit loop of [from_str_radix]; [bound] is one more than the largest
    value of the integer type, and reaching it is an error. *)
Fixpoint parse_digits (radix bound acc : N) (s : string) : option N :=
  match s with
  | EmptyString => Some acc
  | String c s =>
      d ← to_digit radix c;
      let acc := (acc * radix + d)%N in
      if (acc <? bound)%N then parse_digits radix bound acc s else None
  end.

(** [uN::from_str_radix]: the empty string, a lone sign and ['-'] are errors, a
    leading ['+'] is skipped. *)
Definition from_str_radix (radix bound : N) (s : string) : option N :=
  match s with
  | EmptyString => None
  | String c s' =>
      if decide (c = Ascii.ascii_of_N 43)
      then match s' with EmptyString => None | _ => parse_digits radix bound 0 s' end
      else parse_digits radix bound 0 s
  end.

(** [str::is_char_boundary]: the byte at [i] does not continue a character. *)
Definition is_char_boundary (s : string) (i : nat) : bool :=
  match String.get i s with
  | Some c => negb (N.land (Ascii.N_of_ascii c) 192 =? 128)%N
  | None => bool_decide (i = String.length s)
  end.

(** [&s[a..b]], which panics off character boundaries. *)
Definition str_slice (s : string) (a b : nat) : outcome string :=
  if bool_decide (a ≤ b) && is_char_boundary s a && is_char_boundary s b
  then Ok (String.substring a (b - a) s) else Panic.

Definition parse_word (s : string) (a b : nat) : outcome N :=
  w ← str_slice s a b;
  match from_str_radix 16 u32_bound w with Some n => Ok n | None => Err InvalidData end.

Definition string_to_name (s : string) : outcome name :=
  if decide (String.length s = 40) then
    a ← parse_word s 0 8;
    b ← parse_word s 8 16;
    c ← parse_word s 16 24;
    d ← parse_word s 24 32;
    e ← parse_word s 32 40;
    Ok (Name a b c d e)
  else Err Other.

(** [String::from_utf8_lossy]: bytes that do not form a character are replaced
    by U+FFFD, one per maximal prefix of a character. [pend] holds the bytes of
    a character begun, how many are still to come, and the range of the next. *)
Definition replacement_char : string :=
  String (Ascii.ascii_of_N 239) (String (Ascii.ascii_of_N 191) (String (Ascii.ascii_of_N 189) EmptyString)).

Record pending := Pending { pd_bytes : string; pd_more : nat; pd_lo : N; pd_hi : N }.

Definition utf8_start (c : Ascii.ascii) : option pending :=
  let b := Ascii.N_of_ascii c in
  let p := Pending (String c EmptyString) in
  if (b =? 224)%N then Some (p 2%nat 160 191)%N
  else if (b =? 237)%N then Some (p 2%nat 128 159)%N
  else if (b =? 240)%N then Some (p 3%nat 144 191)%N
  else if (b =? 244)%N then Some (p 3%nat 128 143)%N
  else if (194 <=? b)%N && (b <=? 223)%N then Some (p 1%nat 128 191)%N
  else if (225 <=? b)%N && (b <=? 239)%N then Some (p 2%nat 128 191)%N
  else if (241 <=? b)%N && (b <=? 243)%N then Some (p 3%nat 128 191)%N
  else None.

Definition is_ascii (c : Ascii.ascii) : bool := (Ascii.N_of_ascii c <? 128)%N.

Fixpoint utf8_lossy (pend : option pending) (s : string) : string :=
  match s with
  | EmptyString => match pend with Some _ => replacement_char | None => EmptyString end
  | String c s =>
      let start :=
        if is_ascii c then String c (utf8_lossy None s)
        else match utf8_start c with
             | Some p => utf8_lossy (Some p) s
             | None => replacement_char +:+ utf8_lossy None s
             end in
      match pend with
      | None => start
      | Some (Pending bs more lo hi) =>
          let b := Ascii.N_of_ascii c in
          let bs' := bs +:+ String c EmptyString in
          if (lo <=? b)%N && (b <=? hi)%N
          then match more with
               | S (S m) => utf8_lossy (Some (Pending bs' (S m) 128%N 191%N)) s
               | _ => bs' +:+ utf8_lossy None s
               end
          else replacement_char +:+ start
      end
  end.

Definition from_utf8_lossy (bytes : string) : string := utf8_lossy None bytes.

Definition bytes_to_name (bytes : string) : outcome name :=
  if decide (String.length bytes = 40) then string_to_name (from_utf8_lossy bytes)
  else Err Other.

(** ** Round trips *)

#[local] Arguments fmt_08x : simpl never.
#[local] Arguments from_str_radix : simpl never.

Fixpoint all_ascii (s : string) : Prop :=
  match s with EmptyString => True | String c s => is_ascii c = true ∧ all_ascii s end.

Lemma string_app_assoc (s1 s2 s3 : string) : (s1 +:+ s2) +:+ s3 = s1 +:+ (s2 +:+ s3).
Proof. induction s1 as [|c s1 IH]; simpl; [done|]. by rewrite IH. Qed.

Lemma string_app_empty (s : string) : s +:+ EmptyString = s.
Proof. induction s as [|c s IH]; simpl; [done|]. by rewrite IH. Qed.

Lemma string_length_app (s1 s2 : string) :
  String.length (s1 +:+ s2) = String.length s1 + String.length s2.
Proof. induction s1 as [|c s1 IH]; simpl; [done|]. by rewrite IH. Qed.

Lemma all_ascii_app s1 s2 : all_ascii (s1 +:+ s2) ↔ all_ascii s1 ∧ all_ascii s2.
Proof. induction s1; simpl; naive_solver. Qed.

Lemma get_app_r s1 s2 i : String.get (String.length s1 + i) (s1 +:+ s2) = String.get i s2.
Proof. induction s1; simpl; [by destruct s2|done]. Qed.

Lemma all_ascii_get s i c : all_ascii s → String.get i s = Some c → is_ascii c = true.
Proof.
  revert i. induction s as [|d s IH]; intros i Ha Hg; [by destruct i|]. destruct Ha as [Hd Hs].
  destruct i; simpl in Hg; [by simplify_eq|eauto].
Qed.

Lemma get_None_length s i : String.get i s = None ↔ String.length s ≤ i.
Proof.
  revert i. induction s as [|d s IH]; intros [|i]; simpl; split; try done; try lia.
  - intros H%IH. lia.
  - intros ?. apply IH. lia.
Qed.

Lemma all_ascii_boundary s i : all_ascii s → i ≤ String.length s → is_char_boundary s i = true.
Proof.
  intros Hs Hi. unfold is_char_boundary.
  destruct (String.get i s) as [c|] eqn:Hc.
  - pose proof (all_ascii_get _ _ _ Hs Hc) as Hb. unfold is_ascii in Hb.
    apply N.ltb_lt in Hb. apply negb_true_iff, N.eqb_neq. intros He.
    assert (N.testbit (N.land (Ascii.N_of_ascii c) 192) 7 = true) as Ht by by rewrite He.
    rewrite N.land_spec in Ht. apply andb_true_iff in Ht as [Ht _].
    destruct (decide (Ascii.N_of_ascii c = 0%N)) as [Hz|Hz]; [by rewrite Hz in Ht|].
    rewrite N.bits_above_log2 in Ht; [done|].
    apply N.log2_lt_pow2; [lia|]. simpl. lia.
  - apply get_None_length in Hc. apply bool_decide_eq_true. lia.
Qed.

Lemma substring_prefix s1 s2 : String.substring 0 (String.length s1) (s1 +:+ s2) = s1.
Proof. induction s1 as [|c s1 IH]; simpl; [by destruct s2|by rewrite IH]. Qed.

Lemma substring_middle s1 s2 s3 :
  String.substring (String.length s1) (String.length s2) (s1 +:+ (s2 +:+ s3)) = s2.
Proof. induction s1 as [|c s1 IH]; simpl; [apply substring_prefix|by rewrite IH]. Qed.

Lemma str_slice_middle s1 s2 s3 :
  all_ascii (s1 +:+ (s2 +:+ s3)) →
  str_slice (s1 +:+ (s2 +:+ s3)) (String.length s1) (String.length s1 + String.length s2) = Ok s2.
Proof.
  intros Ha. unfold str_slice.
  rewrite !all_ascii_boundary, bool_decide_eq_true_2 by
    (rewrite ?string_length_app; lia || done).
  simpl. f_equal. by replace (_ + _ - _) with (String.length s2) by lia; rewrite substring_middle.
Qed.

Lemma fmt_hex_length w n : String.length (fmt_hex w n) = w.
Proof. induction w; simpl; congruence. Qed.

Lemma hex_char_ok d :
  (d < 16)%N → is_ascii (hex_char d) = true ∧ to_digit 16 (hex_char d) = Some d ∧ 
  hex_char d ≠ Ascii.ascii_of_N 43.
Proof.
  intros Hd.
  assert (d ∈ N.of_nat <$> seq 0 16) as Hin.
  { apply list_elem_of_fmap. exists (N.to_nat d). rewrite N2Nat.id, elem_of_seq. lia. }
  clear Hd. revert d Hin. apply Forall_forall. repeat constructor; done.
Qed.

Lemma nibble_lt n : (N.land n 15 < 16)%N.
Proof.
  change 15%N with (N.ones 4). rewrite N.land_ones. apply N.mod_upper_bound. done.
Qed.

Lemma fmt_hex_ascii w n : all_ascii (fmt_hex w n).
Proof. induction w; simpl; [done|]. split; [apply hex_char_ok, nibble_lt|done]. Qed.

Lemma nibble_split n w :
  (n mod 16 ^ N.of_nat (S w) =
   N.land (N.shiftr n (4 * N.of_nat w)) 15 * 16 ^ N.of_nat w + n mod 16 ^ N.of_nat w)%N.
Proof.
  change 15%N with (N.ones 4). rewrite N.land_ones, N.shiftr_div_pow2.
  rewrite N.pow_mul_r. change (2 ^ 4)%N with 16%N.
  rewrite Nat2N.inj_succ, N.pow_succ_r', (N.mul_comm 16).
  rewrite N.Div0.mod_mul_r. lia.
Qed.

Lemma parse_fmt_hex bound w n acc :
  (acc * 16 ^ N.of_nat w + n mod 16 ^ N.of_nat w < bound)%N →
  parse_digits 16 bound acc (fmt_hex w n) = Some (acc * 16 ^ N.of_nat w + n mod 16 ^ N.of_nat w)%N.
Proof.
  revert acc. induction w as [|w IH]; intros acc Hb.
  - simpl. rewrite N.mod_1_r. f_equal. lia.
  - assert (N.land (N.shiftr n (4 * N.of_nat w)) 15 < 16)%N as Hd by apply nibble_lt.
    rewrite nibble_split in *. cbn [fmt_hex parse_digits].
    destruct (hex_char_ok _ Hd) as (_ & -> & _). cbn [mbind option_bind].
    set (d := N.land (N.shiftr n (4 * N.of_nat w)) 15) in *.
    rewrite Nat2N.inj_succ, N.pow_succ_r' in *.
    set (p := (16 ^ N.of_nat w)%N) in *.
    assert (0 < p)%N by (unfold p; apply N.neq_0_lt_0, N.pow_nonzero; done).
    assert ((acc * 16 + d) * p + n mod p < bound)%N by lia.
    assert (acc * 16 + d < bound)%N as Hacc.
    { eapply N.le_lt_trans; [|eassumption]. etrans; [apply (N.le_mul_r _ p)|apply N.le_add_r]. lia. }
    apply N.ltb_lt in Hacc as ->.
    rewrite IH by done. f_equal. lia.
Qed.

Lemma from_str_radix_fmt_08x n :
  (n < u32_bound)%N → from_str_radix 16 u32_bound (fmt_08x n) = Some n.
Proof.
  intros Hn. unfold from_str_radix, fmt_08x.
  assert (parse_digits 16 u32_bound 0 (fmt_hex 8 n) = Some n) as Hp.
  { rewrite parse_fmt_hex; rewrite N.mod_small; unfold u32_bound in *; simpl; try done; lia. }
  change (fmt_hex 8 n) with (String (hex_char (N.land (N.shiftr n (4 * N.of_nat 7)) 15)) (fmt_hex 7 n)) in *.
  destruct (hex_char_ok _ (nibble_lt (N.shiftr n (4 * N.of_nat 7)))) as (_ & _ & Hne).
  by rewrite decide_False.
Qed.

Lemma parse_word_middle s1 n s3 a b :
  (n < u32_bound)%N → all_ascii (s1 +:+ (fmt_08x n +:+ s3)) →
  a = String.length s1 → b = a + 8 →
  parse_word (s1 +:+ (fmt_08x n +:+ s3)) a b = Ok n.
Proof.
  intros Hn Ha -> ->. unfold parse_word.
  pose proof (str_slice_middle s1 (fmt_08x n) s3 Ha) as Hs.
  unfold fmt_08x in Hs at 2. rewrite fmt_hex_length in Hs. rewrite Hs.
  cbn [mbind outcome_bind]. by rewrite from_str_radix_fmt_08x.
Qed.

Lemma name_to_string_length n : String.length (name_to_string n) = 40.
Proof. unfold name_to_string, fmt_08x. by rewrite !string_length_app, !fmt_hex_length. Qed.

Lemma name_to_string_ascii n : all_ascii (name_to_string n).
Proof. unfold name_to_string, fmt_08x. rewrite !all_ascii_app. auto using fmt_hex_ascii. Qed.

Lemma string_to_name_to_string n : name_wf n → string_to_name (name_to_string n) = Ok n.
Proof.
  intros (H0 & H1 & H2 & H3 & H4). unfold string_to_name.
  rewrite decide_True by apply name_to_string_length.
  pose proof (name_to_string_ascii n) as Ha. destruct n as [a b c d e].
  unfold name_to_string in *. cbn [n0 n1 n2 n3 n4] in *.
  set (s := fmt_08x a +:+ _) in *.
  assert (∀ n s1 s3 i, (n < u32_bound)%N → s = s1 +:+ (fmt_08x n +:+ s3) →
            String.length s1 = i → parse_word s i (8 + i) = Ok n) as Hw.
  { intros n s1 s3 i Hn Hs <-. rewrite Nat.add_comm. rewrite Hs in *. by apply parse_word_middle. }
  assert (∀ n, String.length (fmt_08x n) = 8) as Hl by (intros; apply fmt_hex_length).
  assert (s = (fmt_08x a +:+ fmt_08x b +:+ fmt_08x c +:+ fmt_08x d) +:+ (fmt_08x e +:+ EmptyString))
    as Hlast by (unfold s; by rewrite !string_app_assoc, string_app_empty).
  rewrite (Hw a EmptyString _ 0 H0 eq_refl eq_refl : parse_word s 0 8 = _).
  rewrite (Hw b (fmt_08x a) _ 8 H1 eq_refl (Hl a) : parse_word s 8 16 = _).
  assert (parse_word s 16 24 = Ok c) as ->.
  { apply (Hw c (fmt_08x a +:+ fmt_08x b) (fmt_08x d +:+ fmt_08x e) 16 H2);
      by rewrite ?string_app_assoc, ?string_length_app, ?Hl. }
  assert (parse_word s 24 32 = Ok d) as ->.
  { apply (Hw d (fmt_08x a +:+ fmt_08x b +:+ fmt_08x c) (fmt_08x e) 24 H3);
      by rewrite ?string_app_assoc, ?string_length_app, ?Hl. }
  assert (parse_word s 32 40 = Ok e) as ->; [|done].
  apply (Hw e _ _ 32 H4 Hlast). by rewrite !string_length_app, !Hl.
Qed.

Lemma utf8_lossy_ascii s : all_ascii s → from_utf8_lossy s = s.
Proof.
  unfold from_utf8_lossy. induction s as [|c s IH]; simpl; [done|].
  intros [-> Hs]. by rewrite IH.
Qed.

Lemma bytes_to_name_to_string n : name_wf n → bytes_to_name (name_to_string n) = Ok n.
Proof.
  intros Hn. unfold bytes_to_name.
  rewrite decide_True by apply name_to_string_length.
  by rewrite utf8_lossy_ascii, string_to_name_to_string by (done || apply name_to_string_ascii).
Qed.

(** Two names with the same string are the same. *)
Lemma name_to_string_inj n m :
  name_wf n → name_wf m → name_to_string n = name_to_string m → n = m.
Proof.
  intros Hn%string_to_name_to_string Hm%string_to_name_to_string He.
  rewrite He in Hn. congruence.
Qed.

(** ** Bounds: a parsed name fits its words *)

Lemma parse_digits_bound radix bound acc s n :
  (acc < bound)%N → parse_digits radix bound acc s = Some n → (n < bound)%N.
Proof.
  revert acc. induction s as [|c s IH]; intros acc Hb; simpl; [congruence|].
  intros (d & Hd & Hp)%bind_Some. case_match eqn:Hl; [|done].
  apply N.ltb_lt in Hl. eauto.
Qed.

Lemma parse_word_bound s a b n : parse_word s a b = Ok n → (n < u32_bound)%N.
Proof.
  unfold parse_word. intros (w & _ & H)%outcome_bind_inv.
  unfold from_str_radix in H. destruct w; [done|].
  repeat case_match; simplify_eq; eapply parse_digits_bound; try eassumption; done.
Qed.

Lemma string_to_name_wf s n : string_to_name s = Ok n → name_wf n ∧ String.length s = 40.
Proof.
  unfold string_to_name. case_decide; [|done]. intros Hn.
  split_ok. injection Hn as <-.
  by repeat split; cbn [n0 n1 n2 n3 n4]; eauto using parse_word_bound.
Qed.
