(* ===== verification/Text.v ===== *)
(** What the store uses of Rust's strings and paths besides [Names]: decimal
    printing and parsing of [u64], [str::lines], [str::ends_with] and
    [Path::file_stem]. *)

From S2P Require Import Prelude Names.

Definition u64_bound : N := 18446744073709551616.

(** ** Decimal numbers: [format!("{}", n)] of a [u64] *)

Definition dec_char (d : N) : Ascii.ascii := Ascii.ascii_of_N (48 + d).

(** The digits of [n] before [acc]; a [u64] has at most 20. *)
Fixpoint fmt_dec (fuel : nat) (n : N) (acc : string) : string :=
  match fuel with
  | O => acc
  | S fuel =>
      let acc := String (dec_char (n mod 10)) acc in
      if (n / 10 =? 0)%N then acc else fmt_dec fuel (n / 10) acc
  end.

Definition fmt_u64 (n : N) : string := fmt_dec 20 n EmptyString.

(** ** Lines *)

Definition newline : Ascii.ascii := Ascii.ascii_of_N 10.
Definition carriage_return : Ascii.ascii := Ascii.ascii_of_N 13.

(** A line without the carriage return at its end. *)
Fixpoint strip_cr (s : string) : string :=
  match s with
  | EmptyString => EmptyString
  | String c EmptyString => if decide (c = carriage_return) then EmptyString else s
  | String c s => String c (strip_cr s)
  end.

(** [str::lines]; [cur] is the line read so far. *)
Fixpoint lines_from (cur s : string) : list string :=
  match s with
  | EmptyString => match cur with EmptyString => [] | _ => [cur] end
  | String c s =>
      if decide (c = newline) then strip_cr cur :: lines_from EmptyString s
      else lines_from (cur +:+ String c EmptyString) s
  end.

Definition lines (s : string) : list string := lines_from EmptyString s.

(** ** File names *)

Definition dot : Ascii.ascii := Ascii.ascii_of_N 46.

Definition ends_with (suffix s : string) : bool :=
  bool_decide (String.length suffix ≤ String.length s ∧
    String.substring (String.length s - String.length suffix) (String.length suffix) s = suffix).

(** The parts before and after the last dot. *)
Fixpoint rsplit_dot (s : string) : option (string * string) :=
  match s with
  | EmptyString => None
  | String c s =>
      match rsplit_dot s with
      | Some (before, after) => Some (String c before, after)
      | None => if decide (c = dot) then Some (EmptyString, s) else None
      end
  end.

(** [Path::file_stem] of a file name: a dot at the front does not start an
    extension. *)
Definition file_stem (s : string) : string :=
  match rsplit_dot s with
  | Some (EmptyString, _) | None => s
  | Some (before, _) => before
  end.

(** ** Decimal numbers round trip *)

Fixpoint all_chars (P : Ascii.ascii → Prop) (s : string) : Prop :=
  match s with EmptyString => True | String c s => P c ∧ all_chars P s end.

Definition is_dec (c : Ascii.ascii) : Prop := ∃ d, (d < 10)%N ∧ c = dec_char d.

Lemma all_chars_app P s1 s2 : all_chars P (s1 +:+ s2) ↔ all_chars P s1 ∧ all_chars P s2.
Proof. induction s1 as [|c s1 IH]; simpl; [tauto|]. rewrite IH. tauto. Qed.

Lemma all_chars_impl (P Q : Ascii.ascii → Prop) s : (∀ c, P c → Q c) → all_chars P s → all_chars Q s.
Proof. intros HPQ. induction s as [|c s IH]; simpl; [done|]. naive_solver. Qed.

Lemma fmt_dec_chars fuel n acc : all_chars is_dec acc → all_chars is_dec (fmt_dec fuel n acc).
Proof.
  revert n acc. induction fuel as [|fuel IH]; intros n acc Ha; [done|]. cbn [fmt_dec].
  assert (all_chars is_dec (String (dec_char (n mod 10)) acc)) as Hacc.
  { split; [|done]. eexists. split; [|done]. by apply N.mod_lt. }
  case_match; [done|]. by apply IH.
Qed.

Lemma dec_char_digit d :
  (d < 10)%N → to_digit 10 (dec_char d) = Some d ∧ dec_char d ≠ newline ∧
  dec_char d ≠ carriage_return ∧ dec_char d ≠ Ascii.ascii_of_N 43 ∧ is_ascii (dec_char d) = true.
Proof.
  intros Hd.
  assert (d ∈ N.of_nat <$> seq 0 10) as Hin.
  { apply list_elem_of_fmap. exists (N.to_nat d). rewrite N2Nat.id, elem_of_seq. lia. }
  clear Hd. revert d Hin. apply Forall_forall. repeat constructor; done.
Qed.

Lemma parse_fmt_dec bound fuel n acc a :
  (n < 10 ^ N.of_nat fuel)%N →
  ∃ k, (n < 10 ^ k)%N ∧
    ((a * 10 ^ k + n < bound)%N → parse_digits 10 bound a (fmt_dec fuel n acc) = parse_digits 10 bound (a * 10 ^ k + n) acc).
Proof.
  revert n acc. induction fuel as [|fuel IH]; intros n acc Hn.
  { simpl in Hn. exists 0%N. split; [done|]. intros _. simpl. f_equal. lia. }
  assert (n mod 10 < 10)%N as Hd by by apply N.mod_lt.
  pose proof (N.Div0.div_mod n 10) as Hdm. cbn [fmt_dec]. case_match eqn:Hz.
  - apply N.eqb_eq in Hz. exists 1%N. split; [lia|]. intros Hb. simpl.
    destruct (dec_char_digit _ Hd) as (-> & _). simpl.
    replace (a * 10 + n mod 10)%N with (a * 10 ^ 1 + n)%N by lia.
    by apply N.ltb_lt in Hb as ->.
  - apply N.eqb_neq in Hz. rewrite Nat2N.inj_succ, N.pow_succ_r' in Hn.
    destruct (IH (n / 10)%N (String (dec_char (n mod 10)) acc)) as (k & Hk & IHk).
    { apply N.Div0.div_lt_upper_bound. lia. }
    exists (N.succ k). rewrite N.pow_succ_r'. split; [lia|]. intros Hb.
    rewrite N.mul_assoc, (N.mul_comm a 10), <- N.mul_assoc in *. set (p := (a * 10 ^ k)%N) in *.
    destruct (dec_char_digit _ Hd) as (Hdig & _).
    set (q := (n / 10)%N) in *. set (r := (n mod 10)%N) in *. clearbody p q r.
    rewrite IHk by lia. cbn [parse_digits]. rewrite Hdig. cbn [mbind option_bind].
    replace ((p + q) * 10 + r)%N with (10 * p + n)%N by lia.
    by apply N.ltb_lt in Hb as ->.
Qed.

Lemma fmt_dec_nonempty fuel n acc : ∃ c s, fmt_dec (S fuel) n acc = String c s.
Proof.
  revert n acc. induction fuel as [|fuel IH]; intros n acc; cbn [fmt_dec]; [case_match; eauto|].
  case_match; [eauto|]. apply IH.
Qed.

Lemma fmt_u64_chars n : all_chars is_dec (fmt_u64 n).
Proof. by apply fmt_dec_chars. Qed.

(** Printing and parsing a [u64]. *)
Lemma from_str_radix_fmt_u64 n :
  (n < u64_bound)%N → from_str_radix 10 u64_bound (fmt_u64 n) = Some n.
Proof.
  intros Hn. destruct (parse_fmt_dec u64_bound 20 n EmptyString 0) as (k & _ & Hp).
  { eapply N.lt_trans; [done|reflexivity]. }
  specialize (Hp Hn). pose proof (fmt_u64_chars n) as Hc. unfold fmt_u64 in *.
  unfold from_str_radix. destruct (fmt_dec 20 n EmptyString) as [|c s] eqn:Hs.
  { destruct (fmt_dec_nonempty 19 n EmptyString) as (c & s & Hs'). congruence. }
  destruct Hc as [(d & Hd & ->) _]. destruct (dec_char_digit d Hd) as (_ & _ & _ & Hne & _).
  rewrite decide_False by done. by rewrite Hp.
Qed.

(** ** Lines *)

Definition line_char (c : Ascii.ascii) : Prop := c ≠ newline ∧ c ≠ carriage_return.

Lemma strip_cr_id s : all_chars line_char s → strip_cr s = s.
Proof.
  induction s as [|c s IH]; [done|]. intros [[_ Hc] Hs]. cbn [strip_cr]. destruct s; [by rewrite decide_False|].
  by rewrite IH.
Qed.

Lemma lines_from_line cur a s :
  all_chars line_char cur → all_chars line_char a →
  lines_from cur (a +:+ String newline s) = (cur +:+ a) :: lines s.
Proof.
  revert cur. induction a as [|c a IH]; intros cur Hcur Ha; cbn [String.append lines_from].
  - rewrite decide_True by done. rewrite strip_cr_id by done. by rewrite string_app_empty.
  - destruct Ha as [[Hn Hr] Ha]. rewrite decide_False by done. rewrite IH; [|by apply all_chars_app|done].
    by rewrite string_app_assoc.
Qed.

Lemma lines_line a s : all_chars line_char a → lines (a +:+ String newline s) = a :: lines s.
Proof. intros Ha. unfold lines. by rewrite lines_from_line. Qed.

(** A last line without its newline. *)
Lemma lines_from_last cur a : all_chars line_char a → cur +:+ a ≠ EmptyString → lines_from cur a = [cur +:+ a].
Proof.
  revert cur. induction a as [|c a IH]; intros cur Ha Hne.
  - rewrite string_app_empty in *. by destruct cur.
  - destruct Ha as [[Hc _] Ha]. cbn [lines_from]. rewrite decide_False by done.
    assert (cur +:+ String c a = (cur +:+ String c EmptyString) +:+ a) as He by by rewrite string_app_assoc.
    rewrite He in *. by apply IH.
Qed.

Lemma lines_last a : all_chars line_char a → a ≠ EmptyString → lines a = [a].
Proof. intros Ha Hne. by apply (lines_from_last EmptyString). Qed.

Lemma is_dec_line c : is_dec c → line_char c.
Proof. intros (d & Hd & ->). by destruct (dec_char_digit d Hd) as (_ & ? & ? & _). Qed.

Lemma fmt_u64_line n : all_chars line_char (fmt_u64 n).
Proof. eapply all_chars_impl, fmt_u64_chars. apply is_dec_line. Qed.

(** ** File names *)

Lemma substring_suffix s1 s2 : String.substring (String.length s1) (String.length s2) (s1 +:+ s2) = s2.
Proof. induction s1 as [|c s1 IH]; [|exact IH]. induction s2 as [|c s2 IH]; simpl in *; congruence. Qed.

Lemma ends_with_app s suffix : ends_with suffix (s +:+ suffix) = true.
Proof.
  unfold ends_with. apply bool_decide_eq_true. rewrite string_length_app. split; [lia|].
  replace (_ + _ - _) with (String.length s) by lia. apply substring_suffix.
Qed.

Lemma rsplit_dot_app s suffix before after :
  rsplit_dot suffix = Some (before, after) → rsplit_dot (s +:+ suffix) = Some (s +:+ before, after).
Proof. intros Hs. induction s as [|c s IH]; [done|]. simpl. by rewrite IH. Qed.

Lemma file_stem_app s suffix after :
  rsplit_dot suffix = Some (EmptyString, after) → s ≠ EmptyString → file_stem (s +:+ suffix) = s.
Proof.
  intros Hs Hne. unfold file_stem. rewrite (rsplit_dot_app _ _ _ _ Hs), string_app_empty. by destruct s.
Qed.
