(* ===== verification/Files.v ===== *)
(** A directory of the file system, as the label stores and the file backed
    layer stores use it: entries by name, files opened, read, positioned,
    truncated and written through a handle. Calls are atomic; what a concurrent
    process does between two calls is a matter of the steps that use them. *)

From S2P Require Import Prelude Names Text.

Inductive entry :=
  | FileEntry (contents : string)
  | DirEntry.

Notation directory := (gmap string entry).

(** An open file: its path and the position of the cursor. *)
Record handle := Handle { h_path : string; h_pos : nat }.

Definition str_take (n : nat) (s : string) : string := String.substring 0 n s.
Definition str_drop (n : nat) (s : string) : string := String.substring n (String.length s - n) s.

Fixpoint zero_bytes (n : nat) : string :=
  match n with O => EmptyString | S n => String Ascii.zero (zero_bytes n) end.

(** The first [n] bytes, filled up with zeroes. *)
Definition resize (n : nat) (s : string) : string := str_take n s +:+ zero_bytes (n - String.length s).

(** Bytes written at a position replace what is there and extend the file. *)
Definition overwrite (s : string) (pos : nat) (data : string) : string :=
  resize pos s +:+ data +:+ str_drop (pos + String.length data) s.

(** [OpenOptions] with [read] or [write], without [create]. *)
Definition open_file (path : string) : io directory handle :=
  λ d, match d !! path with
       | Some (FileEntry _) => (Ok (Handle path 0), d)
       | Some DirEntry => (Err Other, d)
       | None => (Err NotFound, d)
       end.

(** [OpenOptions] with [create_new(true)]. *)
Definition create_new (path : string) : io directory handle :=
  λ d, match d !! path with
       | Some _ => (Err AlreadyExists, d)
       | None => (Ok (Handle path 0), <[path := FileEntry EmptyString]> d)
       end.

Definition file_contents (h : handle) : io directory string :=
  λ d, match d !! h_path h with
       | Some (FileEntry s) => (Ok s, d)
       | _ => (Err NotFound, d)
       end.

Definition set_contents (h : handle) (s : string) : io directory unit :=
  λ d, (Ok tt, <[h_path h := FileEntry s]> d).

(** [read_to_end], from the position on. *)
Definition read_to_end (h : handle) : io directory (string * handle) :=
  s ← file_contents h;
  mret (str_drop (h_pos h) s, Handle (h_path h) (Nat.max (h_pos h) (String.length s))).

(** [seek(SeekFrom::Start(pos))] *)
Definition seek_start (h : handle) (pos : nat) : handle := Handle (h_path h) pos.

(** [set_len] at the position of the cursor. *)
Definition set_len (h : handle) (len : nat) : io directory unit :=
  s ← file_contents h;
  set_contents h (resize len s).

Definition write_all (h : handle) (data : string) : io directory handle :=
  s ← file_contents h;
  _ ← set_contents h (overwrite s (h_pos h) data);
  mret (Handle (h_path h) (h_pos h + String.length data)).

(** [fs::metadata] *)
Definition metadata (path : string) : io directory entry :=
  λ d, match d !! path with Some e => (Ok e, d) | None => (Err NotFound, d) end.

Definition remove_file (path : string) : io directory unit :=
  λ d, match d !! path with
       | Some (FileEntry _) => (Ok tt, delete path d)
       | Some DirEntry => (Err Other, d)
       | None => (Err NotFound, d)
       end.

(** ** Locked files ([src/storage/locking.rs])

    The lock is advisory and held while the value lives; a method that holds one
    is one step for every other that takes it. *)

Definition exclusive_create_and_open (path : string) : io directory handle := create_new path.
Definition exclusive_open (path : string) : io directory handle := open_file path.
Definition locked_open (path : string) : io directory handle := open_file path.

(** [ExclusiveLockedFile::truncate]: cut the file at the cursor. *)
Definition truncate (h : handle) : io directory unit := set_len h (h_pos h).

(** ** Contents *)

Lemma str_take_0 s : str_take 0 s = EmptyString.
Proof. by destruct s. Qed.

Lemma str_drop_0 s : str_drop 0 s = s.
Proof.
  unfold str_drop. rewrite Nat.sub_0_r. induction s as [|c s IH]; [done|]. simpl. by rewrite IH.
Qed.

Lemma substring_0 n s : String.substring n 0 s = EmptyString.
Proof. revert n. induction s as [|c s IH]; intros [|n]; simpl; auto. Qed.

Lemma str_take_app s1 s2 : str_take (String.length s1) (s1 +:+ s2) = s1.
Proof.
  unfold str_take. induction s1 as [|c s1 IH]; simpl; [apply substring_0|]. by rewrite IH.
Qed.

Lemma str_drop_all n s : String.length s ≤ n → str_drop n s = EmptyString.
Proof. intros Hn. unfold str_drop. replace (_ - _) with 0 by lia. apply substring_0. Qed.

Lemma resize_0 s : resize 0 s = EmptyString.
Proof. unfold resize. by rewrite str_take_0. Qed.

Lemma overwrite_0 s data : String.length s ≤ String.length data → overwrite s 0 data = data.
Proof.
  intros Hs. unfold overwrite. rewrite resize_0, str_drop_all by (simpl; lia).
  simpl. apply string_app_empty.
Qed.

Lemma overwrite_empty data : overwrite EmptyString 0 data = data.
Proof. apply overwrite_0. simpl. lia. Qed.
