(* ===== verification/Labels.v ===== *)
(** Labels: [src/storage/label.rs] and its three implementations, in memory
    ([src/storage/memory.rs]), in a directory of label files and in such a
    directory with a copy in memory ([src/storage/directory.rs]). *)

From S2P Require Import Prelude Names Text Files.

#[local] Open Scope string_scope.

Record Label := { label_name : string; label_layer : option name; label_version : N }.

#[export] Instance Label_eq_dec : EqDecision Label.
Proof. solve_decision. Defined.

(** [Label::new_empty] and [Label::new] *)
Definition new_empty (n : string) : Label :=
  {| label_name := n; label_layer := None; label_version := 0 |}.
Definition new_label (n : string) (layer : name) : Label :=
  {| label_name := n; label_layer := Some layer; label_version := 0 |}.

(** [Label::with_updated_layer]; the version overflows at [u64::MAX]. *)
Definition with_updated_layer (l : Label) (layer : option name) : outcome Label :=
  if (label_version l + 1 <? u64_bound)%N
  then Ok {| label_name := label_name l; label_layer := layer; label_version := label_version l + 1 |}
  else Panic.

(** ** The [LabelStore] trait, over the state [S] that the store keeps *)
Class LabelStore (S : Type) := {
  labels : io S (list Label);
  create_label : string → io S Label;
  get_label : string → io S (option Label);
  set_label_option : Label → option name → io S (option Label);
  delete_label : string → io S bool;
}.

Section defaults.
Context {S : Type} `{!LabelStore S}.

Definition set_label (l : Label) (layer : name) : io S (option Label) := set_label_option l (Some layer).
Definition clear_label (l : Label) : io S (option Label) := set_label_option l None.
End defaults.

(** ** [MemoryLabelStore] *)

Notation label_map := (gmap string Label).

Definition memory_labels : io label_map (list Label) := λ m, (Ok (map_to_list m).*2, m).

Definition memory_create_label (n : string) : io label_map Label :=
  m ← read_state;
  match m !! n with
  | Some _ => throw InvalidInput
  | None => _ ← write_state (<[n := new_empty n]> m); mret (new_empty n)
  end.

Definition memory_get_label (n : string) : io label_map (option Label) :=
  m ← read_state; mret (m !! n).

Definition memory_set_label_option (l : Label) (layer : option name) : io label_map (option Label) :=
  new_label ← lift (with_updated_layer l layer);
  m ← read_state;
  match m !! label_name new_label with
  | None => throw InvalidInput
  | Some old_label =>
      if decide (label_version old_label + 1 ≠ label_version new_label)%N then mret None
      else _ ← write_state (<[label_name new_label := new_label]> m); mret (Some new_label)
  end.

Definition memory_delete_label (n : string) : io label_map bool :=
  m ← read_state;
  _ ← write_state (delete n m);
  mret (bool_decide (is_Some (m !! n))).

#[export] Instance memory_label_store : LabelStore label_map := {|
  labels := memory_labels;
  create_label := memory_create_label;
  get_label := memory_get_label;
  set_label_option := memory_set_label_option;
  delete_label := memory_delete_label;
|}.

(** ** Label files *)

(** The contents of a label file. *)
Definition label_contents (version : N) (layer : option name) : string :=
  match layer with
  | None => fmt_u64 version +:+ String newline (String newline EmptyString)
  | Some layer => fmt_u64 version +:+ String newline (name_to_string layer +:+ String newline EmptyString)
  end.

Definition get_label_from_data (n data : string) : outcome Label :=
  match lines (from_utf8_lossy data) with
  | [version_str; layer_str] =>
      match from_str_radix 10 u64_bound version_str with
      | None => Err InvalidData
      | Some version =>
          if decide (layer_str = EmptyString)
          then Ok {| label_name := n; label_layer := None; label_version := version |}
          else
            layer ← string_to_name layer_str;
            Ok {| label_name := n; label_layer := Some layer; label_version := version |}
      end
  | _ => Err InvalidData
  end.

Definition get_label_from_file (path : string) : io directory Label :=
  file ← locked_open path;
  '(data, _) ← read_to_end file;
  lift (get_label_from_data (file_stem path) data).

Definition get_label_from_exclusive_locked_file (path : string) : io directory (Label * handle) :=
  file ← exclusive_open path;
  '(data, file) ← read_to_end file;
  label ← lift (get_label_from_data (file_stem path) data);
  mret (label, seek_start file 0).

Definition label_path (n : string) : string := n +:+ ".label".

(** ** [DirectoryLabelStore]

    [read_dir] gives the entries in some order; the labels of the regular files
    that end in [.label] are read one after another. *)
Fixpoint labels_of_entries (entries : list (string * entry)) : io directory (list Label) :=
  match entries with
  | [] => mret []
  | (name, FileEntry _) :: entries =>
      if ends_with ".label" name
      then label ← get_label_from_file name; result ← labels_of_entries entries; mret (label :: result)
      else labels_of_entries entries
  | (_, DirEntry) :: entries => labels_of_entries entries
  end.

Definition directory_labels : io directory (list Label) :=
  d ← read_state; labels_of_entries (map_to_list d).

Definition directory_create_label (label : string) : io directory Label :=
  λ d, match metadata (label_path label) d with
       | (Ok _, d) => (Err InvalidInput, d)
       | (Err NotFound, d) =>
           (file ← exclusive_create_and_open (label_path label);
            _ ← write_all file (label_contents 0 None);
            mret (new_empty label)) d
       | (Err e, d) => (Err e, d)
       | (Panic, d) => (Panic, d)
       | (NoFuel, d) => (NoFuel, d)
       end.

Definition directory_get_label (label : string) : io directory (option Label) :=
  λ d, match get_label_from_file (label_path label) d with
       | (Ok label, d) => (Ok (Some label), d)
       | (Err NotFound, d) => (Ok None, d)
       | (Err e, d) => (Err e, d)
       | (Panic, d) => (Panic, d)
       | (NoFuel, d) => (NoFuel, d)
       end.

Definition directory_set_label_option (label : Label) (layer : option name)
    : io directory (option Label) :=
  new_label ← lift (with_updated_layer label layer);
  '(retrieved_label, file) ← get_label_from_exclusive_locked_file (label_path (label_name label));
  if decide (retrieved_label = label)
  then
    _ ← truncate file;
    _ ← write_all file (label_contents (label_version new_label) (label_layer new_label));
    mret (Some new_label)
  else mret None.

Definition directory_delete_label (name : string) : io directory bool :=
  λ d, match remove_file (label_path name) d with
       | (Ok _, d) => (Ok true, d)
       | (Err NotFound, d) => (Ok false, d)
       | (Err e, d) => (Err e, d)
       | (Panic, d) => (Panic, d)
       | (NoFuel, d) => (NoFuel, d)
       end.

#[export] Instance directory_label_store : LabelStore directory := {|
  labels := directory_labels;
  create_label := directory_create_label;
  get_label := directory_get_label;
  set_label_option := directory_set_label_option;
  delete_label := directory_delete_label;
|}.

(** ** [CachedDirectoryLabelStore] *)

Record cached := Cached { cache_dir : directory; cache_labels : label_map }.

(** Run a call on the directory of the store. *)
Definition on_dir {A} (m : io directory A) : io cached A :=
  λ s, let '(o, d) := m (cache_dir s) in (o, Cached d (cache_labels s)).
Definition read_labels : io cached label_map := λ s, (Ok (cache_labels s), s).
Definition write_labels (m : label_map) : io cached unit := λ s, (Ok tt, Cached (cache_dir s) m).

Fixpoint all_labels_of_entries (entries : list (string * entry)) (result : label_map)
    : io directory label_map :=
  match entries with
  | [] => mret result
  | (file_name, FileEntry _) :: entries =>
      if ends_with ".label" file_name
      then
        label ← get_label_from_file file_name;
        all_labels_of_entries entries
          (<[str_take (String.length file_name - 6) file_name := label]> result)
      else all_labels_of_entries entries result
  | (_, DirEntry) :: entries => all_labels_of_entries entries result
  end.

Definition get_all_labels_from_dir : io directory label_map :=
  d ← read_state; all_labels_of_entries (map_to_list d) ∅.

(** [CachedDirectoryLabelStore::open] *)
Definition cached_open (d : directory) : outcome cached :=
  match get_all_labels_from_dir d with
  | (Ok m, d) => Ok (Cached d m)
  | (Err e, _) => Err e
  | (Panic, _) => Panic
  | (NoFuel, _) => NoFuel
  end.

Definition cached_all_labels : io cached (list Label) :=
  m ← read_labels; mret (map_to_list m).*2.

Definition cached_create_label (label : string) : io cached Label :=
  m ← read_labels;
  match m !! label with
  | Some _ => throw InvalidInput
  | None =>
      λ s, match on_dir (metadata (label_path label)) s with
           | (Ok _, s) => (Err Other, s)
           | (Err NotFound, s) =>
               (file ← on_dir (create_new (label_path label));
                _ ← on_dir (write_all file (label_contents 0 None));
                _ ← write_labels (<[label := new_empty label]> m);
                mret (new_empty label)) s
           | (Err e, s) => (Err e, s)
           | (Panic, s) => (Panic, s)
           | (NoFuel, s) => (NoFuel, s)
           end
  end.

Definition cached_get_label (label : string) : io cached (option Label) :=
  m ← read_labels; mret (m !! label).

(** The file is opened without truncating it. *)
Definition cached_set_label_option (label : Label) (layer : option name) : io cached (option Label) :=
  new_label ← lift (with_updated_layer label layer);
  m ← read_labels;
  match m !! label_name label with
  | Some retrieved_label =>
      if decide (retrieved_label = label)
      then
        file ← on_dir (open_file (label_path (label_name label)));
        _ ← on_dir (write_all file (label_contents (label_version new_label) (label_layer new_label)));
        _ ← write_labels (<[label_name label := new_label]> m);
        mret (Some new_label)
      else mret None
  | None => throw NotFound
  end.

Definition cached_delete_label (name : string) : io cached bool :=
  m ← read_labels;
  _ ← write_labels (delete name m);
  match m !! name with
  | Some _ => _ ← on_dir (remove_file (label_path name)); mret true
  | None => mret false
  end.

#[export] Instance cached_label_store : LabelStore cached := {|
  labels := cached_all_labels;
  create_label := cached_create_label;
  get_label := cached_get_label;
  set_label_option := cached_set_label_option;
  delete_label := cached_delete_label;
|}.
