(* ===== verification/LabelSpec.v ===== *)
(** What a label store promises: an interface of laws over a map from names to
    labels, with compare-and-set on the version, and the proofs that the three
    stores satisfy it. Clients (named graphs) use the laws only. *)

From S2P Require Import Prelude Names Text Files Labels.

#[local] Open Scope string_scope.

Definition label_wf (l : Label) : Prop :=
  (label_version l < u64_bound)%N ∧ ∀ n, label_layer l = Some n → name_wf n.

Definition updated (l : Label) (layer : option name) : Label :=
  {| label_name := label_name l; label_layer := layer; label_version := label_version l + 1 |}.

Definition layer_wf (layer : option name) : Prop := ∀ n, layer = Some n → name_wf n.

(** The version of a label can still be incremented. *)
Definition can_update (l : Label) : Prop := (label_version l + 1 < u64_bound)%N.

(** [ls_rep s m]: the store in the state [s] holds the labels [m]. A label is
    set only if the version of the one held is that of the label given; the
    label held is always replaced when it is the one given. *)
Class LabelStoreLaws (S : Type) `{LabelStore S} := {
  ls_rep : S → label_map → Prop;
  ls_name_ok : string → Prop;
  ls_key s m n l : ls_rep s m → m !! n = Some l → label_name l = n ∧ label_wf l;
  labels_spec s m : ls_rep s m →
    ∃ ls, labels s = (Ok ls, s) ∧ NoDup ls ∧ ∀ l, l ∈ ls ↔ m !! label_name l = Some l;
  get_label_spec s m n : ls_rep s m → get_label n s = (Ok (m !! n), s);
  create_label_fresh s m n : ls_rep s m → ls_name_ok n → m !! n = None →
    ∃ s', create_label n s = (Ok (new_empty n), s') ∧ ls_rep s' (<[n := new_empty n]> m);
  create_label_taken s m n l : ls_rep s m → m !! n = Some l → create_label n s = (Err InvalidInput, s);
  set_label_current s m l layer : ls_rep s m → m !! label_name l = Some l → can_update l → layer_wf layer →
    ∃ s', set_label_option l layer s = (Ok (Some (updated l layer)), s') ∧
      ls_rep s' (<[label_name l := updated l layer]> m);
  set_label_stale s m l l0 layer : ls_rep s m → m !! label_name l = Some l0 →
    label_version l0 ≠ label_version l → can_update l → set_label_option l layer s = (Ok None, s);
  set_label_missing s m l layer : ls_rep s m → m !! label_name l = None → can_update l →
    ∃ e, set_label_option l layer s = (Err e, s);
  set_label_cases s m l layer o s' : ls_rep s m → layer_wf layer → set_label_option l layer s = (o, s') →
    (s' = s ∧ ∀ l', o ≠ Ok (Some l')) ∨
    (o = Ok (Some (updated l layer)) ∧
     (∃ l0, m !! label_name l = Some l0 ∧ label_version l0 = label_version l) ∧
     ls_rep s' (<[label_name l := updated l layer]> m));
  delete_label_spec s m n : ls_rep s m →
    ∃ s', delete_label n s = (Ok (bool_decide (is_Some (m !! n))), s') ∧ ls_rep s' (delete n m);
}.

Lemma with_updated_layer_ok l layer : can_update l → with_updated_layer l layer = Ok (updated l layer).
Proof. unfold can_update, with_updated_layer. by intros ->%N.ltb_lt. Qed.

Lemma with_updated_layer_cases l layer :
  with_updated_layer l layer = Panic ∨ (can_update l ∧ with_updated_layer l layer = Ok (updated l layer)).
Proof.
  unfold can_update, with_updated_layer. case_match eqn:Hb; [right|by left].
  by apply N.ltb_lt in Hb.
Qed.

Lemma updated_wf l layer : can_update l → layer_wf layer → label_wf (updated l layer).
Proof. by split. Qed.

Lemma new_empty_wf n : label_wf (new_empty n).
Proof. by split. Qed.

(** Labels under their own names. *)
Definition keyed (m : label_map) : Prop := ∀ n l, m !! n = Some l → label_name l = n ∧ label_wf l.

Lemma keyed_insert m l : keyed m → label_wf l → keyed (<[label_name l := l]> m).
Proof. intros Hm Hl n l' [[<- <-]|[_ ?]]%lookup_insert_Some; auto. Qed.

Lemma keyed_delete m n : keyed m → keyed (delete n m).
Proof. intros Hm n' l [_ Hl]%lookup_delete_Some. auto. Qed.

Lemma keyed_values m : keyed m →
  NoDup (map_to_list m).*2 ∧ ∀ l, l ∈ (map_to_list m).*2 ↔ m !! label_name l = Some l.
Proof.
  intros Hm. split.
  - apply NoDup_fmap_2_strong; [|apply NoDup_map_to_list].
    intros [n1 l1] [n2 l2] H1%elem_of_map_to_list H2%elem_of_map_to_list. simpl. intros ->.
    apply Hm in H1 as [<- _], H2 as [<- _]. done.
  - intros l. rewrite list_elem_of_fmap. split.
    + intros ([n l'] & -> & Hl%elem_of_map_to_list). simpl. by destruct (Hm _ _ Hl) as [-> _].
    + intros Hl. exists (label_name l, l). split; [done|]. by apply elem_of_map_to_list.
Qed.

(** * In memory *)

#[export] Program Instance memory_label_laws : LabelStoreLaws label_map := {|
  ls_rep s m := s = m ∧ keyed m;
  ls_name_ok _ := True;
|}.
Next Obligation. intros s m n l [-> Hm]. apply Hm. Qed.
Next Obligation. intros s m [-> Hm]. eexists. split; [done|]. by apply keyed_values. Qed.
Next Obligation. by intros s m n [-> Hm]. Qed.
Next Obligation.
  intros s m n [-> Hm] _ Hn. eexists. split.
  - simpl. unfold memory_create_label. eval_io. by rewrite Hn.
  - split; [done|]. apply (keyed_insert m (new_empty n)); [done|apply new_empty_wf].
Qed.
Next Obligation.
  intros s m n l [-> Hm] Hn. simpl. unfold memory_create_label. eval_io. by rewrite Hn.
Qed.
Next Obligation.
  intros s m l layer [-> Hm] Hl Hu Hw. eexists. split.
  - simpl. unfold memory_set_label_option. eval_io. rewrite with_updated_layer_ok by done. simpl. rewrite Hl, decide_False; [done|simpl; lia].
  - split; [done|]. apply (keyed_insert m (updated l layer)); [done|by apply updated_wf].
Qed.
Next Obligation.
  intros s m l l0 layer [-> Hm] Hl Hne Hu. simpl.
  unfold memory_set_label_option. eval_io. rewrite with_updated_layer_ok by done. simpl.
  rewrite Hl, decide_True; [done|]. lia.
Qed.
Next Obligation.
  intros s m l layer [-> Hm] Hl Hu. exists InvalidInput. simpl.
  unfold memory_set_label_option. eval_io. rewrite with_updated_layer_ok by done. simpl. by rewrite Hl.
Qed.
Next Obligation.
  intros s m l layer o s' [-> Hm] Hw. simpl. unfold memory_set_label_option. eval_io.
  destruct (with_updated_layer_cases l layer) as [->|[Hu ->]]; [intros [= <- <-]; by left|]. simpl.
  destruct (m !! label_name l) as [l0|] eqn:Hl; [|intros [= <- <-]; by left].
  case_decide as Hv; [intros [= <- <-]; by left|]. intros [= <- <-]. right. split; [done|].
  split; [exists l0; split; [done|lia]|]. split; [done|].
  apply (keyed_insert m (updated l layer)); [done|by apply updated_wf].
Qed.
Next Obligation.
  intros s m n [-> Hm]. eexists. split; [done|]. split; [done|]. by apply keyed_delete.
Qed.

(** * Label files *)

Lemma ascii_line_ascii c : is_dec c → is_ascii c = true.
Proof. intros (d & Hd & ->). by destruct (dec_char_digit d Hd) as (_ & _ & _ & _ & ?). Qed.

Lemma all_chars_ascii s : all_chars (λ c, is_ascii c = true) s → all_ascii s.
Proof. induction s as [|c s IH]; simpl; [done|]. naive_solver. Qed.

Lemma name_line n : all_chars line_char (name_to_string n).
Proof.
  assert (∀ w k, all_chars line_char (fmt_hex w k)) as Hhex.
  { intros w k. induction w as [|w IH]; simpl; [done|]. split; [|done].
    pose proof (nibble_lt (N.shiftr k (4 * N.of_nat w))) as Hd. revert Hd.
    generalize (N.land (N.shiftr k (4 * N.of_nat w)) 15). clear. intros d Hd.
    assert (d ∈ N.of_nat <$> seq 0 16) as Hin.
    { apply list_elem_of_fmap. exists (N.to_nat d). rewrite N2Nat.id, elem_of_seq. lia. }
    clear Hd. revert d Hin. apply Forall_forall. repeat constructor; done. }
  unfold name_to_string, fmt_08x. rewrite !all_chars_app. auto.
Qed.

Lemma label_contents_ascii v layer : all_ascii (label_contents v layer).
Proof.
  assert (all_ascii (fmt_u64 v)) as Hv.
  { apply all_chars_ascii. eapply all_chars_impl, fmt_u64_chars. apply ascii_line_ascii. }
  unfold label_contents. destruct layer as [n|]; rewrite all_ascii_app; [|done].
  split; [done|]. split; [done|]. rewrite all_ascii_app. split; [apply name_to_string_ascii|done].
Qed.

(** A label file reads back as the label it was written for. *)
Lemma get_label_contents n v layer :
  (v < u64_bound)%N → layer_wf layer →
  get_label_from_data n (label_contents v layer) =
    Ok {| label_name := n; label_layer := layer; label_version := v |}.
Proof.
  intros Hv Hw. unfold get_label_from_data. rewrite utf8_lossy_ascii by apply label_contents_ascii.
  unfold label_contents. destruct layer as [nm|].
  - rewrite (lines_line _ _ (fmt_u64_line v)), (lines_line _ _ (name_line nm)). cbn [lines lines_from].
    rewrite from_str_radix_fmt_u64 by done.
    rewrite decide_False by (intros He; pose proof (name_to_string_length nm) as Hlen; by rewrite He in Hlen).
    by rewrite (string_to_name_to_string nm (Hw _ eq_refl)).
  - rewrite (lines_line _ _ (fmt_u64_line v)).
    change (String newline EmptyString) with (EmptyString +:+ String newline EmptyString).
    rewrite lines_line by done. cbn [lines lines_from].
    rewrite from_str_radix_fmt_u64 by done. by rewrite decide_True.
Qed.

Lemma label_path_inj n1 n2 : label_path n1 = label_path n2 → n1 = n2.
Proof.
  unfold label_path. revert n2. induction n1 as [|c n1 IH]; intros [|c2 n2]; simpl; [done| | |].
  - intros He. apply (f_equal String.length) in He. simpl in He. rewrite string_length_app in He. simpl in He. lia.
  - intros He. apply (f_equal String.length) in He. simpl in He. rewrite string_length_app in He. simpl in He. lia.
  - intros [= -> He]. f_equal. by apply IH.
Qed.

Lemma file_stem_path n : n ≠ EmptyString → file_stem (label_path n) = n.
Proof. by apply (file_stem_app n ".label" "label"). Qed.

Definition label_file (l : Label) : entry := FileEntry (label_contents (label_version l) (label_layer l)).

(** * In a directory *)

(** The directory holds a file for each label and no other label files. *)
Record dir_rep (d : directory) (m : label_map) : Prop := {
  dr_files n : d !! label_path n = label_file <$> m !! n;
  dr_only f e : d !! f = Some e → ends_with ".label" f = true → ∃ n, f = label_path n;
  dr_keyed : keyed m;
  dr_names n : is_Some (m !! n) → n ≠ EmptyString;
}.

Lemma dir_rep_insert d m l :
  dir_rep d m → label_wf l → label_name l ≠ EmptyString →
  dir_rep (<[label_path (label_name l) := label_file l]> d) (<[label_name l := l]> m).
Proof.
  intros [Hf Ho Hk Hn] Hw Hne. split.
  - intros n. destruct (decide (label_name l = n)) as [<-|Hd].
    + by rewrite !lookup_insert_eq.
    + rewrite !lookup_insert_ne; [apply Hf|done|]. by intros ?%label_path_inj.
  - intros f e [[<- <-]|[_ ?]]%lookup_insert_Some He; eauto.
  - by apply keyed_insert.
  - intros n [l' [[<- _]|[_ ?]]%lookup_insert_Some]; [done|]. apply Hn. eauto.
Qed.

Lemma dir_rep_delete d m n : dir_rep d m → dir_rep (delete (label_path n) d) (delete n m).
Proof.
  intros [Hf Ho Hk Hn]. split.
  - intros n'. destruct (decide (n = n')) as [<-|Hd].
    + by rewrite !lookup_delete_eq.
    + rewrite !lookup_delete_ne; [apply Hf|done|]. by intros ?%label_path_inj.
  - intros f e [_ ?]%lookup_delete_Some He; eauto.
  - by apply keyed_delete.
  - intros n' [l' [_ ?]%lookup_delete_Some]. apply Hn. eauto.
Qed.

Lemma get_label_from_file_eq d p c :
  d !! p = Some (FileEntry c) → get_label_from_file p d = (get_label_from_data (file_stem p) c, d).
Proof.
  intros Hp. unfold get_label_from_file, locked_open, open_file, read_to_end, file_contents. eval_io.
  rewrite Hp. simpl. rewrite Hp. simpl. by rewrite str_drop_0.
Qed.

(** The label file of a label of the directory. *)
Lemma dir_rep_read d m n l :
  dir_rep d m → m !! n = Some l → get_label_from_data (file_stem (label_path n))
    (label_contents (label_version l) (label_layer l)) = Ok l.
Proof.
  intros [Hf Ho Hk Hn] Hl. rewrite file_stem_path by (apply Hn; eauto).
  destruct (Hk _ _ Hl) as [<- [Hv Hw]]. rewrite get_label_contents by done. by destruct l.
Qed.

Lemma dir_rep_get d m n l :
  dir_rep d m → m !! n = Some l → get_label_from_file (label_path n) d = (Ok l, d).
Proof.
  intros Hr Hl. erewrite get_label_from_file_eq; [|by rewrite (dr_files _ _ Hr), Hl].
  by rewrite (dir_rep_read _ _ _ _ Hr Hl).
Qed.

Lemma exclusive_get d m n l :
  dir_rep d m → m !! n = Some l →
  get_label_from_exclusive_locked_file (label_path n) d = (Ok (l, Handle (label_path n) 0), d).
Proof.
  intros Hr Hl. pose proof (dr_files _ _ Hr n) as Hp. rewrite Hl in Hp. simpl in Hp.
  unfold get_label_from_exclusive_locked_file, exclusive_open, open_file, read_to_end, file_contents. eval_io.
  rewrite Hp. simpl. rewrite Hp. simpl. by rewrite str_drop_0, (dir_rep_read _ _ _ _ Hr Hl).
Qed.

Lemma exclusive_get_missing d p :
  d !! p = None → get_label_from_exclusive_locked_file p d = (Err NotFound, d).
Proof.
  intros Hp. unfold get_label_from_exclusive_locked_file, exclusive_open, open_file. eval_io. by rewrite Hp.
Qed.

(** Cutting a file at its start and writing to it replaces its contents. *)
Lemma truncate_write d p c data {A} (k : io directory A) :
  d !! p = Some (FileEntry c) →
  (_ ← truncate (Handle p 0); _ ← write_all (Handle p 0) data; k) d = k (<[p := FileEntry data]> d).
Proof.
  intros Hp. unfold truncate, set_len, write_all, file_contents, set_contents. eval_io. simpl.
  rewrite Hp. simpl. rewrite lookup_insert_eq. simpl. rewrite resize_0, overwrite_empty.
  by rewrite insert_insert_eq.
Qed.

Lemma directory_set_eq d m l layer :
  dir_rep d m → directory_set_label_option l layer d =
    match with_updated_layer l layer with
    | Ok l' =>
        match m !! label_name l with
        | None => (Err NotFound, d)
        | Some l0 => if decide (l0 = l) then (Ok (Some l'), <[label_path (label_name l) := label_file l']> d)
                     else (Ok None, d)
        end
    | Err e => (Err e, d)
    | Panic => (Panic, d)
    | NoFuel => (NoFuel, d)
    end.
Proof.
  intros Hr. unfold directory_set_label_option, mbind at 1, io_bind at 1, lift.
  destruct (with_updated_layer l layer) as [l'| | |]; try done.
  pose proof (dr_files _ _ Hr (label_name l)) as Hp.
  destruct (m !! label_name l) as [l0|] eqn:Hl; simpl in Hp.
  - unfold mbind at 1, io_bind at 1. rewrite (exclusive_get _ _ _ _ Hr Hl).
    case_decide; [|done]. by rewrite (truncate_write _ _ _ _ _ Hp).
  - unfold mbind at 1, io_bind at 1. by rewrite exclusive_get_missing.
Qed.

Definition entries_of (d : directory) (es : list (string * entry)) : Prop :=
  NoDup es.*1 ∧ ∀ f e, (f, e) ∈ es → d !! f = Some e.

Lemma entries_of_all d : entries_of d (map_to_list d).
Proof. split; [apply NoDup_fst_map_to_list|]. by intros f e ?%elem_of_map_to_list. Qed.

Lemma entries_of_cons d f e es : entries_of d ((f, e) :: es) → d !! f = Some e ∧ (f ∉ es.*1) ∧ entries_of d es.
Proof.
  intros [[Hf Hnd]%NoDup_cons Hd]. split; [apply Hd; by left|]. do 2 (split; [done|]).
  intros f' e' ?. apply Hd. by right.
Qed.

(** A label file of the directory, by its entry. *)
Lemma dir_rep_entry d m f e :
  dir_rep d m → d !! f = Some e →
  match e with
  | FileEntry _ =>
      if ends_with ".label" f then ∃ l, f = label_path (label_name l) ∧ m !! label_name l = Some l else True
  | DirEntry => ends_with ".label" f = false
  end ∧ ∀ l, m !! label_name l = Some l → f = label_path (label_name l) → ends_with ".label" f = true ∧ e = label_file l.
Proof.
  intros Hr Hd. split.
  - destruct (ends_with ".label" f) eqn:He; [|by destruct e].
    destruct (dr_only _ _ Hr f e Hd He) as (n & ->). pose proof (dr_files _ _ Hr n) as Hn. rewrite Hd in Hn.
    destruct (m !! n) as [l|] eqn:Hl; [|done]. injection Hn as ->. simpl.
    destruct (dr_keyed _ _ Hr _ _ Hl) as [<- _]. by exists l.
  - intros l Hl ->. split; [apply ends_with_app|]. rewrite (dr_files _ _ Hr), Hl in Hd. by injection Hd.
Qed.

Lemma labels_of_entries_spec d m es :
  dir_rep d m → entries_of d es →
  ∃ ls, labels_of_entries es d = (Ok ls, d) ∧ NoDup ls ∧
    ∀ l, l ∈ ls ↔ m !! label_name l = Some l ∧ label_path (label_name l) ∈ es.*1.
Proof.
  intros Hr. induction es as [|[f e] es IH]; intros He.
  { exists []. split_and!; [done|constructor|]. set_solver. }
  apply entries_of_cons in He as (Hd & Hf & He). destruct (IH He) as (ls & Hls & Hnd & Hel).
  destruct (dir_rep_entry _ _ _ _ Hr Hd) as [Hent Hlab]. cbn [labels_of_entries fmap list_fmap fst].
  assert (ends_with ".label" f = false → ∀ l, m !! label_name l = Some l → f ≠ label_path (label_name l)) as Hno.
  { intros Hf' l Hl ->. destruct (Hlab l Hl eq_refl). congruence. }
  destruct e as [c|]; [destruct (ends_with ".label" f)|].
  - destruct Hent as (l & -> & Hl). eval_io. rewrite (dir_rep_get _ _ _ _ Hr Hl), Hls.
    exists (l :: ls). split_and!; [done|constructor; [|done]|].
    + rewrite Hel. by intros [_ ?].
    + intros l'. rewrite !elem_of_cons, Hel. split.
      * intros [->|[? ?]]; auto.
      * intros [Hl' [Hp%label_path_inj|]]; [|auto]. rewrite <- Hp in Hl. left. congruence.
  - exists ls. split_and!; [done|done|]. intros l. rewrite Hel, elem_of_cons. naive_solver.
  - exists ls. split_and!; [done|done|]. intros l. rewrite Hel, elem_of_cons. naive_solver.
Qed.

Lemma label_path_entry d m l :
  dir_rep d m → m !! label_name l = Some l → label_path (label_name l) ∈ (map_to_list d).*1.
Proof.
  intros Hr Hl. apply list_elem_of_fmap. exists (label_path (label_name l), label_file l). split; [done|].
  apply elem_of_map_to_list. by rewrite (dr_files _ _ Hr), Hl.
Qed.

#[export] Program Instance directory_label_laws : LabelStoreLaws directory := {|
  ls_rep := dir_rep;
  ls_name_ok n := n ≠ EmptyString;
|}.
Next Obligation. intros d m n l Hr. apply (dr_keyed _ _ Hr). Qed.
Next Obligation.
  intros d m Hr. destruct (labels_of_entries_spec d m _ Hr (entries_of_all d)) as (ls & Hls & Hnd & Hel).
  exists ls. split_and!; [exact Hls|done|]. intros l. rewrite Hel. split; [by intros [? _]|].
  intros Hl. split; [done|]. by eapply label_path_entry.
Qed.
Next Obligation.
  intros d m n Hr. simpl. unfold directory_get_label. destruct (m !! n) as [l|] eqn:Hl.
  - by rewrite (dir_rep_get _ _ _ _ Hr Hl).
  - unfold get_label_from_file, locked_open, open_file. eval_io. by rewrite (dr_files _ _ Hr), Hl.
Qed.
Next Obligation.
  intros d m n Hr Hne Hn. exists (<[label_path n := label_file (new_empty n)]> d). split.
  - simpl. unfold directory_create_label, metadata. rewrite (dr_files _ _ Hr), Hn. simpl.
    unfold exclusive_create_and_open, create_new, write_all, file_contents, set_contents. eval_io.
    rewrite (dr_files _ _ Hr), Hn. simpl. rewrite lookup_insert_eq. simpl.
    by rewrite overwrite_empty, insert_insert_eq.
  - apply (dir_rep_insert d m (new_empty n)); [done|apply new_empty_wf|done].
Qed.
Next Obligation.
  intros d m n l Hr Hn. simpl. unfold directory_create_label, metadata. by rewrite (dr_files _ _ Hr), Hn.
Qed.
Next Obligation.
  intros d m l layer Hr Hl Hu Hw. eexists. split.
  - simpl. rewrite (directory_set_eq _ _ _ _ Hr), with_updated_layer_ok, Hl by done. by rewrite decide_True.
  - apply (dir_rep_insert d m (updated l layer)); [done|by apply updated_wf|].
    apply (dr_names _ _ Hr). eauto.
Qed.
Next Obligation.
  intros d m l l0 layer Hr Hl Hne Hu. simpl.
  rewrite (directory_set_eq _ _ _ _ Hr), with_updated_layer_ok, Hl by done.
  rewrite decide_False; [done|congruence].
Qed.
Next Obligation.
  intros d m l layer Hr Hl Hu. exists NotFound. simpl.
  by rewrite (directory_set_eq _ _ _ _ Hr), with_updated_layer_ok, Hl.
Qed.
Next Obligation.
  intros d m l layer o d' Hr Hw. simpl. rewrite (directory_set_eq _ _ _ _ Hr).
  destruct (with_updated_layer_cases l layer) as [->|[Hu ->]]; [intros [= <- <-]; by left|].
  destruct (m !! label_name l) as [l0|] eqn:Hl; [|intros [= <- <-]; by left].
  case_decide as Hv; [|intros [= <- <-]; by left]. subst l0. intros [= <- <-]. right. split_and!; [done|by exists l|].
  apply (dir_rep_insert d m (updated l layer)); [done|by apply updated_wf|]. apply (dr_names _ _ Hr). eauto.
Qed.
Next Obligation.
  intros d m n Hr. exists (delete (label_path n) d). split; [|by apply dir_rep_delete]. simpl.
  unfold directory_delete_label, remove_file. rewrite (dr_files _ _ Hr).
  destruct (m !! n) eqn:Hn; [done|]. simpl. by rewrite delete_id by (rewrite (dr_files _ _ Hr), Hn; done).
Qed.

(** * In a directory with a copy in memory *)

(** Every label held has its file, no other has. *)
Record cached_rep (s : cached) (m : label_map) : Prop := {
  cr_labels : cache_labels s = m;
  cr_keyed : keyed m;
  cr_some n : is_Some (m !! n) → ∃ c, cache_dir s !! label_path n = Some (FileEntry c);
  cr_none n : m !! n = None → cache_dir s !! label_path n = None;
}.

Lemma cached_rep_insert s m l c :
  cached_rep s m → label_wf l →
  cached_rep (Cached (<[label_path (label_name l) := FileEntry c]> (cache_dir s)) (<[label_name l := l]> m))
    (<[label_name l := l]> m).
Proof.
  intros [Hl Hk Hs Hn] Hw. split; [done|by apply keyed_insert| |]; simpl; intros n.
  - destruct (decide (label_name l = n)) as [<-|Hd]; [intros _; exists c; by rewrite lookup_insert_eq|].
    rewrite !lookup_insert_ne; [apply Hs|by intros ?%label_path_inj|done].
  - intros [Hno Hd]%lookup_insert_None. rewrite lookup_insert_ne; [by apply Hn|by intros ?%label_path_inj].
Qed.

Lemma cached_set_eq s m l layer :
  cached_rep s m → cached_set_label_option l layer s =
    match with_updated_layer l layer with
    | Ok l' =>
        match m !! label_name l with
        | None => (Err NotFound, s)
        | Some l0 =>
            if decide (l0 = l) then
              (Ok (Some l'),
               Cached (<[label_path (label_name l) :=
                         FileEntry (overwrite (match cache_dir s !! label_path (label_name l) with
                                               | Some (FileEntry c) => c | _ => EmptyString end) 0
                                     (label_contents (label_version l') (label_layer l')))]> (cache_dir s))
                 (<[label_name l := l']> m))
            else (Ok None, s)
        end
    | Err e => (Err e, s)
    | Panic => (Panic, s)
    | NoFuel => (NoFuel, s)
    end.
Proof.
  intros [Hl Hk Hs Hn]. unfold cached_set_label_option, mbind at 1, io_bind at 1, lift.
  destruct (with_updated_layer l layer) as [l'| | |]; try done.
  unfold read_labels, mbind at 1, io_bind at 1. rewrite Hl.
  destruct (m !! label_name l) as [l0|] eqn:Hl0; [|done]. case_decide; [|done].
  destruct (Hs (label_name l)) as [c Hc]; [eauto|].
  unfold on_dir, open_file, write_all, file_contents, set_contents, write_labels. eval_io.
  rewrite Hc. simpl. rewrite Hc. simpl. done.
Qed.

#[export] Program Instance cached_label_laws : LabelStoreLaws cached := {|
  ls_rep := cached_rep;
  ls_name_ok n := n ≠ EmptyString;
|}.
Next Obligation. intros s m n l Hr. apply (cr_keyed _ _ Hr). Qed.
Next Obligation.
  intros s m Hr. exists (map_to_list m).*2. split; [|by apply keyed_values, (cr_keyed _ _ Hr)].
  simpl. unfold cached_all_labels, read_labels. eval_io. by rewrite (cr_labels _ _ Hr).
Qed.
Next Obligation.
  intros s m n Hr. simpl. unfold cached_get_label, read_labels. eval_io. by rewrite (cr_labels _ _ Hr).
Qed.
Next Obligation.
  intros s m n Hr _ Hn. eexists. split.
  - simpl. unfold cached_create_label, read_labels, mbind at 1, io_bind at 1.
    rewrite (cr_labels _ _ Hr), Hn. unfold on_dir at 1, metadata. rewrite (cr_none _ _ Hr _ Hn).
    unfold on_dir, create_new, write_all, file_contents, set_contents, write_labels. eval_io. simpl.
    rewrite (cr_none _ _ Hr _ Hn). simpl. rewrite lookup_insert_eq. simpl. rewrite insert_insert_eq. done.
  - apply (cached_rep_insert s m (new_empty n)); [done|apply new_empty_wf].
Qed.
Next Obligation.
  intros s m n l Hr Hn. simpl. unfold cached_create_label, read_labels. eval_io. by rewrite (cr_labels _ _ Hr), Hn.
Qed.
Next Obligation.
  intros s m l layer Hr Hl Hu Hw. eexists. split.
  - simpl. rewrite (cached_set_eq _ _ _ _ Hr), with_updated_layer_ok, Hl by done. by rewrite decide_True.
  - apply (cached_rep_insert s m (updated l layer)); [done|by apply updated_wf].
Qed.
Next Obligation.
  intros s m l l0 layer Hr Hl Hne Hu. simpl.
  rewrite (cached_set_eq _ _ _ _ Hr), with_updated_layer_ok, Hl by done.
  rewrite decide_False; [done|congruence].
Qed.
Next Obligation.
  intros s m l layer Hr Hl Hu. exists NotFound. simpl.
  by rewrite (cached_set_eq _ _ _ _ Hr), with_updated_layer_ok, Hl.
Qed.
Next Obligation.
  intros s m l layer o s' Hr Hw. simpl. rewrite (cached_set_eq _ _ _ _ Hr).
  destruct (with_updated_layer_cases l layer) as [->|[Hu ->]]; [intros [= <- <-]; by left|].
  destruct (m !! label_name l) as [l0|] eqn:Hl; [|intros [= <- <-]; by left].
  case_decide as Hv; [|intros [= <- <-]; by left]. subst l0. intros [= <- <-]. right. split_and!; [done|by exists l|].
  apply (cached_rep_insert s m (updated l layer)); [done|by apply updated_wf].
Qed.
Next Obligation.
  intros s m n Hr. pose proof Hr as [Hl Hk Hs Hn]. simpl.
  unfold cached_delete_label, read_labels, write_labels, on_dir, remove_file. eval_io. rewrite Hl.
  destruct (m !! n) as [l|] eqn:Hln.
  - destruct (Hs n) as [c Hc]; [eauto|]. simpl. rewrite Hc. eexists. split; [done|].
    split; [done|by apply keyed_delete| |]; simpl; intros n'.
    + intros [l' [Hne Hl']%lookup_delete_Some]. rewrite lookup_delete_ne; [eauto|by intros ?%label_path_inj].
    + intros [Heq|Hnone]%lookup_delete_None; [subst; apply lookup_delete_eq|].
      destruct (decide (n = n')) as [<-|Hne]; [apply lookup_delete_eq|].
      rewrite lookup_delete_ne; [auto|by intros ?%label_path_inj].
  - eexists. split; [done|]. rewrite delete_id by done. by split.
Qed.
