(* ===== verification/LabelCache.v ===== *)
(** What the label files of a [CachedDirectoryLabelStore] hold after its calls:
    opening the directory again gives the labels held in memory, as long as no
    label is cleared. *)

From S2P Require Import Prelude Names Text Files Labels LabelSpec.

#[local] Open Scope string_scope.
#[local] Open Scope nat_scope.

(** The files of the store are those of its labels. *)
Definition durable (s : cached) : Prop := dir_rep (cache_dir s) (cache_labels s).

Lemma label_path_name n : str_take (String.length (label_path n) - 6) (label_path n) = n.
Proof.
  unfold label_path. rewrite string_length_app. replace (_ + _ - 6) with (String.length n) by (simpl; lia).
  apply str_take_app.
Qed.

(** ** Opening *)

Lemma all_labels_of_entries_spec d m es acc :
  dir_rep d m → entries_of d es →
  ∃ r, all_labels_of_entries es acc d = (Ok r, d) ∧
    ∀ n, r !! n = if decide (label_path n ∈ es.*1) then m !! n else acc !! n.
Proof.
  intros Hr. revert acc. induction es as [|[f e] es IH]; intros acc He.
  { exists acc. split; [done|]. intros n. rewrite decide_False; [done|]. by apply not_elem_of_nil. }
  apply entries_of_cons in He as (Hd & Hf & He).
  destruct (dir_rep_entry _ _ _ _ Hr Hd) as [Hent _]. cbn [all_labels_of_entries fmap list_fmap fst].
  assert (∀ n, ends_with ".label" f = false → f ≠ label_path n) as Hne.
  { intros n Hf' ->. unfold label_path in Hf'. by rewrite ends_with_app in Hf'. }
  assert (∀ n, f ≠ label_path n → label_path n ∈ f :: es.*1 ↔ label_path n ∈ es.*1) as Hcons.
  { intros n Hn. rewrite elem_of_cons. naive_solver. }
  destruct e as [c|]; [destruct (ends_with ".label" f)|].
  - destruct Hent as (l & -> & Hl). eval_io. rewrite (dir_rep_get _ _ _ _ Hr Hl).
    rewrite label_path_name. destruct (IH (<[label_name l := l]> acc) He) as (r & Hr' & Hn). exists r.
    split; [exact Hr'|]. intros n. rewrite Hn. destruct (decide (n = label_name l)) as [->|Hd'].
    + rewrite decide_False, decide_True by (done || by left). by rewrite lookup_insert_eq.
    + rewrite lookup_insert_ne by done.
      apply decide_ext. rewrite Hcons; [done|]. by intros ?%label_path_inj.
  - destruct (IH acc He) as (r & Hr' & Hn). exists r. split; [exact Hr'|]. intros n. rewrite Hn.
    apply decide_ext. rewrite Hcons; [done|]. by apply Hne.
  - destruct (IH acc He) as (r & Hr' & Hn). exists r. split; [exact Hr'|]. intros n. rewrite Hn.
    apply decide_ext. rewrite Hcons; [done|]. by apply Hne.
Qed.

Lemma cached_open_spec d m : dir_rep d m → cached_open d = Ok (Cached d m).
Proof.
  intros Hr. unfold cached_open, get_all_labels_from_dir. eval_io.
  destruct (all_labels_of_entries_spec d m _ ∅ Hr (entries_of_all d)) as (r & -> & Hn).
  do 2 f_equal. apply map_eq. intros n. rewrite Hn. case_decide as Hin; [done|]. rewrite lookup_empty.
  destruct (m !! n) as [l|] eqn:Hl; [|done]. destruct Hin.
  destruct (dr_keyed _ _ Hr _ _ Hl) as [<- _]. by eapply label_path_entry.
Qed.

Lemma durable_rep s : durable s → cached_rep s (cache_labels s).
Proof.
  intros [Hf Ho Hk Hn]. split; [done|done| |]; intros n.
  - intros [l Hl]. rewrite Hf, Hl. by eexists.
  - intros Hl. by rewrite Hf, Hl.
Qed.

(** ** Writing over a label file *)

Lemma fmt_dec_length_mono fuel n1 n2 acc1 acc2 :
  (n1 ≤ n2)%N → String.length acc1 ≤ String.length acc2 →
  String.length (fmt_dec fuel n1 acc1) ≤ String.length (fmt_dec fuel n2 acc2).
Proof.
  revert n1 n2 acc1 acc2. induction fuel as [|fuel IH]; intros n1 n2 acc1 acc2 Hn Ha; [done|].
  assert (∀ k n acc, String.length acc ≤ String.length (fmt_dec k n acc)) as Hgrow.
  { clear. intros k. induction k as [|k IH]; intros n acc; [done|]. cbn [fmt_dec]. case_match; [simpl; lia|].
    etrans; [|apply IH]. simpl. lia. }
  pose proof (N.Div0.div_le_mono _ _ 10 Hn) as Hd. cbn [fmt_dec].
  destruct (N.eqb_spec (n1 / 10) 0) as [H1|H1], (N.eqb_spec (n2 / 10) 0) as [H2|H2].
  - simpl. lia.
  - etrans; [|apply Hgrow]. simpl. lia.
  - rewrite H2 in Hd. apply N.le_0_r in Hd. done.
  - apply IH; [done|]. simpl. lia.
Qed.

Lemma label_contents_length_mono v1 v2 layer n :
  (v1 ≤ v2)%N → String.length (label_contents v1 layer) ≤ String.length (label_contents v2 (Some n)).
Proof.
  intros Hv. assert (String.length (fmt_u64 v1) ≤ String.length (fmt_u64 v2)) as Hl.
  { by apply fmt_dec_length_mono. }
  unfold label_contents. destruct layer; rewrite !string_length_app; cbn [String.length];
    rewrite ?string_length_app, ?name_to_string_length; cbn [String.length]; lia.
Qed.

Lemma durable_set_label s l n o s' :
  durable s → name_wf n → set_label l n s = (o, s') → durable s'.
Proof.
  intros Hd Hn. unfold set_label. simpl. rewrite (cached_set_eq _ _ _ _ (durable_rep _ Hd)).
  destruct (with_updated_layer_cases l (Some n)) as [->|[Hu ->]]; [by intros [= <- <-]|].
  destruct (cache_labels s !! label_name l) as [l0|] eqn:Hl; [|by intros [= <- <-]].
  case_decide; [|by intros [= <- <-]]. subst l0. intros [= <- <-]. unfold durable. simpl.
  rewrite (dr_files _ _ Hd), Hl. simpl. rewrite overwrite_0 by (apply label_contents_length_mono; lia).
  apply (dir_rep_insert _ _ (updated l (Some n))); [done| |].
  - apply updated_wf; [done|]. by intros ? [= <-].
  - apply (dr_names _ _ Hd). eauto.
Qed.

Lemma durable_create_label s n o s' :
  durable s → n ≠ EmptyString → create_label n s = (o, s') → durable s'.
Proof.
  intros Hd Hn. simpl. unfold cached_create_label, read_labels, mbind at 1, io_bind at 1.
  destruct (cache_labels s !! n) as [l|] eqn:Hl; [by intros [= <- <-]|].
  unfold on_dir at 1, metadata. rewrite (dr_files _ _ Hd), Hl. simpl.
  unfold on_dir, create_new, write_all, file_contents, set_contents, write_labels. eval_io. simpl.
  rewrite (dr_files _ _ Hd), Hl. simpl. rewrite lookup_insert_eq. simpl. rewrite insert_insert_eq.
  intros [= <- <-]. apply (dir_rep_insert _ _ (new_empty n)); [done|apply new_empty_wf|done].
Qed.

Lemma durable_delete_label s n o s' : durable s → delete_label n s = (o, s') → durable s'.
Proof.
  intros Hd. simpl. unfold cached_delete_label, read_labels, write_labels, on_dir, remove_file. eval_io.
  pose proof (dir_rep_delete _ _ n Hd) as Hd'. simpl. destruct (cache_labels s !! n) as [l|] eqn:Hl.
  - rewrite (dr_files _ _ Hd), Hl. simpl. by intros [= <- <-].
  - intros [= <- <-]. unfold durable in *. simpl. by rewrite (delete_id (cache_labels s)).
Qed.

(** ** Sequences of calls *)

Inductive label_call :=
  | CallCreate (n : string)
  | CallSet (l : Label) (layer : name)
  | CallGet (n : string)
  | CallDelete (n : string).

Definition call_ok (c : label_call) : Prop :=
  match c with CallCreate n => n ≠ EmptyString | CallSet _ layer => name_wf layer | _ => True end.

(** The state after the call, whatever its result. *)
Definition after_call {S} `{LabelStore S} (c : label_call) (s : S) : S :=
  match c with
  | CallCreate n => (create_label n s).2
  | CallSet l layer => (set_label l layer s).2
  | CallGet n => (get_label n s).2
  | CallDelete n => (delete_label n s).2
  end.
Definition after_calls {S} `{LabelStore S} (cs : list label_call) (s : S) : S :=
  foldl (λ s c, after_call c s) s cs.

Lemma durable_call s c : durable s → call_ok c → durable (after_call c s).
Proof.
  intros Hd Hc. destruct c as [n|l layer|n|n]; cbn [after_call call_ok] in *; [| |done|].
  - destruct (create_label n s) as [o s'] eqn:Hr. by eapply durable_create_label.
  - destruct (set_label l layer s) as [o s'] eqn:Hr. by eapply durable_set_label.
  - destruct (delete_label n s) as [o s'] eqn:Hr. by eapply durable_delete_label.
Qed.

Lemma durable_calls cs s : durable s → Forall call_ok cs → durable (after_calls cs s).
Proof.
  intros Hd Hcs. revert s Hd. induction Hcs as [|c cs Hc Hcs IH]; intros s Hd; [done|].
  apply IH. by apply durable_call.
Qed.

Lemma durable_empty : durable (Cached ∅ ∅).
Proof. unfold durable. split; [done|by intros f e Hf|by intros n l Hn|by intros n [? Hn]]. Qed.
