(* ===== verification/NamedGraph.v ===== *)
(** Named graphs and the store they belong to ([src/store/mod.rs]), over the
    promises of a label store ([LabelSpec]) and of a layer store ([LayerStore],
    below): reading and moving the head of a graph, one call at a time. *)

From S2P Require Import Prelude Names Text Labels LabelSpec.
From stdpp Require Import relations.

(** ** What a named graph asks of a layer store *)
Class LayerStore (Y : Type) := {
  layer_handle : Type;
  handle_name : layer_handle → name;
  get_layer : name → io Y (option layer_handle);
  is_ancestor_of : name → name → io Y bool;
}.

(** The layers of a store, each with its parent. *)
Notation layer_graph := (gmap name (option name)).

Definition graph_parent (g : layer_graph) (d p : name) : Prop := g !! d = Some (Some p).
(** [a] is [d] or one of its ancestors. *)
Definition graph_ancestor (g : layer_graph) (d a : name) : Prop := rtc (graph_parent g) d a.

#[export] Instance graph_ancestor_preorder g : PreOrder (graph_ancestor g).
Proof. split; unfold graph_ancestor; [intros d; apply rtc_refl|]. intros a b c Hab Hbc. by transitivity b. Qed.

Class LayerStoreLaws (Y : Type) `{LayerStore Y} := {
  ly_rep : Y → layer_graph → Prop;
  ly_name_wf y g n : ly_rep y g → is_Some (g !! n) → name_wf n;
  get_layer_present y g n : ly_rep y g → is_Some (g !! n) →
    ∃ h y', get_layer n y = (Ok (Some h), y') ∧ handle_name h = n ∧ ly_rep y' g;
  get_layer_absent y g n : ly_rep y g → name_wf n → g !! n = None →
    ∃ y', get_layer n y = (Ok None, y') ∧ ly_rep y' g;
  is_ancestor_of_spec y g d a : ly_rep y g → is_Some (g !! d) →
    ∃ b y', is_ancestor_of d a y = (Ok b, y') ∧ ly_rep y' g ∧ (b = true ↔ graph_ancestor g d a);
}.

(** Layers are only ever added. *)
Lemma graph_ancestor_mono g1 g2 d a : g1 ⊆ g2 → graph_ancestor g1 d a → graph_ancestor g2 d a.
Proof.
  intros Hg. apply rtc_subrel. intros x y Hxy. unfold graph_parent in *. by eapply lookup_weaken.
Qed.

Section named_graph.
Context {S Y : Type} `{LabelStore S, LayerStore Y}.

(** [Store], with the states of its two stores. *)
Record Store := new_store { label_store : S; layer_store : Y }.

Definition on_labels {A} (p : io S A) : io Store A := λ st,
  let '(o, s') := p (label_store st) in (o, new_store s' (layer_store st)).
Definition on_layers {A} (p : io Y A) : io Store A := λ st,
  let '(o, y') := p (layer_store st) in (o, new_store (label_store st) y').

Record NamedGraph := new_graph { graph_label : string }.

(** ** [Store] *)

Definition store_create (label : string) : io Store NamedGraph :=
  label ← on_labels (create_label label); mret (new_graph (label_name label)).

Definition store_open (label : string) : io Store (option NamedGraph) :=
  label ← on_labels (get_label label); mret ((λ l, new_graph (label_name l)) <$> label).

Definition store_delete (label : string) : io Store bool := on_labels (delete_label label).

Definition store_labels : io Store (list string) :=
  labels ← on_labels labels; mret (label_name <$> labels).

Definition get_layer_from_id (layer : name) : io Store (option layer_handle) :=
  on_layers (get_layer layer).

(** ** [NamedGraph] *)

Definition graph_name (g : NamedGraph) : string := graph_label g.

Definition head_version (g : NamedGraph) : io Store (option layer_handle * N) :=
  new_label ← on_labels (get_label (graph_label g));
  match new_label with
  | None => throw NotFound
  | Some new_label =>
      layer ← match label_layer new_label with
              | None => mret None
              | Some layer =>
                  layer ← on_layers (get_layer layer);
                  match layer with None => throw NotFound | Some layer => mret (Some layer) end
              end;
      mret (layer, label_version new_label)
  end.

Definition head (g : NamedGraph) : io Store (option layer_handle) :=
  hv ← head_version g; mret hv.1.

(** [set_head] in its three calls: read the label, check that its layer is an
    ancestor, set the label that was read. *)
Definition set_head_read (g : NamedGraph) : io Store Label :=
  label ← on_labels (get_label (graph_label g));
  match label with None => throw NotFound | Some label => mret label end.

Definition set_head_check (label : Label) (layer : layer_handle) : io Store bool :=
  match label_layer label with
  | None => mret true
  | Some retrieved_layer_name => on_layers (is_ancestor_of (handle_name layer) retrieved_layer_name)
  end.

Definition set_head_write (label : Label) (layer : layer_handle) : io Store bool :=
  label ← on_labels (set_label label (handle_name layer)); mret (bool_decide (is_Some label)).

Definition set_head (g : NamedGraph) (layer : layer_handle) : io Store bool :=
  label ← set_head_read g;
  set_is_ok ← set_head_check label layer;
  if set_is_ok : bool then set_head_write label layer else mret false.

Fixpoint force_set_head (fuel : nat) (g : NamedGraph) (layer : layer_handle) : io Store unit :=
  match fuel with
  | O => lift NoFuel
  | Datatypes.S fuel =>
      label ← on_labels (get_label (graph_label g));
      match label with
      | None => throw NotFound
      | Some label =>
          label ← on_labels (set_label label (handle_name layer));
          if decide (is_Some label) then mret tt else force_set_head fuel g layer
      end
  end.

Definition force_set_head_version (g : NamedGraph) (layer : layer_handle) (version : N) : io Store bool :=
  label ← on_labels (get_label (graph_label g));
  match label with
  | None => throw NotFound
  | Some label =>
      if decide (label_version label ≠ version) then mret false
      else
        label ← on_labels (set_label label (handle_name layer)); mret (bool_decide (is_Some label))
  end.

Definition graph_delete (g : NamedGraph) : io Store unit :=
  _ ← store_delete (graph_label g); mret tt.
End named_graph.

#[global] Arguments Store S Y : clear implicits.

(** ** Each call by itself *)

Section specs.
Context {S Y : Type} `{LabelStoreLaws S, LayerStoreLaws Y}.

(** The labels and layers that a store holds. *)
Definition store_rep (st : Store S Y) (m : label_map) (g : layer_graph) : Prop :=
  ls_rep (label_store st) m ∧ ly_rep (layer_store st) g.

Lemma on_labels_run {A} (p : io S A) st o s' :
  p (label_store st) = (o, s') → on_labels (Y := Y) p st = (o, new_store s' (layer_store st)).
Proof. intros Hp. unfold on_labels. by rewrite Hp. Qed.

Lemma on_layers_run {A} (p : io Y A) st o y' :
  p (layer_store st) = (o, y') → on_layers (S := S) p st = (o, new_store (label_store st) y').
Proof. intros Hp. unfold on_layers. by rewrite Hp. Qed.

Lemma get_label_run st m g n : store_rep st m g → on_labels (get_label n) st = (Ok (m !! n), st).
Proof.
  intros [Hm _]. rewrite (on_labels_run _ _ _ _ (get_label_spec _ _ n Hm)). by destruct st.
Qed.

Lemma label_named st m g n l : store_rep st m g → m !! n = Some l → label_name l = n.
Proof. intros [Hm _] Hl. by destruct (ls_key _ _ _ _ Hm Hl). Qed.

Lemma set_head_read_run st m g n :
  store_rep st m g →
  set_head_read (new_graph n) st = (match m !! n with Some l => Ok l | None => Err NotFound end, st).
Proof.
  intros Hst. unfold set_head_read. rewrite (io_bind_Ok _ _ _ _ _ (get_label_run _ _ _ _ Hst)).
  simpl. by destruct (m !! n).
Qed.

(** The check: the layer of the label, if it has one, is an ancestor. *)
Definition moves_forward (g : layer_graph) (head : option name) (layer : name) : Prop :=
  ∀ a, head = Some a → graph_ancestor g layer a.

Lemma set_head_check_run st m g l y :
  store_rep st m g → is_Some (g !! handle_name y) →
  ∃ b st', set_head_check l y st = (Ok b, st') ∧ store_rep st' m g ∧
    label_store st' = label_store st ∧ (b = true ↔ moves_forward g (label_layer l) (handle_name y)).
Proof.
  intros Hst Hy. unfold set_head_check, moves_forward. destruct (label_layer l) as [a|].
  - destruct (is_ancestor_of_spec (layer_store st) g (handle_name y) a) as (b & y' & Hb & Hy' & Hiff); [apply Hst|done|].
    exists b, (new_store (label_store st) y'). rewrite (on_layers_run _ _ _ _ Hb).
    split; [done|]. split; [split; [apply Hst|done]|]. split; [done|]. rewrite Hiff. naive_solver.
  - exists true, st. split; [done|]. split; [done|]. split; [done|]. naive_solver.
Qed.

Lemma handle_wf st m g y : store_rep st m g → is_Some (g !! handle_name y) → layer_wf (Some (handle_name y)).
Proof. intros [_ Hg] Hy n [= <-]. by eapply ly_name_wf. Qed.

Lemma set_head_write_run st m g n l y :
  store_rep st m g → is_Some (g !! handle_name y) → m !! n = Some l → can_update l →
  ∃ st', set_head_write l y st = (Ok true, st') ∧
    store_rep st' (<[n := updated l (Some (handle_name y))]> m) g.
Proof.
  intros Hst Hy Hl Hu. pose proof (label_named _ _ _ _ _ Hst Hl) as <-.
  destruct (set_label_current (label_store st) m l (Some (handle_name y))) as (s' & Hs & Hm');
    [apply Hst|done|done|by eapply handle_wf|].
  exists (new_store s' (layer_store st)). split; [|split; [done|apply Hst]].
  unfold set_head_write. by rewrite (io_bind_Ok _ _ _ _ _ (on_labels_run _ _ _ _ Hs)).
Qed.

(** ** Whole operations *)

Lemma head_version_run st m g n :
  store_rep st m g →
  match m !! n with
  | None => head_version (new_graph n) st = (Err NotFound, st)
  | Some l =>
      match label_layer l with
      | None => head_version (new_graph n) st = (Ok (None, label_version l), st)
      | Some d =>
          (is_Some (g !! d) → ∃ y st', head_version (new_graph n) st = (Ok (Some y, label_version l), st') ∧
            handle_name y = d ∧ store_rep st' m g) ∧
          (g !! d = None → ∃ st', head_version (new_graph n) st = (Err NotFound, st') ∧ store_rep st' m g)
      end
  end.
Proof.
  intros Hst. pose proof (get_label_run _ _ _ n Hst) as Hget. unfold head_version, graph_label.
  destruct (m !! n) as [l|] eqn:Hl; rewrite (io_bind_Ok _ _ _ _ _ Hget); [|done].
  destruct (label_layer l) as [d|] eqn:Hd; [|done]. split.
  - intros Hg. destruct (get_layer_present (layer_store st) g d) as (y & y' & Hy & Hn & Hr); [apply Hst|done|].
    exists y, (new_store (label_store st) y'). split_and!; [|done|by split; [apply Hst|]].
    erewrite io_bind_Ok; [done|]. by rewrite (io_bind_Ok _ _ _ _ _ (on_layers_run _ _ _ _ Hy)).
  - intros Hg.
    assert (name_wf d) as Hwf by (destruct Hst as [Hm _]; by apply (ls_key _ _ _ _ Hm Hl)).
    destruct (get_layer_absent (layer_store st) g d) as (y' & Hy & Hr); [apply Hst|done|done|].
    exists (new_store (label_store st) y'). split; [|by split; [apply Hst|]].
    apply io_bind_Err. by rewrite (io_bind_Ok _ _ _ _ _ (on_layers_run _ _ _ _ Hy)).
Qed.

Lemma set_head_missing st m g n y :
  store_rep st m g → m !! n = None → set_head (new_graph n) y st = (Err NotFound, st).
Proof.
  intros Hst Hn. pose proof (set_head_read_run _ _ _ n Hst) as Hr. rewrite Hn in Hr.
  unfold set_head. by rewrite (io_bind_Err _ _ _ _ _ Hr).
Qed.

Lemma set_head_run st m g n l y :
  store_rep st m g → m !! n = Some l → can_update l → is_Some (g !! handle_name y) →
  ∃ b st', set_head (new_graph n) y st = (Ok b, st') ∧
    (b = true ↔ moves_forward g (label_layer l) (handle_name y)) ∧
    store_rep st' (if b then <[n := updated l (Some (handle_name y))]> m else m) g.
Proof.
  intros Hst Hl Hu Hy. pose proof (set_head_read_run _ _ _ n Hst) as Hr. rewrite Hl in Hr.
  destruct (set_head_check_run st m g l y Hst Hy) as (b & st1 & Hc & Hst1 & _ & Hb).
  unfold set_head. rewrite (io_bind_Ok _ _ _ _ _ Hr), (io_bind_Ok _ _ _ _ _ Hc).
  destruct b; [|exists false, st1; done].
  destruct (set_head_write_run st1 m g n l y Hst1 Hy Hl Hu) as (st2 & Hw & Hst2). by exists true, st2.
Qed.

Lemma force_set_head_run st m g n l y fuel :
  store_rep st m g → m !! n = Some l → can_update l → is_Some (g !! handle_name y) →
  ∃ st', force_set_head (Datatypes.S fuel) (new_graph n) y st = (Ok tt, st') ∧
    store_rep st' (<[n := updated l (Some (handle_name y))]> m) g.
Proof.
  intros Hst Hl Hu Hy. pose proof (get_label_run _ _ _ n Hst) as Hget. rewrite Hl in Hget.
  pose proof (label_named _ _ _ _ _ Hst Hl) as <-.
  destruct (set_label_current (label_store st) m l (Some (handle_name y))) as (s' & Hs & Hm');
    [apply Hst|done|done|by eapply handle_wf|].
  exists (new_store s' (layer_store st)). split; [|split; [done|apply Hst]].
  cbn [force_set_head graph_label]. rewrite (io_bind_Ok _ _ _ _ _ Hget).
  by rewrite (io_bind_Ok _ _ _ _ _ (on_labels_run _ _ _ _ Hs)).
Qed.

Lemma force_set_head_version_run st m g n l y v :
  store_rep st m g → m !! n = Some l → can_update l → is_Some (g !! handle_name y) →
  ∃ st', force_set_head_version (new_graph n) y v st = (Ok (bool_decide (label_version l = v)), st') ∧
    store_rep st' (if decide (label_version l = v) then <[n := updated l (Some (handle_name y))]> m else m) g.
Proof.
  intros Hst Hl Hu Hy. pose proof (get_label_run _ _ _ n Hst) as Hget. rewrite Hl in Hget.
  unfold force_set_head_version, graph_label. rewrite (io_bind_Ok _ _ _ _ _ Hget).
  destruct (decide (label_version l = v)) as [Hv|Hv].
  - rewrite bool_decide_eq_true_2 by done. rewrite decide_False by (by intros ?).
    exact (set_head_write_run st m g n l y Hst Hy Hl Hu).
  - rewrite bool_decide_eq_false_2, decide_True by done. by exists st.
Qed.

(** Creating a graph that exists is refused; opening finds what was created. *)
Lemma store_create_open_run st m g n :
  store_rep st m g → ls_name_ok (S := S) n → m !! n = None →
  ∃ st', store_create n st = (Ok (new_graph n), st') ∧ store_rep st' (<[n := new_empty n]> m) g ∧
    store_open n st' = (Ok (Some (new_graph n)), st') ∧ store_create n st' = (Err InvalidInput, st') ∧
    head_version (new_graph n) st' = (Ok (None, 0%N), st').
Proof.
  intros Hst Hn Hm. destruct (create_label_fresh (label_store st) m n) as (s' & Hs & Hm'); [apply Hst|done|done|].
  assert (store_rep (new_store s' (layer_store st)) (<[n:=new_empty n]> m) g) as Hst' by (split; [done|apply Hst]).
  exists (new_store s' (layer_store st)). split.
  { unfold store_create. by rewrite (io_bind_Ok _ _ _ _ _ (on_labels_run _ _ _ _ Hs)). }
  split; [done|]. pose proof (get_label_run _ _ _ n Hst') as Hget. rewrite lookup_insert_eq in Hget. split.
  { unfold store_open. by rewrite (io_bind_Ok _ _ _ _ _ Hget). }
  split.
  - unfold store_create. erewrite io_bind_Err; [done|].
    apply (on_labels_run _ (new_store s' (layer_store st))).
    eapply create_label_taken; [exact Hm'|]. by rewrite lookup_insert_eq.
  - pose proof (head_version_run _ _ _ n Hst') as Hh. by rewrite lookup_insert_eq in Hh.
Qed.

Lemma store_delete_run st m g n :
  store_rep st m g →
  ∃ st', store_delete n st = (Ok (bool_decide (is_Some (m !! n))), st') ∧ store_rep st' (delete n m) g ∧
    store_open n st' = (Ok None, st').
Proof.
  intros Hst. destruct (delete_label_spec (label_store st) m n) as (s' & Hs & Hm'); [apply Hst|].
  assert (store_rep (new_store s' (layer_store st)) (delete n m) g) as Hst' by (split; [done|apply Hst]).
  exists (new_store s' (layer_store st)). split; [by apply on_labels_run|]. split; [done|].
  pose proof (get_label_run _ _ _ n Hst') as Hget. rewrite lookup_delete_eq in Hget.
  unfold store_open. by rewrite (io_bind_Ok _ _ _ _ _ Hget).
Qed.
End specs.
