(* ===== verification/GraphClients.v ===== *)
(** Clients that move the head of one named graph at the same time. A client is
    an operation of [NamedGraph] cut at its calls of the label store and of the
    layer store; the steps of a system interleave the calls of its clients, the
    start of new clients, and commits of layers. *)

From S2P Require Import Prelude Names Text Labels LabelSpec NamedGraph.
From stdpp Require Import relations.

Section clients.
Context {S Y : Type} `{LabelStore S, LayerStore Y}.

(** The point an operation has reached, with the values it holds there. *)
Inductive client :=
  | SetHeadRead (y : layer_handle)
  | SetHeadCheck (y : layer_handle) (l : Label)
  | SetHeadWrite (y : layer_handle) (l : Label)
  | ForceRead (y : layer_handle)
  | ForceWrite (y : layer_handle) (l : Label)
  | VersionRead (y : layer_handle) (version : N)
  | VersionWrite (y : layer_handle) (l : Label)
  | Finished (r : outcome bool).

Definition after {A} (p : io (Store S Y) A) (k : A → client) : Store S Y → client * Store S Y := λ st,
  match p st with
  | (Ok a, st') => (k a, st')
  | (Err e, st') => (Finished (Err e), st')
  | (Panic, st') => (Finished Panic, st')
  | (NoFuel, st') => (Finished NoFuel, st')
  end.

(** The next call of a client. *)
Definition client_call (n : string) (c : client) : Store S Y → client * Store S Y :=
  match c with
  | SetHeadRead y => after (set_head_read (new_graph n)) (SetHeadCheck y)
  | SetHeadCheck y l => after (set_head_check l y) (λ b, if b : bool then SetHeadWrite y l else Finished (Ok false))
  | SetHeadWrite y l => after (set_head_write l y) (λ b, Finished (Ok b))
  | ForceRead y => after (set_head_read (new_graph n)) (ForceWrite y)
  | ForceWrite y l => after (set_head_write l y) (λ b, if b : bool then Finished (Ok true) else ForceRead y)
  | VersionRead y v =>
      after (set_head_read (new_graph n))
        (λ l, if decide (label_version l ≠ v) then Finished (Ok false) else VersionWrite y l)
  | VersionWrite y l => after (set_head_write l y) (λ b, Finished (Ok b))
  | Finished r => λ st, (Finished r, st)
  end.

(** A client that runs alone. *)
Fixpoint run_client (calls : nat) (n : string) (c : client) (st : Store S Y) : client * Store S Y :=
  match calls with
  | O => (c, st)
  | Datatypes.S calls => let '(c', st') := client_call n c st in run_client calls n c' st'
  end.

Lemma run_finished calls n r st : run_client calls n (Finished r) st = (Finished r, st).
Proof. by induction calls. Qed.

(** Alone, a client does what the operation does. *)
Lemma set_head_alone n y st :
  run_client 3 n (SetHeadRead y) st = (let '(r, st') := set_head (new_graph n) y st in (Finished r, st')).
Proof.
  unfold set_head. cbn [run_client client_call]. unfold after.
  unfold mbind at 1, io_bind at 1. destruct (set_head_read _ st) as [[l|e| |] st1]; try done.
  cbn [client_call]. unfold after, mbind, io_bind. destruct (set_head_check l y st1) as [[[]|e| |] st2]; try done.
  cbn [client_call]. unfold after. by destruct (set_head_write l y st2) as [[b|e| |] st3].
Qed.

Lemma force_set_head_version_alone n y v st :
  run_client 2 n (VersionRead y v) st =
  (let '(r, st') := force_set_head_version (new_graph n) y v st in (Finished r, st')).
Proof.
  unfold force_set_head_version. cbn [run_client client_call]. unfold after, set_head_read.
  unfold mbind, io_bind, graph_label. destruct (on_labels (get_label n) st) as [[[l|]|e| |] st1]; try done.
  simpl. case_decide; [done|]. cbn [client_call]. unfold after, set_head_write, mbind, io_bind.
  by destruct (on_labels (set_label l (handle_name y)) st1) as [[b|e| |] st3].
Qed.

Lemma force_set_head_alone n y fuel st st' :
  force_set_head fuel (new_graph n) y st = (Ok tt, st') →
  run_client (2 * fuel) n (ForceRead y) st = (Finished (Ok true), st').
Proof.
  revert st. induction fuel as [|fuel IH]; intros st; [done|].
  replace (2 * Datatypes.S fuel) with (Datatypes.S (Datatypes.S (2 * fuel))) by lia.
  cbn [force_set_head run_client client_call graph_label]. unfold after, set_head_read, graph_label.
  unfold mbind at 1 3, io_bind at 1 3. destruct (on_labels (get_label n) st) as [[[l|]|e| |] st1]; try done.
  cbn. unfold after, set_head_write. unfold mbind, io_bind.
  destruct (on_labels (set_label l (handle_name y)) st1) as [[b|e| |] st3]; try done.
  simpl. destruct (decide (is_Some b)) as [Hb|Hb].
  - rewrite bool_decide_eq_true_2 by done. intros [= <-]. apply run_finished.
  - rewrite bool_decide_eq_false_2 by done. intros Hf. by apply IH.
Qed.

(** ** Systems of clients *)

Record system := new_system { sys_clients : list client; sys_store : Store S Y; sys_layers : layer_graph }.

Definition client_layer (c : client) : option layer_handle :=
  match c with
  | SetHeadRead y | SetHeadCheck y _ | SetHeadWrite y _ | ForceRead y | ForceWrite y _
  | VersionRead y _ | VersionWrite y _ => Some y
  | Finished _ => None
  end.

Definition client_label (c : client) : option Label :=
  match c with
  | SetHeadCheck _ l | SetHeadWrite _ l | ForceWrite _ l | VersionWrite _ l => Some l
  | _ => None
  end.

(** An operation that has made no call yet. *)
Definition starting (c : client) : Prop :=
  match c with SetHeadRead _ | ForceRead _ | VersionRead _ _ => True | _ => False end.

Definition is_set_head (c : client) : Prop :=
  match c with SetHeadRead _ | SetHeadCheck _ _ | SetHeadWrite _ _ | Finished _ => True | _ => False end.

Definition succeeded (c : client) : bool :=
  match c with Finished (Ok b) => b | _ => false end.
Definition successes (cs : list client) : nat := length (List.filter succeeded cs).

Lemma successes_insert cs i c c' :
  cs !! i = Some c →
  successes (<[i := c']> cs) + Nat.b2n (succeeded c) = successes cs + Nat.b2n (succeeded c').
Proof.
  unfold successes. revert i. induction cs as [|d cs IH]; intros [|i]; try done; simpl.
  - intros [= ->]. destruct (succeeded c), (succeeded c'); simpl; lia.
  - intros Hi. specialize (IH i Hi). destruct (succeeded d); simpl; lia.
Qed.

Lemma successes_app cs cs' : successes (cs ++ cs') = successes cs + successes cs'.
Proof. unfold successes. by rewrite List.filter_app, length_app. Qed.
End clients.

#[global] Arguments client : clear implicits.
#[global] Arguments client Y {_}.
#[global] Arguments system : clear implicits.
#[global] Arguments system S Y {_}.

Section steps.
Context {S Y : Type} `{LabelStoreLaws S, LayerStoreLaws Y}.

Inductive sys_step (n : string) (may_start : client Y → Prop) : system S Y → system S Y → Prop :=
  | call_step cs st g i c c' st' :
      cs !! i = Some c → client_call n c st = (c', st') →
      sys_step n may_start (new_system cs st g) (new_system (<[i := c']> cs) st' g)
  | start_step cs st g c y :
      may_start c → starting c → client_layer c = Some y → is_Some (g !! handle_name y) →
      sys_step n may_start (new_system cs st g) (new_system (cs ++ [c]) st g)
  | commit_step cs st g y' g' :
      g ⊆ g' → ly_rep y' g' →
      sys_step n may_start (new_system cs st g) (new_system cs (new_store (label_store st) y') g').

(** What a client knows of the label [cur] of the graph. *)
Definition client_ok (g : layer_graph) (cur : Label) (c : client Y) : Prop :=
  (∀ y, client_layer c = Some y → is_Some (g !! handle_name y)) ∧
  (∀ l, client_label c = Some l → label_name l = label_name cur ∧ (label_version l ≤ label_version cur)%N ∧
    (label_version l = label_version cur → l = cur)) ∧
  match c with SetHeadWrite y l => moves_forward g (label_layer l) (handle_name y) | _ => True end.

Record system_ok (n : string) (m : label_map) (cur : Label) (sys : system S Y) : Prop := {
  so_rep : store_rep (sys_store sys) m (sys_layers sys);
  so_label : m !! n = Some cur;
  so_clients : Forall (client_ok (sys_layers sys) cur) (sys_clients sys);
}.

(** One step of the label: it stays, or a client sets it. *)
Definition label_moves (g : layer_graph) (c : client Y) (cur cur' : Label) : Prop :=
  ∃ y, client_layer c = Some y ∧ is_Some (g !! handle_name y) ∧ cur' = updated cur (Some (handle_name y)) ∧
    (is_set_head c → moves_forward g (label_layer cur) (handle_name y)).

Lemma client_ok_updated g cur o c : client_ok g cur c → client_ok g (updated cur o) c.
Proof.
  intros (Hy & Hl & Hf). split_and!; [done| |done]. intros l Hc.
  destruct (Hl l Hc) as (? & ? & ?). unfold updated; cbn [label_name label_version].
  split; [done|]. split; [lia|]. intros. lia.
Qed.

Lemma client_ok_finished g cur r : client_ok g cur (Finished r).
Proof. by split_and!. Qed.

Lemma client_ok_mono g g' cur c : g ⊆ g' → client_ok g cur c → client_ok g' cur c.
Proof.
  intros Hg (Hy & Hl & Hf). split_and!; [|done|].
  - intros y Hc. destruct (Hy y Hc) as [p Hp]. exists p. by eapply lookup_weaken.
  - destruct c; try done. intros a Ha. eapply graph_ancestor_mono; [done|]. by apply Hf.
Qed.

Lemma set_head_write_step st m g n cur l y o st' :
  store_rep st m g → is_Some (g !! handle_name y) → m !! n = Some cur → label_name l = label_name cur →
  (label_version l = label_version cur → l = cur) → set_head_write l y st = (o, st') →
  (o ≠ Ok true ∧ store_rep st' m g) ∨
  (o = Ok true ∧ l = cur ∧ store_rep st' (<[n := updated cur (Some (handle_name y))]> m) g).
Proof.
  intros Hst Hy Hcur Hname Hver. pose proof (label_named _ _ _ _ _ Hst Hcur) as Hn. rewrite Hn in Hname.
  unfold set_head_write, mbind, io_bind, on_labels, set_label.
  destruct (set_label_option l (Some (handle_name y)) (label_store st)) as [r s'] eqn:Hs.
  destruct (set_label_cases (label_store st) m l (Some (handle_name y)) r s') as
    [[-> Hr]|(-> & (l0 & Hl0 & Hv) & Hm')]; [apply Hst|by eapply handle_wf|done| |].
  - intros Heq. left.
    destruct r as [[l'|]|e| |]; [by destruct (Hr l')|injection Heq as <- <-..]; (split; [done|]); by destruct st.
  - intros [= <- <-]. right. rewrite Hname in Hl0, Hm'. simplify_eq. assert (l = cur) as -> by auto.
    split; [done|]. split; [done|]. split; [done|apply Hst].
Qed.

(** The effect of one call of a client on the label. *)
Lemma client_call_step n m g cur c st c' st' :
  store_rep st m g → m !! n = Some cur → client_ok g cur c → client_call n c st = (c', st') →
  (store_rep st' m g ∧ client_ok g cur c' ∧ (succeeded c' = true → c = c')) ∨
  (store_rep st' (<[n := match client_layer c with Some y => updated cur (Some (handle_name y)) | None => cur end]> m) g ∧
   label_moves g c cur (match client_layer c with Some y => updated cur (Some (handle_name y)) | None => cur end) ∧
   c' = Finished (Ok true) ∧ succeeded c = false).
Proof.
  intros Hst Hcur (Hy & Hl & Hf).
  assert (∀ y (k : Label → client Y), (client_layer c = Some y) →
    (∀ l, l = cur → client_ok g cur (k l)) → (∀ l, succeeded (k l) = false) →
    after (set_head_read (new_graph n)) k st = (c', st') →
    store_rep st' m g ∧ client_ok g cur c' ∧ (succeeded c' = true → c = c')) as Hread.
  { intros y k _ Hk Hs. unfold after. rewrite (set_head_read_run st m g n Hst), Hcur.
    intros [= <- <-]. split; [done|]. split; [by apply Hk|]. by rewrite Hs. }
  assert (∀ y l (k : bool → client Y), client_layer c = Some y → client_label c = Some l →
    k true = Finished (Ok true) → succeeded (k false) = false → client_ok g cur (k false) →
    (is_set_head c → moves_forward g (label_layer l) (handle_name y)) → succeeded c = false →
    after (set_head_write l y) k st = (c', st') →
    (store_rep st' m g ∧ client_ok g cur c' ∧ (succeeded c' = true → c = c')) ∨
    (store_rep st' (<[n := updated cur (Some (handle_name y))]> m) g ∧
     label_moves g c cur (updated cur (Some (handle_name y))) ∧ c' = Finished (Ok true) ∧ succeeded c = false)) as Hwrite.
  { intros y l k Hcy Hcl Hkt Hkf Hok Hfw Hs. destruct (Hl l Hcl) as (Hn & _ & Hv). unfold after.
    destruct (set_head_write l y st) as [o st1] eqn:Hw.
    destruct (set_head_write_step st m g n cur l y o st1) as [[Ho Hst1]|(-> & -> & Hst1)]; auto.
    - left. destruct o as [[]|e| |]; simplify_eq; (split; [done|]); try (split; [apply client_ok_finished|done]).
      split; [done|]. by rewrite Hkf.
    - intros [= <- <-]. right. rewrite Hkt. split; [exact Hst1|].
      split; [|done]. exists y. auto. }
  destruct c as [y|y l|y l|y|y l|y v|y l|r]; cbn [client_call client_layer].
  - intros Hc. left. eapply (Hread y (SetHeadCheck y)); [done| |done|exact Hc]. intros l ->. split; [exact Hy|]. split; [|done].
    intros l [= <-]. split; [done|]. split; [lia|done].
  - unfold after. destruct (set_head_check_run st m g l y Hst (Hy y eq_refl)) as (b & st1 & -> & Hst1 & _ & Hb).
    intros [= <- <-]. left. split; [done|]. destruct b; [|split; [apply client_ok_finished|done]].
    split; [|done]. split; [exact Hy|]. split; [exact Hl|]. by apply Hb.
  - intros Hc. eapply (Hwrite y l (λ b, Finished (Ok b))); done.
  - intros Hc. left. eapply (Hread y (ForceWrite y)); [done| |done|exact Hc]. intros l ->. split; [exact Hy|]. split; [|done].
    intros l [= <-]. split; [done|]. split; [lia|done].
  - intros Hc. eapply (Hwrite y l (λ b, if b : bool then Finished (Ok true) else ForceRead y)); done.
  - intros Hc. left.
    eapply (Hread y (λ l, if decide (label_version l ≠ v) then Finished (Ok false) else VersionWrite y l));
      [done| | |exact Hc].
    + intros l ->. case_decide; [apply client_ok_finished|]. split; [exact Hy|]. split; [|done].
      intros l [= <-]. split; [done|]. split; [lia|done].
    + intros l. by case_decide.
  - intros Hc. eapply (Hwrite y l (λ b, Finished (Ok b))); done.
  - intros [= <- <-]. left. split; [done|]. split; [apply client_ok_finished|done].
Qed.

(** The head has stayed or moved to a layer built on it. *)
Definition head_forward (g : layer_graph) (o o' : option name) : Prop :=
  ∀ a, o = Some a → ∃ b, o' = Some b ∧ graph_ancestor g b a.

Lemma head_forward_refl g o : head_forward g o o.
Proof. intros a ->. exists a. split; [done|]. apply rtc_refl. Qed.

Lemma head_forward_trans g g' o1 o2 o3 :
  g ⊆ g' → head_forward g o1 o2 → head_forward g' o2 o3 → head_forward g' o1 o3.
Proof.
  intros Hg H12 H23 a Ha. destruct (H12 a Ha) as (b & Hb & Hba). destruct (H23 b Hb) as (c & Hc & Hcb).
  exists c. split; [done|]. transitivity b; [exact Hcb|]. by eapply graph_ancestor_mono.
Qed.

(** What steps preserve, and how the label follows the clients that succeed. *)
Record progress (may_start : client Y → Prop) (sys sys' : system S Y) (cur cur' : Label) : Prop := {
  pg_layers : sys_layers sys ⊆ sys_layers sys';
  pg_version : (label_version cur' + N.of_nat (successes (sys_clients sys)) =
                label_version cur + N.of_nat (successes (sys_clients sys')))%N;
  pg_mono : (label_version cur ≤ label_version cur')%N;
  pg_same : label_version cur' = label_version cur → cur' = cur;
  pg_head : (∀ c, may_start c → is_set_head c) → Forall is_set_head (sys_clients sys) →
    Forall is_set_head (sys_clients sys') ∧
              head_forward (sys_layers sys') (label_layer cur) (label_layer cur');
}.

Lemma progress_still P sys sys' cur :
  sys_layers sys ⊆ sys_layers sys' → successes (sys_clients sys) = successes (sys_clients sys') →
  ((∀ c, P c → is_set_head c) → Forall is_set_head (sys_clients sys) → Forall is_set_head (sys_clients sys')) →
  progress P sys sys' cur cur.
Proof.
  intros Hg Hs Hf. split; [done|by rewrite Hs|done|done|]. intros HP Hc. split; [by apply Hf|apply head_forward_refl].
Qed.

Lemma call_set_head n c st c' st' : is_set_head c → client_call n c st = (c', st') → is_set_head c'.
Proof.
  destruct c; try done; simpl; intros _.
  - unfold after. by destruct (set_head_read _ _) as [[]]; intros [= <- <-].
  - unfold after. by destruct (set_head_check _ _ _) as [[[]| | |]]; intros [= <- <-].
  - unfold after. by destruct (set_head_write _ _ _) as [[]]; intros [= <- <-].
  - by intros [= <- <-].
Qed.

Lemma call_step_ok P n m cur cs st g i c c' st' :
  system_ok n m cur (new_system cs st g) → cs !! i = Some c → client_call n c st = (c', st') →
  ∃ cur', system_ok n (<[n := cur']> m) cur' (new_system (<[i := c']> cs) st' g) ∧
    progress P (new_system cs st g) (new_system (<[i := c']> cs) st' g) cur cur'.
Proof.
  intros [Hst Hcur Hcs] Hi Hc. cbn [sys_store sys_layers sys_clients] in *.
  pose proof (Forall_lookup_1 _ _ _ _ Hcs Hi) as Hok.
  pose proof (successes_insert _ _ _ c' Hi) as Hcount.
  assert (Forall is_set_head cs → Forall is_set_head (<[i := c']> cs)) as Hset.
  { intros Hf. apply Forall_insert; [done|]. eapply call_set_head; [|exact Hc]. by eapply Forall_lookup_1. }
  destruct (client_call_step n m g cur c st c' st' Hst Hcur Hok Hc) as
    [(Hst' & Hok' & Hsucc)|(Hst' & (y & Hy & Hgy & Hcur' & Hf) & -> & Hs)].
  - exists cur. rewrite insert_id by done. split; [split; [done|done|by apply Forall_insert]|].
    apply progress_still; cbn [sys_clients sys_layers]; [done| |done].
    destruct (succeeded c') eqn:Hs; [rewrite Hsucc, Hs in Hcount by done; lia|].
    destruct c as [| | | | | | |[b| | |]]; simpl in *; try lia. injection Hc as <- <-. cbn in Hs. rewrite Hs in Hcount |- *. simpl in Hcount. lia.
  - rewrite Hy in Hst', Hcur'. rewrite Hs in Hcount. simpl in Hcount.
    exists (updated cur (Some (handle_name y))). split; [split|split]; cbn [sys_clients sys_layers sys_store].
    + done.
    + by rewrite lookup_insert_eq.
    + apply Forall_insert; [|apply client_ok_finished].
      eapply Forall_impl; [exact Hcs|]. intros d. apply client_ok_updated.
    + done.
    + cbn [label_version updated]. lia.
    + cbn [label_version updated]. lia.
    + cbn [label_version updated]. lia.
    + intros _ Hall. split; [by apply Hset|]. intros a Ha. exists (handle_name y). split; [done|].
      apply Hf; [|done]. by eapply Forall_lookup_1.
Qed.

Lemma sys_step_ok P n m cur sys sys' :
  system_ok n m cur sys → sys_step n P sys sys' →
  ∃ cur', system_ok n (<[n := cur']> m) cur' sys' ∧ progress P sys sys' cur cur'.
Proof.
  intros Hok Hstep. destruct Hstep as [cs st g i c c' st' Hi Hc|cs st g c y HP Hstart Hc Hy|cs st g y' g' Hg Hy'].
  - by eapply call_step_ok.
  - destruct Hok as [Hst Hcur Hcs]. cbn [sys_store sys_layers sys_clients] in *. exists cur.
    rewrite insert_id by done. split; [split; [done|done|]|apply progress_still]; cbn [sys_clients sys_layers].
    + apply Forall_app. split; [done|]. apply Forall_singleton. split; [|by destruct c; split].
      intros y0 Hy0. by simplify_eq.
    + done.
    + rewrite successes_app. assert (successes [c] = 0) as -> by by destruct c. lia.
    + intros HP' Hall. apply Forall_app. split; [done|]. apply Forall_singleton. auto.
  - destruct Hok as [Hst Hcur Hcs]. cbn [sys_store sys_layers sys_clients] in *. exists cur.
    rewrite insert_id by done. split; [split; [|done|]|by apply progress_still]; cbn [sys_clients sys_layers].
    + split; [apply Hst|done].
    + eapply Forall_impl; [exact Hcs|]. intros c. by apply client_ok_mono.
Qed.

Lemma progress_trans P sys1 sys2 sys3 cur1 cur2 cur3 :
  progress P sys1 sys2 cur1 cur2 → progress P sys2 sys3 cur2 cur3 → progress P sys1 sys3 cur1 cur3.
Proof.
  intros [Hg1 Hn1 Hv1 Hs1 Hh1] [Hg2 Hn2 Hv2 Hs2 Hh2]. split.
  - by etrans.
  - lia.
  - lia.
  - intros Hv. rewrite Hs2 by lia. apply Hs1. lia.
  - intros HP Hall. destruct (Hh1 HP Hall) as [Hall2 Hf1]. destruct (Hh2 HP Hall2) as [Hall3 Hf2].
    split; [done|]. by eapply head_forward_trans.
Qed.

Lemma progress_refl P sys cur : progress P sys sys cur cur.
Proof. by apply progress_still. Qed.

Lemma sys_steps_ok P n m cur sys sys' :
  system_ok n m cur sys → rtc (sys_step n P) sys sys' →
  ∃ cur', system_ok n (<[n := cur']> m) cur' sys' ∧ progress P sys sys' cur cur'.
Proof.
  intros Hok Hs. revert m cur Hok. induction Hs as [sys|sys1 sys2 sys3 H12 H23 IH]; intros m cur Hok.
  - exists cur. rewrite insert_id by apply Hok. split; [done|apply progress_refl].
  - destruct (sys_step_ok _ _ _ _ _ _ Hok H12) as (cur2 & Hok2 & Hp12).
    destruct (IH _ _ Hok2) as (cur3 & Hok3 & Hp23). exists cur3.
    rewrite insert_insert_eq in Hok3. split; [done|]. by eapply progress_trans.
Qed.

Lemma system_ok_start n m cur st g :
  store_rep st m g → m !! n = Some cur → system_ok n m cur (new_system [] st g).
Proof. intros. by split. Qed.

(** ** Running a system *)

(** The next call of one of the clients. *)
Definition call_at (n : string) (sys : system S Y) (i : nat) : system S Y :=
  match sys_clients sys !! i with
  | Some c =>
      let '(c', st') := client_call n c (sys_store sys) in
      new_system (<[i := c']> (sys_clients sys)) st' (sys_layers sys)
  | None => sys
  end.

Lemma call_at_steps n P sys i : rtc (sys_step n P) sys (call_at n sys i).
Proof.
  destruct sys as [cs st g]. unfold call_at. cbn [sys_clients sys_store sys_layers].
  destruct (cs !! i) as [c|] eqn:Hi; [|done]. destruct (client_call n c st) as [c' st'] eqn:Hc.
  apply rtc_once. by eapply call_step.
Qed.

Lemma schedule_steps n P sys ixs : rtc (sys_step n P) sys (foldl (call_at n) sys ixs).
Proof.
  revert sys. induction ixs as [|i ixs IH]; intros sys; [done|]. simpl.
  etrans; [apply (call_at_steps n P sys i)|apply IH].
Qed.
End steps.
