(* ===== verification/Consts.v ===== *)
(** File names of a layer and their numbers: [src/storage/consts.rs]. A base
    layer and a child layer never hold the same file, so the files of a base
    layer share the numbers of the additions of a child. *)

From S2P Require Import Prelude Names.

#[local] Open Scope string_scope.

(** ** [Filenames] *)
Record Filenames := {
  fn_node_dictionary_blocks : string;
  fn_node_dictionary_offsets : string;
  fn_predicate_dictionary_blocks : string;
  fn_predicate_dictionary_offsets : string;
  fn_value_dictionary_types_present : string;
  fn_value_dictionary_type_offsets : string;
  fn_value_dictionary_blocks : string;
  fn_value_dictionary_offsets : string;
  fn_node_value_idmap_bits : string;
  fn_node_value_idmap_bit_index_blocks : string;
  fn_node_value_idmap_bit_index_sblocks : string;
  fn_predicate_idmap_bits : string;
  fn_predicate_idmap_bit_index_blocks : string;
  fn_predicate_idmap_bit_index_sblocks : string;
  fn_base_subjects : string;
  fn_base_objects : string;
  fn_base_s_p_adjacency_list_nums : string;
  fn_base_s_p_adjacency_list_bits : string;
  fn_base_s_p_adjacency_list_bit_index_blocks : string;
  fn_base_s_p_adjacency_list_bit_index_sblocks : string;
  fn_base_sp_o_adjacency_list_nums : string;
  fn_base_sp_o_adjacency_list_bits : string;
  fn_base_sp_o_adjacency_list_bit_index_blocks : string;
  fn_base_sp_o_adjacency_list_bit_index_sblocks : string;
  fn_base_o_ps_adjacency_list_nums : string;
  fn_base_o_ps_adjacency_list_bits : string;
  fn_base_o_ps_adjacency_list_bit_index_blocks : string;
  fn_base_o_ps_adjacency_list_bit_index_sblocks : string;
  fn_pos_subjects : string;
  fn_pos_objects : string;
  fn_pos_s_p_adjacency_list_nums : string;
  fn_pos_s_p_adjacency_list_bits : string;
  fn_pos_s_p_adjacency_list_bit_index_blocks : string;
  fn_pos_s_p_adjacency_list_bit_index_sblocks : string;
  fn_pos_sp_o_adjacency_list_nums : string;
  fn_pos_sp_o_adjacency_list_bits : string;
  fn_pos_sp_o_adjacency_list_bit_index_blocks : string;
  fn_pos_sp_o_adjacency_list_bit_index_sblocks : string;
  fn_pos_o_ps_adjacency_list_nums : string;
  fn_pos_o_ps_adjacency_list_bits : string;
  fn_pos_o_ps_adjacency_list_bit_index_blocks : string;
  fn_pos_o_ps_adjacency_list_bit_index_sblocks : string;
  fn_neg_subjects : string;
  fn_neg_objects : string;
  fn_neg_s_p_adjacency_list_nums : string;
  fn_neg_s_p_adjacency_list_bits : string;
  fn_neg_s_p_adjacency_list_bit_index_blocks : string;
  fn_neg_s_p_adjacency_list_bit_index_sblocks : string;
  fn_neg_sp_o_adjacency_list_nums : string;
  fn_neg_sp_o_adjacency_list_bits : string;
  fn_neg_sp_o_adjacency_list_bit_index_blocks : string;
  fn_neg_sp_o_adjacency_list_bit_index_sblocks : string;
  fn_neg_o_ps_adjacency_list_nums : string;
  fn_neg_o_ps_adjacency_list_bits : string;
  fn_neg_o_ps_adjacency_list_bit_index_blocks : string;
  fn_neg_o_ps_adjacency_list_bit_index_sblocks : string;
  fn_base_predicate_wavelet_tree_bits : string;
  fn_base_predicate_wavelet_tree_bit_index_blocks : string;
  fn_base_predicate_wavelet_tree_bit_index_sblocks : string;
  fn_pos_predicate_wavelet_tree_bits : string;
  fn_pos_predicate_wavelet_tree_bit_index_blocks : string;
  fn_pos_predicate_wavelet_tree_bit_index_sblocks : string;
  fn_neg_predicate_wavelet_tree_bits : string;
  fn_neg_predicate_wavelet_tree_bit_index_blocks : string;
  fn_neg_predicate_wavelet_tree_bit_index_sblocks : string;
  fn_parent : string;
  fn_rollup : string;
}.

(** ** [LayerFileEnum], in the order of its discriminants *)
Inductive LayerFileEnum :=
  | NodeDictionaryBlocks
  | NodeDictionaryOffsets
  | PredicateDictionaryBlocks
  | PredicateDictionaryOffsets
  | ValueDictionaryTypesPresent
  | ValueDictionaryTypeOffsets
  | ValueDictionaryBlocks
  | ValueDictionaryOffsets
  | NodeValueIdMapBits
  | NodeValueIdMapBitIndexBlocks
  | NodeValueIdMapBitIndexSBlocks
  | PredicateIdMapBits
  | PredicateIdMapBitIndexBlocks
  | PredicateIdMapBitIndexSBlocks
  | PosSubjects
  | PosObjects
  | NegSubjects
  | NegObjects
  | PosSPAdjacencyListNums
  | PosSPAdjacencyListBits
  | PosSPAdjacencyListBitIndexBlocks
  | PosSPAdjacencyListBitIndexSBlocks
  | PosSpOAdjacencyListNums
  | PosSpOAdjacencyListBits
  | PosSpOAdjacencyListBitIndexBlocks
  | PosSpOAdjacencyListBitIndexSBlocks
  | PosOPsAdjacencyListNums
  | PosOPsAdjacencyListBits
  | PosOPsAdjacencyListBitIndexBlocks
  | PosOPsAdjacencyListBitIndexSBlocks
  | PosPredicateWaveletTreeBits
  | PosPredicateWaveletTreeBitIndexBlocks
  | PosPredicateWaveletTreeBitIndexSBlocks
  | NegSPAdjacencyListNums
  | NegSPAdjacencyListBits
  | NegSPAdjacencyListBitIndexBlocks
  | NegSPAdjacencyListBitIndexSBlocks
  | NegSpOAdjacencyListNums
  | NegSpOAdjacencyListBits
  | NegSpOAdjacencyListBitIndexBlocks
  | NegSpOAdjacencyListBitIndexSBlocks
  | NegOPsAdjacencyListNums
  | NegOPsAdjacencyListBits
  | NegOPsAdjacencyListBitIndexBlocks
  | NegOPsAdjacencyListBitIndexSBlocks
  | NegPredicateWaveletTreeBits
  | NegPredicateWaveletTreeBitIndexBlocks
  | NegPredicateWaveletTreeBitIndexSBlocks
  | Parent
  | Rollup.

#[export] Instance LayerFileEnum_eq_dec : EqDecision LayerFileEnum.
Proof. solve_decision. Defined.

Definition FILENAMES : Filenames := {|
  fn_node_dictionary_blocks := "node_dictionary_blocks.tfc";
  fn_node_dictionary_offsets := "node_dictionary_offsets.logarray";
  fn_predicate_dictionary_blocks := "predicate_dictionary_blocks.tfc";
  fn_predicate_dictionary_offsets := "predicate_dictionary_offsets.logarray";
  fn_value_dictionary_types_present := "value_dictionary_types.logarray";
  fn_value_dictionary_type_offsets := "value_dictionary_type_offsets.logarray";
  fn_value_dictionary_blocks := "value_dictionary_blocks.tfc";
  fn_value_dictionary_offsets := "value_dictionary_offsets.logarray";
  fn_node_value_idmap_bits := "node_value_idmap_bits.bitarray";
  fn_node_value_idmap_bit_index_blocks := "node_value_idmap_bit_index_blocks.bitarray";
  fn_node_value_idmap_bit_index_sblocks := "node_value_idmap_bit_index_sblocks.bitarray";
  fn_predicate_idmap_bits := "predicate_idmap_bits.bitarray";
  fn_predicate_idmap_bit_index_blocks := "predicate_idmap_bit_index_blocks.bitarray";
  fn_predicate_idmap_bit_index_sblocks := "predicate_idmap_bit_index_sblocks.bitarray";
  fn_base_subjects := "base_subjects.logarray";
  fn_base_objects := "base_objects.logarray";
  fn_base_s_p_adjacency_list_nums := "base_s_p_adjacency_list_nums.logarray";
  fn_base_s_p_adjacency_list_bits := "base_s_p_adjacency_list_bits.bitarray";
  fn_base_s_p_adjacency_list_bit_index_blocks := "base_s_p_adjacency_list_bit_index_blocks.logarray";
  fn_base_s_p_adjacency_list_bit_index_sblocks := "base_s_p_adjacency_list_bit_index_sblocks.logarray";
  fn_base_sp_o_adjacency_list_nums := "base_sp_o_adjacency_list_nums.logarray";
  fn_base_sp_o_adjacency_list_bits := "base_sp_o_adjacency_list_bits.bitarray";
  fn_base_sp_o_adjacency_list_bit_index_blocks := "base_sp_o_adjacency_list_bit_index_blocks.logarray";
  fn_base_sp_o_adjacency_list_bit_index_sblocks := "base_sp_o_adjacency_list_bit_index_sblocks.logarray";
  fn_base_o_ps_adjacency_list_nums := "base_o_ps_adjacency_list_nums.logarray";
  fn_base_o_ps_adjacency_list_bits := "base_o_ps_adjacency_list_bits.bitarray";
  fn_base_o_ps_adjacency_list_bit_index_blocks := "base_o_ps_adjacency_list_bit_index_blocks.logarray";
  fn_base_o_ps_adjacency_list_bit_index_sblocks := "base_o_ps_adjacency_list_bit_index_sblocks.logarray";
  fn_pos_subjects := "child_pos_subjects.logarray";
  fn_pos_objects := "child_pos_objects.logarray";
  fn_pos_s_p_adjacency_list_nums := "pos_s_p_adjacency_list_nums.logarray";
  fn_pos_s_p_adjacency_list_bits := "pos_s_p_adjacency_list_bits.bitarray";
  fn_pos_s_p_adjacency_list_bit_index_blocks := "pos_s_p_adjacency_list_bit_index_blocks.logarray";
  fn_pos_s_p_adjacency_list_bit_index_sblocks := "pos_s_p_adjacency_list_bit_index_sblocks.logarray";
  fn_pos_sp_o_adjacency_list_nums := "pos_sp_o_adjacency_list_nums.logarray";
  fn_pos_sp_o_adjacency_list_bits := "pos_sp_o_adjacency_list_bits.bitarray";
  fn_pos_sp_o_adjacency_list_bit_index_blocks := "pos_sp_o_adjacency_list_bit_index_blocks.logarray";
  fn_pos_sp_o_adjacency_list_bit_index_sblocks := "pos_sp_o_adjacency_list_bit_index_sblocks.logarray";
  fn_pos_o_ps_adjacency_list_nums := "pos_o_ps_adjacency_list_nums.logarray";
  fn_pos_o_ps_adjacency_list_bits := "pos_o_ps_adjacency_list_bits.bitarray";
  fn_pos_o_ps_adjacency_list_bit_index_blocks := "pos_o_ps_adjacency_list_bit_index_blocks.logarray";
  fn_pos_o_ps_adjacency_list_bit_index_sblocks := "pos_o_ps_adjacency_list_bit_index_sblocks.logarray";
  fn_neg_subjects := "child_neg_subjects.logarray";
  fn_neg_objects := "child_neg_objects.logarray";
  fn_neg_s_p_adjacency_list_nums := "neg_s_p_adjacency_list_nums.logarray";
  fn_neg_s_p_adjacency_list_bits := "neg_s_p_adjacency_list_bits.bitarray";
  fn_neg_s_p_adjacency_list_bit_index_blocks := "neg_s_p_adjacency_list_bit_index_blocks.logarray";
  fn_neg_s_p_adjacency_list_bit_index_sblocks := "neg_s_p_adjacency_list_bit_index_sblocks.logarray";
  fn_neg_sp_o_adjacency_list_nums := "neg_sp_o_adjacency_list_nums.logarray";
  fn_neg_sp_o_adjacency_list_bits := "neg_sp_o_adjacency_list_bits.bitarray";
  fn_neg_sp_o_adjacency_list_bit_index_blocks := "neg_sp_o_adjacency_list_bit_index_blocks.logarray";
  fn_neg_sp_o_adjacency_list_bit_index_sblocks := "neg_sp_o_adjacency_list_bit_index_sblocks.logarray";
  fn_neg_o_ps_adjacency_list_nums := "neg_o_ps_adjacency_list_nums.logarray";
  fn_neg_o_ps_adjacency_list_bits := "neg_o_ps_adjacency_list_bits.bitarray";
  fn_neg_o_ps_adjacency_list_bit_index_blocks := "neg_o_ps_adjacency_list_bit_index_blocks.logarray";
  fn_neg_o_ps_adjacency_list_bit_index_sblocks := "neg_o_ps_adjacency_list_bit_index_sblocks.logarray";
  fn_base_predicate_wavelet_tree_bits := "base_predicate_wavelet_tree_bits.bitarray";
  fn_base_predicate_wavelet_tree_bit_index_blocks := "base_predicate_wavelet_tree_bit_index_blocks.logarray";
  fn_base_predicate_wavelet_tree_bit_index_sblocks := "base_predicate_wavelet_tree_bit_index_sblocks.logarray";
  fn_pos_predicate_wavelet_tree_bits := "pos_predicate_wavelet_tree_bits.bitarray";
  fn_pos_predicate_wavelet_tree_bit_index_blocks := "pos_predicate_wavelet_tree_bit_index_blocks.logarray";
  fn_pos_predicate_wavelet_tree_bit_index_sblocks := "pos_predicate_wavelet_tree_bit_index_sblocks.logarray";
  fn_neg_predicate_wavelet_tree_bits := "neg_predicate_wavelet_tree_bits.bitarray";
  fn_neg_predicate_wavelet_tree_bit_index_blocks := "neg_predicate_wavelet_tree_bit_index_blocks.logarray";
  fn_neg_predicate_wavelet_tree_bit_index_sblocks := "neg_predicate_wavelet_tree_bit_index_sblocks.logarray";
  fn_parent := "parent.hex";
  fn_rollup := "rollup.hex";
|}.

(** The pairs of [FILENAME_ENUM_MAP]. *)
Definition filename_enum_pairs : list (string * LayerFileEnum) := [
  ("node_dictionary_blocks.tfc", NodeDictionaryBlocks);
  ("node_dictionary_offsets.logarray", NodeDictionaryOffsets);
  ("predicate_dictionary_blocks.tfc", PredicateDictionaryBlocks);
  ("predicate_dictionary_offsets.logarray", PredicateDictionaryOffsets);
  ("value_dictionary_types.logarray", ValueDictionaryTypesPresent);
  ("value_dictionary_type_offsets.logarray", ValueDictionaryTypeOffsets);
  ("value_dictionary_blocks.tfc", ValueDictionaryBlocks);
  ("value_dictionary_offsets.logarray", ValueDictionaryOffsets);
  ("node_value_idmap_bits.bitarray", NodeValueIdMapBits);
  ("node_value_idmap_bit_index_blocks.bitarray", NodeValueIdMapBitIndexBlocks);
  ("node_value_idmap_bit_index_sblocks.bitarray", NodeValueIdMapBitIndexSBlocks);
  ("predicate_idmap_bits.bitarray", PredicateIdMapBits);
  ("predicate_idmap_bit_index_blocks.bitarray", PredicateIdMapBitIndexBlocks);
  ("predicate_idmap_bit_index_sblocks.bitarray", PredicateIdMapBitIndexSBlocks);
  ("base_subjects.logarray", PosSubjects);
  ("base_objects.logarray", PosObjects);
  ("child_pos_subjects.logarray", PosSubjects);
  ("child_pos_objects.logarray", PosObjects);
  ("child_neg_subjects.logarray", NegSubjects);
  ("child_neg_objects.logarray", NegObjects);
  ("base_s_p_adjacency_list_nums.logarray", PosSPAdjacencyListNums);
  ("base_s_p_adjacency_list_bits.bitarray", PosSPAdjacencyListBits);
  ("base_s_p_adjacency_list_bit_index_blocks.logarray", PosSPAdjacencyListBitIndexBlocks);
  ("base_s_p_adjacency_list_bit_index_sblocks.logarray", PosSPAdjacencyListBitIndexSBlocks);
  ("base_sp_o_adjacency_list_nums.logarray", PosSpOAdjacencyListNums);
  ("base_sp_o_adjacency_list_bits.bitarray", PosSpOAdjacencyListBits);
  ("base_sp_o_adjacency_list_bit_index_blocks.logarray", PosSpOAdjacencyListBitIndexBlocks);
  ("base_sp_o_adjacency_list_bit_index_sblocks.logarray", PosSpOAdjacencyListBitIndexSBlocks);
  ("base_o_ps_adjacency_list_nums.logarray", PosOPsAdjacencyListNums);
  ("base_o_ps_adjacency_list_bits.bitarray", PosOPsAdjacencyListBits);
  ("base_o_ps_adjacency_list_bit_index_blocks.logarray", PosOPsAdjacencyListBitIndexBlocks);
  ("base_o_ps_adjacency_list_bit_index_sblocks.logarray", PosOPsAdjacencyListBitIndexSBlocks);
  ("base_predicate_wavelet_tree_bits.bitarray", PosPredicateWaveletTreeBits);
  ("base_predicate_wavelet_tree_bit_index_blocks.logarray", PosPredicateWaveletTreeBitIndexBlocks);
  ("base_predicate_wavelet_tree_bit_index_sblocks.logarray", PosPredicateWaveletTreeBitIndexSBlocks);
  ("pos_s_p_adjacency_list_nums.logarray", PosSPAdjacencyListNums);
  ("pos_s_p_adjacency_list_bits.bitarray", PosSPAdjacencyListBits);
  ("pos_s_p_adjacency_list_bit_index_blocks.logarray", PosSPAdjacencyListBitIndexBlocks);
  ("pos_s_p_adjacency_list_bit_index_sblocks.logarray", PosSPAdjacencyListBitIndexSBlocks);
  ("pos_sp_o_adjacency_list_nums.logarray", PosSpOAdjacencyListNums);
  ("pos_sp_o_adjacency_list_bits.bitarray", PosSpOAdjacencyListBits);
  ("pos_sp_o_adjacency_list_bit_index_blocks.logarray", PosSpOAdjacencyListBitIndexBlocks);
  ("pos_sp_o_adjacency_list_bit_index_sblocks.logarray", PosSpOAdjacencyListBitIndexSBlocks);
  ("pos_o_ps_adjacency_list_nums.logarray", PosOPsAdjacencyListNums);
  ("pos_o_ps_adjacency_list_bits.bitarray", PosOPsAdjacencyListBits);
  ("pos_o_ps_adjacency_list_bit_index_blocks.logarray", PosOPsAdjacencyListBitIndexBlocks);
  ("pos_o_ps_adjacency_list_bit_index_sblocks.logarray", PosOPsAdjacencyListBitIndexSBlocks);
  ("pos_predicate_wavelet_tree_bits.bitarray", PosPredicateWaveletTreeBits);
  ("pos_predicate_wavelet_tree_bit_index_blocks.logarray", PosPredicateWaveletTreeBitIndexBlocks);
  ("pos_predicate_wavelet_tree_bit_index_sblocks.logarray", PosPredicateWaveletTreeBitIndexSBlocks);
  ("neg_s_p_adjacency_list_nums.logarray", NegSPAdjacencyListNums);
  ("neg_s_p_adjacency_list_bits.bitarray", NegSPAdjacencyListBits);
  ("neg_s_p_adjacency_list_bit_index_blocks.logarray", NegSPAdjacencyListBitIndexBlocks);
  ("neg_s_p_adjacency_list_bit_index_sblocks.logarray", NegSPAdjacencyListBitIndexSBlocks);
  ("neg_sp_o_adjacency_list_nums.logarray", NegSpOAdjacencyListNums);
  ("neg_sp_o_adjacency_list_bits.bitarray", NegSpOAdjacencyListBits);
  ("neg_sp_o_adjacency_list_bit_index_blocks.logarray", NegSpOAdjacencyListBitIndexBlocks);
  ("neg_sp_o_adjacency_list_bit_index_sblocks.logarray", NegSpOAdjacencyListBitIndexSBlocks);
  ("neg_o_ps_adjacency_list_nums.logarray", NegOPsAdjacencyListNums);
  ("neg_o_ps_adjacency_list_bits.bitarray", NegOPsAdjacencyListBits);
  ("neg_o_ps_adjacency_list_bit_index_blocks.logarray", NegOPsAdjacencyListBitIndexBlocks);
  ("neg_o_ps_adjacency_list_bit_index_sblocks.logarray", NegOPsAdjacencyListBitIndexSBlocks);
  ("neg_predicate_wavelet_tree_bits.bitarray", NegPredicateWaveletTreeBits);
  ("neg_predicate_wavelet_tree_bit_index_blocks.logarray", NegPredicateWaveletTreeBitIndexBlocks);
  ("neg_predicate_wavelet_tree_bit_index_sblocks.logarray", NegPredicateWaveletTreeBitIndexSBlocks);
  ("parent.hex", Parent);
  ("rollup.hex", Rollup)
].

Definition FILENAME_ENUM_MAP : gmap string LayerFileEnum := list_to_map filename_enum_pairs.

(** The discriminants. *)
Definition all_layer_files : list LayerFileEnum := [
  NodeDictionaryBlocks;
  NodeDictionaryOffsets;
  PredicateDictionaryBlocks;
  PredicateDictionaryOffsets;
  ValueDictionaryTypesPresent;
  ValueDictionaryTypeOffsets;
  ValueDictionaryBlocks;
  ValueDictionaryOffsets;
  NodeValueIdMapBits;
  NodeValueIdMapBitIndexBlocks;
  NodeValueIdMapBitIndexSBlocks;
  PredicateIdMapBits;
  PredicateIdMapBitIndexBlocks;
  PredicateIdMapBitIndexSBlocks;
  PosSubjects;
  PosObjects;
  NegSubjects;
  NegObjects;
  PosSPAdjacencyListNums;
  PosSPAdjacencyListBits;
  PosSPAdjacencyListBitIndexBlocks;
  PosSPAdjacencyListBitIndexSBlocks;
  PosSpOAdjacencyListNums;
  PosSpOAdjacencyListBits;
  PosSpOAdjacencyListBitIndexBlocks;
  PosSpOAdjacencyListBitIndexSBlocks;
  PosOPsAdjacencyListNums;
  PosOPsAdjacencyListBits;
  PosOPsAdjacencyListBitIndexBlocks;
  PosOPsAdjacencyListBitIndexSBlocks;
  PosPredicateWaveletTreeBits;
  PosPredicateWaveletTreeBitIndexBlocks;
  PosPredicateWaveletTreeBitIndexSBlocks;
  NegSPAdjacencyListNums;
  NegSPAdjacencyListBits;
  NegSPAdjacencyListBitIndexBlocks;
  NegSPAdjacencyListBitIndexSBlocks;
  NegSpOAdjacencyListNums;
  NegSpOAdjacencyListBits;
  NegSpOAdjacencyListBitIndexBlocks;
  NegSpOAdjacencyListBitIndexSBlocks;
  NegOPsAdjacencyListNums;
  NegOPsAdjacencyListBits;
  NegOPsAdjacencyListBitIndexBlocks;
  NegOPsAdjacencyListBitIndexSBlocks;
  NegPredicateWaveletTreeBits;
  NegPredicateWaveletTreeBitIndexBlocks;
  NegPredicateWaveletTreeBitIndexSBlocks;
  Parent;
  Rollup].

Definition file_number (f : LayerFileEnum) : nat :=
  match f with
  | NodeDictionaryBlocks => 0
  | NodeDictionaryOffsets => 1
  | PredicateDictionaryBlocks => 2
  | PredicateDictionaryOffsets => 3
  | ValueDictionaryTypesPresent => 4
  | ValueDictionaryTypeOffsets => 5
  | ValueDictionaryBlocks => 6
  | ValueDictionaryOffsets => 7
  | NodeValueIdMapBits => 8
  | NodeValueIdMapBitIndexBlocks => 9
  | NodeValueIdMapBitIndexSBlocks => 10
  | PredicateIdMapBits => 11
  | PredicateIdMapBitIndexBlocks => 12
  | PredicateIdMapBitIndexSBlocks => 13
  | PosSubjects => 14
  | PosObjects => 15
  | NegSubjects => 16
  | NegObjects => 17
  | PosSPAdjacencyListNums => 18
  | PosSPAdjacencyListBits => 19
  | PosSPAdjacencyListBitIndexBlocks => 20
  | PosSPAdjacencyListBitIndexSBlocks => 21
  | PosSpOAdjacencyListNums => 22
  | PosSpOAdjacencyListBits => 23
  | PosSpOAdjacencyListBitIndexBlocks => 24
  | PosSpOAdjacencyListBitIndexSBlocks => 25
  | PosOPsAdjacencyListNums => 26
  | PosOPsAdjacencyListBits => 27
  | PosOPsAdjacencyListBitIndexBlocks => 28
  | PosOPsAdjacencyListBitIndexSBlocks => 29
  | PosPredicateWaveletTreeBits => 30
  | PosPredicateWaveletTreeBitIndexBlocks => 31
  | PosPredicateWaveletTreeBitIndexSBlocks => 32
  | NegSPAdjacencyListNums => 33
  | NegSPAdjacencyListBits => 34
  | NegSPAdjacencyListBitIndexBlocks => 35
  | NegSPAdjacencyListBitIndexSBlocks => 36
  | NegSpOAdjacencyListNums => 37
  | NegSpOAdjacencyListBits => 38
  | NegSpOAdjacencyListBitIndexBlocks => 39
  | NegSpOAdjacencyListBitIndexSBlocks => 40
  | NegOPsAdjacencyListNums => 41
  | NegOPsAdjacencyListBits => 42
  | NegOPsAdjacencyListBitIndexBlocks => 43
  | NegOPsAdjacencyListBitIndexSBlocks => 44
  | NegPredicateWaveletTreeBits => 45
  | NegPredicateWaveletTreeBitIndexBlocks => 46
  | NegPredicateWaveletTreeBitIndexSBlocks => 47
  | Parent => 48
  | Rollup => 49
  end.

(** [FromPrimitive::from_u64] *)
Definition layer_file_of_number (n : nat) : option LayerFileEnum := all_layer_files !! n.

Definition SHARED_REQUIRED_FILES : list string := [
  fn_node_dictionary_blocks FILENAMES;
  fn_node_dictionary_offsets FILENAMES;
  fn_predicate_dictionary_blocks FILENAMES;
  fn_predicate_dictionary_offsets FILENAMES;
  fn_value_dictionary_types_present FILENAMES;
  fn_value_dictionary_type_offsets FILENAMES;
  fn_value_dictionary_blocks FILENAMES;
  fn_value_dictionary_offsets FILENAMES].

Definition SHARED_OPTIONAL_FILES : list string := [
  fn_node_value_idmap_bits FILENAMES;
  fn_node_value_idmap_bit_index_blocks FILENAMES;
  fn_node_value_idmap_bit_index_sblocks FILENAMES;
  fn_predicate_idmap_bits FILENAMES;
  fn_predicate_idmap_bit_index_blocks FILENAMES;
  fn_predicate_idmap_bit_index_sblocks FILENAMES;
  fn_rollup FILENAMES].

Definition BASE_LAYER_REQUIRED_FILES : list string := [
  fn_base_s_p_adjacency_list_nums FILENAMES;
  fn_base_s_p_adjacency_list_bits FILENAMES;
  fn_base_s_p_adjacency_list_bit_index_blocks FILENAMES;
  fn_base_s_p_adjacency_list_bit_index_sblocks FILENAMES;
  fn_base_sp_o_adjacency_list_nums FILENAMES;
  fn_base_sp_o_adjacency_list_bits FILENAMES;
  fn_base_sp_o_adjacency_list_bit_index_blocks FILENAMES;
  fn_base_sp_o_adjacency_list_bit_index_sblocks FILENAMES;
  fn_base_o_ps_adjacency_list_nums FILENAMES;
  fn_base_o_ps_adjacency_list_bits FILENAMES;
  fn_base_o_ps_adjacency_list_bit_index_blocks FILENAMES;
  fn_base_o_ps_adjacency_list_bit_index_sblocks FILENAMES;
  fn_base_predicate_wavelet_tree_bits FILENAMES;
  fn_base_predicate_wavelet_tree_bit_index_blocks FILENAMES;
  fn_base_predicate_wavelet_tree_bit_index_sblocks FILENAMES].

Definition BASE_LAYER_OPTIONAL_FILES : list string := [
  fn_base_subjects FILENAMES;
  fn_base_objects FILENAMES].

Definition CHILD_LAYER_REQUIRED_FILES : list string := [
  fn_parent FILENAMES;
  fn_pos_s_p_adjacency_list_nums FILENAMES;
  fn_pos_s_p_adjacency_list_bits FILENAMES;
  fn_pos_s_p_adjacency_list_bit_index_blocks FILENAMES;
  fn_pos_s_p_adjacency_list_bit_index_sblocks FILENAMES;
  fn_pos_sp_o_adjacency_list_nums FILENAMES;
  fn_pos_sp_o_adjacency_list_bits FILENAMES;
  fn_pos_sp_o_adjacency_list_bit_index_blocks FILENAMES;
  fn_pos_sp_o_adjacency_list_bit_index_sblocks FILENAMES;
  fn_pos_o_ps_adjacency_list_nums FILENAMES;
  fn_pos_o_ps_adjacency_list_bits FILENAMES;
  fn_pos_o_ps_adjacency_list_bit_index_blocks FILENAMES;
  fn_pos_o_ps_adjacency_list_bit_index_sblocks FILENAMES;
  fn_pos_predicate_wavelet_tree_bits FILENAMES;
  fn_pos_predicate_wavelet_tree_bit_index_blocks FILENAMES;
  fn_pos_predicate_wavelet_tree_bit_index_sblocks FILENAMES;
  fn_neg_s_p_adjacency_list_nums FILENAMES;
  fn_neg_s_p_adjacency_list_bits FILENAMES;
  fn_neg_s_p_adjacency_list_bit_index_blocks FILENAMES;
  fn_neg_s_p_adjacency_list_bit_index_sblocks FILENAMES;
  fn_neg_sp_o_adjacency_list_nums FILENAMES;
  fn_neg_sp_o_adjacency_list_bits FILENAMES;
  fn_neg_sp_o_adjacency_list_bit_index_blocks FILENAMES;
  fn_neg_sp_o_adjacency_list_bit_index_sblocks FILENAMES;
  fn_neg_o_ps_adjacency_list_nums FILENAMES;
  fn_neg_o_ps_adjacency_list_bits FILENAMES;
  fn_neg_o_ps_adjacency_list_bit_index_blocks FILENAMES;
  fn_neg_o_ps_adjacency_list_bit_index_sblocks FILENAMES;
  fn_neg_predicate_wavelet_tree_bits FILENAMES;
  fn_neg_predicate_wavelet_tree_bit_index_blocks FILENAMES;
  fn_neg_predicate_wavelet_tree_bit_index_sblocks FILENAMES].

Definition CHILD_LAYER_OPTIONAL_FILES : list string := [
  fn_pos_subjects FILENAMES;
  fn_pos_objects FILENAMES;
  fn_neg_subjects FILENAMES;
  fn_neg_objects FILENAMES].

(** ** Laws *)

(** The fields of [FILENAMES]. *)
Definition all_filenames : list string := [
  fn_node_dictionary_blocks FILENAMES;
  fn_node_dictionary_offsets FILENAMES;
  fn_predicate_dictionary_blocks FILENAMES;
  fn_predicate_dictionary_offsets FILENAMES;
  fn_value_dictionary_types_present FILENAMES;
  fn_value_dictionary_type_offsets FILENAMES;
  fn_value_dictionary_blocks FILENAMES;
  fn_value_dictionary_offsets FILENAMES;
  fn_node_value_idmap_bits FILENAMES;
  fn_node_value_idmap_bit_index_blocks FILENAMES;
  fn_node_value_idmap_bit_index_sblocks FILENAMES;
  fn_predicate_idmap_bits FILENAMES;
  fn_predicate_idmap_bit_index_blocks FILENAMES;
  fn_predicate_idmap_bit_index_sblocks FILENAMES;
  fn_base_subjects FILENAMES;
  fn_base_objects FILENAMES;
  fn_base_s_p_adjacency_list_nums FILENAMES;
  fn_base_s_p_adjacency_list_bits FILENAMES;
  fn_base_s_p_adjacency_list_bit_index_blocks FILENAMES;
  fn_base_s_p_adjacency_list_bit_index_sblocks FILENAMES;
  fn_base_sp_o_adjacency_list_nums FILENAMES;
  fn_base_sp_o_adjacency_list_bits FILENAMES;
  fn_base_sp_o_adjacency_list_bit_index_blocks FILENAMES;
  fn_base_sp_o_adjacency_list_bit_index_sblocks FILENAMES;
  fn_base_o_ps_adjacency_list_nums FILENAMES;
  fn_base_o_ps_adjacency_list_bits FILENAMES;
  fn_base_o_ps_adjacency_list_bit_index_blocks FILENAMES;
  fn_base_o_ps_adjacency_list_bit_index_sblocks FILENAMES;
  fn_pos_subjects FILENAMES;
  fn_pos_objects FILENAMES;
  fn_pos_s_p_adjacency_list_nums FILENAMES;
  fn_pos_s_p_adjacency_list_bits FILENAMES;
  fn_pos_s_p_adjacency_list_bit_index_blocks FILENAMES;
  fn_pos_s_p_adjacency_list_bit_index_sblocks FILENAMES;
  fn_pos_sp_o_adjacency_list_nums FILENAMES;
  fn_pos_sp_o_adjacency_list_bits FILENAMES;
  fn_pos_sp_o_adjacency_list_bit_index_blocks FILENAMES;
  fn_pos_sp_o_adjacency_list_bit_index_sblocks FILENAMES;
  fn_pos_o_ps_adjacency_list_nums FILENAMES;
  fn_pos_o_ps_adjacency_list_bits FILENAMES;
  fn_pos_o_ps_adjacency_list_bit_index_blocks FILENAMES;
  fn_pos_o_ps_adjacency_list_bit_index_sblocks FILENAMES;
  fn_neg_subjects FILENAMES;
  fn_neg_objects FILENAMES;
  fn_neg_s_p_adjacency_list_nums FILENAMES;
  fn_neg_s_p_adjacency_list_bits FILENAMES;
  fn_neg_s_p_adjacency_list_bit_index_blocks FILENAMES;
  fn_neg_s_p_adjacency_list_bit_index_sblocks FILENAMES;
  fn_neg_sp_o_adjacency_list_nums FILENAMES;
  fn_neg_sp_o_adjacency_list_bits FILENAMES;
  fn_neg_sp_o_adjacency_list_bit_index_blocks FILENAMES;
  fn_neg_sp_o_adjacency_list_bit_index_sblocks FILENAMES;
  fn_neg_o_ps_adjacency_list_nums FILENAMES;
  fn_neg_o_ps_adjacency_list_bits FILENAMES;
  fn_neg_o_ps_adjacency_list_bit_index_blocks FILENAMES;
  fn_neg_o_ps_adjacency_list_bit_index_sblocks FILENAMES;
  fn_base_predicate_wavelet_tree_bits FILENAMES;
  fn_base_predicate_wavelet_tree_bit_index_blocks FILENAMES;
  fn_base_predicate_wavelet_tree_bit_index_sblocks FILENAMES;
  fn_pos_predicate_wavelet_tree_bits FILENAMES;
  fn_pos_predicate_wavelet_tree_bit_index_blocks FILENAMES;
  fn_pos_predicate_wavelet_tree_bit_index_sblocks FILENAMES;
  fn_neg_predicate_wavelet_tree_bits FILENAMES;
  fn_neg_predicate_wavelet_tree_bit_index_blocks FILENAMES;
  fn_neg_predicate_wavelet_tree_bit_index_sblocks FILENAMES;
  fn_parent FILENAMES;
  fn_rollup FILENAMES].

Definition base_files : list string :=
  SHARED_REQUIRED_FILES ++ SHARED_OPTIONAL_FILES ++ BASE_LAYER_REQUIRED_FILES ++ BASE_LAYER_OPTIONAL_FILES.
Definition child_files : list string :=
  SHARED_REQUIRED_FILES ++ SHARED_OPTIONAL_FILES ++ CHILD_LAYER_REQUIRED_FILES ++ CHILD_LAYER_OPTIONAL_FILES.

(** Different fields of [FILENAMES] name different files. *)
Lemma filenames_distinct : NoDup all_filenames.
Proof. apply (bool_decide_unpack _). vm_compute. done. Qed.

Lemma file_number_spec f : layer_file_of_number (file_number f) = Some f.
Proof. by destruct f. Qed.

Lemma file_number_inj f1 f2 : file_number f1 = file_number f2 → f1 = f2.
Proof. intros Hf. apply (inj Some). by rewrite <- !file_number_spec, Hf. Qed.

Lemma file_number_bound f : file_number f < 64.
Proof. destruct f; simpl; lia. Qed.

(** Numbers of the files of one layer. *)
Lemma numbers_distinct fs :
  (fs = base_files ∨ fs = child_files) →
  Forall (λ f, is_Some (FILENAME_ENUM_MAP !! f)) fs ∧ NoDup ((λ f, FILENAME_ENUM_MAP !! f) <$> fs).
Proof. intros [->| ->]; (split; [apply (bool_decide_unpack _)|apply (bool_decide_unpack _)]; vm_compute; done). Qed.

(** Every name has a number. *)
Lemma all_filenames_numbered : Forall (λ f, is_Some (FILENAME_ENUM_MAP !! f)) all_filenames.
Proof. apply (bool_decide_unpack _). vm_compute. done. Qed.
