(* ===== verification/LayerFiles.v ===== *)
(** The files of a layer in a persistent layer store: the trait
    [PersistentLayerStore] of [src/storage/layer.rs] and the records of files of
    [src/storage/file.rs]. *)

From S2P Require Import Prelude Names Text Consts.

(** ** Files and records of files

    A file of the store is known by its layer and its name: two handles of the
    same file share its contents. *)
Record layer_file := LayerFile { lf_dir : name; lf_name : string }.

#[export] Instance layer_file_eq_dec : EqDecision layer_file.
Proof. solve_decision. Defined.

Record DictionaryFiles := { df_blocks : layer_file; df_offsets : layer_file }.

Record TypedDictionaryFiles := {
  tdf_types_present : layer_file;
  tdf_type_offsets : layer_file;
  tdf_offsets : layer_file;
  tdf_blocks : layer_file;
}.

Record BitIndexFiles := { bif_bits : layer_file; bif_blocks : layer_file; bif_sblocks : layer_file }.

Record AdjacencyListFiles := { alf_bitindex : BitIndexFiles; alf_nums : layer_file }.

Record IdMapFiles := { imf_node_value : BitIndexFiles; imf_predicate : BitIndexFiles }.

Record BaseLayerFiles := {
  blf_node_dictionary : DictionaryFiles;
  blf_predicate_dictionary : DictionaryFiles;
  blf_value_dictionary : TypedDictionaryFiles;
  blf_id_map : IdMapFiles;
  blf_subjects : layer_file;
  blf_objects : layer_file;
  blf_s_p_adjacency_list : AdjacencyListFiles;
  blf_sp_o_adjacency_list : AdjacencyListFiles;
  blf_o_ps_adjacency_list : AdjacencyListFiles;
  blf_predicate_wavelet_tree : BitIndexFiles;
}.

Record ChildLayerFiles := {
  clf_node_dictionary : DictionaryFiles;
  clf_predicate_dictionary : DictionaryFiles;
  clf_value_dictionary : TypedDictionaryFiles;
  clf_id_map : IdMapFiles;
  clf_pos_subjects : layer_file;
  clf_pos_objects : layer_file;
  clf_neg_subjects : layer_file;
  clf_neg_objects : layer_file;
  clf_pos_s_p_adjacency_list : AdjacencyListFiles;
  clf_pos_sp_o_adjacency_list : AdjacencyListFiles;
  clf_pos_o_ps_adjacency_list : AdjacencyListFiles;
  clf_neg_s_p_adjacency_list : AdjacencyListFiles;
  clf_neg_sp_o_adjacency_list : AdjacencyListFiles;
  clf_neg_o_ps_adjacency_list : AdjacencyListFiles;
  clf_pos_predicate_wavelet_tree : BitIndexFiles;
  clf_neg_predicate_wavelet_tree : BitIndexFiles;
}.

Inductive LayerFiles :=
  | BaseFiles (files : BaseLayerFiles)
  | ChildFiles (files : ChildLayerFiles).

Definition lf_node_dictionary_files (f : LayerFiles) : DictionaryFiles :=
  match f with BaseFiles b => blf_node_dictionary b | ChildFiles c => clf_node_dictionary c end.
Definition lf_predicate_dictionary_files (f : LayerFiles) : DictionaryFiles :=
  match f with BaseFiles b => blf_predicate_dictionary b | ChildFiles c => clf_predicate_dictionary c end.
Definition lf_value_dictionary_files (f : LayerFiles) : TypedDictionaryFiles :=
  match f with BaseFiles b => blf_value_dictionary b | ChildFiles c => clf_value_dictionary c end.
Definition into_base (f : LayerFiles) : outcome BaseLayerFiles :=
  match f with BaseFiles b => Ok b | _ => Panic end.
Definition into_child (f : LayerFiles) : outcome ChildLayerFiles :=
  match f with ChildFiles c => Ok c | _ => Panic end.

(** ** The required methods of the trait

    The last three are the methods of the files ([FileLoad] and [FileStore]):
    [f_read] opens a file and reads it to the end, [f_write] opens it for writing,
    writes all of it and synchronizes it. *)
Class PersistentLayerStore (S : Type) := {
  directories : io S (list name);
  create_named_directory : name → io S name;
  directory_exists : name → io S bool;
  get_file : name → string → io S layer_file;
  file_exists : name → string → io S bool;
  pls_finalize : name → io S unit;
  f_exists : layer_file → io S bool;
  f_read : layer_file → io S string;
  f_write : layer_file → string → io S unit;
}.

Section provided.
Context {S : Type} `{!PersistentLayerStore S}.

(** [create_directory]; the random name is an argument. *)
Definition create_directory (random : name) : io S name := create_named_directory random.

Definition layer_has_rollup (n : name) : io S bool := file_exists n (fn_rollup FILENAMES).
Definition layer_has_parent (n : name) : io S bool := file_exists n (fn_parent FILENAMES).

(** ** Parent and rollup files *)

Definition write_parent_file (dir_name parent_name : name) : io S unit :=
  file ← get_file dir_name (fn_parent FILENAMES);
  f_write file (name_to_string parent_name).

(** [read_exact] into a buffer of 40 bytes. *)
Definition read_parent_file (dir_name : name) : io S name :=
  file ← get_file dir_name (fn_parent FILENAMES);
  s ← f_read file;
  if decide (String.length s < 40)%nat then throw UnexpectedEof
  else lift (bytes_to_name (String.substring 0 40 s)).

Definition rollup_contents (rollup_name : name) : string :=
  "1"%string +:+ String newline (name_to_string rollup_name +:+ String newline EmptyString).

Definition write_rollup_file (dir_name rollup_name : name) : io S unit :=
  file ← get_file dir_name (fn_rollup FILENAMES);
  f_write file (rollup_contents rollup_name).

Definition read_rollup_file (dir_name : name) : io S name :=
  file ← get_file dir_name (fn_rollup FILENAMES);
  s ← f_read file;
  match lines (from_utf8_lossy s) with
  | [_version_str; layer_str] => lift (string_to_name layer_str)
  | _ => throw InvalidData
  end.

Definition layer_parent (n : name) : io S (option name) :=
  exists_ ← directory_exists n;
  if exists_ : bool then
    has_parent ← layer_has_parent n;
    if has_parent : bool then parent ← read_parent_file n; mret (Some parent) else mret None
  else throw NotFound.

(** ** Files of a whole layer *)

Fixpoint get_files (n : name) (filenames : list string) : io S (list layer_file) :=
  match filenames with
  | [] => mret []
  | filename :: filenames =>
      file ← get_file n filename; files ← get_files n filenames; mret (file :: files)
  end.

(** [files[i]] *)
Definition idx (files : list layer_file) (i : nat) : outcome layer_file := unwrap (files !! i).

Definition dictionary_at (files : list layer_file) (i : nat) : outcome DictionaryFiles :=
  b ← idx files i; o ← idx files (i + 1); Ok {| df_blocks := b; df_offsets := o |}.

Definition typed_dictionary_at (files : list layer_file) (i : nat) : outcome TypedDictionaryFiles :=
  p ← idx files i; t ← idx files (i + 1); o ← idx files (i + 2); b ← idx files (i + 3);
  Ok {| tdf_types_present := p; tdf_type_offsets := t; tdf_offsets := o; tdf_blocks := b |}.

Definition bit_index_at (files : list layer_file) (i : nat) : outcome BitIndexFiles :=
  b ← idx files i; k ← idx files (i + 1); s ← idx files (i + 2);
  Ok {| bif_bits := b; bif_blocks := k; bif_sblocks := s |}.

Definition adjacency_list_at (files : list layer_file) (i : nat) : outcome AdjacencyListFiles :=
  b ← bit_index_at files i; n ← idx files (i + 3); Ok {| alf_bitindex := b; alf_nums := n |}.

Definition id_map_at (files : list layer_file) (i : nat) : outcome IdMapFiles :=
  n ← bit_index_at files i; p ← bit_index_at files (i + 3);
  Ok {| imf_node_value := n; imf_predicate := p |}.

Definition base_filenames : list string := [
    fn_node_dictionary_blocks FILENAMES;
    fn_node_dictionary_offsets FILENAMES;
    fn_predicate_dictionary_blocks FILENAMES;
    fn_predicate_dictionary_offsets FILENAMES;
    fn_value_dictionary_types_present FILENAMES;
    fn_value_dictionary_type_offsets FILENAMES;
    fn_value_dictionary_offsets FILENAMES;
    fn_value_dictionary_blocks FILENAMES;
    fn_node_value_idmap_bits FILENAMES;
    fn_node_value_idmap_bit_index_blocks FILENAMES;
    fn_node_value_idmap_bit_index_sblocks FILENAMES;
    fn_predicate_idmap_bits FILENAMES;
    fn_predicate_idmap_bit_index_blocks FILENAMES;
    fn_predicate_idmap_bit_index_sblocks FILENAMES;
    fn_base_subjects FILENAMES;
    fn_base_objects FILENAMES;
    fn_base_s_p_adjacency_list_bits FILENAMES;
    fn_base_s_p_adjacency_list_bit_index_blocks FILENAMES;
    fn_base_s_p_adjacency_list_bit_index_sblocks FILENAMES;
    fn_base_s_p_adjacency_list_nums FILENAMES;
    fn_base_sp_o_adjacency_list_bits FILENAMES;
    fn_base_sp_o_adjacency_list_bit_index_blocks FILENAMES;
    fn_base_sp_o_adjacency_list_bit_index_sblocks FILENAMES;
    fn_base_sp_o_adjacency_list_nums FILENAMES;
    fn_base_o_ps_adjacency_list_bits FILENAMES;
    fn_base_o_ps_adjacency_list_bit_index_blocks FILENAMES;
    fn_base_o_ps_adjacency_list_bit_index_sblocks FILENAMES;
    fn_base_o_ps_adjacency_list_nums FILENAMES;
    fn_base_predicate_wavelet_tree_bits FILENAMES;
    fn_base_predicate_wavelet_tree_bit_index_blocks FILENAMES;
    fn_base_predicate_wavelet_tree_bit_index_sblocks FILENAMES].

Definition base_files_of (files : list layer_file) : outcome BaseLayerFiles :=
  nd ← dictionary_at files 0; pd ← dictionary_at files 2; vd ← typed_dictionary_at files 4;
  im ← id_map_at files 8; s ← idx files 14; o ← idx files 15;
  s_p ← adjacency_list_at files 16; sp_o ← adjacency_list_at files 20; o_ps ← adjacency_list_at files 24;
  wt ← bit_index_at files 28;
  Ok {| blf_node_dictionary := nd; blf_predicate_dictionary := pd; blf_value_dictionary := vd;
        blf_id_map := im; blf_subjects := s; blf_objects := o;
        blf_s_p_adjacency_list := s_p; blf_sp_o_adjacency_list := sp_o;
        blf_o_ps_adjacency_list := o_ps; blf_predicate_wavelet_tree := wt |}.

Definition base_layer_files (n : name) : io S BaseLayerFiles :=
  files ← get_files n base_filenames; lift (base_files_of files).

Definition child_filenames : list string := [
    fn_node_dictionary_blocks FILENAMES;
    fn_node_dictionary_offsets FILENAMES;
    fn_predicate_dictionary_blocks FILENAMES;
    fn_predicate_dictionary_offsets FILENAMES;
    fn_value_dictionary_types_present FILENAMES;
    fn_value_dictionary_type_offsets FILENAMES;
    fn_value_dictionary_offsets FILENAMES;
    fn_value_dictionary_blocks FILENAMES;
    fn_node_value_idmap_bits FILENAMES;
    fn_node_value_idmap_bit_index_blocks FILENAMES;
    fn_node_value_idmap_bit_index_sblocks FILENAMES;
    fn_predicate_idmap_bits FILENAMES;
    fn_predicate_idmap_bit_index_blocks FILENAMES;
    fn_predicate_idmap_bit_index_sblocks FILENAMES;
    fn_pos_subjects FILENAMES;
    fn_pos_objects FILENAMES;
    fn_neg_subjects FILENAMES;
    fn_neg_objects FILENAMES;
    fn_pos_s_p_adjacency_list_bits FILENAMES;
    fn_pos_s_p_adjacency_list_bit_index_blocks FILENAMES;
    fn_pos_s_p_adjacency_list_bit_index_sblocks FILENAMES;
    fn_pos_s_p_adjacency_list_nums FILENAMES;
    fn_pos_sp_o_adjacency_list_bits FILENAMES;
    fn_pos_sp_o_adjacency_list_bit_index_blocks FILENAMES;
    fn_pos_sp_o_adjacency_list_bit_index_sblocks FILENAMES;
    fn_pos_sp_o_adjacency_list_nums FILENAMES;
    fn_pos_o_ps_adjacency_list_bits FILENAMES;
    fn_pos_o_ps_adjacency_list_bit_index_blocks FILENAMES;
    fn_pos_o_ps_adjacency_list_bit_index_sblocks FILENAMES;
    fn_pos_o_ps_adjacency_list_nums FILENAMES;
    fn_neg_s_p_adjacency_list_bits FILENAMES;
    fn_neg_s_p_adjacency_list_bit_index_blocks FILENAMES;
    fn_neg_s_p_adjacency_list_bit_index_sblocks FILENAMES;
    fn_neg_s_p_adjacency_list_nums FILENAMES;
    fn_neg_sp_o_adjacency_list_bits FILENAMES;
    fn_neg_sp_o_adjacency_list_bit_index_blocks FILENAMES;
    fn_neg_sp_o_adjacency_list_bit_index_sblocks FILENAMES;
    fn_neg_sp_o_adjacency_list_nums FILENAMES;
    fn_neg_o_ps_adjacency_list_bits FILENAMES;
    fn_neg_o_ps_adjacency_list_bit_index_blocks FILENAMES;
    fn_neg_o_ps_adjacency_list_bit_index_sblocks FILENAMES;
    fn_neg_o_ps_adjacency_list_nums FILENAMES;
    fn_pos_predicate_wavelet_tree_bits FILENAMES;
    fn_pos_predicate_wavelet_tree_bit_index_blocks FILENAMES;
    fn_pos_predicate_wavelet_tree_bit_index_sblocks FILENAMES;
    fn_neg_predicate_wavelet_tree_bits FILENAMES;
    fn_neg_predicate_wavelet_tree_bit_index_blocks FILENAMES;
    fn_neg_predicate_wavelet_tree_bit_index_sblocks FILENAMES].

Definition child_files_of (files : list layer_file) : outcome ChildLayerFiles :=
  nd ← dictionary_at files 0; pd ← dictionary_at files 2; vd ← typed_dictionary_at files 4;
  im ← id_map_at files 8;
  ps ← idx files 14; po ← idx files 15; ns ← idx files 16; no ← idx files 17;
  ps_p ← adjacency_list_at files 18; psp_o ← adjacency_list_at files 22; po_ps ← adjacency_list_at files 26;
  ns_p ← adjacency_list_at files 30; nsp_o ← adjacency_list_at files 34; no_ps ← adjacency_list_at files 38;
  pwt ← bit_index_at files 42; nwt ← bit_index_at files 45;
  Ok {| clf_node_dictionary := nd; clf_predicate_dictionary := pd; clf_value_dictionary := vd;
        clf_id_map := im;
        clf_pos_subjects := ps; clf_pos_objects := po; clf_neg_subjects := ns; clf_neg_objects := no;
        clf_pos_s_p_adjacency_list := ps_p; clf_pos_sp_o_adjacency_list := psp_o;
        clf_pos_o_ps_adjacency_list := po_ps;
        clf_neg_s_p_adjacency_list := ns_p; clf_neg_sp_o_adjacency_list := nsp_o;
        clf_neg_o_ps_adjacency_list := no_ps;
        clf_pos_predicate_wavelet_tree := pwt; clf_neg_predicate_wavelet_tree := nwt |}.

Definition child_layer_files (n : name) : io S ChildLayerFiles :=
  files ← get_files n child_filenames; lift (child_files_of files).

(** ** Files of a part of a layer *)

(** Run the body if the layer exists. *)
Definition if_layer {A} (layer : name) (body : io S A) : io S A :=
  exists_ ← directory_exists layer;
  if exists_ : bool then body else throw NotFound.

Definition get_bit_index (layer : name) (bits blocks sblocks : string) : io S BitIndexFiles :=
  b ← get_file layer bits; k ← get_file layer blocks; s ← get_file layer sblocks;
  mret {| bif_bits := b; bif_blocks := k; bif_sblocks := s |}.

Definition get_adjacency_list (layer : name) (nums bits blocks sblocks : string) : io S AdjacencyListFiles :=
  n ← get_file layer nums; b ← get_bit_index layer bits blocks sblocks;
  mret {| alf_bitindex := b; alf_nums := n |}.

Definition node_dictionary_files (layer : name) : io S DictionaryFiles :=
  if_layer layer (
    offsets ← get_file layer (fn_node_dictionary_offsets FILENAMES);
    blocks ← get_file layer (fn_node_dictionary_blocks FILENAMES);
    mret {| df_blocks := blocks; df_offsets := offsets |}).

Definition predicate_dictionary_files (layer : name) : io S DictionaryFiles :=
  if_layer layer (
    offsets ← get_file layer (fn_predicate_dictionary_offsets FILENAMES);
    blocks ← get_file layer (fn_predicate_dictionary_blocks FILENAMES);
    mret {| df_blocks := blocks; df_offsets := offsets |}).

Definition value_dictionary_files (layer : name) : io S TypedDictionaryFiles :=
  if_layer layer (
    types_present ← get_file layer (fn_value_dictionary_types_present FILENAMES);
    type_offsets ← get_file layer (fn_value_dictionary_type_offsets FILENAMES);
    offsets ← get_file layer (fn_value_dictionary_offsets FILENAMES);
    blocks ← get_file layer (fn_value_dictionary_blocks FILENAMES);
    mret {| tdf_types_present := types_present; tdf_type_offsets := type_offsets;
            tdf_offsets := offsets; tdf_blocks := blocks |}).

Definition node_value_idmap_files (layer : name) : io S BitIndexFiles :=
  if_layer layer (get_bit_index layer (fn_node_value_idmap_bits FILENAMES)
    (fn_node_value_idmap_bit_index_blocks FILENAMES) (fn_node_value_idmap_bit_index_sblocks FILENAMES)).

Definition predicate_idmap_files (layer : name) : io S BitIndexFiles :=
  if_layer layer (get_bit_index layer (fn_predicate_idmap_bits FILENAMES)
    (fn_predicate_idmap_bit_index_blocks FILENAMES) (fn_predicate_idmap_bit_index_sblocks FILENAMES)).

Definition triple_addition_files (layer : name)
    : io S (layer_file * AdjacencyListFiles * AdjacencyListFiles) :=
  if_layer layer (
    has_parent ← layer_has_parent layer;
    if has_parent : bool then
      s_p ← get_adjacency_list layer (fn_pos_s_p_adjacency_list_nums FILENAMES) (fn_pos_s_p_adjacency_list_bits FILENAMES)
             (fn_pos_s_p_adjacency_list_bit_index_blocks FILENAMES) (fn_pos_s_p_adjacency_list_bit_index_sblocks FILENAMES);
      sp_o ← get_adjacency_list layer (fn_pos_sp_o_adjacency_list_nums FILENAMES) (fn_pos_sp_o_adjacency_list_bits FILENAMES)
             (fn_pos_sp_o_adjacency_list_bit_index_blocks FILENAMES) (fn_pos_sp_o_adjacency_list_bit_index_sblocks FILENAMES);
      subjects ← get_file layer (fn_pos_subjects FILENAMES);
      mret (subjects, s_p, sp_o)
    else
      s_p ← get_adjacency_list layer (fn_base_s_p_adjacency_list_nums FILENAMES) (fn_base_s_p_adjacency_list_bits FILENAMES)
             (fn_base_s_p_adjacency_list_bit_index_blocks FILENAMES) (fn_base_s_p_adjacency_list_bit_index_sblocks FILENAMES);
      sp_o ← get_adjacency_list layer (fn_base_sp_o_adjacency_list_nums FILENAMES) (fn_base_sp_o_adjacency_list_bits FILENAMES)
             (fn_base_sp_o_adjacency_list_bit_index_blocks FILENAMES) (fn_base_sp_o_adjacency_list_bit_index_sblocks FILENAMES);
      subjects ← get_file layer (fn_base_subjects FILENAMES);
      mret (subjects, s_p, sp_o)).

Definition triple_removal_files (layer : name)
    : io S (option (layer_file * AdjacencyListFiles * AdjacencyListFiles)) :=
  if_layer layer (
    has_parent ← layer_has_parent layer;
    if has_parent : bool then
      s_p ← get_adjacency_list layer (fn_neg_s_p_adjacency_list_nums FILENAMES) (fn_neg_s_p_adjacency_list_bits FILENAMES)
             (fn_neg_s_p_adjacency_list_bit_index_blocks FILENAMES) (fn_neg_s_p_adjacency_list_bit_index_sblocks FILENAMES);
      sp_o ← get_adjacency_list layer (fn_neg_sp_o_adjacency_list_nums FILENAMES) (fn_neg_sp_o_adjacency_list_bits FILENAMES)
             (fn_neg_sp_o_adjacency_list_bit_index_blocks FILENAMES) (fn_neg_sp_o_adjacency_list_bit_index_sblocks FILENAMES);
      subjects ← get_file layer (fn_neg_subjects FILENAMES);
      mret (Some (subjects, s_p, sp_o))
    else mret None).

Definition predicate_wavelet_addition_files (layer : name) : io S BitIndexFiles :=
  if_layer layer (
    has_parent ← layer_has_parent layer;
    if has_parent : bool then
      get_bit_index layer (fn_pos_predicate_wavelet_tree_bits FILENAMES)
           (fn_pos_predicate_wavelet_tree_bit_index_blocks FILENAMES) (fn_pos_predicate_wavelet_tree_bit_index_sblocks FILENAMES)
    else
      get_bit_index layer (fn_base_predicate_wavelet_tree_bits FILENAMES)
           (fn_base_predicate_wavelet_tree_bit_index_blocks FILENAMES) (fn_base_predicate_wavelet_tree_bit_index_sblocks FILENAMES)).

Definition predicate_wavelet_removal_files (layer : name) : io S (option BitIndexFiles) :=
  if_layer layer (
    has_parent ← layer_has_parent layer;
    if has_parent : bool then
      files ← get_bit_index layer (fn_neg_predicate_wavelet_tree_bits FILENAMES)
           (fn_neg_predicate_wavelet_tree_bit_index_blocks FILENAMES) (fn_neg_predicate_wavelet_tree_bit_index_sblocks FILENAMES);
      mret (Some files)
    else mret None).

Definition triple_addition_files_by_object (layer : name)
    : io S (layer_file * layer_file * AdjacencyListFiles * AdjacencyListFiles) :=
  if_layer layer (
    has_parent ← layer_has_parent layer;
    if has_parent : bool then
      o_ps ← get_adjacency_list layer (fn_pos_o_ps_adjacency_list_nums FILENAMES) (fn_pos_o_ps_adjacency_list_bits FILENAMES)
             (fn_pos_o_ps_adjacency_list_bit_index_blocks FILENAMES) (fn_pos_o_ps_adjacency_list_bit_index_sblocks FILENAMES);
      s_p ← get_adjacency_list layer (fn_pos_s_p_adjacency_list_nums FILENAMES) (fn_pos_s_p_adjacency_list_bits FILENAMES)
             (fn_pos_s_p_adjacency_list_bit_index_blocks FILENAMES) (fn_pos_s_p_adjacency_list_bit_index_sblocks FILENAMES);
      subjects ← get_file layer (fn_pos_subjects FILENAMES);
      objects ← get_file layer (fn_pos_objects FILENAMES);
      mret (subjects, objects, o_ps, s_p)
    else
      o_ps ← get_adjacency_list layer (fn_base_o_ps_adjacency_list_nums FILENAMES) (fn_base_o_ps_adjacency_list_bits FILENAMES)
             (fn_base_o_ps_adjacency_list_bit_index_blocks FILENAMES) (fn_base_o_ps_adjacency_list_bit_index_sblocks FILENAMES);
      s_p ← get_adjacency_list layer (fn_base_s_p_adjacency_list_nums FILENAMES) (fn_base_s_p_adjacency_list_bits FILENAMES)
             (fn_base_s_p_adjacency_list_bit_index_blocks FILENAMES) (fn_base_s_p_adjacency_list_bit_index_sblocks FILENAMES);
      subjects ← get_file layer (fn_base_subjects FILENAMES);
      objects ← get_file layer (fn_base_objects FILENAMES);
      mret (subjects, objects, o_ps, s_p)).

Definition triple_removal_files_by_object (layer : name)
    : io S (option (layer_file * layer_file * AdjacencyListFiles * AdjacencyListFiles)) :=
  if_layer layer (
    has_parent ← layer_has_parent layer;
    if has_parent : bool then
      o_ps ← get_adjacency_list layer (fn_neg_o_ps_adjacency_list_nums FILENAMES) (fn_neg_o_ps_adjacency_list_bits FILENAMES)
             (fn_neg_o_ps_adjacency_list_bit_index_blocks FILENAMES) (fn_neg_o_ps_adjacency_list_bit_index_sblocks FILENAMES);
      s_p ← get_adjacency_list layer (fn_neg_s_p_adjacency_list_nums FILENAMES) (fn_neg_s_p_adjacency_list_bits FILENAMES)
             (fn_neg_s_p_adjacency_list_bit_index_blocks FILENAMES) (fn_neg_s_p_adjacency_list_bit_index_sblocks FILENAMES);
      subjects ← get_file layer (fn_neg_subjects FILENAMES);
      objects ← get_file layer (fn_neg_objects FILENAMES);
      mret (Some (subjects, objects, o_ps, s_p))
    else mret None).

Definition triple_layer_addition_count_files (layer : name)
    : io S (layer_file * layer_file * BitIndexFiles) :=
  if_layer layer (
    has_parent ← layer_has_parent layer;
    s_p_nums ← get_file layer (if has_parent : bool then fn_pos_s_p_adjacency_list_nums FILENAMES
                               else fn_base_s_p_adjacency_list_nums FILENAMES);
    sp_o_bits ← get_file layer (if has_parent : bool then fn_pos_sp_o_adjacency_list_bits FILENAMES
                                else fn_base_sp_o_adjacency_list_bits FILENAMES);
    wavelet ← predicate_wavelet_addition_files layer;
    mret (s_p_nums, sp_o_bits, wavelet)).

Definition triple_layer_removal_count_files (layer : name)
    : io S (option (layer_file * layer_file * BitIndexFiles)) :=
  if_layer layer (
    has_parent ← layer_has_parent layer;
    if has_parent : bool then
      s_p_nums ← get_file layer (fn_neg_s_p_adjacency_list_nums FILENAMES);
      sp_o_bits ← get_file layer (fn_neg_sp_o_adjacency_list_bits FILENAMES);
      wavelet ← predicate_wavelet_removal_files layer;
      wavelet ← lift (unwrap wavelet);
      mret (Some (s_p_nums, sp_o_bits, wavelet))
    else mret None).

(** ** [layer_is_ancestor_of]: walk down from the descendant *)
Fixpoint layer_is_ancestor_of (fuel : nat) (descendant ancestor : name) : io S bool :=
  match fuel with
  | O => lift NoFuel
  | Datatypes.S fuel =>
      if decide (ancestor = descendant) then mret true
      else
        has_parent ← layer_has_parent descendant;
        if has_parent : bool then
          parent ← read_parent_file descendant;
          layer_is_ancestor_of fuel parent ancestor
        else mret false
  end.
End provided.
