(* ===== verification/LayerFileSpec.v ===== *)
(** What a persistent layer store promises, and what follows from it for the
    files of a layer: the accessors for a part of a layer hand out the files that
    the record of the whole layer has, parent and rollup files read back what
    was written, and ancestry is the closure of the parent files. *)

From S2P Require Import Prelude Names Text Files LabelSpec Consts LayerFiles.
From stdpp Require Import relations.

(** A store holds the contents of the files of its layers. *)
Notation layer_contents := (gmap string string).
Notation store_map := (gmap name layer_contents).

(** The names of files that a layer may have; a store may reject others. *)
Definition known (f : string) : bool := existsb (String.eqb f) all_filenames.

(** Reading: from a store that holds [m], files have the contents [m] gives them. *)
Class PersistentReadLaws (S : Type) `{PersistentLayerStore S} := {
  pl_rep : S → store_map → Prop;
  directory_exists_spec m d : name_wf d →
    returns pl_rep m (directory_exists d) (Ok (bool_decide (is_Some (m !! d)))) m;
  file_exists_spec m d f : name_wf d → known f = true →
    returns pl_rep m (file_exists d f) (Ok (bool_decide (is_Some (m !! d ≫= (.!! f))))) m;
  get_file_spec m d f : name_wf d → is_Some (m !! d) → known f = true →
    returns pl_rep m (get_file d f) (Ok (LayerFile d f)) m;
  f_exists_spec m d f fs : name_wf d → m !! d = Some fs → known f = true →
    returns pl_rep m (f_exists (LayerFile d f)) (Ok (bool_decide (is_Some (fs !! f)))) m;
  f_read_spec m d f fs : name_wf d → m !! d = Some fs → known f = true →
    returns pl_rep m (f_read (LayerFile d f)) (match fs !! f with Some c => Ok c | None => Err NotFound end) m;
}.

(** Writing: layers are created, and their files written at any time. *)
Class PersistentLayerStoreLaws (S : Type) `{PersistentReadLaws S} := {
  create_named_directory_spec m d : name_wf d → m !! d = None →
    returns pl_rep m (create_named_directory d) (Ok d) (<[d := ∅]> m);
  pls_finalize_spec m d : name_wf d → is_Some (m !! d) → returns pl_rep m (pls_finalize d) (Ok tt) m;
  f_write_spec m d f fs c : name_wf d → m !! d = Some fs → known f = true →
    returns pl_rep m (f_write (LayerFile d f) c) (Ok tt) (<[d := <[f := c]> fs]> m);
}.

(** A rollup file names a layer on its second line. *)
Definition rollup_named (c : string) (r : name) : Prop :=
  ∃ version, lines (from_utf8_lossy c) = [version; name_to_string r].

Lemma rollup_contents_named r : rollup_named (rollup_contents r) r.
Proof.
  exists "1"%string. unfold rollup_contents. rewrite utf8_lossy_ascii.
  - rewrite lines_line by (split; [by split|done]). by rewrite (lines_line _ _ (name_line r)).
  - rewrite all_ascii_app. split; [done|]. split; [done|]. rewrite all_ascii_app.
    split; [apply name_to_string_ascii|done].
Qed.

Lemma rollup_named_functional c r1 r2 : name_wf r1 → name_wf r2 → rollup_named c r1 → rollup_named c r2 → r1 = r2.
Proof. intros H1 H2 [v1 Hc1] [v2 Hc2]. apply name_to_string_inj; [done..|]. congruence. Qed.

(** Rollups may be registered for any layer. *)
Class RollupLaws (S : Type) `{PersistentReadLaws S} := {
  write_rollup_spec s m d r fs : pl_rep s m → name_wf d → name_wf r → m !! d = Some fs →
    ∃ c s', write_rollup_file d r s = (Ok tt, s') ∧ rollup_named c r ∧
      pl_rep s' (<[d := <[fn_rollup FILENAMES := c]> fs]> m);
}.

Section specs.
Context {S : Type} `{PersistentReadLaws S, !PersistentLayerStoreLaws S}.

(** [runs m p a m']: from a store that holds [m], [p] returns [a] and leaves a
    store that holds [m']; [fails m p e]: it returns the error [e]. *)
Definition runs {A} (m : store_map) (p : io S A) (a : A) (m' : store_map) : Prop :=
  returns pl_rep m p (Ok a) m'.
Definition fails {A} (m : store_map) (p : io S A) (e : error_kind) : Prop :=
  returns pl_rep m p (Err e) m.

Lemma runs_ret {A} m (a : A) : runs m (mret a) a m.
Proof. intros s Hs. by exists s. Qed.

Lemma runs_lift {A} m (a : A) o : o = Ok a → runs m (lift o) a m.
Proof. intros -> s Hs. by exists s. Qed.

Lemma runs_bind {A B} m m1 m2 (p : io S A) (k : A → io S B) a b :
  runs m p a m1 → runs m1 (k a) b m2 → runs m (p ≫= k) b m2.
Proof.
  intros Hp Hk s Hs. destruct (Hp s Hs) as (s1 & Hp1 & Hs1). destruct (Hk s1 Hs1) as (s2 & Hk2 & Hs2).
  exists s2. split; [|done]. by rewrite (io_bind_Ok _ _ _ _ _ Hp1).
Qed.

Lemma runs_fails {A B} m (p : io S A) (k : A → io S B) a e :
  runs m p a m → fails m (k a) e → fails m (p ≫= k) e.
Proof.
  intros Hp Hk s Hs. destruct (Hp s Hs) as (s1 & Hp1 & Hs1). destruct (Hk s1 Hs1) as (s2 & Hk2 & Hs2).
  exists s2. split; [|done]. by rewrite (io_bind_Ok _ _ _ _ _ Hp1).
Qed.

Lemma fails_bind {A B} m (p : io S A) (k : A → io S B) e : fails m p e → fails m (p ≫= k) e.
Proof.
  intros Hp s Hs. destruct (Hp s Hs) as (s1 & Hp1 & Hs1). exists s1. split; [|done].
  by rewrite (io_bind_Err _ _ _ _ _ Hp1).
Qed.

Lemma fails_throw {A} m e : fails (A := A) m (throw e) e.
Proof. intros s Hs. by exists s. Qed.

(** ** The calls of the store *)

Section layer.
Context (m : store_map) (d : name) (fs : layer_contents).
Context (Hd : name_wf d) (Hfs : m !! d = Some fs).

Lemma runs_directory_exists : runs m (directory_exists d) true m.
Proof.
  eapply returns_eq; [by apply directory_exists_spec|]. by rewrite bool_decide_eq_true_2 by (rewrite Hfs; eauto).
Qed.

Lemma runs_get_file f : known f = true → runs m (get_file d f) (LayerFile d f) m.
Proof. intros Hk. apply get_file_spec; [done| |done]. rewrite Hfs. eauto. Qed.

Lemma runs_file_exists f : known f = true → runs m (file_exists d f) (bool_decide (is_Some (fs !! f))) m.
Proof. intros Hk. eapply returns_eq; [by apply file_exists_spec|]. by rewrite Hfs. Qed.

Lemma runs_f_read f c : known f = true → fs !! f = Some c → runs m (f_read (LayerFile d f)) c m.
Proof. intros Hk Hc. eapply returns_eq; [by apply (f_read_spec m d f fs)|]. by rewrite Hc. Qed.

Lemma runs_f_write f c : known f = true → runs m (f_write (LayerFile d f) c) tt (<[d := <[f := c]> fs]> m).
Proof. intros Hk. by apply f_write_spec. Qed.

Lemma runs_if_layer {A} (p : io S A) a m' : runs m p a m' → runs m (if_layer d p) a m'.
Proof. intros Hp. eapply runs_bind; [apply runs_directory_exists|done]. Qed.

Lemma runs_get_bit_index a b c :
  known a = true → known b = true → known c = true →
  runs m (get_bit_index d a b c)
    {| bif_bits := LayerFile d a; bif_blocks := LayerFile d b; bif_sblocks := LayerFile d c |} m.
Proof. intros. unfold get_bit_index. do 3 (eapply runs_bind; [by apply runs_get_file|]). apply runs_ret. Qed.

Lemma runs_get_adjacency_list n a b c :
  known n = true → known a = true → known b = true → known c = true →
  runs m (get_adjacency_list d n a b c)
    {| alf_bitindex := {| bif_bits := LayerFile d a; bif_blocks := LayerFile d b; bif_sblocks := LayerFile d c |};
       alf_nums := LayerFile d n |} m.
Proof.
  intros. unfold get_adjacency_list. eapply runs_bind; [by apply runs_get_file|].
  eapply runs_bind; [by apply runs_get_bit_index|]. apply runs_ret.
Qed.

Lemma runs_get_files names : forallb known names = true → runs m (get_files d names) (LayerFile d <$> names) m.
Proof.
  induction names as [|n names IH]; [intros _; apply runs_ret|]. cbn [get_files forallb].
  intros [Hn Hnames]%andb_prop. specialize (IH Hnames). eapply runs_bind; [by apply runs_get_file|]. eapply runs_bind; [exact IH|]. apply runs_ret.
Qed.

(** ** Whole layers *)

Definition bit_index_of (a b c : string) : BitIndexFiles :=
  {| bif_bits := LayerFile d a; bif_blocks := LayerFile d b; bif_sblocks := LayerFile d c |}.
Definition adjacency_list_of (n a b c : string) : AdjacencyListFiles :=
  {| alf_bitindex := bit_index_of a b c; alf_nums := LayerFile d n |}.

Lemma runs_base_layer_files : ∃ B, runs m (base_layer_files d) B m ∧
  base_files_of (LayerFile d <$> base_filenames) = Ok B.
Proof.
  eexists. split; [|reflexivity]. eapply runs_bind; [by apply runs_get_files|]. by apply runs_lift.
Qed.

Lemma runs_child_layer_files : ∃ C, runs m (child_layer_files d) C m ∧
  child_files_of (LayerFile d <$> child_filenames) = Ok C.
Proof.
  eexists. split; [|reflexivity]. eapply runs_bind; [by apply runs_get_files|]. by apply runs_lift.
Qed.

(** ** Parts of layers *)

Lemma runs_layer_has_parent : runs m (layer_has_parent d) (bool_decide (is_Some (fs !! fn_parent FILENAMES))) m.
Proof. by apply runs_file_exists. Qed.

Lemma runs_layer_has_rollup : runs m (layer_has_rollup d) (bool_decide (is_Some (fs !! fn_rollup FILENAMES))) m.
Proof. by apply runs_file_exists. Qed.

(** Run a sequence of calls that hand out files. *)
Ltac run_files :=
  repeat first
    [ apply runs_ret | apply runs_get_bit_index; reflexivity
    | eapply runs_if_layer
    | eapply runs_bind;
      [first [apply runs_get_file; reflexivity | apply runs_get_bit_index; reflexivity
             | apply runs_get_adjacency_list; reflexivity] | cbv beta] ].

Lemma runs_if_parent {A} (p q : io S A) a :
  runs m (if bool_decide (is_Some (fs !! fn_parent FILENAMES)) then p else q) a m →
  runs m (if_layer d (has_parent ← layer_has_parent d; if has_parent : bool then p else q)) a m.
Proof.
  intros Hpq. apply runs_if_layer. eapply runs_bind; [apply runs_layer_has_parent|exact Hpq].
Qed.

(** The accessors for parts of a base layer agree with its record of files. *)
Lemma runs_base_parts :
  fs !! fn_parent FILENAMES = None →
  ∃ B, runs m (base_layer_files d) B m ∧ base_files_of (LayerFile d <$> base_filenames) = Ok B ∧
    runs m (node_dictionary_files d) (blf_node_dictionary B) m ∧
    runs m (predicate_dictionary_files d) (blf_predicate_dictionary B) m ∧
    runs m (value_dictionary_files d) (blf_value_dictionary B) m ∧
    runs m (node_value_idmap_files d) (imf_node_value (blf_id_map B)) m ∧
    runs m (predicate_idmap_files d) (imf_predicate (blf_id_map B)) m ∧
    runs m (triple_addition_files d) (blf_subjects B, blf_s_p_adjacency_list B, blf_sp_o_adjacency_list B) m ∧
    runs m (triple_removal_files d) None m ∧
    runs m (predicate_wavelet_addition_files d) (blf_predicate_wavelet_tree B) m ∧
    runs m (predicate_wavelet_removal_files d) None m ∧
    runs m (triple_addition_files_by_object d)
      (blf_subjects B, blf_objects B, blf_o_ps_adjacency_list B, blf_s_p_adjacency_list B) m ∧
    runs m (triple_removal_files_by_object d) None m ∧
    runs m (triple_layer_addition_count_files d)
      (alf_nums (blf_s_p_adjacency_list B), bif_bits (alf_bitindex (blf_sp_o_adjacency_list B)),
       blf_predicate_wavelet_tree B) m ∧
    runs m (triple_layer_removal_count_files d) None m.
Proof.
  intros Hp. eexists. split.
  { eapply runs_bind; [by apply runs_get_files|]. by apply runs_lift. }
  split; [reflexivity|]. assert (∀ A (p q : io S A) a, runs m q a m →
    runs m (if_layer d (has_parent ← layer_has_parent d; if has_parent : bool then p else q)) a m) as Hbase.
  { intros A p q a Hq. apply runs_if_parent. by rewrite Hp, bool_decide_eq_false_2 by by intros [? [=]]. }
  simpl. assert (runs m (predicate_wavelet_addition_files d) (bit_index_of (fn_base_predicate_wavelet_tree_bits FILENAMES)
    (fn_base_predicate_wavelet_tree_bit_index_blocks FILENAMES)
    (fn_base_predicate_wavelet_tree_bit_index_sblocks FILENAMES)) m) as Hw by (apply Hbase; run_files).
  repeat (apply conj); try (apply Hbase); try exact Hw; try (run_files; fail).
  unfold triple_layer_addition_count_files. apply runs_if_layer.
  eapply runs_bind; [apply runs_layer_has_parent|]. rewrite Hp, bool_decide_eq_false_2 by by intros [? [=]].
  run_files. eapply runs_bind; [exact Hw|]. apply runs_ret.
Qed.

(** So do those of a child layer. *)
Lemma runs_child_parts c :
  fs !! fn_parent FILENAMES = Some c →
  ∃ C, runs m (child_layer_files d) C m ∧ child_files_of (LayerFile d <$> child_filenames) = Ok C ∧
    runs m (node_dictionary_files d) (clf_node_dictionary C) m ∧
    runs m (predicate_dictionary_files d) (clf_predicate_dictionary C) m ∧
    runs m (value_dictionary_files d) (clf_value_dictionary C) m ∧
    runs m (node_value_idmap_files d) (imf_node_value (clf_id_map C)) m ∧
    runs m (predicate_idmap_files d) (imf_predicate (clf_id_map C)) m ∧
    runs m (triple_addition_files d)
      (clf_pos_subjects C, clf_pos_s_p_adjacency_list C, clf_pos_sp_o_adjacency_list C) m ∧
    runs m (triple_removal_files d)
      (Some (clf_neg_subjects C, clf_neg_s_p_adjacency_list C, clf_neg_sp_o_adjacency_list C)) m ∧
    runs m (predicate_wavelet_addition_files d) (clf_pos_predicate_wavelet_tree C) m ∧
    runs m (predicate_wavelet_removal_files d) (Some (clf_neg_predicate_wavelet_tree C)) m ∧
    runs m (triple_addition_files_by_object d)
      (clf_pos_subjects C, clf_pos_objects C, clf_pos_o_ps_adjacency_list C, clf_pos_s_p_adjacency_list C) m ∧
    runs m (triple_removal_files_by_object d)
      (Some (clf_neg_subjects C, clf_neg_objects C, clf_neg_o_ps_adjacency_list C,
             clf_neg_s_p_adjacency_list C)) m ∧
    runs m (triple_layer_addition_count_files d)
      (alf_nums (clf_pos_s_p_adjacency_list C), bif_bits (alf_bitindex (clf_pos_sp_o_adjacency_list C)),
       clf_pos_predicate_wavelet_tree C) m ∧
    runs m (triple_layer_removal_count_files d)
      (Some (alf_nums (clf_neg_s_p_adjacency_list C), bif_bits (alf_bitindex (clf_neg_sp_o_adjacency_list C)),
             clf_neg_predicate_wavelet_tree C)) m.
Proof.
  intros Hp. eexists. split.
  { eapply runs_bind; [by apply runs_get_files|]. by apply runs_lift. }
  split; [reflexivity|]. assert (∀ A (p q : io S A) a, runs m p a m →
    runs m (if_layer d (has_parent ← layer_has_parent d; if has_parent : bool then p else q)) a m) as Hchild.
  { intros A p q a Hq. apply runs_if_parent. by rewrite Hp, bool_decide_eq_true_2 by eauto. }
  simpl. assert (runs m (predicate_wavelet_addition_files d) (bit_index_of (fn_pos_predicate_wavelet_tree_bits FILENAMES)
    (fn_pos_predicate_wavelet_tree_bit_index_blocks FILENAMES)
    (fn_pos_predicate_wavelet_tree_bit_index_sblocks FILENAMES)) m) as Hw by (apply Hchild; run_files).
  assert (runs m (predicate_wavelet_removal_files d) (Some (bit_index_of (fn_neg_predicate_wavelet_tree_bits FILENAMES)
    (fn_neg_predicate_wavelet_tree_bit_index_blocks FILENAMES)
    (fn_neg_predicate_wavelet_tree_bit_index_sblocks FILENAMES))) m) as Hn by (apply Hchild; run_files).
  repeat (apply conj); try (apply Hchild); try exact Hw; try exact Hn; try (run_files; fail).
  - unfold triple_layer_addition_count_files. apply runs_if_layer.
    eapply runs_bind; [apply runs_layer_has_parent|]. rewrite Hp, bool_decide_eq_true_2 by eauto.
    run_files. eapply runs_bind; [exact Hw|]. apply runs_ret.
  - run_files. eapply runs_bind; [exact Hn|]. eapply runs_bind; [by apply runs_lift|]. apply runs_ret.
Qed.

(** ** Parent and rollup files *)

Lemma substring_all s : String.substring 0 (String.length s) s = s.
Proof. pose proof (str_take_app s EmptyString) as Hs. by rewrite string_app_empty in Hs. Qed.

Lemma runs_write_parent p :
  runs m (write_parent_file d p) tt (<[d := <[fn_parent FILENAMES := name_to_string p]> fs]> m).
Proof. eapply runs_bind; [by apply runs_get_file|]. by apply runs_f_write. Qed.

Lemma runs_read_parent p :
  name_wf p → fs !! fn_parent FILENAMES = Some (name_to_string p) → runs m (read_parent_file d) p m.
Proof.
  intros Hp Hf. eapply runs_bind; [by apply runs_get_file|]. eapply runs_bind; [by apply runs_f_read|].
  pose proof (name_to_string_length p) as Hlen. rewrite decide_False by lia. apply runs_lift.
  rewrite <- Hlen, substring_all. by apply bytes_to_name_to_string.
Qed.

Lemma runs_write_rollup p :
  runs m (write_rollup_file d p) tt (<[d := <[fn_rollup FILENAMES := rollup_contents p]> fs]> m).
Proof. eapply runs_bind; [by apply runs_get_file|]. by apply runs_f_write. Qed.

Lemma runs_read_rollup p c :
  name_wf p → fs !! fn_rollup FILENAMES = Some c → rollup_named c p → runs m (read_rollup_file d) p m.
Proof.
  intros Hp Hf [v Hc]. eapply runs_bind; [by apply runs_get_file|]. eapply runs_bind; [by apply runs_f_read|].
  rewrite Hc. apply runs_lift. by apply string_to_name_to_string.
Qed.
End layer.

(** ** Missing layers *)

Lemma runs_no_directory m d : name_wf d → m !! d = None → runs m (directory_exists d) false m.
Proof.
  intros Hd Hm. eapply returns_eq; [by apply directory_exists_spec|].
  by rewrite bool_decide_eq_false_2 by (rewrite Hm; by intros [? [=]]).
Qed.

Lemma fails_if_layer {A} m d (p : io S A) : name_wf d → m !! d = None → fails m (if_layer d p) NotFound.
Proof.
  intros Hd Hm. apply (runs_fails m _ _ false); [by apply runs_no_directory|apply fails_throw].
Qed.

(** ** Ancestry *)

(** The parent file of [d] names [p]. *)
Definition parent_in (m : store_map) (d p : name) : Prop :=
  name_wf p ∧ ∃ fs, m !! d = Some fs ∧ fs !! fn_parent FILENAMES = Some (name_to_string p).

(** Layers have valid names, and a parent file names a layer of the store. *)
Record layers_wf (m : store_map) : Prop := {
  lw_names d : is_Some (m !! d) → name_wf d;
  lw_parents d fs c : m !! d = Some fs → fs !! fn_parent FILENAMES = Some c →
    ∃ p, parent_in m d p ∧ is_Some (m !! p);
}.

(** The number of parents up to the base layer. *)
Inductive depth (m : store_map) : name → nat → Prop :=
  | depth_base d fs : m !! d = Some fs → fs !! fn_parent FILENAMES = None → depth m d 0
  | depth_child d p n : parent_in m d p → depth m p n → depth m d (Datatypes.S n).

(** [a] is [d] or one of its ancestors. *)
Definition ancestor_in (m : store_map) (d a : name) : Prop := rtc (parent_in m) d a.

Lemma parent_in_functional m d p1 p2 : parent_in m d p1 → parent_in m d p2 → p1 = p2.
Proof.
  intros (Hw1 & fs1 & Hd1 & H1) (Hw2 & fs2 & Hd2 & H2).
  apply name_to_string_inj; [done..|]. congruence.
Qed.

Lemma parent_in_lookup m d p fs :
  parent_in m d p → m !! d = Some fs → fs !! fn_parent FILENAMES = Some (name_to_string p) ∧ name_wf p.
Proof. intros (Hw & fs' & Hd & Hf) Hd'. simplify_eq. done. Qed.

Lemma runs_is_ancestor m d a n fuel :
  layers_wf m → depth m d n → n < fuel →
  ∃ b, runs m (layer_is_ancestor_of fuel d a) b m ∧ (b = true ↔ ancestor_in m d a).
Proof.
  intros Hm Hdep. revert fuel.
  induction Hdep as [d fs Hd Hf|d p n Hp Hdep IH]; intros [|fuel] Hn; try lia;
    cbn [layer_is_ancestor_of]; (destruct (decide (a = d)) as [->|Hne];
      [exists true; split; [apply runs_ret|split; [intros _; apply rtc_refl|done]]|]).
  - exists false. split.
    + assert (name_wf d) as Hwd by (apply (lw_names _ Hm); eauto).
      eapply runs_bind; [by apply runs_layer_has_parent|].
      rewrite Hf, bool_decide_eq_false_2 by by intros [? [=]]. apply runs_ret.
    + split; [done|]. intros Hr. apply rtc_inv in Hr as [->|(p & (_ & fs' & Hd' & Hp) & _)]; [done|congruence].
  - destruct (IH fuel) as (b & Hb & Hiff); [lia|]. exists b. split.
    + pose proof Hp as (Hw & fs & Hd & Hf).
      assert (name_wf d) as Hwd by (apply (lw_names _ Hm); eauto).
      eapply runs_bind; [by apply runs_layer_has_parent|].
      rewrite Hf, bool_decide_eq_true_2 by eauto.
      eapply runs_bind; [exact (runs_read_parent m d fs Hwd Hd p Hw Hf)|exact Hb].
    + rewrite Hiff. split; [by apply rtc_l|].
      intros Hr. apply rtc_inv in Hr as [->|(p' & Hp' & Hr)]; [done|].
      by rewrite (parent_in_functional _ _ _ _ Hp Hp').
Qed.
End specs.

#[export] Instance rollup_laws {S : Type} `{PersistentLayerStoreLaws S} : RollupLaws S.
Proof.
  split. intros s m d r fs Hs Hd _ Hfs. exists (rollup_contents r).
  destruct (runs_write_rollup m d fs Hd Hfs r s Hs) as (s' & Hw & Hs'). exists s'.
  split; [done|]. split; [apply rollup_contents_named|done].
Qed.

#[export] Hint Resolve runs_ret runs_get_file runs_file_exists runs_directory_exists
  runs_get_bit_index runs_get_adjacency_list : layer_files.

(** Writing both files of a layer and reading them. *)
Lemma runs_parent_rollup {S : Type} `{PersistentLayerStoreLaws S} m d p r fs :
  name_wf d → name_wf p → name_wf r → m !! d = Some fs →
  let fs' := <[fn_rollup FILENAMES := rollup_contents r]> (<[fn_parent FILENAMES := name_to_string p]> fs) in
  runs m (_ ← write_parent_file d p; write_rollup_file d r) tt (<[d := fs']> m) ∧
  runs (<[d := fs']> m) (layer_parent d) (Some p) (<[d := fs']> m) ∧
  runs (<[d := fs']> m) (read_rollup_file d) r (<[d := fs']> m).
Proof.
  intros Hd Hp Hr Hm fs'. assert (<[d := fs']> m !! d = Some fs') as Hm' by apply lookup_insert_eq.
  assert (fs' !! fn_parent FILENAMES = Some (name_to_string p)) as Hpar.
  { subst fs'. rewrite lookup_insert_ne by done. apply lookup_insert_eq. }
  split_and!.
  - eapply runs_bind; [by apply (runs_write_parent m d fs)|]. subst fs'.
    set (fs1 := <[fn_parent FILENAMES := name_to_string p]> fs).
    pose proof (runs_write_rollup (<[d := fs1]> m) d fs1 Hd (lookup_insert_eq m d fs1) r) as Hw.
    rewrite insert_insert_eq in Hw. exact Hw.
  - eapply runs_bind; [apply (runs_directory_exists _ d fs' Hd Hm')|]. cbn.
    eapply runs_bind; [apply (runs_layer_has_parent _ d fs' Hd Hm')|]. rewrite Hpar. cbn.
    eapply runs_bind; [exact (runs_read_parent _ d fs' Hd Hm' p Hp Hpar)|apply runs_ret].
  - eapply (runs_read_rollup _ d fs' Hd Hm' r); [done|apply lookup_insert_eq|apply rollup_contents_named].
Qed.
