(* ===== verification/LayerStores.v ===== *)
(** The persistent layer stores: [MemoryLayerStore] of [src/storage/memory.rs] and
    [DirectoryLayerStore] of [src/storage/directory.rs], with the proofs that they
    satisfy [PersistentLayerStoreLaws]. The files that the two hand out
    ([MemoryBackedStore], [FileBackedStore]) are types of [tdb_succinct]: a file
    exists once it was written, is read from the start, and is written anew. *)

From S2P Require Import Prelude Names Text Files Consts LayerFiles LayerFileSpec.

(** * [MemoryLayerStore]

    A file handed out before it was written is [None]. *)
Notation memory_layers := (gmap name (gmap string (option string))).

Definition memory_directories : io memory_layers (list name) := λ s, (Ok (map_to_list s).*1, s).

Definition memory_create_named_directory (n : name) : io memory_layers name :=
  s ← read_state; _ ← write_state (<[n := ∅]> s); mret n.

Definition memory_directory_exists (n : name) : io memory_layers bool :=
  s ← read_state; mret (bool_decide (is_Some (s !! n))).

(** [MemoryBackedStore::exists] *)
Definition backed_exists (file : option string) : bool := bool_decide (is_Some file).

Definition memory_file_exists (directory : name) (file : string) : io memory_layers bool :=
  s ← read_state;
  match s !! directory with
  | Some files => match files !! file with Some f => mret (backed_exists f) | None => mret false end
  | None => mret false
  end.

Definition memory_get_file (directory : name) (file : string) : io memory_layers layer_file :=
  s ← read_state;
  match s !! directory with
  | Some files =>
      match files !! file with
      | Some _ => mret (LayerFile directory file)
      | None => _ ← write_state (<[directory := <[file := None]> files]> s);
                mret (LayerFile directory file)
      end
  | None => throw NotFound
  end.

Definition memory_read (f : layer_file) : io memory_layers string :=
  λ s, (match s !! lf_dir f ≫= (.!! lf_name f) with Some (Some c) => Ok c | _ => Err NotFound end, s).

Definition memory_write (f : layer_file) (c : string) : io memory_layers unit :=
  λ s, (Ok tt, match s !! lf_dir f with
               | Some files => <[lf_dir f := <[lf_name f := Some c]> files]> s
               | None => s
               end).

#[export] Instance memory_layer_store : PersistentLayerStore memory_layers := {|
  directories := memory_directories;
  create_named_directory := memory_create_named_directory;
  directory_exists := memory_directory_exists;
  get_file := memory_get_file;
  file_exists := memory_file_exists;
  pls_finalize _ := mret tt;
  f_exists f := memory_file_exists (lf_dir f) (lf_name f);
  f_read := memory_read;
  f_write := memory_write;
|}.

(** * [DirectoryLayerStore]

    Paths are relative to the directory of the store. *)
Notation tree := (gmap (list string) entry).

Definition PREFIX_DIR_SIZE : nat := 3.

Definition layer_path (n : name) : list string :=
  [str_take PREFIX_DIR_SIZE (name_to_string n); name_to_string n].

(** [fs::create_dir_all] *)
Fixpoint create_dir_all (above path : list string) : io tree unit :=
  match path with
  | [] => mret tt
  | component :: path =>
      t ← read_state;
      match t !! (above ++ [component]) with
      | Some DirEntry => create_dir_all (above ++ [component]) path
      | Some (FileEntry _) => throw AlreadyExists
      | None =>
          _ ← write_state (<[above ++ [component] := DirEntry]> t);
          create_dir_all (above ++ [component]) path
      end
  end.

(** [read_dir] gives the entries of the directory of the store, in some order. *)
Fixpoint names_of_entries (entries : list (list string * entry)) : outcome (list name) :=
  match entries with
  | ([component], DirEntry) :: entries =>
      n ← string_to_name component; ns ← names_of_entries entries; Ok (n :: ns)
  | _ :: entries => names_of_entries entries
  | [] => Ok []
  end.

Definition dir_directories : io tree (list name) := λ t, (names_of_entries (map_to_list t), t).

Definition dir_create_named_directory (n : name) : io tree name :=
  _ ← create_dir_all [] (layer_path n); mret n.

Definition dir_directory_exists (n : name) : io tree bool :=
  λ t, (Ok match t !! layer_path n with Some DirEntry => true | _ => false end, t).

Definition dir_get_file (n : name) (file : string) : io tree layer_file := mret (LayerFile n file).

Definition file_path (f : layer_file) : list string := layer_path (lf_dir f) ++ [lf_name f].

Definition dir_file_exists (n : name) (file : string) : io tree bool :=
  λ t, (Ok match t !! file_path (LayerFile n file) with Some (FileEntry _) => true | _ => false end, t).

(** The directory is opened and synchronized. *)
Definition dir_finalize (n : name) : io tree unit :=
  λ t, (match t !! layer_path n with Some _ => Ok tt | None => Err NotFound end, t).

Definition dir_read (f : layer_file) : io tree string :=
  λ t, (match t !! file_path f with
        | Some (FileEntry c) => Ok c
        | Some DirEntry => Err Other
        | None => Err NotFound
        end, t).

Definition dir_write (f : layer_file) (c : string) : io tree unit :=
  λ t, match t !! layer_path (lf_dir f), t !! file_path f with
       | Some DirEntry, Some DirEntry => (Err Other, t)
       | Some DirEntry, _ => (Ok tt, <[file_path f := FileEntry c]> t)
       | _, _ => (Err NotFound, t)
       end.

#[export] Instance directory_layer_store : PersistentLayerStore tree := {|
  directories := dir_directories;
  create_named_directory := dir_create_named_directory;
  directory_exists := dir_directory_exists;
  get_file := dir_get_file;
  file_exists := dir_file_exists;
  pls_finalize := dir_finalize;
  f_exists f := dir_file_exists (lf_dir f) (lf_name f);
  f_read := dir_read;
  f_write := dir_write;
|}.

(** * The laws in memory *)

Definition memory_layers_rep (s : memory_layers) (m : store_map) : Prop :=
  ∀ d, m !! d = (λ fs, omap id fs) <$> s !! d.

Lemma memory_rep_Some s m d fs :
  memory_layers_rep s m → m !! d = Some fs → ∃ gs, s !! d = Some gs ∧ fs = omap id gs.
Proof. intros Hr Hd. rewrite Hr in Hd. apply fmap_Some in Hd as (gs & Hs & ->). eauto. Qed.

Lemma memory_rep_None s m d : memory_layers_rep s m → m !! d = None → s !! d = None.
Proof. intros Hr Hd. rewrite Hr in Hd. by apply fmap_None in Hd. Qed.

Lemma memory_rep_insert s m d gs fs :
  memory_layers_rep s m → fs = omap id gs → memory_layers_rep (<[d := gs]> s) (<[d := fs]> m).
Proof.
  intros Hr -> d'. destruct (decide (d = d')) as [<-|Hd]; [by rewrite !lookup_insert_eq|].
  rewrite !lookup_insert_ne by done. apply Hr.
Qed.

Lemma omap_None (gs : gmap string (option string)) f :
  omap id (<[f := None]> gs) = delete f (omap (M := gmap string) id gs).
Proof. by rewrite omap_insert_None. Qed.

#[export] Program Instance memory_layer_store_reads : PersistentReadLaws memory_layers := {|
  pl_rep := memory_layers_rep;
|}.
Next Obligation.
  intros m d _ s Hr. exists s. split; [|done]. simpl. unfold memory_directory_exists. eval_io. do 2 f_equal.
  apply bool_decide_ext. rewrite Hr. by rewrite fmap_is_Some.
Qed.
Next Obligation.
  intros m d f _ _ s Hr. exists s. split; [|done]. simpl. unfold memory_file_exists, backed_exists. eval_io. rewrite Hr.
  destruct (s !! d) as [gs|]; [|done]. simpl. rewrite lookup_omap. by destruct (gs !! f).
Qed.
Next Obligation.
  intros m d f _ [fs Hd] _ s Hr. destruct (memory_rep_Some _ _ _ _ Hr Hd) as (gs & Hs & ->). simpl.
  unfold memory_get_file. eval_io. rewrite Hs. destruct (gs !! f) eqn:Hf; [by exists s|].
  eexists. split; [done|]. intros d'. destruct (decide (d = d')) as [<-|Hne].
  - rewrite lookup_insert_eq, Hd. simpl. f_equal. rewrite omap_None.
    rewrite delete_id; [done|]. by rewrite lookup_omap, Hf.
  - rewrite lookup_insert_ne by done. apply Hr.
Qed.
Next Obligation.
  intros m d f fs _ Hd _ s Hr. destruct (memory_rep_Some _ _ _ _ Hr Hd) as (gs & Hs & ->).
  exists s. split; [|done]. simpl.
  unfold memory_file_exists, backed_exists. eval_io. rewrite Hs, lookup_omap. by destruct (gs !! f).
Qed.
Next Obligation.
  intros m d f fs _ Hd _ s Hr. destruct (memory_rep_Some _ _ _ _ Hr Hd) as (gs & Hs & ->).
  exists s. split; [|done]. simpl.
  unfold memory_read. simpl. rewrite Hs. simpl. rewrite lookup_omap. by destruct (gs !! f) as [[]|].
Qed.

#[export] Program Instance memory_layer_store_laws : PersistentLayerStoreLaws memory_layers.
Next Obligation. intros m d _ Hd s Hr. eexists. split; [done|]. by apply memory_rep_insert. Qed.
Next Obligation. intros m d _ _. apply returns_ret. Qed.
Next Obligation.
  intros m d f fs c _ Hd _ s Hr. destruct (memory_rep_Some _ _ _ _ Hr Hd) as (gs & Hs & ->). simpl.
  unfold memory_write. simpl. rewrite Hs. eexists. split; [done|]. apply memory_rep_insert; [done|].
  by rewrite (omap_insert_Some _ _ _ _ c).
Qed.

(** * The laws in directories *)

Record tree_rep (t : tree) (m : store_map) : Prop := {
  tr_layer d fs : m !! d = Some fs → t !! layer_path d = Some DirEntry;
  tr_missing d : name_wf d → m !! d = None → t !! layer_path d = None;
  tr_file d fs f : m !! d = Some fs → t !! file_path (LayerFile d f) = FileEntry <$> fs !! f;
  tr_no_file d f : name_wf d → m !! d = None → t !! file_path (LayerFile d f) = None;
  tr_prefix d c : t !! take 1 (layer_path d) ≠ Some (FileEntry c);
  tr_names d : is_Some (m !! d) → name_wf d;
}.

Lemma layer_path_inj d1 d2 : name_wf d1 → name_wf d2 → layer_path d1 = layer_path d2 → d1 = d2.
Proof.
  intros H1 H2 He. apply name_to_string_inj; [done..|]. exact (f_equal (λ p, nth 1 p EmptyString) He).
Qed.

Lemma file_path_inj d1 d2 f1 f2 :
  name_wf d1 → name_wf d2 → file_path (LayerFile d1 f1) = file_path (LayerFile d2 f2) → d1 = d2 ∧ f1 = f2.
Proof.
  intros H1 H2 He. split.
  - apply name_to_string_inj; [done..|]. exact (f_equal (λ p, nth 1 p EmptyString) He).
  - exact (f_equal (λ p, nth 2 p EmptyString) He).
Qed.

Lemma file_exists_tree t m d f :
  tree_rep t m → name_wf d →
  match t !! file_path (LayerFile d f) with Some (FileEntry _) => true | _ => false end =
    bool_decide (is_Some (m !! d ≫= (.!! f))).
Proof.
  intros Hr Hd. destruct (m !! d) as [fs|] eqn:Hm; simpl.
  - rewrite (tr_file _ _ Hr _ _ f Hm). by destruct (fs !! f).
  - by rewrite (tr_no_file _ _ Hr _ f Hd Hm).
Qed.

Lemma tree_rep_create t m d p :
  tree_rep t m → name_wf d → m !! d = None →
  (p = t ∨ p = <[take 1 (layer_path d) := DirEntry]> t) →
  tree_rep (<[layer_path d := DirEntry]> p) (<[d := ∅]> m).
Proof.
  intros [Hl Hmi Hf Hnf Hp Hn] Hd Hm Hpt.
  assert (∀ q, length q ≠ 1 → p !! q = t !! q) as Hpq.
  { intros q Hq. destruct Hpt as [->| ->]; [done|]. apply lookup_insert_ne. by intros <-. }
  split.
  - intros d' fs [[<- _]|[Hne Hd']]%lookup_insert_Some; [by rewrite lookup_insert_eq|].
    rewrite lookup_insert_ne, Hpq; [by eapply Hl|done|].
    intros ?%layer_path_inj; [done|done|]. apply Hn. eauto.
  - intros d' Hd' [Hnone Hne]%lookup_insert_None.
    rewrite lookup_insert_ne, Hpq; [by apply Hmi|done|]. by intros ?%layer_path_inj.
  - intros d' fs f [[<- <-]|[Hne Hd']]%lookup_insert_Some; rewrite lookup_insert_ne, Hpq by done.
    + by rewrite Hnf.
    + by apply Hf.
  - intros d' f Hd' [Hnone Hne]%lookup_insert_None. rewrite lookup_insert_ne, Hpq by done. by apply Hnf.
  - intros d' c. rewrite lookup_insert_ne by done. destruct Hpt as [->| ->]; [apply Hp|].
    intros [[_ ?]|[_ Hc]]%lookup_insert_Some; [done|]. by apply Hp in Hc.
  - intros d' [fs [[<- _]|[_ ?]]%lookup_insert_Some]; [done|]. apply Hn. eauto.
Qed.

Lemma tree_rep_write t m d f fs c :
  tree_rep t m → m !! d = Some fs →
  tree_rep (<[file_path (LayerFile d f) := FileEntry c]> t) (<[d := <[f := c]> fs]> m).
Proof.
  intros [Hl Hmi Hf Hnf Hp Hn] Hm. assert (name_wf d) as Hd by (apply Hn; eauto). split.
  - intros d' fs' [[<- _]|[_ Hd']]%lookup_insert_Some; rewrite lookup_insert_ne by done; by eapply Hl.
  - intros d' Hd' [Hnone _]%lookup_insert_None. rewrite lookup_insert_ne by done. by apply Hmi.
  - intros d' fs' f' [[<- <-]|[Hne Hd']]%lookup_insert_Some.
    + destruct (decide (f = f')) as [<-|Hff]; [by rewrite !lookup_insert_eq|].
      rewrite !lookup_insert_ne; [by apply Hf|done|]. intros [_ ?]%file_path_inj; done.
    + rewrite lookup_insert_ne; [by apply Hf|]. intros [? _]%file_path_inj; [done|done|]. apply Hn. eauto.
  - intros d' f' Hd' [Hnone Hne]%lookup_insert_None. rewrite lookup_insert_ne; [by apply Hnf|].
    by intros [? _]%file_path_inj.
  - intros d' c'. rewrite lookup_insert_ne by done. apply Hp.
  - intros d' [fs' [[<- _]|[_ ?]]%lookup_insert_Some]; [done|]. apply Hn. eauto.
Qed.

#[export] Program Instance directory_layer_store_reads : PersistentReadLaws tree := {|
  pl_rep := tree_rep;
|}.
Next Obligation.
  intros m d Hd t Hr. exists t. split; [|done]. simpl. unfold dir_directory_exists. destruct (m !! d) as [fs|] eqn:Hm.
  - by rewrite (tr_layer _ _ Hr _ _ Hm).
  - by rewrite (tr_missing _ _ Hr _ Hd Hm).
Qed.
Next Obligation.
  intros m d f Hd _ t Hr. exists t. split; [|done]. simpl. unfold dir_file_exists. by erewrite file_exists_tree.
Qed.
Next Obligation. intros m d f _ _ _. apply returns_ret. Qed.
Next Obligation.
  intros m d f fs Hd Hm _ t Hr. exists t. split; [|done]. simpl. unfold dir_file_exists. erewrite file_exists_tree by done.
  by rewrite Hm.
Qed.
Next Obligation.
  intros m d f fs Hd Hm _ t Hr. exists t. split; [|done]. simpl. unfold dir_read. rewrite (tr_file _ _ Hr _ _ f Hm).
  by destruct (fs !! f).
Qed.

#[export] Program Instance directory_layer_store_laws : PersistentLayerStoreLaws tree.
Next Obligation.
  intros m d Hd Hm t Hr. simpl. unfold dir_create_named_directory, layer_path. cbn [create_dir_all app].
  pose proof (tr_missing _ _ Hr _ Hd Hm) as Hno. pose proof (tr_prefix _ _ Hr d) as Hp.
  unfold layer_path in Hno, Hp. cbn [take] in Hp.
  eval_io. destruct (t !! [_]) as [[c|]|] eqn:Hpre; [by destruct (Hp c)| |].
  - rewrite Hno. eexists. split; [done|]. apply (tree_rep_create t m d t); auto.
  - rewrite lookup_insert_ne by done. rewrite Hno. eexists. split; [done|].
    apply (tree_rep_create t m d); auto.
Qed.
Next Obligation.
  intros m d Hd [fs Hm] t Hr. exists t. split; [|done]. simpl. unfold dir_finalize. by rewrite (tr_layer _ _ Hr _ _ Hm).
Qed.
Next Obligation.
  intros m d f fs c Hd Hm _ t Hr. simpl. unfold dir_write. cbn [lf_dir].
  rewrite (tr_layer _ _ Hr _ _ Hm), (tr_file _ _ Hr _ _ f Hm). eexists. split; [by destruct (fs !! f)|].
  by apply tree_rep_write.
Qed.

(** Listing fails as soon as a layer exists: the entries of the directory of the
    store are the prefixes of the names. *)
Lemma dir_directories_fail t p :
  t !! [p] = Some DirEntry → String.length p ≠ 40 → ∀ ns, (dir_directories t).1 ≠ Ok ns.
Proof.
  intros Ht%elem_of_map_to_list Hp. unfold dir_directories. simpl.
  induction (map_to_list t) as [|[path e] es IH]; [by apply not_elem_of_nil in Ht|].
  apply elem_of_cons in Ht as [[= <- <-]|Ht]; cbn [names_of_entries].
  - intros ns. unfold string_to_name. by rewrite decide_False.
  - intros ns Hns. destruct path as [|c [|]], e; try (by eapply IH).
    apply outcome_bind_inv in Hns as (n & _ & Hns). apply outcome_bind_inv in Hns as (ns' & Hns & _).
    by eapply IH.
Qed.

Lemma layer_prefix_length d : String.length (str_take PREFIX_DIR_SIZE (name_to_string d)) ≠ 40.
Proof.
  pose proof (name_to_string_length d) as Hl. unfold str_take, PREFIX_DIR_SIZE.
  destruct (name_to_string d) as [|a [|b [|c s]]]; try done. cbn. rewrite substring_0. done.
Qed.

Lemma create_dir_all_prefix t t' p s :
  create_dir_all [] [p; s] t = (Ok tt, t') → t' !! [p] = Some DirEntry.
Proof.
  cbn. eval_io. destruct (t !! [p]) as [[c|]|] eqn:Hp; [done|..].
  - destruct (t !! [p; s]) as [[c|]|] eqn:Hs; [done|..]; intros [= <-]; [done|].
    by rewrite lookup_insert_ne.
  - rewrite lookup_insert_ne by done. destruct (t !! [p; s]) as [[c|]|] eqn:Hs; [done|..]; intros [= <-].
    + apply lookup_insert_eq.
    + rewrite lookup_insert_ne by done. apply lookup_insert_eq.
Qed.

(** Creating the directory of a layer creates the one of its prefix. *)
Lemma create_makes_prefix t t' d :
  create_named_directory d t = (Ok d, t') →
  t' !! [str_take PREFIX_DIR_SIZE (name_to_string d)] = Some DirEntry.
Proof.
  change (create_named_directory d t) with (dir_create_named_directory d t).
  intros Hc. unfold dir_create_named_directory in Hc. apply io_bind_inv in Hc as ([] & t1 & Hc & [= ->]).
  by eapply create_dir_all_prefix.
Qed.

Lemma tree_rep_empty : tree_rep ∅ ∅.
Proof. by split; intros *; rewrite ?lookup_empty; try intros [? [=]]. Qed.
