(* ===== verification/Succinct.v ===== *)
(** The interface to [tdb_succinct] and [tfc], the crates that implement the
    succinct structures layers are made of. They are not part of this
    repository, so their types and operations are the fields of a class,
    [SuccinctOps]; what the store relies on are the laws of a second class,
    [SuccinctLaws], each stated through a view of the structure (the rows of an
    adjacency list, the elements of an array, the entries of a dictionary).
    [list_succinct] is a concrete instance over plain lists, used to evaluate
    the development on examples. *)

From S2P Require Import Prelude.

(** Result of looking up an entry in a dictionary ([tfc::block]). *)
Inductive IdLookupResult :=
  | Found (id : nat)
  | Closest (id : nat)
  | IdNotFound.

Definition into_option (r : IdLookupResult) : option nat :=
  match r with Found i => Some i | _ => None end.

(** ** Operations *)

Class SuccinctOps := {
  (** [AdjacencyList] *)
  AdjacencyList : Type;
  aj_left_count : AdjacencyList → nat;
  aj_right_count : AdjacencyList → nat;
  aj_num_at_pos : AdjacencyList → nat → outcome nat;
  aj_bit_at_pos : AdjacencyList → nat → outcome bool;
  aj_offset_for : AdjacencyList → nat → outcome nat;
  aj_left_at_pos : AdjacencyList → nat → outcome nat;
  aj_pair_at_pos : AdjacencyList → nat → outcome (nat * nat);

  (** [AdjacencyListBuilder] *)
  AdjacencyListBuilder : Type;
  ajb_new : AdjacencyListBuilder;
  ajb_push : AdjacencyListBuilder → nat → nat → outcome AdjacencyListBuilder;
  ajb_count : AdjacencyListBuilder → nat;
  ajb_finalize : AdjacencyListBuilder → AdjacencyList;

  (** [MonotonicLogArray] and the builder that writes one *)
  MonotonicLogArray : Type;
  ml_entry : MonotonicLogArray → nat → outcome nat;
  ml_index_of : MonotonicLogArray → nat → option nat;
  ml_nearest_index_of : MonotonicLogArray → nat → nat;
  ml_from_vec : list nat → MonotonicLogArray;

  (** [WaveletTree] and [WaveletLookup] *)
  WaveletTree : Type;
  WaveletLookup : Type;
  wt_len : WaveletTree → nat;
  wt_decode_one : WaveletTree → nat → outcome nat;
  wt_lookup_one : WaveletTree → nat → option nat;
  wt_lookup : WaveletTree → nat → option WaveletLookup;
  wl_len : WaveletLookup → nat;
  wl_entry : WaveletLookup → nat → outcome nat;
  wt_from_iter : list nat → WaveletTree;

  (** [StringDict] *)
  StringDict : Type;
  sd_num_entries : StringDict → nat;
  sd_get : StringDict → nat → option string;
  sd_id : StringDict → string → IdLookupResult;

  (** [TypedDict] and its entries *)
  TypedDictEntry : Type;
  TypedDictEntry_eq_dec :: EqDecision TypedDictEntry;
  TypedDictEntry_countable :: Countable TypedDictEntry;
  te_datatype : TypedDictEntry → nat;
  TypedDict : Type;
  td_num_entries : TypedDict → nat;
  td_entry : TypedDict → nat → option TypedDictEntry;
  td_id_entry : TypedDict → TypedDictEntry → IdLookupResult;
  td_type_segment_offset : TypedDict → nat → option nat;
}.

(** ** Views *)

(** A row of an adjacency list, each number with the bit that marks the last. *)
Fixpoint mark (row : list nat) : list (bool * nat) :=
  match row with
  | [] => []
  | [x] => [(true, x)]
  | x :: row => (false, x) :: mark row
  end.

(** All pairs of an adjacency list in order of position. *)
Definition flat (rows : list (list nat)) : list (bool * nat) := rows ≫= mark.

#[global] Arguments flat : simpl never.

(** The 1-based row in which a position lies. *)
Fixpoint row_of_pos {A} (rows : list (list A)) (pos : nat) : nat :=
  match rows with
  | [] => 0
  | r :: rows => if decide (pos < length r) then 1 else S (row_of_pos rows (pos - length r))
  end.

(** Positions at which [x] occurs. *)
Fixpoint positions_from (i x : nat) (l : list nat) : list nat :=
  match l with
  | [] => []
  | y :: l => if decide (x = y) then i :: positions_from (S i) x l else positions_from (S i) x l
  end.
Notation positions := (positions_from 0).

(** Rows after pushing a pair; the rows skipped hold the number 0. *)
Fixpoint push_last (rows : list (list nat)) (x : nat) : list (list nat) :=
  match rows with
  | [] => []
  | [r] => [r ++ [x]]
  | r :: rows => r :: push_last rows x
  end.
Definition push_rows (rows : list (list nat)) (left right : nat) : list (list nat) :=
  if decide (left = length rows) then push_last rows right
  else rows ++ replicate (left - length rows - 1) [0] ++ [[right]].

(** The order in which pairs may be pushed. *)
Definition push_legal (rows : list (list nat)) (left right : nat) : Prop :=
  length rows < left ∨
  (length rows = left ∧ ∃ r y, last rows = Some r ∧ last r = Some y ∧ y < right).

(** ** Laws *)

Class SuccinctLaws `{SuccinctOps} := {
  aj_rows : AdjacencyList → list (list nat);
  aj_rows_nonempty a : Forall (λ r, r ≠ []) (aj_rows a);
  aj_left_count_spec a : aj_left_count a = length (aj_rows a);
  aj_right_count_spec a : aj_right_count a = length (concat (aj_rows a));
  aj_num_at_pos_spec a i b x : flat (aj_rows a) !! i = Some (b, x) → aj_num_at_pos a i = Ok x;
  aj_bit_at_pos_spec a i b x : flat (aj_rows a) !! i = Some (b, x) → aj_bit_at_pos a i = Ok b;
  aj_offset_for_spec a i :
    i ≤ length (aj_rows a) → aj_offset_for a (S i) = Ok (length (concat (take i (aj_rows a))));
  aj_left_at_pos_spec a i :
    i < length (concat (aj_rows a)) → aj_left_at_pos a i = Ok (row_of_pos (aj_rows a) i);
  aj_pair_at_pos_spec a i x :
    concat (aj_rows a) !! i = Some x → aj_pair_at_pos a i = Ok (row_of_pos (aj_rows a) i, x);

  ajb_rows : AdjacencyListBuilder → list (list nat);
  ajb_new_spec : ajb_rows ajb_new = [];
  ajb_push_spec b left right :
    push_legal (ajb_rows b) left right →
    ∃ b', ajb_push b left right = Ok b' ∧ ajb_rows b' = push_rows (ajb_rows b) left right;
  ajb_count_spec b : ajb_rows b ≠ [] → S (ajb_count b) = length (concat (ajb_rows b));
  ajb_finalize_spec b : aj_rows (ajb_finalize b) = ajb_rows b;

  ml_list : MonotonicLogArray → list nat;
  ml_sorted m : StronglySorted lt (ml_list m);
  ml_entry_spec m i x : ml_list m !! i = Some x → ml_entry m i = Ok x;
  ml_index_of_spec m x i : ml_index_of m x = Some i ↔ ml_list m !! i = Some x;
  ml_nearest_index_of_spec m x :
    ml_nearest_index_of m x = length (filter (λ y, y < x) (ml_list m));
  ml_from_vec_spec l : StronglySorted lt l → ml_list (ml_from_vec l) = l;

  wt_seq : WaveletTree → list nat;
  wt_len_spec t : wt_len t = length (wt_seq t);
  wt_decode_one_spec t i x : wt_seq t !! i = Some x → wt_decode_one t i = Ok x;
  wt_lookup_one_spec t x : wt_lookup_one t x = head (positions x (wt_seq t));
  wl_positions : WaveletLookup → list nat;
  wt_lookup_Some t x l : wt_lookup t x = Some l → wl_positions l = positions x (wt_seq t);
  wt_lookup_None t x : wt_lookup t x = None → positions x (wt_seq t) = [];
  wl_len_spec l : wl_len l = length (wl_positions l);
  wl_entry_spec l i x : wl_positions l !! i = Some x → wl_entry l i = Ok x;
  wt_from_iter_spec l : wt_seq (wt_from_iter l) = l;

  sd_entries : StringDict → list string;
  sd_entries_nodup d : NoDup (sd_entries d);
  sd_num_entries_spec d : sd_num_entries d = length (sd_entries d);
  sd_get_spec d i : sd_get d (S i) = sd_entries d !! i;
  sd_id_spec d s i : sd_id d s = Found i ↔ ∃ j, i = S j ∧ sd_entries d !! j = Some s;

  te_lt : TypedDictEntry → TypedDictEntry → Prop;
  te_lt_dec :: RelDecision te_lt;
  te_lt_order : StrictOrder te_lt;
  te_lt_total x y : te_lt x y ∨ x = y ∨ te_lt y x;
  te_lt_datatype x y : te_datatype x < te_datatype y → te_lt x y;
  td_entries : TypedDict → list TypedDictEntry;
  td_entries_sorted d : StronglySorted te_lt (td_entries d);
  td_num_entries_spec d : td_num_entries d = length (td_entries d);
  td_entry_spec d i : td_entry d (S i) = td_entries d !! i;
  td_id_entry_Found d e i : td_id_entry d e = Found i ↔ ∃ j, i = S j ∧ td_entries d !! j = Some e;
  td_id_entry_Closest d e i :
    td_id_entry d e = Closest i → i = length (filter (λ x, te_lt x e) (td_entries d));
  td_id_entry_NotFound d e :
    td_id_entry d e = IdNotFound →
    ∀ x, x ∈ td_entries d → te_datatype x = te_datatype e → ¬ te_lt x e;
  td_type_segment_Some d dt off :
    td_type_segment_offset d dt = Some off →
    off = length (filter (λ x, te_datatype x < dt) (td_entries d));
  td_type_segment_None d dt :
    td_type_segment_offset d dt = None → ∀ x, x ∈ td_entries d → te_datatype x ≠ dt;
}.

(** ** Lemmas on the views *)

Lemma mark_cons x r : mark (x :: r) = (bool_decide (r = []), x) :: mark r.
Proof. by destruct r. Qed.

Lemma mark_snd r : (mark r).*2 = r.
Proof. induction r as [|x r IH]; [done|]. by rewrite mark_cons, fmap_cons, IH. Qed.

Lemma mark_length r : length (mark r) = length r.
Proof. rewrite <- (mark_snd r) at 2. by rewrite length_fmap. Qed.

Lemma mark_app_single r x : r ≠ [] → mark (r ++ [x]) = (pair false <$> r) ++ [(true, x)].
Proof.
  induction r as [|y r IH]; [done|]. intros _.
  destruct r as [|z r]; [done|]. rewrite <- app_comm_cons, mark_cons.
  rewrite bool_decide_eq_false_2 by done. by rewrite IH.
Qed.

Lemma flat_app r1 r2 : flat (r1 ++ r2) = flat r1 ++ flat r2.
Proof. apply bind_app. Qed.

Lemma flat_cons r rows : flat (r :: rows) = mark r ++ flat rows.
Proof. done. Qed.

Lemma flat_snd rows : (flat rows).*2 = concat rows.
Proof.
  induction rows as [|r rows IH]; [done|].
  by rewrite flat_cons, fmap_app, mark_snd, IH.
Qed.

Lemma flat_length rows : length (flat rows) = length (concat rows).
Proof. by rewrite <- flat_snd, length_fmap. Qed.

Lemma flat_lookup_num rows i b x : flat rows !! i = Some (b, x) → concat rows !! i = Some x.
Proof. intros Hl. by rewrite <- flat_snd, list_lookup_fmap, Hl. Qed.

Lemma concat_lookup_flat rows i x :
  concat rows !! i = Some x → ∃ b, flat rows !! i = Some (b, x).
Proof.
  rewrite <- flat_snd, list_lookup_fmap. intros ([b y] & ? & ?)%fmap_Some. simplify_eq/=. eauto.
Qed.

(** The positions of the first [k] rows. *)
Definition row_offset {A} (rows : list (list A)) (k : nat) : nat := length (concat (take k rows)).

Lemma flat_drop_offset rows k : drop (row_offset rows k) (flat rows) = flat (drop k rows).
Proof.
  unfold row_offset. rewrite <- (take_drop k rows) at 2.
  rewrite flat_app, <- flat_length. apply drop_app_length.
Qed.

Lemma row_offset_all {A} (rows : list (list A)) k : length rows ≤ k → row_offset rows k = length (concat rows).
Proof. intros. unfold row_offset. by rewrite take_ge. Qed.

Lemma row_offset_S {A} (rows : list (list A)) k r :
  rows !! k = Some r → row_offset rows (S k) = row_offset rows k + length r.
Proof.
  intros Hr. unfold row_offset. erewrite take_S_r by done.
  by rewrite concat_app, length_app; simpl; rewrite app_nil_r.
Qed.

Lemma row_offset_cons {A} (r : list A) rows k : row_offset (r :: rows) (S k) = length r + row_offset rows k.
Proof. unfold row_offset. simpl. by rewrite length_app. Qed.

Lemma row_offset_le {A} (rows : list (list A)) k : row_offset rows k ≤ length (concat rows).
Proof.
  unfold row_offset. rewrite <- (take_drop k rows) at 2. rewrite concat_app, length_app. lia.
Qed.

(** The row of a position and the offset of a row are inverse to each other. *)
Lemma row_of_pos_offset {A} (rows : list (list A)) k r j :
  rows !! k = Some r → j < length r → row_of_pos rows (row_offset rows k + j) = S k.
Proof.
  revert k. induction rows as [|r0 rows IH]; intros k Hk Hj; [done|].
  destruct k as [|k]; simplify_eq/=.
  - unfold row_offset. simpl. by rewrite decide_True.
  - rewrite row_offset_cons, decide_False by lia.
    replace (_ + _ - _) with (row_offset rows k + j) by lia. by rewrite IH.
Qed.

Lemma row_of_pos_bound {A} (rows : list (list A)) i :
  i < length (concat rows) → 0 < row_of_pos rows i ∧ row_of_pos rows i ≤ length rows.
Proof.
  revert i. induction rows as [|r rows IH]; intros i Hi; simpl in *; [lia|].
  case_decide; [lia|]. rewrite length_app in Hi. destruct (IH (i - length r)); lia.
Qed.

Lemma concat_lookup_row {A} (rows : list (list A)) i x :
  concat rows !! i = Some x →
  ∃ k r j, rows !! k = Some r ∧ r !! j = Some x ∧ i = row_offset rows k + j.
Proof.
  revert i. induction rows as [|r rows IH]; intros i; [done|]. simpl.
  rewrite lookup_app_Some. intros [Hr|[Hi Hl]].
  - exists 0, r, i. split_and!; try done.
  - destruct (IH _ Hl) as (k & r' & j & Hk & Hj & Hij).
    exists (S k), r', j. rewrite row_offset_cons. split_and!; try done. lia.
Qed.

Lemma row_lookup_concat {A} (rows : list (list A)) k r j x :
  rows !! k = Some r → r !! j = Some x → concat rows !! (row_offset rows k + j) = Some x.
Proof.
  intros Hk Hj. unfold row_offset.
  rewrite <- (take_drop_middle rows k r Hk) at 2.
  rewrite concat_app. simpl. rewrite lookup_app_r by lia.
  rewrite lookup_app_l by (apply lookup_lt_Some in Hj; lia).
  by replace (_ + _ - _) with j by lia.
Qed.

Lemma elem_of_positions_from i x l p :
  p ∈ positions_from i x l ↔ ∃ j, p = i + j ∧ l !! j = Some x.
Proof.
  revert i. induction l as [|y l IH]; intros i; simpl.
  - split; [by intros ?%elem_of_nil|]. by intros (j & _ & ?).
  - assert (p ∈ positions_from (S i) x l ↔ ∃ j, p = i + S j ∧ l !! j = Some x) as Htl.
    { rewrite IH. split; intros (j & -> & Hj); exists j; split; try done; lia. }
    case_decide as Hxy; rewrite ?elem_of_cons, ?Htl; split.
    + intros [->|(j & -> & Hj)]; [exists 0; simplify_eq/=; by rewrite Nat.add_0_r|by exists (S j)].
    + intros ([|j] & -> & Hj); [left; lia|right; by exists j].
    + intros (j & -> & Hj). by exists (S j).
    + intros ([|j] & -> & Hj); simplify_eq/=. by exists j.
Qed.

Section views.
Context `{SuccinctLaws}.

Lemma aj_num_at_concat a i x : concat (aj_rows a) !! i = Some x → aj_num_at_pos a i = Ok x.
Proof. intros [b Hb]%concat_lookup_flat. by eapply aj_num_at_pos_spec. Qed.

Lemma aj_offset_for_row a i :
  i ≤ aj_left_count a → aj_offset_for a (S i) = Ok (row_offset (aj_rows a) i).
Proof. rewrite aj_left_count_spec. apply aj_offset_for_spec. Qed.
End views.
