(* ===== verification/SuccinctList.v ===== *)
(** An instance of the [tdb_succinct] interface over plain lists, with which the
    definitions evaluate and the laws are seen to hold together. Every operation
    is computed from the view; out of range it panics. *)

From S2P Require Import Prelude Succinct.

Fixpoint sortedb {A} (lt : A → A → bool) (l : list A) : bool :=
  match l with
  | [] => true
  | x :: l => forallb (lt x) l && sortedb lt l
  end.

Lemma sortedb_spec {A} (R : A → A → Prop) `{∀ x y, Decision (R x y)} l :
  sortedb (λ x y, bool_decide (R x y)) l = true ↔ StronglySorted R l.
Proof.
  induction l as [|x l IH]; simpl; [by split; [constructor|]|].
  rewrite andb_true_iff, IH, forallb_forall. split.
  - intros [Hx Hs]. constructor; [done|]. apply Forall_forall. intros y Hy.
    eapply bool_decide_eq_true_1. apply Hx. by apply list_elem_of_In.
  - intros [Hs Hx]%StronglySorted_inv. split; [|done]. intros y Hy%list_elem_of_In.
    rewrite Forall_forall in Hx. apply bool_decide_eq_true. auto.
Qed.

(** Read any list as a sorted one. *)
Definition as_sorted {A} (R : A → A → Prop) `{∀ x y, Decision (R x y)} (l : list A) : list A :=
  if sortedb (λ x y, bool_decide (R x y)) l then l else [].

Lemma as_sorted_sorted {A} (R : A → A → Prop) `{∀ x y, Decision (R x y)} l :
  StronglySorted R (as_sorted R l).
Proof. unfold as_sorted. case_match eqn:Hs; [by eapply sortedb_spec|constructor]. Qed.

Lemma as_sorted_id {A} (R : A → A → Prop) `{∀ x y, Decision (R x y)} l :
  StronglySorted R l → as_sorted R l = l.
Proof. intros Hs. unfold as_sorted. by rewrite (proj2 (sortedb_spec R l) Hs). Qed.

Definition nth_ok {A} (l : list A) (i : nat) : outcome A := unwrap (l !! i).

Fixpoint index_of {A} `{EqDecision A} (x : A) (l : list A) : option nat :=
  match l with
  | [] => None
  | y :: l => if decide (x = y) then Some 0 else S <$> index_of x l
  end.

Lemma index_of_Some {A} `{EqDecision A} (x : A) l i : index_of x l = Some i → l !! i = Some x.
Proof.
  revert i. induction l as [|y l IH]; intros i; simpl; [done|]. case_decide.
  - intros [= <-]. by subst.
  - intros (j & Hj & ->)%fmap_Some. by apply IH.
Qed.

Lemma index_of_None {A} `{EqDecision A} (x : A) l : index_of x l = None ↔ x ∉ l.
Proof.
  induction l as [|y l IH]; simpl; [split; [intros _ []%not_elem_of_nil|done]|].
  rewrite not_elem_of_cons. case_decide; [naive_solver|]. rewrite fmap_None, IH. naive_solver.
Qed.

Lemma index_of_NoDup {A} `{EqDecision A} (x : A) l i :
  NoDup l → index_of x l = Some i ↔ l !! i = Some x.
Proof.
  intros Hnd. split; [apply index_of_Some|]. intros Hi.
  destruct (index_of x l) as [j|] eqn:Hj.
  - apply index_of_Some in Hj. f_equal. by eapply NoDup_lookup.
  - apply index_of_None in Hj. by apply list_elem_of_lookup_2 in Hi.
Qed.

(** Dictionary lookup from the index of the entry and the number of smaller ones. *)
Definition lookup_result (index : option nat) (smaller : nat) : IdLookupResult :=
  match index with
  | Some i => Found (S i)
  | None => if decide (smaller = 0) then IdNotFound else Closest smaller
  end.

(** Typed entries are pairs of a datatype and a number. *)
Definition entry_lt (x y : nat * nat) : Prop := x.1 < y.1 ∨ (x.1 = y.1 ∧ x.2 < y.2).
#[export] Instance entry_lt_irrefl : Irreflexive entry_lt.
Proof. intros [x y]. unfold complement, entry_lt. simpl. lia. Qed.
#[export] Instance entry_lt_dec : RelDecision entry_lt.
Proof. intros x y. unfold entry_lt. apply _. Defined.

Definition rows_of (a : list (list nat)) : list (list nat) := filter (λ r, r ≠ []) a.

Definition push_legalb (rows : list (list nat)) (left right : nat) : bool :=
  (length rows <? left) ||
  ((length rows =? left) &&
   match last rows with
   | Some r => match last r with Some y => y <? right | None => false end
   | None => false
   end).

Lemma push_legalb_spec rows left right : push_legal rows left right → push_legalb rows left right = true.
Proof.
  unfold push_legalb, push_legal. intros [Hl|(Hl & r & y & -> & -> & Hy)]; apply orb_true_iff.
  - left. by apply Nat.ltb_lt.
  - right. apply andb_true_iff. split; [by apply Nat.eqb_eq|by apply Nat.ltb_lt].
Qed.

#[export] Instance list_succinct : SuccinctOps := {|
  AdjacencyList := list (list nat);
  aj_left_count a := length (rows_of a);
  aj_right_count a := length (concat (rows_of a));
  aj_num_at_pos a i := nth_ok (concat (rows_of a)) i;
  aj_bit_at_pos a i := fst <$> nth_ok (flat (rows_of a)) i;
  aj_offset_for a i := j ← checked_sub i 1;
    if decide (j ≤ length (rows_of a)) then Ok (length (concat (take j (rows_of a)))) else Panic;
  aj_left_at_pos a i :=
    if decide (i < length (concat (rows_of a))) then Ok (row_of_pos (rows_of a) i) else Panic;
  aj_pair_at_pos a i := x ← nth_ok (concat (rows_of a)) i; Ok (row_of_pos (rows_of a) i, x);
  AdjacencyListBuilder := list (list nat);
  ajb_new := [];
  ajb_push b l r :=
    if push_legalb (rows_of b) l r then Ok (push_rows (rows_of b) l r) else Panic;
  ajb_count b := length (concat (rows_of b)) - 1;
  ajb_finalize b := b;
  MonotonicLogArray := list nat;
  ml_entry m i := nth_ok (as_sorted lt m) i;
  ml_index_of m x := index_of x (as_sorted lt m);
  ml_nearest_index_of m x := length (filter (λ y, y < x) (as_sorted lt m));
  ml_from_vec l := l;
  WaveletTree := list nat;
  WaveletLookup := list nat;
  wt_len t := length t;
  wt_decode_one t i := nth_ok t i;
  wt_lookup_one t x := head (positions x t);
  wt_lookup t x := match positions x t with [] => None | l => Some l end;
  wl_len l := length l;
  wl_entry l i := nth_ok l i;
  wt_from_iter l := l;
  StringDict := list string;
  sd_num_entries d := length (remove_dups d);
  sd_get d i := match i with O => None | S i => remove_dups d !! i end;
  sd_id d s := lookup_result (index_of s (remove_dups d)) 0;
  TypedDictEntry := nat * nat;
  te_datatype e := e.1;
  TypedDict := list (nat * nat);
  td_num_entries d := length (as_sorted entry_lt d);
  td_entry d i := match i with O => None | S i => as_sorted entry_lt d !! i end;
  td_id_entry d e := lookup_result (index_of e (as_sorted entry_lt d))
                       (length (filter (λ x, entry_lt x e) (as_sorted entry_lt d)));
  td_type_segment_offset d dt :=
    if decide (Exists (λ x : nat * nat, x.1 = dt) (as_sorted entry_lt d))
    then Some (length (filter (λ x, x.1 < dt) (as_sorted entry_lt d))) else None;
|}.

(** ** The laws *)

Lemma rows_of_nonempty a : Forall (λ r, r ≠ []) (rows_of a).
Proof. apply Forall_forall. intros r [? _]%list_elem_of_filter. done. Qed.

Lemma rows_of_id a : Forall (λ r, r ≠ []) a → rows_of a = a.
Proof.
  unfold rows_of. induction 1 as [|r a Hr Ha IH]; [done|]. by rewrite filter_cons_True, IH.
Qed.

Lemma push_last_nonempty rows x :
  Forall (λ r : list nat, r ≠ []) rows → Forall (λ r, r ≠ []) (push_last rows x).
Proof.
  induction 1 as [|r [|r' rows] Hr Hrows IH]; simpl; [constructor| |by constructor].
  apply Forall_singleton. by destruct r.
Qed.

Lemma push_rows_nonempty rows l r :
  Forall (λ r : list nat, r ≠ []) rows → Forall (λ r, r ≠ []) (push_rows rows l r).
Proof.
  intros Hr. unfold push_rows. case_decide; [by apply push_last_nonempty|].
  apply Forall_app; split; [done|]. apply Forall_app; split; [by apply Forall_replicate|].
  by apply Forall_singleton.
Qed.

Lemma lookup_result_Found i n k : lookup_result i n = Found k ↔ ∃ j, k = S j ∧ i = Some j.
Proof.
  unfold lookup_result. destruct i as [j|].
  - split; [intros [= <-]; eauto|by intros (? & -> & [= <-])].
  - case_decide; (split; [done|by intros (? & _ & ?)]).
Qed.

#[export] Program Instance list_succinct_laws : SuccinctLaws (H := list_succinct) := {|
  aj_rows (a : list (list nat)) := rows_of a;
  ajb_rows (b : list (list nat)) := rows_of b;
  ml_list (m : list nat) := as_sorted lt m;
  wt_seq (t : list nat) := t;
  wl_positions (l : list nat) := l;
  sd_entries (d : list string) := remove_dups d;
  te_lt := entry_lt;
  td_entries (d : list (nat * nat)) := as_sorted entry_lt d;
|}.
Next Obligation. intros a. apply rows_of_nonempty. Qed.
Next Obligation. done. Qed.
Next Obligation. done. Qed.
Next Obligation. intros a i b x Hl. simpl. unfold nth_ok. by rewrite (flat_lookup_num _ _ _ _ Hl). Qed.
Next Obligation. intros a i b x Hl. simpl. unfold nth_ok. by rewrite Hl. Qed.
Next Obligation.
  intros a i Hi. simpl in *. rewrite Nat.sub_0_r. by rewrite decide_True.
Qed.
Next Obligation. intros a i Hi. simpl in *. by rewrite decide_True. Qed.
Next Obligation. intros a i x Hx. simpl in *. unfold nth_ok. by rewrite Hx. Qed.
Next Obligation. done. Qed.
Next Obligation.
  intros b l r Hl. simpl in *. rewrite push_legalb_spec by done. eexists. split; [done|].
  apply rows_of_id, push_rows_nonempty, rows_of_nonempty.
Qed.
Next Obligation.
  intros b Hb. simpl in *. pose proof (rows_of_nonempty b) as Hall.
  destruct (rows_of b) as [|[|x r] rows]; [done|by inversion Hall|]. simpl. lia.
Qed.
Next Obligation. done. Qed.
Next Obligation. intros m. apply as_sorted_sorted. Qed.
Next Obligation. intros m i x Hx. simpl in *. unfold nth_ok. by rewrite Hx. Qed.
Next Obligation.
  intros m x i. apply index_of_NoDup, (StronglySorted_NoDup lt), as_sorted_sorted.
Qed.
Next Obligation. done. Qed.
Next Obligation. intros l Hl. by apply as_sorted_id. Qed.
Next Obligation. done. Qed.
Next Obligation. intros t i x Hx. simpl in *. unfold nth_ok. by rewrite Hx. Qed.
Next Obligation. done. Qed.
Next Obligation. intros t x l Hl. simpl in *. destruct (positions x t); by simplify_eq. Qed.
Next Obligation. intros t x Hl. simpl in *. by destruct (positions x t). Qed.
Next Obligation. done. Qed.
Next Obligation. intros l i x Hx. simpl in *. unfold nth_ok. by rewrite Hx. Qed.
Next Obligation. done. Qed.
Next Obligation. intros d. apply NoDup_remove_dups. Qed.
Next Obligation. done. Qed.
Next Obligation. done. Qed.
Next Obligation.
  intros d s i. simpl. rewrite lookup_result_Found.
  split; intros (j & -> & Hj); exists j; (split; [done|]);
    apply (index_of_NoDup s); done || apply NoDup_remove_dups.
Qed.
Next Obligation.
  split; [intros [x y]|intros [x1 y1] [x2 y2] [x3 y3]]; unfold complement, entry_lt; simpl; lia.
Qed.
Next Obligation.
  intros [x1 y1] [x2 y2]. simpl. unfold entry_lt. simpl.
  destruct (decide (x1 = x2)), (decide (y1 = y2)); subst; auto; lia.
Qed.
Next Obligation. intros [x1 y1] [x2 y2]. simpl. unfold entry_lt. simpl. lia. Qed.
Next Obligation. intros d. apply as_sorted_sorted. Qed.
Next Obligation. done. Qed.
Next Obligation. done. Qed.
Next Obligation.
  intros d e i. simpl. rewrite lookup_result_Found.
  assert (NoDup (as_sorted entry_lt d)) as Hnd.
  { apply (StronglySorted_NoDup entry_lt), as_sorted_sorted. }
  split; intros (j & -> & Hj); exists j; (split; [done|]); by apply (index_of_NoDup e).
Qed.
Next Obligation.
  intros d e i. simpl. unfold lookup_result. destruct (index_of _ _); [done|].
  case_decide; [done|]. by intros [= <-].
Qed.
Next Obligation.
  intros d e. simpl. unfold lookup_result. destruct (index_of _ _); [done|].
  case_decide as Hz; [|done]. intros _ x Hx _ Hlt. apply length_zero_iff_nil in Hz.
  assert (x ∈ filter (λ x, entry_lt x e) (as_sorted entry_lt d)) as Hin by by apply list_elem_of_filter.
  rewrite Hz in Hin. by apply not_elem_of_nil in Hin.
Qed.
Next Obligation. intros d dt off. simpl. case_decide; [|done]. by intros [= <-]. Qed.
Next Obligation.
  intros d dt. simpl. case_decide as He; [done|]. intros _ x Hx Hdt. apply He.
  apply Exists_exists. eauto.
Qed.
