(* ===== verification/LayerTypes.v ===== *)
(** The data types of [src/layer/layer.rs]: triples of ids, triples of strings,
    partially resolved triples; the [Layer] trait with its default methods; and
    the orders in which triples are stored and iterated. *)

From S2P Require Import Prelude Names Succinct.

(** * Triples of ids *)

Record IdTriple := new_IdTriple { subject : nat; predicate : nat; object : nat }.

#[export] Instance IdTriple_eq_dec : EqDecision IdTriple.
Proof. solve_decision. Defined.

#[export] Instance IdTriple_countable : Countable IdTriple.
Proof.
  refine (inj_countable' (λ t, (subject t, predicate t, object t))
                         (λ '(s, p, o), new_IdTriple s p o) _).
  by intros [].
Defined.

(** ** Orders

    Triples are compared through a key: the derived [Ord] compares subject,
    predicate, object; the object iterators compare object, subject, predicate. *)

Definition key := (nat * nat * nat)%type.

Definition key_lt (a b : key) : Prop :=
  a.1.1 < b.1.1 ∨ (a.1.1 = b.1.1 ∧ (a.1.2 < b.1.2 ∨ (a.1.2 = b.1.2 ∧ a.2 < b.2))).

#[export] Instance key_lt_dec : RelDecision key_lt.
Proof. intros a b. unfold key_lt. apply _. Defined.

#[export] Instance key_lt_trans : Transitive key_lt.
Proof. intros a b c. unfold key_lt. lia. Qed.

#[export] Instance key_lt_irrefl : Irreflexive key_lt.
Proof. intros a. unfold complement, key_lt. lia. Qed.

Lemma key_lt_total a b : key_lt a b ∨ a = b ∨ key_lt b a.
Proof.
  destruct a as [[a1 a2] a3], b as [[b1 b2] b3]. unfold key_lt; simpl.
  destruct (decide (a1 = b1)), (decide (a2 = b2)), (decide (a3 = b3)); subst; auto; lia.
Qed.

(** The derived order. *)
Definition spo (t : IdTriple) : key := (subject t, predicate t, object t).
(** The order of [InternalTripleObjectIterator]. *)
Definition osp (t : IdTriple) : key := (object t, subject t, predicate t).

#[export] Instance spo_inj : Inj (=) (=) spo.
Proof. by intros [] [] [= -> -> ->]. Qed.
#[export] Instance osp_inj : Inj (=) (=) osp.
Proof. by intros [] [] [= -> -> ->]. Qed.

Definition triple_lt (k : IdTriple → key) (a b : IdTriple) : Prop := key_lt (k a) (k b).

#[export] Instance triple_lt_dec k : RelDecision (triple_lt k).
Proof. intros a b. unfold triple_lt. apply _. Defined.
#[export] Instance triple_lt_trans k : Transitive (triple_lt k).
Proof. intros a b c. apply key_lt_trans. Qed.
#[export] Instance triple_lt_irrefl k : Irreflexive (triple_lt k).
Proof. intros a. apply (key_lt_irrefl (k a)). Qed.

(** A list of triples in strictly increasing order. *)
Notation triples_sorted k := (StronglySorted (triple_lt k)).

(** A strictly sorted list is determined by its elements. *)
Lemma triples_sorted_unique k (l1 l2 : list IdTriple) :
  triples_sorted k l1 → triples_sorted k l2 → (∀ t, t ∈ l1 ↔ t ∈ l2) → l1 = l2.
Proof.
  intros H1. revert l2. induction H1 as [|x l1 Hs IH Hx]; intros l2 H2 Hel.
  - destruct l2 as [|y l2]; [done|]. destruct (not_elem_of_nil y). apply Hel. by left.
  - rewrite Forall_forall in Hx. destruct H2 as [|y l2 H2 Hy].
    { destruct (not_elem_of_nil x). apply Hel. by left. }
    rewrite Forall_forall in Hy.
    assert (x = y) as ->.
    { assert (x ∈ y :: l2) as [|Hxl]%elem_of_cons by (apply Hel; by left); [done|].
      assert (y ∈ x :: l1) as [|Hyl]%elem_of_cons by (apply Hel; by left); [done|].
      destruct (irreflexivity (triple_lt k) x). etrans; eauto. }
    f_equal. apply IH; [done|]. intros t. specialize (Hel t). rewrite !elem_of_cons in Hel.
    split; intros Ht.
    + destruct Hel as [[->|?] _]; auto. destruct (irreflexivity (triple_lt k) y). auto.
    + destruct Hel as [_ [->|?]]; auto. destruct (irreflexivity (triple_lt k) y). auto.
Qed.

(** * String triples and partially resolved triples *)

Section layer_types.
Context `{SuccinctOps}.

Inductive ObjectType :=
  | Node (s : string)
  | Value (v : TypedDictEntry).

#[export] Instance ObjectType_eq_dec : EqDecision ObjectType.
Proof. solve_decision. Defined.

Definition ot_node (o : ObjectType) : option string :=
  match o with Node s => Some s | Value _ => None end.
Definition ot_value (o : ObjectType) : option TypedDictEntry :=
  match o with Node _ => None | Value v => Some v end.

Record ValueTriple := new_ValueTriple {
  vt_subject : string; vt_predicate : string; vt_object : ObjectType }.

#[export] Instance ValueTriple_eq_dec : EqDecision ValueTriple.
Proof. solve_decision. Defined.

Definition new_node (s p o : string) : ValueTriple := new_ValueTriple s p (Node o).
Definition new_value (s p : string) (o : TypedDictEntry) : ValueTriple :=
  new_ValueTriple s p (Value o).

Inductive PossiblyResolved (T : Type) :=
  | Unresolved (t : T)
  | Resolved (id : nat).
#[global] Arguments Unresolved {T} t.
#[global] Arguments Resolved {T} id.

Definition is_resolved {T} (r : PossiblyResolved T) : bool :=
  match r with Unresolved _ => false | Resolved _ => true end.
Definition unwrap_unresolved {T} (r : PossiblyResolved T) : outcome T :=
  match r with Unresolved u => Ok u | Resolved _ => Panic end.
Definition unwrap_resolved {T} (r : PossiblyResolved T) : outcome nat :=
  match r with Unresolved _ => Panic | Resolved id => Ok id end.

Record PartiallyResolvedTriple := new_PartiallyResolved {
  pr_subject : PossiblyResolved string;
  pr_predicate : PossiblyResolved string;
  pr_object : PossiblyResolved ObjectType }.

Definition to_resolved (t : IdTriple) : PartiallyResolvedTriple :=
  new_PartiallyResolved (Resolved (subject t)) (Resolved (predicate t)) (Resolved (object t)).

Definition to_unresolved (t : ValueTriple) : PartiallyResolvedTriple :=
  new_PartiallyResolved (Unresolved (vt_subject t)) (Unresolved (vt_predicate t))
                        (Unresolved (vt_object t)).

Definition resolve_with (t : PartiallyResolvedTriple) (node_map predicate_map : gmap string nat)
    (value_map : gmap TypedDictEntry nat) : option IdTriple :=
  subject ← match pr_subject t with Unresolved s => node_map !! s | Resolved id => Some id end;
  predicate ← match pr_predicate t with
              | Unresolved p => predicate_map !! p | Resolved id => Some id end;
  object ← match pr_object t with
           | Unresolved (Node n) => node_map !! n
           | Unresolved (Value v) => value_map !! v
           | Resolved id => Some id
           end;
  Some (new_IdTriple subject predicate object).

Definition as_resolved (t : PartiallyResolvedTriple) : outcome (option IdTriple) :=
  if negb (is_resolved (pr_subject t)) || negb (is_resolved (pr_predicate t))
     || negb (is_resolved (pr_object t))
  then Ok None
  else s ← unwrap_resolved (pr_subject t);
       p ← unwrap_resolved (pr_predicate t);
       o ← unwrap_resolved (pr_object t);
       Ok (Some (new_IdTriple s p o)).

Definition make_resolved_or_zero (t : PartiallyResolvedTriple) : PartiallyResolvedTriple :=
  if negb (is_resolved (pr_subject t)) || negb (is_resolved (pr_predicate t))
     || negb (is_resolved (pr_object t))
  then new_PartiallyResolved (Resolved 0) (Resolved 0) (Resolved 0)
  else t.

Record LayerCounts := {
  node_count : nat; predicate_count' : nat; value_count : nat }.

(** ** The [Layer] trait

    The required methods, as far as the default methods use them. *)
Class Layer (L : Type) := {
  subject_id : L → string → outcome (option nat);
  predicate_id : L → string → outcome (option nat);
  object_node_id : L → string → outcome (option nat);
  object_value_id : L → TypedDictEntry → outcome (option nat);
  id_subject : L → nat → outcome (option string);
  id_predicate : L → nat → outcome (option string);
  id_object : L → nat → outcome (option ObjectType);
  id_object_is_node : L → nat → outcome (option bool);
  triple_exists : L → nat → nat → nat → outcome bool;
  triple_addition_count : L → outcome nat;
  triple_removal_count : L → outcome nat;
}.

Section defaults.
Context `{Layer L}.

Definition id_object_node (l : L) (id : nat) : outcome (option string) :=
  o ← id_object l id;
  match o with
  | None => Ok None
  | Some o => s ← unwrap (ot_node o); Ok (Some s)
  end.

Definition id_object_value (l : L) (id : nat) : outcome (option TypedDictEntry) :=
  o ← id_object l id;
  match o with
  | None => Ok None
  | Some o => v ← unwrap (ot_value o); Ok (Some v)
  end.

Definition id_object_is_value (l : L) (id : nat) : outcome (option bool) :=
  o ← id_object_is_node l id; Ok (option_map negb o).

Definition id_triple_exists (l : L) (t : IdTriple) : outcome bool :=
  triple_exists l (subject t) (predicate t) (object t).

Definition value_triple_to_id (l : L) (t : ValueTriple) : outcome (option IdTriple) :=
  s ← subject_id l (vt_subject t);
  match s with
  | None => Ok None
  | Some s =>
      p ← predicate_id l (vt_predicate t);
      match p with
      | None => Ok None
      | Some p =>
          o ← match vt_object t with
              | Node n => object_node_id l n
              | Value v => object_value_id l v
              end;
          Ok (option_map (new_IdTriple s p) o)
      end
  end.

Definition value_triple_exists (l : L) (t : ValueTriple) : outcome bool :=
  i ← value_triple_to_id l t;
  match i with None => Ok false | Some i => id_triple_exists l i end.

Definition value_triple_to_partially_resolved (l : L) (t : ValueTriple)
    : outcome PartiallyResolvedTriple :=
  s ← subject_id l (vt_subject t);
  p ← predicate_id l (vt_predicate t);
  o ← match vt_object t with
      | Node n => object_node_id l n
      | Value v => object_value_id l v
      end;
  Ok (new_PartiallyResolved
        (default (Unresolved (vt_subject t)) (option_map Resolved s))
        (default (Unresolved (vt_predicate t)) (option_map Resolved p))
        (default (Unresolved (vt_object t)) (option_map Resolved o))).

Definition id_triple_to_string (l : L) (t : IdTriple) : outcome (option ValueTriple) :=
  s ← id_subject l (subject t);
  match s with
  | None => Ok None
  | Some s =>
      p ← id_predicate l (predicate t);
      match p with
      | None => Ok None
      | Some p =>
          o ← id_object l (object t);
          Ok (option_map (new_ValueTriple s p) o)
      end
  end.

Definition triple_count (l : L) : outcome nat :=
  a ← triple_addition_count l;
  r ← triple_removal_count l;
  checked_sub a r.
End defaults.
End layer_types.
