(* ===== verification/Order.v ===== *)
(** Sorting and removing duplicates, as the program does with [Vec::sort] and
    [Vec::dedup]: the orders of strings, of entries with their ids and of triples
    of ids, and what a sorted list is like. *)

From S2P Require Import Prelude Succinct LayerTypes.
From Stdlib Require Import Structures.OrdersEx.

(** ** [Vec::dedup]: equal neighbours become one *)
Fixpoint dedup `{EqDecision A} (l : list A) : list A :=
  match l with
  | x :: (y :: _) as l' => if decide (x = y) then dedup l' else x :: dedup l'
  | _ => l
  end.

Lemma dedup_cons2 `{EqDecision A} (x y : A) l :
  dedup (x :: y :: l) = if decide (x = y) then dedup (y :: l) else x :: dedup (y :: l).
Proof. done. Qed.

Lemma elem_of_dedup `{EqDecision A} (l : list A) x : x ∈ dedup l ↔ x ∈ l.
Proof.
  induction l as [|y [|z l] IH]; [done..|]. rewrite dedup_cons2.
  case_decide; [subst z|]; rewrite ?elem_of_cons, IH, ?elem_of_cons; tauto.
Qed.

(** ** Total orders *)

(** The order [derive(Ord)] makes of a strict one. *)
Definition or_eq {A} (lt : relation A) : relation A := λ x y, lt x y ∨ x = y.

#[export] Instance or_eq_dec {A} (lt : relation A) `{EqDecision A, RelDecision A A lt} : RelDecision (or_eq lt).
Proof. intros x y. unfold or_eq. apply _. Defined.

#[export] Instance or_eq_trans {A} (lt : relation A) `{!Transitive lt} : Transitive (or_eq lt).
Proof. intros x y z [?| ->] [?| ->]; [left; by etrans|by left..|by right]. Qed.

Class Trichotomic {A} (lt : relation A) := trichotomic_cases x y : lt x y ∨ x = y ∨ lt y x.

#[export] Instance or_eq_total {A} (lt : relation A) `{!Trichotomic lt} : Total (or_eq lt).
Proof. intros x y. unfold or_eq. destruct (trichotomic_cases x y) as [?|[?|?]]; auto. Qed.

Lemma dedup_sorted {A} (lt : relation A) `{EqDecision A, !Transitive lt} l :
  StronglySorted (or_eq lt) l → StronglySorted lt (dedup l).
Proof.
  induction 1 as [|x l Hl IH Hx]; [constructor|]. destruct l as [|y l]; [repeat constructor|].
  rewrite dedup_cons2. case_decide as Hxy; [done|]. constructor; [done|].
  apply Forall_forall. intros z Hz. rewrite elem_of_dedup in Hz.
  apply Forall_cons in Hx as [[Hlt|?] _]; [|done]. apply elem_of_cons in Hz as [->|Hz]; [done|].
  apply StronglySorted_inv in Hl as [_ Hall]. rewrite Forall_forall in Hall.
  destruct (Hall z Hz) as [?| <-]; [by etrans|done].
Qed.

Lemma sorted_filter {A} (R : relation A) (P : A → Prop) `{∀ x, Decision (P x)} l :
  StronglySorted R l → StronglySorted R (filter P l).
Proof.
  induction 1 as [|x l Hl IH Hx]; [constructor|]. rewrite filter_cons. case_decide; [|done].
  constructor; [done|]. apply Forall_forall. intros y [_ Hy]%list_elem_of_filter.
  rewrite Forall_forall in Hx. auto.
Qed.

(** Without duplicates, the two orders are the same. *)
Lemma sorted_strict {A} (lt : relation A) l : NoDup l → StronglySorted (or_eq lt) l → StronglySorted lt l.
Proof.
  intros Hnd. induction 1 as [|x l Hl IH Hx]; [constructor|]. apply NoDup_cons in Hnd as [Hnx Hnd].
  constructor; [auto|]. rewrite Forall_forall in Hx |- *. intros y Hy. by destruct (Hx y Hy) as [?| ->].
Qed.

Lemma sorted_weaken {A} (R1 R2 : relation A) l :
  (∀ x y, R1 x y → R2 x y) → StronglySorted R1 l → StronglySorted R2 l.
Proof.
  intros HR. induction 1 as [|x l Hl IH Hx]; constructor; [done|]. eapply Forall_impl; [exact Hx|]. auto.
Qed.

(** ** Strings, byte by byte *)
Definition string_lt : relation string := String_as_OT.lt.
#[export] Instance string_lt_dec : RelDecision string_lt := λ x y, decide (String_as_OT.compare x y = Lt).
#[export] Instance string_lt_order : StrictOrder string_lt := String_as_OT.lt_strorder.
#[export] Instance string_lt_trichotomic : Trichotomic string_lt.
Proof. intros x y. destruct (String_as_OT.compare_spec x y); auto. Qed.

(** ** Pairs of a key and a number *)
Section pairs.
Context {K : Type} (lt : relation K) `{EqDecision K, !RelDecision lt, !StrictOrder lt, !Trichotomic lt}.

Definition pair_lt (p q : K * nat) : Prop := lt p.1 q.1 ∨ (p.1 = q.1 ∧ p.2 < q.2).

#[export] Instance pair_lt_dec : RelDecision pair_lt.
Proof. intros p q. unfold pair_lt. apply _. Defined.
#[export] Instance pair_lt_trans : Transitive pair_lt.
Proof.
  intros p q r [?|[Hpq ?]] [?|[Hqr ?]]; unfold pair_lt.
  - left. by etrans.
  - left. by rewrite <- Hqr.
  - left. by rewrite Hpq.
  - right. split; [by etrans|lia].
Qed.
#[export] Instance pair_lt_trichotomic : Trichotomic pair_lt.
Proof.
  intros [k1 n1] [k2 n2]. unfold pair_lt. simpl.
  destruct (trichotomic_cases (lt := lt) k1 k2) as [?|[->|?]]; [auto| |auto].
  destruct (decide (n1 = n2)) as [->|]; [auto|]. assert (n1 < n2 ∨ n2 < n1) as [|] by lia; auto.
Qed.

(** [sort] of pairs with different keys. *)
Definition sort_pairs (l : list (K * nat)) : list (K * nat) := merge_sort (or_eq pair_lt) l.

Lemma sort_pairs_perm l : sort_pairs l ≡ₚ l.
Proof. apply merge_sort_Permutation. Qed.

Lemma sort_pairs_sorted l : StronglySorted (or_eq pair_lt) (sort_pairs l).
Proof. apply (StronglySorted_merge_sort _). Qed.

Lemma sort_pairs_keys l : NoDup l.*1 → StronglySorted lt (sort_pairs l).*1.
Proof.
  intros Hnd. rewrite <- (sort_pairs_perm l) in Hnd. pose proof (sort_pairs_sorted l) as Hs.
  induction Hs as [|p l' Hl IH Hp]; simpl in *; [constructor|]. apply NoDup_cons in Hnd as [Hn Hnd].
  constructor; [auto|]. apply Forall_fmap, Forall_forall. intros q Hq. rewrite Forall_forall in Hp.
  assert (p.1 ≠ q.1) by (intros Heq; apply Hn; rewrite Heq; by apply list_elem_of_fmap_2).
  simpl. destruct (Hp q Hq) as [[?|[? _]]| ->]; done.
Qed.

(** The order in which a hash map lists its entries does not matter: sorted, they
    are the same. *)
Lemma sort_pairs_unique l1 l2 : l1 ≡ₚ l2 → sort_pairs l1 = sort_pairs l2.
Proof.
  intros Hp. assert (AntiSymm (=) (or_eq pair_lt)) as Ha.
  { intros p q [Hpq|?] [Hqp|?]; try done. exfalso. destruct p as [k n], q as [k' n']. unfold pair_lt in Hpq, Hqp. simpl in *.
    destruct Hpq as [Hpq|[-> Hpq]], Hqp as [Hqp|[Heq Hqp]].
    - apply (irreflexivity lt k). by etrans.
    - subst. by apply (irreflexivity lt k).
    - by apply (irreflexivity lt k').
    - lia. }
  apply (StronglySorted_unique (or_eq pair_lt)); [apply sort_pairs_sorted..|]. by rewrite !sort_pairs_perm.
Qed.
End pairs.

#[export] Instance nat_lt_trichotomic : Trichotomic Nat.lt.
Proof. intros x y. destruct (Nat.lt_trichotomy x y) as [?|[?|?]]; auto. Qed.
#[export] Instance nat_lt_dec : RelDecision Nat.lt.
Proof. intros x y. apply lt_dec. Defined.

(** ** Triples of ids *)
#[export] Instance triple_lt_trichotomic : Trichotomic (triple_lt spo).
Proof.
  intros x y. destruct (key_lt_total (spo x) (spo y)) as [?|[?%(inj spo)|?]]; auto.
Qed.

(** [id_additions.sort()] *)
Definition sort_triples (l : list IdTriple) : list IdTriple := merge_sort (or_eq (triple_lt spo)) l.

Lemma sort_triples_perm l : sort_triples l ≡ₚ l.
Proof. apply merge_sort_Permutation. Qed.

Lemma sort_triples_sorted l : StronglySorted (or_eq (triple_lt spo)) (sort_triples l).
Proof. apply (StronglySorted_merge_sort _). Qed.

Lemma sort_triples_dedup l :
  triples_sorted spo (dedup (sort_triples l)) ∧ ∀ t, t ∈ dedup (sort_triples l) ↔ t ∈ l.
Proof.
  split; [apply dedup_sorted; [apply _|apply sort_triples_sorted]|].
  intros t. by rewrite elem_of_dedup, sort_triples_perm.
Qed.
