(* ===== verification/Nested.v ===== *)
(** How a set of triples is laid out in the two adjacency lists of a layer
    ([s_p_adjacency_list], [sp_o_adjacency_list]): a nested list, one row per
    subject position, each row a list of predicates with their objects. This file
    defines the triples a layout stands for ([decode]), when a layout is well
    formed, and the positions of its rows in the flat lists. *)

From S2P Require Import Prelude Succinct LayerTypes.

(** One row per subject: predicates with their objects. The number 0 is a gap. *)
Notation row := (list (nat * list nat)).
Notation layout := (list (list (nat * list nat))).

Definition sp_rows (N : layout) : list (list nat) := (λ r : row, r.*1) <$> N.
Definition spo_rows (N : layout) : list (list nat) := concat ((λ r : row, r.*2) <$> N).

Definition pair_triples (s : nat) (po : nat * list nat) : list IdTriple :=
  if decide (po.1 = 0) then [] else new_IdTriple s po.1 <$> filter (λ o, o ≠ 0) po.2.

Definition row_triples (s : nat) (r : row) : list IdTriple := r ≫= pair_triples s.

(** The triples of a layout whose first row is the [i]-th; [nm] names the
    subject of a row. *)
Fixpoint decode (nm : nat → nat) (i : nat) (N : layout) : list IdTriple :=
  match N with
  | [] => []
  | r :: N => row_triples (nm i) r ++ decode nm (S i) N
  end.

(** A row is a gap, or its predicates and the objects of each are increasing and
    positive. *)
Definition pair_wf (po : nat * list nat) : Prop :=
  po.2 ≠ [] ∧ StronglySorted lt (0 :: po.2).
Definition row_wf (r : row) : Prop :=
  r = [(0, [0])] ∨ (r ≠ [] ∧ StronglySorted lt (0 :: r.*1) ∧ Forall pair_wf r).
Definition layout_wf (N : layout) : Prop := Forall row_wf N.

(** The subject of the row at position [i]: the array of subjects, if there is
    one, else the position itself. *)
Definition subject_name (subjects : option (list nat)) (i : nat) : nat :=
  match subjects with None => S i | Some l => default 0 (l !! i) end.

(** An array of names for [n] rows is increasing and positive. *)
Definition names_wf (names : option (list nat)) (n : nat) : Prop :=
  match names with
  | None => True
  | Some l => length l = n ∧ StronglySorted lt (0 :: l)
  end.
Definition subjects_wf (subjects : option (list nat)) (N : layout) : Prop :=
  names_wf subjects (length N).

(** ** Members of a layout *)

Lemma elem_of_pair_triples s po t :
  t ∈ pair_triples s po ↔
  po.1 ≠ 0 ∧ subject t = s ∧ predicate t = po.1 ∧ object t ∈ po.2 ∧ object t ≠ 0.
Proof.
  unfold pair_triples. case_decide as Hp.
  - split; [by intros []%not_elem_of_nil|]. by intros [? _].
  - rewrite list_elem_of_fmap. split.
    + intros (o & -> & [Ho Hin]%list_elem_of_filter). done.
    + intros (_ & Hs & Hpr & Ho & Hne). exists (object t). rewrite list_elem_of_filter.
      destruct t; simplify_eq/=. done.
Qed.

Lemma elem_of_row_triples s r t :
  t ∈ row_triples s r ↔
  subject t = s ∧ predicate t ≠ 0 ∧ object t ≠ 0 ∧ ∃ os, (predicate t, os) ∈ r ∧ object t ∈ os.
Proof.
  unfold row_triples. rewrite list_elem_of_bind. split.
  - intros ([p os] & Ht & Hr). apply elem_of_pair_triples in Ht as (? & ? & ? & ? & ?).
    simplify_eq/=. split_and!; try congruence. exists os. by split; [congruence|].
  - intros (Hs & Hp & Ho & os & Hr & Hos). exists (predicate t, os).
    split; [|done]. apply elem_of_pair_triples. done.
Qed.

Lemma elem_of_decode nm i N t :
  t ∈ decode nm i N ↔ ∃ k r, N !! k = Some r ∧ t ∈ row_triples (nm (i + k)) r.
Proof.
  revert i. induction N as [|r N IH]; intros i; simpl.
  - split; [by intros []%not_elem_of_nil|]. by intros (k & r & ? & _).
  - rewrite elem_of_app, IH. split.
    + intros [Ht|(k & r' & Hk & Ht)].
      * exists 0, r. by rewrite Nat.add_0_r.
      * exists (S k), r'. by rewrite Nat.add_succ_r.
    + intros ([|k] & r' & Hk & Ht); simplify_eq/=.
      * left. by rewrite Nat.add_0_r in Ht.
      * right. exists k, r'. by rewrite Nat.add_succ_r in Ht.
Qed.

Lemma decode_app nm i N1 N2 :
  decode nm i (N1 ++ N2) = decode nm i N1 ++ decode nm (i + length N1) N2.
Proof.
  revert i. induction N1 as [|r N1 IH]; intros i; simpl; [by rewrite Nat.add_0_r|].
  rewrite IH, <- app_assoc. by rewrite Nat.add_succ_r.
Qed.

Lemma row_triples_app s r1 r2 : row_triples s (r1 ++ r2) = row_triples s r1 ++ row_triples s r2.
Proof. apply bind_app. Qed.

Lemma pair_triples_sorted s po : pair_wf po → triples_sorted spo (pair_triples s po).
Proof.
  intros [_ Hs]. unfold pair_triples. case_decide; [constructor|].
  apply StronglySorted_inv in Hs as [Hs _].
  eapply StronglySorted_fmap, StronglySorted_filter, Hs.
  intros o1 o2 Ho. unfold triple_lt, key_lt; simpl. lia.
Qed.

Lemma row_triples_sorted s r : row_wf r → triples_sorted spo (row_triples s r).
Proof.
  intros [->|(_ & Hs & Hall)]; [constructor|].
  apply StronglySorted_inv in Hs as [Hs _]. revert Hs.
  induction Hall as [|[p os] r Hpo Hall IH]; intros Hs; [constructor|].
  simpl in Hs. apply StronglySorted_inv in Hs as [Hs Hp].
  change (row_triples s ((p, os) :: r)) with (pair_triples s (p, os) ++ row_triples s r).
  apply StronglySorted_app_intro; [by apply pair_triples_sorted|by apply IH|].
  intros t1 t2 (_ & Hs1 & Hp1 & _)%elem_of_pair_triples (Hs2 & _ & _ & os2 & Hin & _)%elem_of_row_triples.
  assert (p < predicate t2) as Hlt.
  { rewrite Forall_forall in Hp. apply Hp. apply (list_elem_of_fmap_2 fst) in Hin. done. }
  unfold triple_lt, key_lt, spo; simpl in *. lia.
Qed.

Lemma decode_sorted nm i N :
  layout_wf N →
  (∀ k1 k2, k1 < k2 → k2 < length N → nm (i + k1) < nm (i + k2)) →
  triples_sorted spo (decode nm i N).
Proof.
  intros Hwf. revert i. induction Hwf as [|r N Hr Hwf IH]; intros i Hnm; simpl; [constructor|].
  apply StronglySorted_app_intro; [by apply row_triples_sorted| |].
  - apply IH. intros k1 k2 ??. specialize (Hnm (S k1) (S k2)). rewrite !Nat.add_succ_r in Hnm.
    simpl in *. apply Hnm; lia.
  - intros t1 t2 (Hs1 & _)%elem_of_row_triples (k & r' & Hk & Ht)%elem_of_decode.
    apply elem_of_row_triples in Ht as (Hs2 & _).
    specialize (Hnm 0 (S k)). apply lookup_lt_Some in Hk. simpl in Hnm.
    rewrite Nat.add_0_r, Nat.add_succ_r in Hnm.
    unfold triple_lt, key_lt, spo; simpl in *. left. rewrite Hs1, Hs2. apply Hnm; lia.
Qed.

Lemma subject_name_mono subjects n k1 k2 :
  names_wf subjects n → k1 < k2 → k2 < n →
  subject_name subjects k1 < subject_name subjects k2.
Proof.
  unfold subject_name, names_wf. destruct subjects as [l|]; [|lia].
  intros [Hl Hs] H12 H2. apply StronglySorted_inv in Hs as [Hs _].
  destruct (lookup_lt_is_Some_2 l k1) as [x1 Hx1]; [lia|].
  destruct (lookup_lt_is_Some_2 l k2) as [x2 Hx2]; [lia|].
  rewrite Hx1, Hx2. simpl. by eapply (sorted_lookup_lt l k1 k2).
Qed.

Lemma subject_name_pos subjects n k :
  names_wf subjects n → k < n → 0 < subject_name subjects k.
Proof.
  unfold subject_name, names_wf. destruct subjects as [l|]; [|lia].
  intros [Hl Hs] Hk. apply StronglySorted_inv in Hs as [_ Hall].
  destruct (lookup_lt_is_Some_2 l k) as [x Hx]; [lia|]. rewrite Hx. simpl.
  rewrite Forall_forall in Hall. eapply Hall; eapply list_elem_of_lookup_2; done.
Qed.

(** The triples of a well-formed layout come in the derived order. *)
Lemma layout_sorted subjects N :
  layout_wf N → subjects_wf subjects N → triples_sorted spo (decode (subject_name subjects) 0 N).
Proof.
  intros HN Hs. apply decode_sorted; [done|]. intros. by eapply subject_name_mono.
Qed.

(** ** Positions in the flat lists *)

Definition sp_len (N : layout) : nat := length (concat (sp_rows N)).
Definition spo_len (N : layout) : nat := length (concat (spo_rows N)).

Lemma sp_rows_app N1 N2 : sp_rows (N1 ++ N2) = sp_rows N1 ++ sp_rows N2.
Proof. apply fmap_app. Qed.

Lemma spo_rows_app N1 N2 : spo_rows (N1 ++ N2) = spo_rows N1 ++ spo_rows N2.
Proof. unfold spo_rows. by rewrite fmap_app, concat_app. Qed.

Lemma sp_rows_length N : length (sp_rows N) = length N.
Proof. apply length_fmap. Qed.

Lemma spo_rows_length N : length (spo_rows N) = sp_len N.
Proof.
  unfold sp_len. induction N as [|r N IH]; [done|].
  change (length (r.*2 ++ spo_rows N) = length (r.*1 ++ concat (sp_rows N))).
  by rewrite !length_app, !length_fmap, IH.
Qed.

Lemma sp_len_app N1 N2 : sp_len (N1 ++ N2) = sp_len N1 + sp_len N2.
Proof. unfold sp_len. by rewrite sp_rows_app, concat_app, length_app. Qed.

Lemma sp_len_single r : sp_len [r] = length r.
Proof. unfold sp_len, sp_rows. simpl. by rewrite app_nil_r, length_fmap. Qed.

Lemma sp_len_cons r N : sp_len (r :: N) = length r + sp_len N.
Proof. change (r :: N) with ([r] ++ N). by rewrite sp_len_app, sp_len_single. Qed.

Lemma row_offset_app (rows1 rows2 : list (list nat)) : row_offset (rows1 ++ rows2) (length rows1) = length (concat rows1).
Proof. unfold row_offset. by rewrite take_app_length. Qed.

Lemma sp_offset_app N1 N2 : row_offset (sp_rows (N1 ++ N2)) (length N1) = sp_len N1.
Proof. rewrite sp_rows_app, <- (sp_rows_length N1). apply row_offset_app. Qed.

(** The objects of a row split inside start where the objects before it end. *)
Lemma spo_rows_split N1 r1 r2 N2 :
  spo_rows (N1 ++ (r1 ++ r2) :: N2) = spo_rows (N1 ++ [r1]) ++ r2.*2 ++ spo_rows N2.
Proof.
  rewrite !spo_rows_app. unfold spo_rows at 2 4. simpl.
  by rewrite fmap_app, app_nil_r, <- !app_assoc.
Qed.

Lemma spo_offset_split N1 r1 r2 N2 :
  row_offset (spo_rows (N1 ++ (r1 ++ r2) :: N2)) (sp_len (N1 ++ [r1])) = spo_len (N1 ++ [r1]).
Proof. rewrite spo_rows_split, <- spo_rows_length. apply row_offset_app. Qed.

Lemma spo_offset_app N1 N2 : row_offset (spo_rows (N1 ++ N2)) (sp_len N1) = spo_len N1.
Proof. rewrite spo_rows_app, <- spo_rows_length. apply row_offset_app. Qed.

Lemma mark_drop r i : mark (drop i r) = drop i (mark r).
Proof.
  revert i. induction r as [|x r IH]; intros [|i]; [done..|].
  rewrite mark_cons. simpl. apply IH.
Qed.

(** What is left of the flat lists at a position inside a row. *)
Lemma flat_sp_drop N1 r1 r2 N2 :
  drop (sp_len (N1 ++ [r1])) (flat (sp_rows (N1 ++ (r1 ++ r2) :: N2))) =
  mark r2.*1 ++ flat (sp_rows N2).
Proof.
  rewrite sp_len_app, sp_len_single, sp_rows_app, flat_app.
  rewrite <- drop_drop. unfold sp_len at 1. rewrite <- flat_length, drop_app_length.
  unfold sp_rows at 1. rewrite fmap_cons, flat_cons. fold (sp_rows N2).
  rewrite drop_app_le by (rewrite mark_length, length_fmap, length_app; lia).
  rewrite <- mark_drop, fmap_app. rewrite <- (length_fmap fst r1) at 1.
  by rewrite drop_app_length.
Qed.

Lemma flat_spo_drop N1 r1 r2 N2 :
  drop (spo_len (N1 ++ [r1])) (flat (spo_rows (N1 ++ (r1 ++ r2) :: N2))) =
  flat r2.*2 ++ flat (spo_rows N2).
Proof.
  rewrite spo_rows_split, flat_app. unfold spo_len. rewrite <- flat_length, drop_app_length.
  apply flat_app.
Qed.

(** ** Pairs by position

    The position of a pair of subject and predicate is its index in the
    concatenation of the rows. *)

Lemma concat_sp_rows N : concat (sp_rows N) = (concat N).*1.
Proof.
  induction N as [|r N IH]; [done|]. change (sp_rows (r :: N)) with (r.*1 :: sp_rows N).
  simpl. by rewrite fmap_app, IH.
Qed.

Lemma spo_rows_concat N : spo_rows N = (concat N).*2.
Proof.
  induction N as [|r N IH]; [done|]. change (spo_rows (r :: N)) with (r.*2 ++ spo_rows N).
  simpl. by rewrite fmap_app, IH.
Qed.

Lemma sp_len_concat N : sp_len N = length (concat N).
Proof. unfold sp_len. by rewrite concat_sp_rows, length_fmap. Qed.

Lemma row_of_pos_sp_rows N i : row_of_pos (sp_rows N) i = row_of_pos N i.
Proof.
  revert i. induction N as [|r N IH]; intros i; [done|].
  change (sp_rows (r :: N)) with (r.*1 :: sp_rows N). simpl.
  rewrite length_fmap. case_decide; [done|]. by rewrite IH.
Qed.

(** The triples of the pair at a position. *)
Definition pos_triples (nm : nat → nat) (N : layout) (i : nat) : list IdTriple :=
  match concat N !! i with
  | Some po => pair_triples (nm (row_of_pos N i - 1)) po
  | None => []
  end.

(** A position splits the layout. *)
Lemma position_split N i po :
  concat N !! i = Some po →
  ∃ N1 r1 r2 N2, N = N1 ++ (r1 ++ po :: r2) :: N2 ∧ i = sp_len (N1 ++ [r1]) ∧
    row_of_pos N i = S (length N1).
Proof.
  intros (k & r & j & Hk & Hj & ->)%concat_lookup_row.
  pose proof (lookup_lt_Some _ _ _ Hj) as Hjl. pose proof (lookup_lt_Some _ _ _ Hk) as Hkl.
  exists (take k N), (take j r), (drop (S j) r), (drop (S k) N).
  rewrite (take_drop_middle r j po Hj), (take_drop_middle N k r Hk). split_and!; [done| |].
  - rewrite sp_len_app, sp_len_single, sp_len_concat, length_take. unfold row_offset. lia.
  - rewrite (row_of_pos_offset _ _ _ _ Hk Hjl). rewrite length_take. lia.
Qed.

Lemma elem_of_pos_triples nm N i t :
  t ∈ pos_triples nm N i ↔
  ∃ po, concat N !! i = Some po ∧ t ∈ pair_triples (nm (row_of_pos N i - 1)) po.
Proof.
  unfold pos_triples. destruct (concat N !! i) as [po|]; [naive_solver|].
  split; [by intros ?%not_elem_of_nil|naive_solver].
Qed.

(** The triples of a layout are those of its positions. *)
Lemma elem_of_decode_pos nm N t : t ∈ decode nm 0 N ↔ ∃ i, t ∈ pos_triples nm N i.
Proof.
  rewrite elem_of_decode. setoid_rewrite elem_of_pos_triples. split.
  - intros (k & r & Hk & Ht). unfold row_triples in Ht.
    apply list_elem_of_bind in Ht as (po & Ht & [j Hj]%list_elem_of_lookup).
    exists (row_offset N k + j), po. pose proof (lookup_lt_Some _ _ _ Hj).
    split; [by eapply row_lookup_concat|].
    by erewrite row_of_pos_offset, Nat.sub_succ, Nat.sub_0_r by done.
  - intros (i & po & Hi & Ht). apply concat_lookup_row in Hi as (k & r & j & Hk & Hj & ->).
    pose proof (lookup_lt_Some _ _ _ Hj). erewrite row_of_pos_offset in Ht by done.
    rewrite Nat.sub_succ, Nat.sub_0_r in Ht. exists k, r. split; [done|].
    apply list_elem_of_bind. exists po. split; [done|]. by eapply list_elem_of_lookup_2.
Qed.

(** Pairs at increasing positions are increasing. *)
Lemma pair_order subjects N i j po1 po2 :
  layout_wf N → subjects_wf subjects N → i < j →
  concat N !! i = Some po1 → concat N !! j = Some po2 →
  let s1 := subject_name subjects (row_of_pos N i - 1) in
  let s2 := subject_name subjects (row_of_pos N j - 1) in
  s1 < s2 ∨ (s1 = s2 ∧ po1.1 < po2.1).
Proof.
  intros Hwf Hsub Hij Hi Hj.
  apply concat_lookup_row in Hi as (k1 & r1 & j1 & Hk1 & Hj1 & ->).
  apply concat_lookup_row in Hj as (k2 & r2 & j2 & Hk2 & Hj2 & ->).
  pose proof (lookup_lt_Some _ _ _ Hj1). pose proof (lookup_lt_Some _ _ _ Hj2).
  pose proof (lookup_lt_Some _ _ _ Hk2). pose proof (lookup_lt_Some _ _ _ Hk1).
  rewrite (row_of_pos_offset _ _ _ _ Hk1), (row_of_pos_offset _ _ _ _ Hk2) by done.
  rewrite !Nat.sub_succ, !Nat.sub_0_r.
  destruct (lt_eq_lt_dec k1 k2) as [[Hlt| ->]|Hgt].
  - left. by eapply subject_name_mono.
  - rewrite Hk1 in Hk2. injection Hk2 as ->. right. split; [done|]. unfold layout_wf in Hwf. rewrite Forall_forall in Hwf.
    destruct (Hwf r2) as [->|(_ & Hs & _)]; [by eapply list_elem_of_lookup_2|simpl in *; lia|].
    apply StronglySorted_inv in Hs as [Hs _].
    eapply (sorted_lookup_lt _ j1 j2); [exact Hs|lia|..]; by rewrite list_lookup_fmap, ?Hj1, ?Hj2.
  - exfalso. pose proof (row_offset_S _ _ _ Hk2).
    assert (row_offset N (S k2) ≤ row_offset N k1); [|lia].
    unfold row_offset. rewrite <- (take_drop (S k2) (take k1 N)), take_take, Nat.min_l by lia.
    rewrite concat_app, length_app. lia.
Qed.

(** The triples at a list of increasing positions are in order. *)
Lemma pos_triples_sorted subjects N ps :
  layout_wf N → subjects_wf subjects N → StronglySorted lt ps →
  triples_sorted spo (ps ≫= pos_triples (subject_name subjects) N).
Proof.
  intros Hwf Hsub. induction 1 as [|i ps Hs IH Hall]; [constructor|].
  rewrite Forall_forall in Hall. simpl. apply StronglySorted_app_intro; [|done|].
  - unfold pos_triples. destruct (concat N !! i) as [po|] eqn:Hi; [|constructor].
    destruct po as [p os]. destruct (decide (p = 0)) as [->|Hp]; [constructor|].
    apply pair_triples_sorted. apply concat_lookup_row in Hi as (k & r & j & Hk & Hj & _).
    unfold layout_wf in Hwf. rewrite Forall_forall in Hwf.
    destruct (Hwf r) as [->|(_ & _ & Hall')]; [by eapply list_elem_of_lookup_2| |].
    + by apply list_elem_of_lookup_2, list_elem_of_singleton in Hj as [= -> ->].
    + rewrite Forall_forall in Hall'. by eapply Hall', list_elem_of_lookup_2.
  - intros t1 t2 (po1 & Hi1 & Ht1)%elem_of_pos_triples Ht2.
    apply list_elem_of_bind in Ht2 as (j & Ht2 & Hj%Hall).
    apply elem_of_pos_triples in Ht2 as (po2 & Hj2 & Ht2).
    pose proof (pair_order _ _ _ _ _ _ Hwf Hsub Hj Hi1 Hj2) as Ho.
    apply elem_of_pair_triples in Ht1 as (_ & Hs1 & Hp1 & _).
    apply elem_of_pair_triples in Ht2 as (_ & Hs2 & Hp2 & _).
    unfold triple_lt, key_lt, spo. simpl. rewrite Hs1, Hs2, Hp1, Hp2. simpl in Ho. lia.
Qed.
