(* ===== verification/SubjectIterator.v ===== *)
(** [InternalLayerTripleSubjectIterator] of
    [src/layer/internal/subject_iterator.rs]: the iterator over the additions or
    the removals of one layer in subject order, with its three seeks, and its
    [Opt] wrapper. The theorems tie it to [Nested.decode]: iterating yields
    exactly the triples of the layout, a seek yields those from a point on. *)

From S2P Require Import Prelude Succinct LayerTypes Nested.

(** * What a consumer needs of an iterator

    An iterator that can be advanced and peeked; [yields it l] says that it is
    about to produce exactly [l]. The iterators over a stack of layers are
    verified against this interface. *)
Class TripleIter (I : Type) := {
  it_next : I → outcome (option IdTriple * I);
  it_peek : I → outcome (option IdTriple * I);
}.

Class TripleIterLaws (I : Type) `{TripleIter I} := {
  yields : I → list IdTriple → Prop;
  yields_next it l : yields it l → ∃ it', it_next it = Ok (head l, it') ∧ yields it' (tail l);
  yields_peek it l : yields it l → ∃ it', it_peek it = Ok (head l, it') ∧ yields it' l;
}.

(** A [for] loop that gathers what an iterator yields. *)
Fixpoint collect {I T} (next : I → outcome (option T * I)) (fuel : nat) (it : I)
    : outcome (list T) :=
  match fuel with
  | O => NoFuel
  | S fuel =>
      '(o, it) ← next it;
      match o with
      | None => Ok []
      | Some t => l ← collect next fuel it; Ok (t :: l)
      end
  end.

(** [Iterator::take_while], collected. *)
Fixpoint collect_while {I T} (next : I → outcome (option T * I)) (p : T → bool) (fuel : nat)
    (it : I) : outcome (list T) :=
  match fuel with
  | O => NoFuel
  | S fuel =>
      '(o, it) ← next it;
      match o with
      | Some t => if p t then l ← collect_while next p fuel it; Ok (t :: l) else Ok []
      | None => Ok []
      end
  end.

Lemma collect_spec {I T} (next : I → outcome (option T * I)) (Y : I → list T → Prop) fuel it l :
  (∀ it l, Y it l → ∃ it', next it = Ok (head l, it') ∧ Y it' (tail l)) →
  Y it l → length l < fuel → collect next fuel it = Ok l.
Proof.
  intros Hnext. revert it l. induction fuel as [|fuel IH]; intros it l HY Hf; [lia|].
  destruct (Hnext _ _ HY) as (it' & Hn & HY'). simpl. rewrite Hn.
  destruct l as [|t l]; simpl in *; [done|]. rewrite (IH it' l) by (done || lia). done.
Qed.

Lemma collect_while_spec {I T} (next : I → outcome (option T * I)) (Y : I → list T → Prop)
    p fuel it l1 l2 :
  (∀ it l, Y it l → ∃ it', next it = Ok (head l, it') ∧ Y it' (tail l)) →
  Y it (l1 ++ l2) → Forall (λ t, p t = true) l1 →
  match l2 with [] => True | t :: _ => p t = false end →
  length l1 < fuel → collect_while next p fuel it = Ok l1.
Proof.
  intros Hnext. revert it l1. induction fuel as [|fuel IH]; intros it l1 HY Hall H2 Hf; [lia|].
  destruct (Hnext _ _ HY) as (it' & Hn & HY'). simpl. rewrite Hn. simpl.
  destruct Hall as [|t l1 Ht Hall]; simpl in *.
  - destruct l2 as [|t l2]; [done|]. simpl. by rewrite H2.
  - rewrite Ht, (IH it' l1) by (done || lia). done.
Qed.

(** * The iterator *)

Section subject_iterator.
Context `{SuccinctOps}.

Record InternalLayerTripleSubjectIterator := SubjectIter {
  si_subjects : option MonotonicLogArray;
  si_s_p : AdjacencyList;
  si_sp_o : AdjacencyList;
  si_s_position : nat;
  si_s_p_position : nat;
  si_sp_o_position : nat;
  si_peeked : option IdTriple;
}.

Definition si_new (subjects : option MonotonicLogArray) (s_p sp_o : AdjacencyList)
    : InternalLayerTripleSubjectIterator := SubjectIter subjects s_p sp_o 0 0 0 None.

(** The iterator at given positions. *)
Definition si_at (it : InternalLayerTripleSubjectIterator) (s sp spo : nat)
    (peeked : option IdTriple) : InternalLayerTripleSubjectIterator :=
  SubjectIter (si_subjects it) (si_s_p it) (si_sp_o it) s sp spo peeked.

Definition seek_subject_ref (it : InternalLayerTripleSubjectIterator) (subject : nat)
    : outcome InternalLayerTripleSubjectIterator :=
  if decide (subject = 0) then Ok (si_at it 0 0 0 None)
  else
    let s_position := match si_subjects it with
                      | None => subject - 1
                      | Some subjects => ml_nearest_index_of subjects subject
                      end in
    if decide (aj_left_count (si_s_p it) ≤ s_position)
    then Ok (si_at it s_position (aj_right_count (si_s_p it)) (aj_right_count (si_sp_o it)) None)
    else
      s_p_position ← aj_offset_for (si_s_p it) (s_position + 1);
      sp_o_position ← aj_offset_for (si_sp_o it) (s_p_position + 1);
      Ok (si_at it s_position s_p_position sp_o_position None).

(** The scan of [seek_subject_predicate_ref] for the predicate in the row of
    the subject; every step moves on in the row, so the number of pairs left
    is enough fuel. *)
Fixpoint scan_predicate (s_p : AdjacencyList) (predicate : nat) (fuel s_position s_p_position : nat)
    : outcome (nat * nat) :=
  match fuel with
  | O => NoFuel
  | S fuel =>
      num ← aj_num_at_pos s_p s_p_position;
      if decide (num < predicate) then
        let s_p_position := s_p_position + 1 in
        bit ← aj_bit_at_pos s_p (s_p_position - 1);
        if bit : bool then Ok (s_position + 1, s_p_position)
        else scan_predicate s_p predicate fuel s_position s_p_position
      else Ok (s_position, s_p_position)
  end.

Definition seek_subject_predicate_ref (it : InternalLayerTripleSubjectIterator)
    (subject predicate : nat) : outcome InternalLayerTripleSubjectIterator :=
  if decide (predicate = 0) then seek_subject_ref it subject
  else if decide (subject = 0) then Ok (si_at it 0 0 0 None)
  else
    let s_position := match si_subjects it with
                      | None => subject - 1
                      | Some subjects => ml_nearest_index_of subjects subject
                      end in
    if decide (aj_left_count (si_s_p it) ≤ s_position)
    then Ok (si_at it s_position (aj_right_count (si_s_p it)) (aj_right_count (si_sp_o it)) None)
    else
      s_p_position ← aj_offset_for (si_s_p it) (s_position + 1);
      '(s_position, s_p_position) ←
        scan_predicate (si_s_p it) predicate (aj_right_count (si_s_p it)) s_position s_p_position;
      sp_o_position ← aj_offset_for (si_sp_o it) (s_p_position + 1);
      Ok (si_at it s_position s_p_position sp_o_position None).

Definition seek_s_p_pos (it : InternalLayerTripleSubjectIterator) (pos : nat)
    : outcome InternalLayerTripleSubjectIterator :=
  left ← aj_left_at_pos (si_s_p it) pos;
  s_position ← checked_sub left 1;
  sp_o_position ← aj_offset_for (si_sp_o it) (pos + 1);
  Ok (si_at it s_position pos sp_o_position None).

(** The loop of [next]; each round moves [sp_o_position] on. *)
Fixpoint si_next_loop (fuel : nat) (it : InternalLayerTripleSubjectIterator)
    : outcome (option IdTriple * InternalLayerTripleSubjectIterator) :=
  match fuel with
  | O => NoFuel
  | S fuel =>
      if decide (aj_right_count (si_sp_o it) ≤ si_sp_o_position it) then Ok (None, it)
      else
        let s_pos := si_s_position it in
        s_p_bit ← aj_bit_at_pos (si_s_p it) (si_s_p_position it);
        predicate ← aj_num_at_pos (si_s_p it) (si_s_p_position it);
        if decide (predicate = 0) then
          si_next_loop fuel
            (si_at it (if s_p_bit : bool then s_pos + 1 else s_pos) (si_s_p_position it + 1)
                   (si_sp_o_position it + 1) None)
        else
          sp_o_bit ← aj_bit_at_pos (si_sp_o it) (si_sp_o_position it);
          object ← aj_num_at_pos (si_sp_o it) (si_sp_o_position it);
          let it' :=
            if sp_o_bit : bool
            then si_at it (if s_p_bit : bool then s_pos + 1 else s_pos)
                       (si_s_p_position it + 1) (si_sp_o_position it + 1) None
            else si_at it s_pos (si_s_p_position it) (si_sp_o_position it + 1) None in
          if decide (object = 0) then si_next_loop fuel it'
          else
            subject ← match si_subjects it with
                      | Some subjects => ml_entry subjects s_pos
                      | None => Ok (s_pos + 1)
                      end;
            Ok (Some (new_IdTriple subject predicate object), it')
  end.

Definition si_next (it : InternalLayerTripleSubjectIterator)
    : outcome (option IdTriple * InternalLayerTripleSubjectIterator) :=
  match si_peeked it with
  | Some t => Ok (Some t, si_at it (si_s_position it) (si_s_p_position it) (si_sp_o_position it) None)
  | None => si_next_loop (S (aj_right_count (si_sp_o it) - si_sp_o_position it)) it
  end.

Definition si_peek (it : InternalLayerTripleSubjectIterator)
    : outcome (option IdTriple * InternalLayerTripleSubjectIterator) :=
  '(o, it) ← si_next it;
  Ok (o, si_at it (si_s_position it) (si_s_p_position it) (si_sp_o_position it) o).

#[export] Instance subject_iter : TripleIter InternalLayerTripleSubjectIterator :=
  { it_next := si_next; it_peek := si_peek }.
End subject_iterator.

(** * [OptInternalLayer...Iterator] *)

(** The [Opt] wrappers, an iterator that may be missing, are all alike. *)
Section opt.
Context {I : Type} `{TripleIter I}.

Definition opt_next (it : option I) : outcome (option IdTriple * option I) :=
  match it with
  | None => Ok (None, None)
  | Some i => '(o, i) ← it_next i; Ok (o, Some i)
  end.

Definition opt_peek (it : option I) : outcome (option IdTriple * option I) :=
  match it with
  | None => Ok (None, None)
  | Some i => '(o, i) ← it_peek i; Ok (o, Some i)
  end.

(** [self.0.map(|i| i.seek_..(..))] *)
Definition opt_seek (seek : I → outcome I) (it : option I) : outcome (option I) :=
  match it with
  | None => Ok None
  | Some i => i ← seek i; Ok (Some i)
  end.

#[export] Instance opt_iter : TripleIter (option I) := { it_next := opt_next; it_peek := opt_peek }.
End opt.

Section opt_laws.
Context {I : Type} `{TripleIterLaws I}.

Definition opt_yields (it : option I) (l : list IdTriple) : Prop :=
  match it with None => l = [] | Some i => yields i l end.

#[export] Program Instance opt_iter_laws : TripleIterLaws (option I) :=
  { yields := opt_yields }.
Next Obligation.
  intros [i|] l Hy; simpl in *; [|by subst; eexists].
  destruct (yields_next _ _ Hy) as (i' & Hn & Hy'). rewrite Hn. simpl. by exists (Some i').
Qed.
Next Obligation.
  intros [i|] l Hy; simpl in *; [|by subst; eexists].
  destruct (yields_peek _ _ Hy) as (i' & Hn & Hy'). rewrite Hn. simpl. by exists (Some i').
Qed.
End opt_laws.

(** * What is left at a cursor

    [walks nm n s sps spos l]: with the cursor at subject position [s], the pairs
    [sps] of [s_p] and [spos] of [sp_o] left, the triples still to come are [l];
    [n] bounds the subject positions. *)
Inductive walks (nm : nat → nat) (n : nat) :
    nat → list (bool * nat) → list (bool * nat) → list IdTriple → Prop :=
  | walks_nil s sps : walks nm n s sps [] []
  | walks_gap s (sb : bool) sps x spos l :
      s < n →
      walks nm n (if sb then s + 1 else s) sps spos l →
      walks nm n s ((sb, 0) :: sps) (x :: spos) l
  | walks_pair s (sb : bool) p sps (ob : bool) o spos l :
      s < n → p ≠ 0 →
      walks nm n (if ob then if sb then s + 1 else s else s)
        (if ob then sps else (sb, p) :: sps) spos l →
      walks nm n s ((sb, p) :: sps) ((ob, o) :: spos)
        ((if decide (o = 0) then [] else [new_IdTriple (nm s) p o]) ++ l).

Lemma walks_objects nm n s (sb : bool) p sps os spos l :
  s < n → p ≠ 0 → os ≠ [] →
  walks nm n (if sb then s + 1 else s) sps spos l →
  walks nm n s ((sb, p) :: sps) (mark os ++ spos) (pair_triples (nm s) (p, os) ++ l).
Proof.
  intros Hs Hp Hos Hl. unfold pair_triples. rewrite decide_False by done. cbn [fst snd].
  induction os as [|o os IH]; [done|]. clear Hos. rewrite mark_cons, <- app_comm_cons, filter_cons.
  assert (∀ l1 : list IdTriple,
    (new_IdTriple (nm s) p <$> (if decide (o ≠ 0) then o :: filter (λ o, o ≠ 0) os
                               else filter (λ o, o ≠ 0) os)) ++ l1 =
    (if decide (o = 0) then [] else [new_IdTriple (nm s) p o]) ++
      (new_IdTriple (nm s) p <$> filter (λ o, o ≠ 0) os) ++ l1) as ->.
  { intros l1. destruct (decide (o = 0)); [rewrite decide_False by auto|rewrite decide_True by auto]; done. }
  destruct os as [|o' os].
  - rewrite bool_decide_eq_true_2 by done. by constructor.
  - rewrite bool_decide_eq_false_2 by done. constructor; [done..|]. by apply IH.
Qed.

(** A pair that can be walked: some objects, and just one if it is a gap. *)
Definition pair_ok (po : nat * list nat) : Prop := po.2 ≠ [] ∧ (po.1 = 0 → length po.2 = 1).

Lemma row_wf_ok r : row_wf r → r ≠ [] ∧ Forall pair_ok r.
Proof.
  intros [->|(Hne & Hs & Hall)]; [by repeat constructor|]. split; [done|].
  apply StronglySorted_inv in Hs as [_ Hpos]. rewrite Forall_forall in Hpos. rewrite Forall_forall in Hall.
  rewrite Forall_forall.
  intros [p os] Hin. destruct (Hall _ Hin) as [Hos _]. split; [done|]. simpl. intros ->.
  apply (list_elem_of_fmap_2 fst), Hpos in Hin. simpl in Hin. lia.
Qed.

Lemma walks_row nm n s r sps spos l :
  s < n → r ≠ [] → Forall pair_ok r →
  walks nm n (s + 1) sps spos l →
  walks nm n s (mark r.*1 ++ sps) (flat r.*2 ++ spos) (row_triples (nm s) r ++ l).
Proof.
  intros Hs Hne Hall Hl. induction Hall as [|[p os] r [Hos Hgap] Hall IH]; [done|]. clear Hne.
  rewrite !fmap_cons, mark_cons, flat_cons, <- !app_assoc. cbn [fst snd] in *.
  change (row_triples (nm s) ((p, os) :: r)) with (pair_triples (nm s) (p, os) ++ row_triples (nm s) r).
  rewrite <- !app_assoc.
  assert (walks nm n (if bool_decide (r.*1 = []) then s + 1 else s) (mark r.*1 ++ sps)
            (flat r.*2 ++ spos) (row_triples (nm s) r ++ l)) as Hr.
  { destruct r as [|po r]; [done|]. rewrite bool_decide_eq_false_2 by done. by apply IH. }
  destruct (decide (p = 0)) as [->|Hp]; [|by apply walks_objects].
  destruct os as [|x [|]]; simpl in *; try by specialize (Hgap eq_refl). by constructor.
Qed.

Lemma walks_decode nm n i N :
  layout_wf N → i + length N ≤ n →
  walks nm n i (flat (sp_rows N)) (flat (spo_rows N)) (decode nm i N).
Proof.
  intros Hwf. revert i. induction Hwf as [|r N Hr Hwf IH]; intros i Hi; simpl in *; [constructor|].
  apply row_wf_ok in Hr as [Hne Hok].
  change (flat (sp_rows (r :: N))) with (mark r.*1 ++ flat (sp_rows N)).
  change (spo_rows (r :: N)) with (r.*2 ++ spo_rows N). rewrite flat_app.
  apply walks_row; [lia|done..|]. rewrite Nat.add_1_r. apply IH. lia.
Qed.

(** * The iterator against its layout *)

Section subject_iterator_laws.
Context `{SuccinctLaws}.

(** The structures of a layer hold a layout. *)
Record holds (subjects : option MonotonicLogArray) (s_p sp_o : AdjacencyList) (N : layout) : Prop := {
  holds_s_p : aj_rows s_p = sp_rows N;
  holds_sp_o : aj_rows sp_o = spo_rows N;
  holds_wf : layout_wf N;
  holds_subjects : subjects_wf (ml_list <$> subjects) N;
}.

Notation nm_of subjects := (subject_name (ml_list <$> subjects)).

Definition layer_triples (subjects : option MonotonicLogArray) (N : layout) : list IdTriple :=
  decode (nm_of subjects) 0 N.

Lemma layer_triples_sorted subjects s_p sp_o N :
  holds subjects s_p sp_o N → triples_sorted spo (layer_triples subjects N).
Proof. intros []. by apply layout_sorted. Qed.

Lemma layer_triples_pos subjects s_p sp_o N t :
  holds subjects s_p sp_o N → t ∈ layer_triples subjects N →
  subject t ≠ 0 ∧ predicate t ≠ 0 ∧ object t ≠ 0.
Proof.
  intros [] (k & r & Hk & Ht)%elem_of_decode. apply elem_of_row_triples in Ht as (Hs & ? & ? & _).
  split_and!; [|done..]. apply lookup_lt_Some in Hk.
  pose proof (subject_name_pos _ (length N) k holds_subjects0 Hk). simpl in *. lia.
Qed.

Record si_rest (N : layout) (it : InternalLayerTripleSubjectIterator) (l : list IdTriple) : Prop := {
  si_rest_holds : holds (si_subjects it) (si_s_p it) (si_sp_o it) N;
  si_rest_walks : walks (nm_of (si_subjects it)) (length N) (si_s_position it)
    (drop (si_s_p_position it) (flat (sp_rows N)))
    (drop (si_sp_o_position it) (flat (spo_rows N))) l;
}.

Definition si_yields (it : InternalLayerTripleSubjectIterator) (l : list IdTriple) : Prop :=
  ∃ N l', si_rest N it l' ∧ l = option_list (si_peeked it) ++ l'.

Lemma si_subject N subjects s_p sp_o s :
  holds subjects s_p sp_o N → s < length N →
  match subjects with Some m => ml_entry m s | None => Ok (s + 1) end = Ok (nm_of subjects s).
Proof.
  intros Hh Hs. destruct Hh as [_ _ _ Hsub]. destruct subjects as [m|]; simpl in *.
  - destruct Hsub as [Hlen _]. destruct (lookup_lt_is_Some_2 (ml_list m) s) as [x Hx]; [lia|].
    rewrite Hx. by apply ml_entry_spec.
  - f_equal. lia.
Qed.

Lemma si_next_loop_spec N fuel it l :
  si_rest N it l → length (concat (aj_rows (si_sp_o it))) - si_sp_o_position it < fuel →
  si_peeked it = None →
  ∃ it', si_next_loop fuel it = Ok (head l, it') ∧ si_rest N it' (tail l) ∧ si_peeked it' = None.
Proof.
  revert it l. induction fuel as [|fuel IH]; intros it l [Hh Hw] Hf Hp; [lia|].
  pose proof Hh as [Hsp Hspo _ _]. rewrite <- flat_length in Hf.
  cbn [si_next_loop]. rewrite aj_right_count_spec, <- flat_length, Hspo in *.
  inversion Hw as [s sps Hs1 Hs2 Hs3 Hs4|s sb sps x spos l' Hlt Hw' Hs1 Hs2 Hs3 Hs4
                  |s sb p sps ob o spos l' Hlt Hpne Hw' Hs1 Hs2 Hs3 Hs4]; subst.
  - assert (length (flat (spo_rows N)) ≤ si_sp_o_position it) by
      (symmetry in Hs3; apply (f_equal length) in Hs3; rewrite length_drop in Hs3; simpl in Hs3; lia).
    rewrite decide_True by done. exists it. split_and!; [done| |done]. split; [done|].
    simpl. rewrite <- Hs3. apply walks_nil.
  - symmetry in Hs2, Hs3. apply drop_lookup_head in Hs2 as [Hl2 Hd2], Hs3 as [Hl3 Hd3].
    pose proof (lookup_lt_Some _ _ _ Hl3). rewrite decide_False by lia.
    rewrite <- Hsp in Hl2.
    rewrite (aj_bit_at_pos_spec _ _ _ _ Hl2), (aj_num_at_pos_spec _ _ _ _ Hl2).
    cbn [mbind outcome_bind]. rewrite decide_True by done. apply IH.
    + split; simpl; [done|]. by rewrite Hd2, Hd3.
    + simpl. rewrite <- flat_length, Hspo. lia.
    + done.
  - symmetry in Hs2, Hs3.
    pose proof (drop_lookup_head _ _ _ _ Hs2) as [Hl2 Hd2].
    apply drop_lookup_head in Hs3 as [Hl3 Hd3].
    pose proof (lookup_lt_Some _ _ _ Hl3). rewrite decide_False by lia.
    rewrite <- Hsp in Hl2. rewrite <- Hspo in Hl3.
    rewrite (aj_bit_at_pos_spec _ _ _ _ Hl2), (aj_num_at_pos_spec _ _ _ _ Hl2).
    cbn [mbind outcome_bind]. rewrite decide_False by done.
    rewrite (aj_bit_at_pos_spec _ _ _ _ Hl3), (aj_num_at_pos_spec _ _ _ _ Hl3).
    cbn [mbind outcome_bind].
    set (it' := if ob then _ else _).
    assert (si_rest N it' l') as Hrest.
    { subst it'. destruct ob; split; simpl; try done; by rewrite ?Hd2, ?Hs2, Hd3. }
    assert (si_peeked it' = None) by (subst it'; by destruct ob).
    assert (si_sp_o_position it' = si_sp_o_position it + 1) by (subst it'; by destruct ob).
    assert (si_sp_o it' = si_sp_o it) by (subst it'; by destruct ob).
    destruct (decide (o = 0)).
    + apply IH; [done| |done]. rewrite <- flat_length.
      replace (si_sp_o it') with (si_sp_o it) by done. rewrite Hspo. lia.
    + rewrite (si_subject N _ _ _ _ Hh Hlt). cbn [mbind outcome_bind]. by exists it'.
Qed.

Lemma si_next_spec it l :
  si_yields it l → ∃ it', si_next it = Ok (head l, it') ∧ si_yields it' (tail l) ∧ si_peeked it' = None.
Proof.
  intros (N & l' & Hr & ->). unfold si_next. destruct (si_peeked it) as [t|] eqn:Hp; simpl.
  - eexists. split_and!; [done| |done]. exists N, l'. split; [|done]. by destruct Hr.
  - destruct (si_next_loop_spec N _ it l' Hr (Nat.lt_succ_diag_r _) Hp) as (it' & Hn & Hr' & Hp').
    rewrite <- aj_right_count_spec in Hn. exists it'. split_and!; [done| |done].
    exists N, (tail l'). by rewrite Hp'.
Qed.

Lemma si_peek_spec it l :
  si_yields it l → ∃ it', si_peek it = Ok (head l, it') ∧ si_yields it' l.
Proof.
  intros (it' & Hn & (N & l' & [Hh Hw] & Hl) & Hp)%si_next_spec. unfold si_peek. rewrite Hn.
  cbn [mbind outcome_bind]. eexists. split; [done|]. exists N, l'. split; [done|].
  rewrite Hp in Hl. simpl in *. by destruct l; simplify_eq/=.
Qed.

#[export] Program Instance subject_iter_laws : TripleIterLaws InternalLayerTripleSubjectIterator :=
  { yields := si_yields }.
Next Obligation. intros it l (it' & ? & ? & _)%si_next_spec. eauto. Qed.
Next Obligation. apply si_peek_spec. Qed.

(** Iterating from the start. *)
Lemma si_new_yields subjects s_p sp_o N :
  holds subjects s_p sp_o N → si_yields (si_new subjects s_p sp_o) (layer_triples subjects N).
Proof.
  intros Hh. exists N, (layer_triples subjects N). split; [|done]. split; [done|].
  apply walks_decode; [apply Hh|done].
Qed.

(** ** Seeks *)

(** A cursor inside the row at [length N1], after its first pairs [r1]. *)
Lemma cursor_yields it N N1 r1 r2 N2 :
  holds (si_subjects it) (si_s_p it) (si_sp_o it) N →
  N = N1 ++ (r1 ++ r2) :: N2 → r2 ≠ [] →
  si_yields (si_at it (length N1) (sp_len (N1 ++ [r1])) (spo_len (N1 ++ [r1])) None)
    (row_triples (nm_of (si_subjects it) (length N1)) r2 ++
     decode (nm_of (si_subjects it)) (S (length N1)) N2).
Proof.
  intros Hh HN Hr2. pose proof Hh as [_ _ Hwf _]. eexists N, _. split; [|done]. split; [done|].
  simpl. rewrite HN, flat_sp_drop, flat_spo_drop. rewrite HN in Hwf.
  apply Forall_app in Hwf as [_ Hwf]. apply Forall_cons in Hwf as [Hr Hwf].
  apply row_wf_ok in Hr as [_ Hok]. apply Forall_app in Hok as [_ Hok].
  apply walks_row; [rewrite length_app; simpl; lia|done..|].
  rewrite Nat.add_1_r. apply walks_decode; [done|]. rewrite length_app. simpl. lia.
Qed.

(** A cursor at the start of a row, or past the last. *)
Lemma row_start_yields it N N1 N2 :
  holds (si_subjects it) (si_s_p it) (si_sp_o it) N → N = N1 ++ N2 →
  si_yields (si_at it (length N1) (sp_len N1) (spo_len N1) None)
    (decode (nm_of (si_subjects it)) (length N1) N2).
Proof.
  intros Hh HN. pose proof Hh as [_ _ Hwf _]. eexists N, _. split; [|done]. split; [done|].
  simpl. rewrite HN. rewrite sp_rows_app, spo_rows_app, !flat_app.
  unfold sp_len, spo_len. rewrite <- !flat_length, !drop_app_length.
  rewrite HN in Hwf. apply Forall_app in Hwf as [_ Hwf].
  apply walks_decode; [done|]. rewrite length_app. lia.
Qed.

(** A cursor past all objects. *)
Lemma end_yields it N s sp spo :
  holds (si_subjects it) (si_s_p it) (si_sp_o it) N → spo_len N ≤ spo →
  si_yields (si_at it s sp spo None) [].
Proof.
  intros Hh Hspo. exists N, []. split; [|done]. split; [done|]. simpl.
  rewrite (drop_ge (flat (spo_rows N))); [constructor|]. by rewrite flat_length.
Qed.

(** The position a seek starts at. *)
Definition seek_row (subjects : option MonotonicLogArray) (subject : nat) : nat :=
  match subjects with None => subject - 1 | Some m => ml_nearest_index_of m subject end.

Lemma seek_row_lt subjects n s i :
  names_wf (ml_list <$> subjects) n → s ≠ 0 → i < n →
  nm_of subjects i < s ↔ i < seek_row subjects s.
Proof.
  intros Hsub Hs Hi. unfold seek_row, subject_name. destruct subjects as [m|]; simpl in *; [|lia].
  destruct Hsub as [Hlen Hsub]. apply StronglySorted_inv in Hsub as [Hsub _].
  destruct (lookup_lt_is_Some_2 (ml_list m) i) as [y Hy]; [lia|]. rewrite Hy. simpl.
  rewrite ml_nearest_index_of_spec. by apply sorted_index_lt.
Qed.

Lemma decode_subject_bound nm i N t :
  t ∈ decode nm i N → ∃ k, k < length N ∧ subject t = nm (i + k).
Proof.
  intros (k & r & Hk & Ht)%elem_of_decode. apply elem_of_row_triples in Ht as (Hs & _).
  apply lookup_lt_Some in Hk. eauto.
Qed.

Lemma seek_subject_split subjects s_p sp_o N s :
  holds subjects s_p sp_o N → s ≠ 0 →
  let k := seek_row subjects s in
  layer_triples subjects N =
    decode (nm_of subjects) 0 (take k N) ++ decode (nm_of subjects) (length (take k N)) (drop k N) ∧
  (∀ t, t ∈ decode (nm_of subjects) 0 (take k N) → subject t < s) ∧
  (∀ t, t ∈ decode (nm_of subjects) (length (take k N)) (drop k N) → s ≤ subject t).
Proof.
  intros [_ _ _ Hsub] Hs k. split_and!.
  - unfold layer_triples. by rewrite <- (take_drop k N) at 1; rewrite decode_app.
  - intros t (j & Hj & ->)%decode_subject_bound. rewrite length_take in Hj.
    eapply seek_row_lt; [done..| |]; simpl; lia.
  - intros t (j & Hj & ->)%decode_subject_bound. rewrite length_drop in Hj.
    rewrite length_take. apply Nat.le_ngt. intros Hlt%(seek_row_lt _ (length N)); [lia|done..|lia].
Qed.

Lemma holds_left_count subjects s_p sp_o N : holds subjects s_p sp_o N → aj_left_count s_p = length N.
Proof. intros [Hsp _ _ _]. by rewrite aj_left_count_spec, Hsp, sp_rows_length. Qed.

Lemma holds_right_count subjects s_p sp_o N :
  holds subjects s_p sp_o N → aj_right_count s_p = sp_len N ∧ aj_right_count sp_o = spo_len N ∧
  aj_left_count sp_o = sp_len N.
Proof.
  intros [Hsp Hspo _ _]. unfold sp_len, spo_len.
  by rewrite !aj_right_count_spec, aj_left_count_spec, Hsp, Hspo, spo_rows_length.
Qed.

(** [offset_for] at the start of a row and at the objects of a pair. *)
Lemma holds_offset_row subjects s_p sp_o N1 N2 :
  holds subjects s_p sp_o (N1 ++ N2) → aj_offset_for s_p (length N1 + 1) = Ok (sp_len N1).
Proof.
  intros Hh. rewrite Nat.add_1_r, aj_offset_for_row
    by (rewrite (holds_left_count _ _ _ _ Hh), length_app; lia).
  by destruct Hh as [-> _ _ _]; rewrite sp_offset_app.
Qed.

Lemma holds_offset_objects subjects s_p sp_o N1 r1 r2 N2 :
  holds subjects s_p sp_o (N1 ++ (r1 ++ r2) :: N2) →
  aj_offset_for sp_o (sp_len (N1 ++ [r1]) + 1) = Ok (spo_len (N1 ++ [r1])).
Proof.
  intros Hh. rewrite Nat.add_1_r, aj_offset_for_row.
  - destruct Hh as [_ -> _ _]. by rewrite spo_offset_split.
  - destruct (holds_right_count _ _ _ _ Hh) as (_ & _ & ->).
    rewrite !sp_len_app, sp_len_single, sp_len_cons, length_app. lia.
Qed.

Lemma holds_offset_objects_row subjects s_p sp_o N1 N2 :
  holds subjects s_p sp_o (N1 ++ N2) →
  aj_offset_for sp_o (sp_len N1 + 1) = Ok (spo_len N1).
Proof.
  intros Hh. rewrite Nat.add_1_r, aj_offset_for_row.
  - destruct Hh as [_ -> _ _]. by rewrite spo_offset_app.
  - destruct (holds_right_count _ _ _ _ Hh) as (_ & _ & ->). rewrite sp_len_app. lia.
Qed.

Lemma seek_subject_spec it N s :
  holds (si_subjects it) (si_s_p it) (si_sp_o it) N →
  ∃ it' T1 T2, seek_subject_ref it s = Ok it' ∧
    layer_triples (si_subjects it) N = T1 ++ T2 ∧ si_yields it' T2 ∧
    (∀ t, t ∈ T1 → subject t < s) ∧ (∀ t, t ∈ T2 → s ≤ subject t).
Proof.
  intros Hh. unfold seek_subject_ref. case_decide as Hs.
  - subst. eexists _, [], _. split_and!; [done|done| |by intros ? []%not_elem_of_nil|intros; lia].
    apply (row_start_yields it N [] N); [done..].
  - destruct (seek_subject_split _ _ _ _ s Hh Hs) as (Heq & Hlt & Hge).
    fold (seek_row (si_subjects it) s). set (k := seek_row (si_subjects it) s) in *.
    rewrite (holds_left_count _ _ _ _ Hh). destruct (holds_right_count _ _ _ _ Hh) as (-> & -> & _).
    case_decide as Hk.
    + eexists _, _, _. split_and!; [done|exact Heq| |done..].
      rewrite (drop_ge N) by done. by eapply end_yields.
    + rewrite <- (take_drop k N) in Hh. assert (length (take k N) = k) as Hlk by (rewrite length_take; lia).
      pose proof (holds_offset_row _ _ _ _ _ Hh) as Ho. rewrite Hlk in Ho. rewrite Ho.
      cbn [mbind outcome_bind]. rewrite (holds_offset_objects_row _ _ _ _ _ Hh).
      cbn [mbind outcome_bind]. eexists _, _, _. split_and!; [done|exact Heq| |done..].
      pose proof (row_start_yields it _ _ _ Hh eq_refl) as Hy. by rewrite Hlk in *.
Qed.

(** The pair of [s_p] under a cursor inside a row. *)
Lemma holds_sp_at subjects s_p sp_o N1 r1 po r2 N2 :
  holds subjects s_p sp_o (N1 ++ (r1 ++ po :: r2) :: N2) →
  aj_num_at_pos s_p (sp_len (N1 ++ [r1])) = Ok po.1 ∧
  aj_bit_at_pos s_p (sp_len (N1 ++ [r1])) = Ok (bool_decide (r2 = [])).
Proof.
  intros [Hsp _ _ _].
  assert (flat (aj_rows s_p) !! sp_len (N1 ++ [r1]) = Some (bool_decide (r2 = []), po.1)) as Hl.
  { rewrite Hsp. apply (drop_lookup_head _ _ _ (mark r2.*1 ++ flat (sp_rows N2))).
    rewrite flat_sp_drop, fmap_cons, mark_cons. simpl. do 2 f_equal.
    apply bool_decide_ext. destruct r2; naive_solver. }
  split; [by eapply aj_num_at_pos_spec|by eapply aj_bit_at_pos_spec].
Qed.

Lemma sp_len_snoc N r po : sp_len (N ++ [r ++ [po]]) = sp_len (N ++ [r]) + 1.
Proof. rewrite !sp_len_app, !sp_len_single, length_app. simpl. lia. Qed.

Lemma scan_predicate_spec subjects s_p sp_o p fuel N1 r1 r2 N2 :
  holds subjects s_p sp_o (N1 ++ (r1 ++ r2) :: N2) → r2 ≠ [] → length r2 ≤ fuel →
  ∃ r2a r2b, r2 = r2a ++ r2b ∧ (∀ po, po ∈ r2a → po.1 < p) ∧
    (∀ po r, r2b = po :: r → p ≤ po.1) ∧
    scan_predicate s_p p fuel (length N1) (sp_len (N1 ++ [r1])) =
      Ok (if decide (r2b = []) then length N1 + 1 else length N1, sp_len (N1 ++ [r1 ++ r2a])).
Proof.
  revert r1 r2. induction fuel as [|fuel IH]; intros r1 r2 Hh Hne Hf; [by destruct r2; simpl in *; [|lia]|].
  destruct r2 as [|po r2]; [done|]. cbn [scan_predicate].
  destruct (holds_sp_at _ _ _ _ _ _ _ _ Hh) as [Hnum Hbit].
  rewrite Hnum. cbn [mbind outcome_bind]. case_decide as Hlt.
  - replace (_ + 1 - 1) with (sp_len (N1 ++ [r1])) by lia. rewrite Hbit. cbn [mbind outcome_bind].
    rewrite <- (sp_len_snoc N1 r1 po). case_bool_decide as Hr2.
    + subst. exists [po], []. split_and!; [done| |done|done].
      by intros ? ->%list_elem_of_singleton.
    + rewrite (cons_middle po), (app_assoc r1) in Hh.
      destruct (IH (r1 ++ [po]) r2 Hh Hr2) as (r2a & r2b & -> & Ha & Hb & Hs); [simpl in *; lia|].
      exists (po :: r2a), r2b. split_and!; [done| |done|].
      * intros ? [->|?]%elem_of_cons; auto.
      * rewrite Hs. by rewrite <- app_assoc.
  - exists [], (po :: r2). split_and!; [done|by intros ? []%not_elem_of_nil| |].
    + intros ?? [= <- <-]. lia.
    + by rewrite decide_False, app_nil_r by done.
Qed.

Lemma seek_subject_predicate_spec it N s p :
  holds (si_subjects it) (si_s_p it) (si_sp_o it) N →
  ∃ it' T1 T2, seek_subject_predicate_ref it s p = Ok it' ∧
    layer_triples (si_subjects it) N = T1 ++ T2 ∧ si_yields it' T2 ∧
    (∀ t, t ∈ T1 → subject t = s → predicate t < p) ∧
    (∀ t, t ∈ T2 → s < subject t ∨ (subject t = s ∧ p ≤ predicate t)).
Proof.
  intros Hh. unfold seek_subject_predicate_ref. case_decide as Hp.
  { subst p. destruct (seek_subject_spec it N s Hh) as (it' & T1 & T2 & Hseek & Heq & Hy & H1 & H2).
    exists it', T1, T2. split_and!; [done..| |].
    - intros t Ht%H1. lia.
    - intros t Ht%H2. lia. }
  case_decide as Hs.
  { subst s. eexists _, [], _. split_and!; [done|done| |by intros ? []%not_elem_of_nil|].
    - apply (row_start_yields it N [] N); done.
    - intros t Ht. left. eapply layer_triples_pos in Ht; [|done]. lia. }
  destruct (seek_subject_split _ _ _ _ s Hh Hs) as (Heq & Hlt & Hge).
  fold (seek_row (si_subjects it) s). set (k := seek_row (si_subjects it) s) in *.
  rewrite (holds_left_count _ _ _ _ Hh). destruct (holds_right_count _ _ _ _ Hh) as (-> & -> & _).
  case_decide as Hk.
  { rewrite (drop_ge N) in Heq by done. eexists _, _, []. split_and!; [done|done| | |].
    - by eapply end_yields.
    - intros t Ht%Hlt. lia.
    - by intros ? []%not_elem_of_nil. }
  apply Nat.nle_gt in Hk. destruct (lookup_lt_is_Some_2 N k Hk) as [r Hr].
  assert (length (take k N) = k) as Hlk by (rewrite length_take; lia).
  rewrite (drop_S _ _ _ Hr) in *. rewrite <- (take_drop_middle N k r Hr) in Hh.
  pose proof (holds_offset_row _ _ _ _ _ Hh) as Ho. rewrite Hlk in Ho. rewrite Ho.
  cbn [mbind outcome_bind].
  assert (r ≠ []) as Hne.
  { destruct Hh as [_ _ Hwf _]. apply Forall_app in Hwf as [_ [Hr' _]%Forall_cons]. by apply row_wf_ok in Hr' as [? _]. }
  destruct (scan_predicate_spec _ _ _ p (sp_len N) (take k N) [] r (drop (S k) N) Hh Hne)
    as (ra & rb & -> & Ha & Hb & Hscan).
  { rewrite <- (take_drop_middle N k r Hr), sp_len_app, sp_len_cons. lia. }
  rewrite sp_len_app, sp_len_single, Nat.add_0_r, Hlk in Hscan. rewrite Hscan.
  cbn [mbind outcome_bind app].
  rewrite (holds_offset_objects _ _ _ _ _ _ _ Hh). cbn [mbind outcome_bind].
  simpl decode in Heq. rewrite row_triples_app, <- app_assoc, app_assoc in Heq.
  eexists _, _, _. split_and!; [done|exact Heq| | |].
  - destruct rb as [|po rb].
    + rewrite decide_True by done. rewrite app_nil_r in Hh.
      rewrite (cons_middle ra), app_assoc in Hh.
      pose proof (row_start_yields it _ _ _ Hh eq_refl) as Hy.
      rewrite length_app, Hlk in Hy. rewrite Hlk. simpl. simpl in Hy.
      by rewrite Nat.add_1_r in *.
    + rewrite decide_False by done. rewrite <- Hlk at 1. by eapply cursor_yields.
  - intros t [Ht%Hlt|Ht]%elem_of_app Hst; [lia|].
    apply elem_of_row_triples in Ht as (_ & _ & _ & os & Hin & _). by apply Ha in Hin.
  - pose proof (holds_subjects _ _ _ _ Hh) as Hsub. pose proof (holds_wf _ _ _ _ Hh) as Hwf.
    assert (length (take k N ++ (ra ++ rb) :: drop (S k) N) = length N) as HlN
      by (rewrite length_app; simpl; rewrite length_drop, Hlk; lia).
    assert (s ≤ nm_of (si_subjects it) k) as Hsk.
    { apply Nat.nlt_ge. intros Hlt'%(seek_row_lt _ _ _ _ Hsub Hs); [|lia]. subst k. lia. }
    intros t [Ht|Ht]%elem_of_app.
    + rewrite Hlk in Ht. apply elem_of_row_triples in Ht as (-> & _ & _ & os & Hin & _).
      destruct (decide (s = nm_of (si_subjects it) k)) as [Hst|]; [right|left; lia]. split; [done|].
      destruct rb as [|po rb]; [by apply not_elem_of_nil in Hin|].
      specialize (Hb _ _ eq_refl). apply elem_of_cons in Hin as [<-|Hin]; [done|].
      apply Forall_app in Hwf as [_ [Hrow _]%Forall_cons]. destruct Hrow as [Hrow|(_ & Hsort & _)].
      { apply (f_equal length) in Hrow. rewrite length_app in Hrow.
        destruct rb; [by apply not_elem_of_nil in Hin|simpl in Hrow; lia]. }
      rewrite fmap_app in Hsort. apply StronglySorted_inv in Hsort as [Hsort _].
      apply StronglySorted_app_inv in Hsort as (_ & Hsort & _).
      apply StronglySorted_inv in Hsort as [_ Hsort]. rewrite Forall_forall in Hsort.
      apply (list_elem_of_fmap_2 fst), Hsort in Hin. simpl in Hin. lia.
    + left. apply decode_subject_bound in Ht as (j & Hj & ->). rewrite length_drop in Hj.
      eapply Nat.le_lt_trans; [exact Hsk|]. eapply subject_name_mono; [exact Hsub| |]; lia.
Qed.
End subject_iterator_laws.
