(* ===== verification/LayerLookup.v ===== *)
(** The point lookups at the end of [src/layer/internal/mod.rs]:
    [sp_o_position], which finds the objects of a subject and a predicate in the
    adjacency lists of a layer, and [layer_triple_exists] on top of it. *)

From S2P Require Import Prelude Succinct LayerTypes Nested SubjectIterator.

Section layer_lookup.
Context `{SuccinctOps}.

(** The loop of [sp_o_position]: look for the predicate up to the end of the row. *)
Fixpoint find_in_row (s_p : AdjacencyList) (predicate fuel s_p_position : nat)
    : outcome (option nat) :=
  match fuel with
  | O => NoFuel
  | S fuel =>
      bit ← aj_bit_at_pos s_p s_p_position;
      num ← aj_num_at_pos s_p s_p_position;
      if decide (num = predicate) then Ok (Some s_p_position)
      else if bit : bool then Ok None
      else find_in_row s_p predicate fuel (s_p_position + 1)
  end.

Definition sp_o_position (subjects : option MonotonicLogArray) (s_p sp_o : AdjacencyList)
    (subject predicate : nat) : outcome (option nat) :=
  if decide (subject = 0 ∨ predicate = 0) then Ok None
  else
    match
      match subjects with
      | None => if decide (aj_left_count s_p < subject) then None else Some (subject - 1)
      | Some subjects => ml_index_of subjects subject
      end
    with
    | None => Ok None
    | Some s_position =>
        s_p_position ← aj_offset_for s_p (s_position + 1);
        found ← find_in_row s_p predicate (aj_right_count s_p) s_p_position;
        match found with
        | None => Ok None
        | Some s_p_position => pos ← aj_offset_for sp_o (s_p_position + 1); Ok (Some pos)
        end
    end.

Definition layer_triple_exists (subjects : option MonotonicLogArray) (s_p sp_o : AdjacencyList)
    (subject predicate object : nat) : outcome bool :=
  if decide (object = 0) then Ok false
  else
    pos ← sp_o_position subjects s_p sp_o subject predicate;
    match pos with
    | None => Ok false
    | Some pos =>
        found ← find_in_row sp_o object (aj_right_count sp_o) pos;
        Ok (bool_decide (is_Some found))
    end.
End layer_lookup.

Section layer_lookup_laws.
Context `{SuccinctLaws}.
Notation nm_of subjects := (subject_name (ml_list <$> subjects)).

(** Searching what is left of a row. *)
Lemma find_in_row_spec a x fuel pos r rest :
  drop pos (flat (aj_rows a)) = mark r ++ rest → r ≠ [] → length r ≤ fuel →
  (∃ r1 r2, r = r1 ++ x :: r2 ∧ x ∉ r1 ∧ find_in_row a x fuel pos = Ok (Some (pos + length r1))) ∨
  (x ∉ r ∧ find_in_row a x fuel pos = Ok None).
Proof.
  revert pos r. induction fuel as [|fuel IH]; intros pos r Hd Hne Hf; [destruct r; simpl in *; [done|lia]|].
  destruct r as [|y r]; [done|]. rewrite mark_cons in Hd. simpl in Hd.
  apply drop_lookup_head in Hd as [Hl Hd]. cbn [find_in_row].
  rewrite (aj_bit_at_pos_spec _ _ _ _ Hl), (aj_num_at_pos_spec _ _ _ _ Hl). cbn [mbind outcome_bind].
  case_decide as Hxy.
  - subst. left. exists [], r. split_and!; [done|by intros []%not_elem_of_nil|by rewrite Nat.add_0_r].
  - case_bool_decide as Hr.
    + subst. right. split; [|done]. intros ->%list_elem_of_singleton. done.
    + destruct (IH _ _ Hd Hr) as [(r1 & r2 & -> & Hx & ->)|[Hx ->]]; [simpl in *; lia| |].
      * left. exists (y :: r1), r2. split_and!; [done| |f_equal; f_equal; simpl; lia].
        by intros [->|?]%elem_of_cons.
      * right. split; [|done]. by intros [->|?]%elem_of_cons.
Qed.

(** The row of a subject: where it is, or that there is none. *)
Lemma subject_position_spec subjects s_p sp_o N s :
  holds subjects s_p sp_o N → s ≠ 0 →
  match match subjects with
        | None => if decide (aj_left_count s_p < s) then None else Some (s - 1)
        | Some subjects => ml_index_of subjects s
        end with
  | Some k => k < length N ∧ nm_of subjects k = s
  | None => ∀ k, k < length N → nm_of subjects k ≠ s
  end.
Proof.
  intros Hh Hs. rewrite (holds_left_count _ _ _ _ Hh). destruct Hh as [_ _ _ Hsub].
  destruct subjects as [m|]; simpl in *.
  - destruct Hsub as [Hlen _]. destruct (ml_index_of m s) as [k|] eqn:Hi.
    + apply ml_index_of_spec in Hi. rewrite Hi. apply lookup_lt_Some in Hi. split; [lia|done].
    + intros k Hk Hn. destruct (lookup_lt_is_Some_2 (ml_list m) k) as [y Hy]; [lia|].
      rewrite Hy in Hn. simpl in Hn. subst. apply ml_index_of_spec in Hy. congruence.
  - case_decide; [intros; lia|]. lia.
Qed.

(** A split of a layout at a subject and a predicate. *)
Definition at_pair (nm : nat → nat) (N : layout) (s p : nat) (N1 : layout) (r1 : row)
    (os : list nat) (r2 : row) (N2 : layout) : Prop :=
  N = N1 ++ (r1 ++ (p, os) :: r2) :: N2 ∧ nm (length N1) = s.

Lemma fst_split (r : row) r1 p r2 :
  r.*1 = r1 ++ p :: r2 → ∃ ra os rb, r = ra ++ (p, os) :: rb ∧ r1 = ra.*1 ∧ r2 = rb.*1.
Proof.
  revert r1. induction r as [|[q os] r IH]; intros r1 Hr; [by destruct r1|].
  destruct r1 as [|y r1]; injection Hr as -> Hr.
  - by exists [], os, r.
  - destruct (IH _ Hr) as (ra & os' & rb & -> & -> & ->). by exists ((y, os) :: ra), os', rb.
Qed.

Lemma sp_o_position_spec subjects s_p sp_o N s p :
  holds subjects s_p sp_o N →
  (p ≠ 0 ∧ ∃ N1 r1 os r2 N2, at_pair (nm_of subjects) N s p N1 r1 os r2 N2 ∧
    sp_o_position subjects s_p sp_o s p = Ok (Some (spo_len (N1 ++ [r1])))) ∨
  (sp_o_position subjects s_p sp_o s p = Ok None ∧
   ∀ t, t ∈ layer_triples subjects N → subject t = s → predicate t ≠ p).
Proof.
  intros Hh. unfold sp_o_position. case_decide as Hz.
  { right. split; [done|]. intros t Ht. eapply layer_triples_pos in Ht as (? & ? & _); [|done]. lia. }
  assert (s ≠ 0) as Hs by tauto. pose proof (subject_position_spec _ _ _ _ s Hh Hs) as Hpos.
  destruct (match subjects with None => _ | Some _ => _ end) as [k|].
  2: { right. split; [done|]. intros t (k & Hk & Hst)%decode_subject_bound Hst'.
       destruct (Hpos k Hk). simpl in *. congruence. }
  destruct Hpos as [Hk Hnm]. destruct (lookup_lt_is_Some_2 N k Hk) as [r Hr].
  assert (length (take k N) = k) as Hlk by (rewrite length_take; lia).
  rewrite <- (take_drop_middle N k r Hr) in Hh.
  pose proof (holds_offset_row _ _ _ _ _ Hh) as Ho. rewrite Hlk in Ho. rewrite Ho.
  cbn [mbind outcome_bind].
  assert (r ≠ []) as Hne.
  { destruct Hh as [_ _ Hwf _]. apply Forall_app in Hwf as [_ [Hr' _]%Forall_cons].
    by apply row_wf_ok in Hr' as [? _]. }
  destruct (find_in_row_spec s_p p (aj_right_count s_p) (sp_len (take k N)) r.*1
              (flat (sp_rows (drop (S k) N)))) as [(r1 & r2 & Hsplit & Hp & Hf)|[Hp Hf]].
  { rewrite (holds_s_p _ _ _ _ Hh). pose proof (flat_sp_drop (take k N) [] r (drop (S k) N)) as Hd.
    by rewrite sp_len_app, sp_len_single, Nat.add_0_r in Hd. }
  { by destruct r. }
  { destruct (holds_right_count _ _ _ _ Hh) as (-> & _ & _).
    rewrite length_fmap, sp_len_app, sp_len_cons. lia. }
  - left. split; [tauto|]. apply fst_split in Hsplit as (ra & os & rb & -> & -> & ->).
    exists (take k N), ra, os, rb, (drop (S k) N). split.
    { split; [by rewrite take_drop_middle|]. by rewrite Hlk. }
    rewrite Hf. cbn [mbind outcome_bind]. rewrite length_fmap, <- sp_len_single, <- sp_len_app.
    by rewrite (holds_offset_objects _ _ _ _ _ _ _ Hh).
  - right. rewrite Hf. cbn [mbind outcome_bind]. split; [done|].
    intros t (k' & r' & Hk' & Ht)%elem_of_decode Hst Hpt.
    apply elem_of_row_triples in Ht as (Hst' & _ & _ & os & Hin & _).
    rewrite take_drop_middle in Hh by done.
    assert (k' = k) as ->.
    { pose proof (holds_subjects _ _ _ _ Hh) as Hsub. apply lookup_lt_Some in Hk'.
      pose proof (subject_name_mono _ (length N) k k' Hsub). pose proof (subject_name_mono _ (length N) k' k Hsub).
      simpl in Hst'. lia. }
    simplify_eq. apply (list_elem_of_fmap_2 fst) in Hin. done.
Qed.

Lemma at_pair_exists subjects s_p sp_o N s p N1 r1 os r2 N2 o :
  holds subjects s_p sp_o N → p ≠ 0 → o ≠ 0 →
  at_pair (nm_of subjects) N s p N1 r1 os r2 N2 →
  o ∈ os ↔ new_IdTriple s p o ∈ layer_triples subjects N.
Proof.
  intros Hh Hp Ho [HN Hs]. unfold layer_triples. rewrite elem_of_decode. split.
  - intros Hin. exists (length N1), (r1 ++ (p, os) :: r2). split.
    { rewrite HN. apply list_lookup_middle. done. }
    apply elem_of_row_triples. simpl. split_and!; [done..|]. exists os. set_solver.
  - intros (k & r & Hk & Ht). apply elem_of_row_triples in Ht as (Hst & _ & _ & os' & Hin & Hos).
    simpl in *.
    assert (k = length N1) as ->.
    { pose proof (holds_subjects _ _ _ _ Hh) as Hsub. apply lookup_lt_Some in Hk.
      assert (length N1 < length N) by (rewrite HN, length_app; simpl; lia).
      pose proof (subject_name_mono _ (length N) k (length N1) Hsub).
      pose proof (subject_name_mono _ (length N) (length N1) k Hsub). lia. }
    assert (r = r1 ++ (p, os) :: r2) as ->.
    { rewrite HN, list_lookup_middle in Hk by done. by simplify_eq. }
    destruct Hh as [_ _ Hwf _]. rewrite HN in Hwf.
    apply Forall_app in Hwf as [_ [Hrow _]%Forall_cons]. destruct Hrow as [Hrow|(_ & Hsort & _)].
    { assert ((p, os) ∈ [(0, [0])]) as [=]%list_elem_of_singleton by (rewrite <- Hrow; set_solver). done. }
    apply StronglySorted_inv in Hsort as [Hsort _].
    apply StronglySorted_NoDup in Hsort; [|intros x; unfold complement; lia].
    apply NoDup_fmap_1 in Hsort as Hnd.
    assert ((p, os') = (p, os)) as [= ->]; [|done].
    apply list_elem_of_lookup in Hin as [i Hi].
    assert ((r1 ++ (p, os) :: r2) !! length r1 = Some (p, os)) as Hj by by apply list_lookup_middle.
    assert (i = length r1) as ->; [|congruence].
    eapply (NoDup_lookup (_.*1)); [exact Hsort| |]; by rewrite list_lookup_fmap, ?Hi, ?Hj.
Qed.

(** The objects under a position found. *)
Lemma at_pair_flat subjects s_p sp_o N s p N1 r1 os r2 N2 :
  holds subjects s_p sp_o N → at_pair (nm_of subjects) N s p N1 r1 os r2 N2 →
  ∃ rest, drop (spo_len (N1 ++ [r1])) (flat (aj_rows sp_o)) = mark os ++ rest ∧
    os ≠ [] ∧ length os ≤ aj_right_count sp_o.
Proof.
  intros Hh [HN _]. destruct (holds_right_count _ _ _ _ Hh) as (_ & -> & _).
  destruct Hh as [_ Hspo Hwf _]. rewrite Hspo, HN.
  pose proof (flat_spo_drop N1 r1 ((p, os) :: r2) N2) as Hd.
  rewrite fmap_cons, flat_cons, <- app_assoc in Hd. simpl in Hd. rewrite Hd. eexists. split_and!; [done| |].
  - rewrite HN in Hwf. apply Forall_app in Hwf as [_ [Hr _]%Forall_cons].
    apply row_wf_ok in Hr as [_ Hok]. apply Forall_app in Hok as [_ [[Hos _] _]%Forall_cons]. done.
  - apply (f_equal length) in Hd. rewrite length_drop, !length_app, mark_length, flat_length in Hd.
    unfold spo_len in *. lia.
Qed.

Lemma layer_triple_exists_spec subjects s_p sp_o N s p o :
  holds subjects s_p sp_o N →
  layer_triple_exists subjects s_p sp_o s p o =
    Ok (bool_decide (new_IdTriple s p o ∈ layer_triples subjects N)).
Proof.
  intros Hh. unfold layer_triple_exists. case_decide as Ho.
  { subst. f_equal. symmetry. apply bool_decide_eq_false_2. intros Hin.
    eapply layer_triples_pos in Hin as (_ & _ & Hin); [|done]. done. }
  destruct (sp_o_position_spec _ _ _ _ s p Hh) as [(Hp & N1 & r1 & os & r2 & N2 & Hat & ->)|[-> Hno]].
  - cbn [mbind outcome_bind].
    destruct (at_pair_flat _ _ _ _ _ _ _ _ _ _ _ Hh Hat) as (rest & Hd & Hne & Hlen).
    pose proof (at_pair_exists _ _ _ _ _ _ _ _ _ _ _ o Hh Hp Ho Hat) as Hex.
    destruct (find_in_row_spec sp_o o _ _ os rest Hd Hne Hlen)
      as [(r3 & r4 & -> & _ & ->)|[Hnin ->]]; cbn [mbind outcome_bind]; f_equal.
    + rewrite !bool_decide_eq_true_2; [done| |done]. apply Hex. set_solver.
    + rewrite !bool_decide_eq_false_2; [done| |by intros [??]]. by rewrite <- Hex.
  - cbn [mbind outcome_bind]. f_equal. symmetry. apply bool_decide_eq_false_2.
    intros Hin. by eapply Hno.
Qed.
End layer_lookup_laws.
