(* ===== verification/TripleBuilder.v ===== *)
(** [TripleFileBuilder] of [src/layer/builder.rs]: pushing triples in order into
    the two adjacency lists of a layer (and its array of subjects), and the
    round trip: what is built holds exactly the triples that were added. *)

From S2P Require Import Prelude Succinct LayerTypes Nested SubjectIterator.

Section triple_builder.
Context `{SuccinctOps}.

Record TripleFileBuilder := {
  tb_subjects : option (list nat);
  tb_s_p : AdjacencyListBuilder;
  tb_sp_o : AdjacencyListBuilder;
  tb_last_subject : nat;
  tb_last_predicate : nat;
}.

(** [sparse] says whether a subjects file was given. *)
Definition tb_new (sparse : bool) : TripleFileBuilder := {|
  tb_subjects := if sparse then Some [] else None;
  tb_s_p := ajb_new; tb_sp_o := ajb_new;
  tb_last_subject := 0; tb_last_predicate := 0 |}.

Definition add_triple (b : TripleFileBuilder) (subject predicate object : nat)
    : outcome TripleFileBuilder :=
  if decide (subject = 0 ∨ predicate = 0 ∨ object = 0) then Ok b
  else if decide (subject < tb_last_subject b) then Panic
  else if decide (tb_last_subject b = subject ∧ tb_last_predicate b = predicate) then
    let count := ajb_count (tb_s_p b) + 1 in
    sp_o ← ajb_push (tb_sp_o b) count object;
    Ok {| tb_subjects := tb_subjects b; tb_s_p := tb_s_p b; tb_sp_o := sp_o;
          tb_last_subject := subject; tb_last_predicate := predicate |}
  else
    let subjects := match tb_subjects b with
                    | Some l => Some (if decide (subject ≠ tb_last_subject b)
                                      then l ++ [subject] else l)
                    | None => None
                    end in
    let mapped_subject := match subjects with Some l => length l | None => subject end in
    s_p ← ajb_push (tb_s_p b) mapped_subject predicate;
    let count := ajb_count s_p + 1 in
    sp_o ← ajb_push (tb_sp_o b) count object;
    Ok {| tb_subjects := subjects; tb_s_p := s_p; tb_sp_o := sp_o;
          tb_last_subject := subject; tb_last_predicate := predicate |}.

Fixpoint add_id_triples (b : TripleFileBuilder) (triples : list IdTriple)
    : outcome TripleFileBuilder :=
  match triples with
  | [] => Ok b
  | t :: triples =>
      b ← add_triple b (subject t) (predicate t) (object t);
      add_id_triples b triples
  end.

(** The files of a finished builder, as they are read back. *)
Definition tb_finalize (b : TripleFileBuilder)
    : option MonotonicLogArray * AdjacencyList * AdjacencyList :=
  (ml_from_vec <$> tb_subjects b, ajb_finalize (tb_s_p b), ajb_finalize (tb_sp_o b)).

Definition build_triples (sparse : bool) (triples : list IdTriple)
    : outcome (option MonotonicLogArray * AdjacencyList * AdjacencyList) :=
  b ← add_id_triples (tb_new sparse) triples;
  Ok (tb_finalize b).
End triple_builder.

(** ** Pushing on the rows of a layout *)

Lemma push_last_snoc rows r x : push_last (rows ++ [r]) x = rows ++ [r ++ [x]].
Proof. induction rows as [|r0 rows IH]; [done|]. simpl. rewrite IH. by destruct rows. Qed.

Lemma sp_rows_snoc N r : sp_rows (N ++ [r]) = sp_rows N ++ [r.*1].
Proof. by rewrite sp_rows_app. Qed.

Lemma spo_rows_snoc N r po : spo_rows (N ++ [r ++ [po]]) = spo_rows (N ++ [r]) ++ [po.2].
Proof.
  rewrite !spo_rows_app. unfold spo_rows at 2 4. simpl.
  by rewrite !app_nil_r, fmap_app, app_assoc.
Qed.

Lemma decode_ext nm1 nm2 i N :
  (∀ k, k < length N → nm1 (i + k) = nm2 (i + k)) → decode nm1 i N = decode nm2 i N.
Proof.
  revert i. induction N as [|r N IH]; intros i Hnm; simpl; [done|].
  pose proof (Hnm 0) as H0. rewrite Nat.add_0_r in H0. rewrite H0 by (simpl; lia). f_equal.
  apply IH. intros k Hk. specialize (Hnm (S k)). rewrite Nat.add_succ_r in Hnm. apply Hnm. simpl. lia.
Qed.

Lemma decode_snoc nm N r :
  decode nm 0 (N ++ [r]) = decode nm 0 N ++ row_triples (nm (length N)) r.
Proof. rewrite decode_app. simpl. by rewrite app_nil_r. Qed.

(** A run of gaps, as the adjacency list builder leaves them for the subjects
    that have no triples. *)
Definition gaps (n : nat) : layout := replicate n [(0, [0])].

Lemma sp_rows_gaps n : sp_rows (gaps n) = replicate n [0].
Proof. unfold sp_rows, gaps. by rewrite fmap_replicate. Qed.

Lemma spo_rows_gaps n : spo_rows (gaps n) = replicate n [0].
Proof. induction n as [|n IH]; [done|].
  change (spo_rows (gaps (S n))) with ([0] :: spo_rows (gaps n)). by rewrite IH. Qed.

Lemma decode_gaps nm i n : decode nm i (gaps n) = [].
Proof. revert i. induction n as [|n IH]; intros i; simpl; [done|]. by rewrite IH. Qed.

Lemma gaps_wf n : layout_wf (gaps n).
Proof. apply Forall_replicate. by left. Qed.

Lemma sorted_snoc (l : list nat) x y :
  StronglySorted lt (l ++ [x]) → x < y → StronglySorted lt (l ++ [x; y]).
Proof.
  intros Hs Hxy. change [x; y] with ([x] ++ [y]). rewrite app_assoc. apply StronglySorted_app_intro; [done| |].
  - repeat constructor.
  - intros a b [Ha| ->%list_elem_of_singleton]%elem_of_app ->%list_elem_of_singleton; [|done].
    apply StronglySorted_app_inv in Hs as (_ & _ & Hs). assert (a < x) by (apply Hs; [done|by left]). lia.
Qed.

(** ** The three ways a triple extends a layout *)

Definition add_object (N1 : layout) (r1 : row) (p : nat) (os : list nat) (o : nat) : layout :=
  N1 ++ [r1 ++ [(p, os ++ [o])]].

Lemma row_wf_inv_pos r po : row_wf (r ++ [po]) → po.1 ≠ 0 →
  StronglySorted lt (0 :: (r ++ [po]).*1) ∧ Forall pair_wf (r ++ [po]).
Proof.
  intros [Hr|(_ & Hs & Hall)] Hp; [|done]. apply (f_equal last) in Hr.
  rewrite last_snoc in Hr. by simplify_eq/=.
Qed.

Lemma pair_triples_snoc s p os o :
  p ≠ 0 → o ≠ 0 → pair_triples s (p, os ++ [o]) = pair_triples s (p, os) ++ [new_IdTriple s p o].
Proof.
  intros Hp Ho. unfold pair_triples. cbn [fst snd]. rewrite !decide_False by done.
  rewrite filter_app, fmap_app. f_equal. by rewrite filter_cons_True.
Qed.

Lemma pair_triples_single s p o :
  p ≠ 0 → o ≠ 0 → pair_triples s (p, [o]) = [new_IdTriple s p o].
Proof.
  intros Hp Ho. unfold pair_triples. cbn [fst snd]. rewrite !decide_False by done.
  by rewrite filter_cons_True.
Qed.

Lemma row_triples_snoc s r po : row_triples s (r ++ [po]) = row_triples s r ++ pair_triples s po.
Proof. rewrite row_triples_app. unfold row_triples at 2. simpl. by rewrite app_nil_r. Qed.

Section extend.
Context (nm : nat → nat) (N1 : layout) (r1 : row) (p : nat) (os : list nat) (o : nat).
Notation N := (N1 ++ [r1 ++ [(p, os ++ [o])]]).
Context (Hp : p ≠ 0) (Hwf : layout_wf N).

Lemma last_row_wf :
  layout_wf N1 ∧ StronglySorted lt (0 :: (r1.*1 ++ [p])) ∧ Forall pair_wf r1 ∧
  StronglySorted lt (0 :: (os ++ [o])).
Proof.
  apply Forall_app in Hwf as [HN1 [Hr _]%Forall_cons].
  apply row_wf_inv_pos in Hr as [Hs Hall]; [|done]. rewrite fmap_app in Hs.
  apply Forall_app in Hall as [Hall [[_ Hos] _]%Forall_cons]. done.
Qed.

Lemma add_object_spec o' :
  o < o' →
  let N' := N1 ++ [r1 ++ [(p, os ++ [o; o'])]] in
  sp_rows N' = sp_rows N ∧ spo_rows N' = push_last (spo_rows N) o' ∧ layout_wf N' ∧
  length N' = length N ∧
  decode nm 0 N' = decode nm 0 N ++ [new_IdTriple (nm (length N1)) p o'].
Proof.
  intros Ho N'. destruct last_row_wf as (HN1 & Hs & Hall & Hos).
  assert (o' ≠ 0) by (destruct o'; [lia|done]). subst N'. split_and!.
  - by rewrite !sp_rows_snoc, !fmap_app.
  - rewrite !spo_rows_snoc. simpl. by rewrite push_last_snoc, <- app_assoc.
  - apply Forall_app. split; [done|]. apply Forall_singleton. right. split_and!.
    + by destruct r1.
    + by rewrite fmap_app.
    + apply Forall_app. split; [done|]. apply Forall_singleton. split; simpl; [by destruct os|].
      rewrite app_comm_cons. by apply sorted_snoc.
  - by rewrite !length_app.
  - rewrite !decode_snoc, !row_triples_snoc. change [o; o'] with ([o] ++ [o']).
    by rewrite (app_assoc os), (pair_triples_snoc _ _ (os ++ [o])), !app_assoc.
Qed.

Lemma add_pair_spec p' o' :
  p < p' → o' ≠ 0 →
  let N' := N1 ++ [r1 ++ [(p, os ++ [o])] ++ [(p', [o'])]] in
  sp_rows N' = push_last (sp_rows N) p' ∧ spo_rows N' = spo_rows N ++ [[o']] ∧ layout_wf N' ∧
  length N' = length N ∧
  decode nm 0 N' = decode nm 0 N ++ [new_IdTriple (nm (length N1)) p' o'].
Proof.
  intros Hpp Ho N'. destruct last_row_wf as (HN1 & Hs & Hall & Hos).
  subst N'. rewrite app_assoc. split_and!.
  - by rewrite !sp_rows_snoc, push_last_snoc, (fmap_app _ _ [(p', _)]).
  - by rewrite spo_rows_snoc.
  - apply Forall_app. split; [done|]. apply Forall_singleton. right. split_and!.
    + by destruct r1.
    + rewrite !fmap_app. simpl. rewrite <- app_assoc. simpl. rewrite app_comm_cons.
      by apply sorted_snoc.
    + apply Forall_app. split.
      * apply Forall_app. split; [done|]. apply Forall_singleton. split; [by destruct os|done].
      * apply Forall_singleton. split; [done|]. simpl. repeat constructor. lia.
  - by rewrite !length_app.
  - rewrite !decode_snoc, (row_triples_snoc _ (r1 ++ _)), app_assoc.
    by rewrite pair_triples_single by lia.
Qed.
End extend.

Lemma add_row_spec nm N g p o :
  p ≠ 0 → o ≠ 0 → layout_wf N →
  let N' := N ++ gaps g ++ [[(p, [o])]] in
  sp_rows N' = sp_rows N ++ replicate g [0] ++ [[p]] ∧
  spo_rows N' = spo_rows N ++ replicate g [0] ++ [[o]] ∧
  layout_wf N' ∧ length N' = length N + g + 1 ∧
  decode nm 0 N' = decode nm 0 N ++ [new_IdTriple (nm (length N + g)) p o].
Proof.
  intros Hp Ho HN N'. subst N'. split_and!.
  - by rewrite !sp_rows_app, sp_rows_gaps.
  - by rewrite !spo_rows_app, spo_rows_gaps.
  - apply Forall_app. split; [done|]. apply Forall_app. split; [apply gaps_wf|].
    apply Forall_singleton. right. split_and!; [done|repeat constructor; simpl; lia|].
    apply Forall_singleton. split; [done|]. repeat constructor. simpl. lia.
  - rewrite !length_app. unfold gaps. rewrite length_replicate. simpl. lia.
  - rewrite app_assoc, decode_snoc, decode_app, decode_gaps, app_nil_r, length_app. f_equal.
    unfold gaps. rewrite length_replicate. unfold row_triples. simpl.
    by rewrite pair_triples_single.
Qed.

(** ** The builder *)

Section triple_builder_laws.
Context `{SuccinctLaws}.

Lemma ajb_push_last bld rows r x y :
  ajb_rows bld = rows ++ [r ++ [x]] → x < y →
  ∃ bld', ajb_push bld (length rows + 1) y = Ok bld' ∧
    ajb_rows bld' = push_last (ajb_rows bld) y.
Proof.
  intros Hr Hxy. assert (length (ajb_rows bld) = length rows + 1) as Hlen
    by (rewrite Hr, length_app; done).
  destruct (ajb_push_spec bld (length rows + 1) y) as (bld' & Hp & Hr').
  - right. split; [done|]. exists (r ++ [x]), x. by rewrite Hr, !last_snoc.
  - exists bld'. split; [done|]. rewrite Hr'. unfold push_rows. by rewrite decide_True.
Qed.

Lemma ajb_push_new bld g y :
  ∃ bld', ajb_push bld (length (ajb_rows bld) + g + 1) y = Ok bld' ∧
    ajb_rows bld' = ajb_rows bld ++ replicate g [0] ++ [[y]].
Proof.
  destruct (ajb_push_spec bld (length (ajb_rows bld) + g + 1) y) as (bld' & Hp & Hr').
  - left. lia.
  - exists bld'. split; [done|]. rewrite Hr'. unfold push_rows. rewrite decide_False by lia.
    by replace (_ + _ + _ - _ - _) with g by lia.
Qed.

Record tb_inv (b : TripleFileBuilder) (N : layout) (T : list IdTriple) : Prop := {
  inv_s_p : ajb_rows (tb_s_p b) = sp_rows N;
  inv_sp_o : ajb_rows (tb_sp_o b) = spo_rows N;
  inv_wf : layout_wf N;
  inv_subjects : subjects_wf (tb_subjects b) N;
  inv_last_subject :
    match tb_subjects b with
    | None => length N = tb_last_subject b
    | Some l => default 0 (last l) = tb_last_subject b
    end;
  inv_triples : decode (subject_name (tb_subjects b)) 0 N = T;
  inv_last :
    (N = [] ∧ T = [] ∧ tb_last_subject b = 0) ∨
    ∃ N1 r1 os o, N = N1 ++ [r1 ++ [(tb_last_predicate b, os ++ [o])]] ∧
      tb_last_predicate b ≠ 0 ∧
      subject_name (tb_subjects b) (length N1) = tb_last_subject b ∧
      last T = Some (new_IdTriple (tb_last_subject b) (tb_last_predicate b) o);
}.

Lemma tb_new_inv sparse : tb_inv (tb_new sparse) [] [].
Proof.
  destruct sparse; split; simpl; rewrite ?ajb_new_spec; try done; try (by left);
    split; [done|repeat constructor].
Qed.

Lemma ajb_count_sp bld N :
  ajb_rows bld = sp_rows N → N ≠ [] → layout_wf N → ajb_count bld + 1 = sp_len N.
Proof.
  intros Hr Hne Hwf. rewrite Nat.add_1_r. unfold sp_len. rewrite <- Hr. apply ajb_count_spec.
  rewrite Hr. by destruct N.
Qed.

(** The number of rows before the last pair of a layout. *)
Lemma spo_rows_last N1 r1 p os :
  length (spo_rows (N1 ++ [r1])) + 1 = sp_len (N1 ++ [r1 ++ [(p, os)]]).
Proof. rewrite spo_rows_length, !sp_len_app, !sp_len_single, length_app. simpl. lia. Qed.

Lemma subjects_wf_length subjects N N' :
  length N' = length N → subjects_wf subjects N → subjects_wf subjects N'.
Proof. intros Hl. unfold subjects_wf. destruct subjects; [|done]. by rewrite Hl. Qed.

(** Same subject and predicate as the last triple: one more object. *)
Lemma add_triple_object b N T s p o :
  tb_inv b N T → T ≠ [] → (∀ t, last T = Some t → triple_lt spo t (new_IdTriple s p o)) →
  s ≠ 0 → p ≠ 0 → o ≠ 0 → tb_last_subject b = s → tb_last_predicate b = p →
  ∃ b' N', add_triple b s p o = Ok b' ∧ tb_inv b' N' (T ++ [new_IdTriple s p o]).
Proof.
  intros [Hsp Hspo Hwf Hsub Hls HT Hlast] HTne Hlt Hs Hp Ho Es Ep. unfold add_triple.
  rewrite decide_False, decide_False, decide_True by (lia || done).
  destruct Hlast as [(_ & -> & _)|(N1 & r1 & os & o1 & HN & _ & Hnm & HTl)]; [done|].
  specialize (Hlt _ HTl). rewrite Es, Ep in *. subst N.
  assert (o1 < o) as Hoo by (unfold triple_lt, key_lt, spo in Hlt; simpl in Hlt; lia).
  rewrite (ajb_count_sp _ _ Hsp) by (done || by destruct N1).
  rewrite <- spo_rows_last.
  destruct (ajb_push_last (tb_sp_o b) (spo_rows (N1 ++ [r1])) os o1 o) as (bld & -> & Hbld);
    [by rewrite Hspo, spo_rows_snoc|done|].
  destruct (add_object_spec (subject_name (tb_subjects b)) N1 r1 p os o1 Hp Hwf o Hoo)
    as (Hsp' & Hspo' & Hwf' & Hlen' & HT').
  cbn [mbind outcome_bind]. eexists _, (N1 ++ [r1 ++ [(p, os ++ [o1; o])]]). split; [done|].
  split; simpl.
  - by rewrite Hsp', Hsp.
  - by rewrite Hspo', Hbld, Hspo.
  - done.
  - by eapply subjects_wf_length.
  - destruct (tb_subjects b); [done|]. by rewrite Hlen'.
  - by rewrite HT', HT, Hnm.
  - right. exists N1, r1, (os ++ [o1]), o. rewrite <- app_assoc. split_and!; try done.
    by rewrite last_snoc.
Qed.

(** Same subject, a greater predicate: one more pair in the last row. *)
Lemma add_triple_pair b N T s p o :
  tb_inv b N T → T ≠ [] → (∀ t, last T = Some t → triple_lt spo t (new_IdTriple s p o)) →
  s ≠ 0 → p ≠ 0 → o ≠ 0 → tb_last_subject b = s → tb_last_predicate b ≠ p →
  ∃ b' N', add_triple b s p o = Ok b' ∧ tb_inv b' N' (T ++ [new_IdTriple s p o]).
Proof.
  intros [Hsp Hspo Hwf Hsub Hls HT Hlast] HTne Hlt Hs Hp Ho Es Ep. unfold add_triple.
  rewrite decide_False, decide_False, decide_False by (lia || intros [??]; done).
  destruct Hlast as [(_ & -> & _)|(N1 & r1 & os & o1 & HN & Hp1 & Hnm & HTl)]; [done|].
  specialize (Hlt _ HTl). rewrite Es in *. set (p1 := tb_last_predicate b) in *.
  assert (p1 < p) as Hpp by (unfold triple_lt, key_lt, spo in Hlt; simpl in Hlt; lia).
  assert (match tb_subjects b with
          | Some l => Some (if decide (s ≠ s) then l ++ [s] else l) | None => None end
          = tb_subjects b) as Hsubs.
  { destruct (tb_subjects b); [|done]. by rewrite decide_False by auto. }
  rewrite Hsubs.
  assert (match tb_subjects b with Some l => length l | None => s end = length (sp_rows N1) + 1) as ->.
  { subst N. rewrite length_app in *. simpl in *. rewrite sp_rows_length.
    destruct (tb_subjects b); [|lia]. destruct Hsub as [-> _]. by rewrite length_app. }
  subst N.
  destruct (ajb_push_last (tb_s_p b) (sp_rows N1) r1.*1 p1 p) as (bld & -> & Hbld);
    [by rewrite Hsp, sp_rows_snoc, fmap_app|done|].
  cbn [mbind outcome_bind].
  destruct (add_pair_spec (subject_name (tb_subjects b)) N1 r1 p1 os o1 Hp1 Hwf p o Hpp Ho)
    as (Hsp' & Hspo' & Hwf' & Hlen' & HT').
  assert (ajb_rows bld = sp_rows (N1 ++ [r1 ++ [(p1, os ++ [o1])] ++ [(p, [o])]])) as Hbld'
    by by rewrite Hsp', Hbld, Hsp.
  rewrite (ajb_count_sp _ _ Hbld') by (done || by destruct N1).
  assert (sp_len (N1 ++ [r1 ++ [(p1, os ++ [o1])] ++ [(p, [o])]]) =
          length (ajb_rows (tb_sp_o b)) + 0 + 1) as ->.
  { rewrite Hspo, spo_rows_length, !sp_len_app, !sp_len_single, !length_app. simpl. lia. }
  destruct (ajb_push_new (tb_sp_o b) 0 o) as (bld2 & -> & Hbld2). cbn [mbind outcome_bind].
  eexists _, _. split; [done|]. split; simpl.
  - exact Hbld'.
  - by rewrite Hspo', Hbld2, Hspo.
  - done.
  - by eapply subjects_wf_length.
  - destruct (tb_subjects b); [done|]. by rewrite Hlen'.
  - by rewrite HT', HT, Hnm.
  - right. exists N1, (r1 ++ [(p1, os ++ [o1])]), [], o. split_and!; try done.
    + by rewrite <- app_assoc.
    + by rewrite last_snoc.
Qed.

Lemma sorted_last_lt (l : list nat) s :
  StronglySorted lt (0 :: l) → default 0 (last l) < s → StronglySorted lt (0 :: l ++ [s]).
Proof.
  intros Hl Hs. destruct l as [|x l _] using rev_ind; [by repeat constructor|].
  rewrite last_snoc in Hs. simpl in Hs. rewrite <- app_assoc, app_comm_cons in *. by apply sorted_snoc.
Qed.

(** The array of subjects, the number of gaps and the position of the new row,
    when the subject is greater than the last. *)
Lemma next_subject_row subjects N ls s :
  subjects_wf subjects N →
  match subjects with None => length N = ls | Some l => default 0 (last l) = ls end →
  ls < s →
  let subjects' := match subjects with
                   | Some l => Some (if decide (s ≠ ls) then l ++ [s] else l)
                   | None => None
                   end in
  ∃ g, match subjects' with Some l => length l | None => s end = length N + g + 1 ∧
    subject_name subjects' (length N + g) = s ∧
    (∀ N', length N' = length N + g + 1 → subjects_wf subjects' N') ∧
    match subjects' with None => length N + g + 1 = s | Some l => default 0 (last l) = s end ∧
    (∀ k, k < length N → subject_name subjects' k = subject_name subjects k).
Proof.
  intros Hsub Hls Hs subjects'. subst subjects'. destruct subjects as [l|]; simpl in *.
  - destruct Hsub as [Hlen Hl]. rewrite decide_True by lia. exists 0. split_and!.
    + rewrite length_app, Hlen. simpl. lia.
    + rewrite Nat.add_0_r, <- Hlen. by rewrite list_lookup_middle.
    + intros N' HN'. rewrite length_app, HN', Hlen. split; [simpl; lia|].
      by apply sorted_last_lt; [|rewrite Hls].
    + by rewrite last_snoc.
    + intros k Hk. by rewrite lookup_app_l by lia.
  - exists (s - length N - 1). split_and!; try done; lia.
Qed.

(** A greater subject: a new row, after the gaps. *)
Lemma add_triple_row b N T s p o :
  tb_inv b N T → s ≠ 0 → p ≠ 0 → o ≠ 0 → tb_last_subject b < s →
  ∃ b' N', add_triple b s p o = Ok b' ∧ tb_inv b' N' (T ++ [new_IdTriple s p o]).
Proof.
  intros [Hsp Hspo Hwf Hsub Hls HT Hlast] Hs Hp Ho Hlt. unfold add_triple.
  rewrite decide_False, decide_False, decide_False by lia.
  destruct (next_subject_row (tb_subjects b) N _ s Hsub Hls Hlt) as (g & Hpos & Hnm & Hsub' & Hls' & Hext).
  set (subjects' := match tb_subjects b with
                    | Some l => Some (if decide (s ≠ tb_last_subject b) then l ++ [s] else l)
                    | None => None
                    end) in *.
  rewrite Hpos.
  destruct (add_row_spec (subject_name subjects') N g p o Hp Ho Hwf)
    as (Hsp' & Hspo' & Hwf' & Hlen' & HT').
  rewrite <- (sp_rows_length N), <- Hsp.
  destruct (ajb_push_new (tb_s_p b) g p) as (bld & -> & Hbld). cbn [mbind outcome_bind].
  assert (ajb_rows bld = sp_rows (N ++ gaps g ++ [[(p, [o])]])) as Hbld' by by rewrite Hsp', Hbld, Hsp.
  rewrite (ajb_count_sp _ _ Hbld') by (try done; destruct N, g; done).
  assert (sp_len (N ++ gaps g ++ [[(p, [o])]]) = length (ajb_rows (tb_sp_o b)) + g + 1) as ->.
  { rewrite Hspo, spo_rows_length, !sp_len_app, sp_len_single.
    rewrite <- (spo_rows_length (gaps g)), spo_rows_gaps, length_replicate. simpl. lia. }
  destruct (ajb_push_new (tb_sp_o b) g o) as (bld2 & -> & Hbld2). cbn [mbind outcome_bind].
  eexists _, _. split; [done|]. split; simpl.
  - exact Hbld'.
  - by rewrite Hspo', Hbld2, Hspo.
  - done.
  - by apply Hsub'.
  - by rewrite Hlen'.
  - rewrite HT', Hnm. f_equal. rewrite <- HT. apply decode_ext. intros k Hk. by apply Hext.
  - right. exists (N ++ gaps g), [], [], o. split_and!; try done.
    + by rewrite <- app_assoc.
    + unfold gaps. by rewrite length_app, length_replicate.
    + by rewrite last_snoc.
Qed.

Definition triple_pos (t : IdTriple) : Prop := subject t ≠ 0 ∧ predicate t ≠ 0 ∧ object t ≠ 0.
#[export] Instance triple_pos_dec t : Decision (triple_pos t).
Proof. unfold triple_pos. apply _. Defined.

Lemma add_triple_inv b N T t :
  tb_inv b N T → triple_pos t → (∀ t', t' ∈ T → triple_lt spo t' t) →
  ∃ b' N', add_triple b (subject t) (predicate t) (object t) = Ok b' ∧ tb_inv b' N' (T ++ [t]).
Proof.
  intros Hinv (Hs & Hp & Ho) Hlt. destruct t as [s p o]. simpl in *.
  assert (∀ t, last T = Some t → triple_lt spo t (new_IdTriple s p o)) as Hlast.
  { intros t Ht. apply Hlt. apply last_Some in Ht as [T' ->]. set_solver. }
  pose proof (inv_last _ _ _ Hinv) as Hl.
  destruct (decide (tb_last_subject b < s)) as [|Hge]; [by eapply add_triple_row|].
  destruct Hl as [(_ & _ & Hz)|(N1 & r1 & os & o1 & HN & _ & _ & HT)]; [lia|].
  assert (tb_last_subject b = s).
  { specialize (Hlast _ HT). unfold triple_lt, key_lt, spo in Hlast. simpl in Hlast. lia. }
  assert (T ≠ []) by by intros ->.
  destruct (decide (tb_last_predicate b = p)).
  - by eapply add_triple_object.
  - by eapply add_triple_pair.
Qed.

Lemma add_id_triples_inv ts b N T :
  tb_inv b N T → triples_sorted spo (T ++ filter triple_pos ts) →
  ∃ b' N', add_id_triples b ts = Ok b' ∧ tb_inv b' N' (T ++ filter triple_pos ts) ∧
    (is_Some (tb_subjects b') ↔ is_Some (tb_subjects b)).
Proof.
  revert b N T. induction ts as [|t ts IH]; intros b N T Hinv Hs.
  { exists b, N. by rewrite app_nil_r. }
  simpl. rewrite filter_cons in *. case_decide as Ht.
  - destruct (add_triple_inv b N T t Hinv Ht) as (b1 & N1 & Hadd & Hinv1).
    { apply StronglySorted_app_inv in Hs as (_ & _ & Hs). intros t' Ht'. apply Hs; [done|by left]. }
    rewrite Hadd. cbn [mbind outcome_bind]. rewrite (cons_middle t), app_assoc in Hs.
    destruct (IH b1 N1 _ Hinv1 Hs) as (b' & N' & -> & Hinv' & Hsome).
    exists b', N'. rewrite <- app_assoc in Hinv'. split_and!; [done..|].
    rewrite Hsome. revert Hadd. unfold add_triple. clear. intros Hadd.
    repeat case_decide; simplify_eq; try done; split_ok; simplify_eq/=; try done;
      by destruct (tb_subjects b).
  - unfold add_triple. rewrite decide_True by (unfold triple_pos in Ht; lia).
    cbn [mbind outcome_bind]. by apply (IH b N T).
Qed.

(** Building from triples in increasing order (zeroes are left out) gives
    structures that hold exactly those triples. *)
Lemma build_triples_holds sparse ts :
  triples_sorted spo (filter triple_pos ts) →
  ∃ subjects s_p sp_o N, build_triples sparse ts = Ok (subjects, s_p, sp_o) ∧
    holds subjects s_p sp_o N ∧ layer_triples subjects N = filter triple_pos ts ∧
    (is_Some subjects ↔ sparse = true).
Proof.
  intros Hs. unfold build_triples.
  destruct (add_id_triples_inv ts _ _ [] (tb_new_inv sparse) Hs) as (b & N & -> & Hinv & Hsome).
  destruct Hinv as [Hsp Hspo Hwf Hsub Hls HT Hlast].
  cbn [mbind outcome_bind]. unfold tb_finalize.
  assert (ml_list <$> (ml_from_vec <$> tb_subjects b) = tb_subjects b) as Hml.
  { destruct (tb_subjects b) as [l|]; [|done]. destruct Hsub as [_ Hl].
    apply StronglySorted_inv in Hl as [Hl _]. simpl. by rewrite ml_from_vec_spec. }
  eexists _, _, _, N. split_and!; [done| | |].
  - split; rewrite ?ajb_finalize_spec; try done. by rewrite Hml.
  - unfold layer_triples. by rewrite Hml.
  - rewrite fmap_is_Some, Hsome. destruct sparse; simpl; split; try done; by intros [].
Qed.
End triple_builder_laws.
