(* ===== verification/StackMerge.v ===== *)
(** Iterating over a stack of layers: the [next] methods shared by
    [InternalTripleSubjectIterator], [InternalTripleObjectIterator] and
    [InternalTriplePredicateIterator], which merge the additions of all layers
    and drop what a higher layer removes. The merge is written once over the
    interface [TripleIter] and the key it compares; the theorem is that it
    yields, in order, exactly the triples that exist in the stack. *)

From S2P Require Import Prelude Succinct LayerTypes SubjectIterator.

Section merge.
Context {I : Type} `{TripleIter I}.
Context (k : IdTriple → key).

(** [.iter_mut().map(|p| p.peek())] *)
Fixpoint peek_all (its : list I) : outcome (list (option IdTriple) * list I) :=
  match its with
  | [] => Ok ([], [])
  | it :: its =>
      '(o, it) ← it_peek it;
      '(os, its) ← peek_all its;
      Ok (o :: os, it :: its)
  end.

(** [.enumerate().filter(is_some).min_by_key(..).map(|(index, _)| index)]; of
    equal elements [min_by_key] gives the first. *)
Fixpoint lowest_from (i : nat) (best : option (nat * IdTriple)) (l : list (option IdTriple))
    : option nat :=
  match l with
  | [] => fst <$> best
  | o :: l =>
      lowest_from (S i)
        match o, best with
        | None, _ => best
        | Some t, None => Some (i, t)
        | Some t, Some (_, b) => if decide (key_lt (k t) (k b)) then Some (i, t) else best
        end l
  end.
Definition lowest_index (l : list (option IdTriple)) : option nat := lowest_from 0 None l.

(** [its[i].next().unwrap()] *)
Definition next_at (its : list I) (i : nat) : outcome (IdTriple * list I) :=
  it ← unwrap (its !! i);
  '(o, it) ← it_next it;
  t ← unwrap o;
  Ok (t, <[i := it]> its).

(** The loop over the negatives above the lowest positive. *)
Fixpoint take_removal (t : IdTriple) (its : list I) : outcome (bool * list I) :=
  match its with
  | [] => Ok (false, [])
  | it :: its =>
      '(o, it) ← it_peek it;
      if decide (o = Some t) then
        '(o, it) ← it_next it;
        _ ← unwrap o;
        Ok (true, it :: its)
      else
        '(found, its) ← take_removal t its;
        Ok (found, it :: its)
  end.

Record TripleStack := { positives : list I; negatives : list I }.

Fixpoint merge_next (fuel : nat) (st : TripleStack) : outcome (option IdTriple * TripleStack) :=
  match fuel with
  | O => NoFuel
  | S fuel =>
      '(peeks, positives) ← peek_all (positives st);
      match lowest_index peeks with
      | None => Ok (None, {| positives := positives; negatives := negatives st |})
      | Some lowest_index =>
          '(lowest, positives) ← next_at positives lowest_index;
          _ ← checked_sub (length (negatives st)) lowest_index;
          '(removed, above) ← take_removal lowest (take lowest_index (negatives st));
          let st := {| positives := positives;
                       negatives := above ++ drop lowest_index (negatives st) |} in
          if removed : bool then merge_next fuel st else Ok (Some lowest, st)
      end
  end.
End merge.
Arguments TripleStack : clear implicits.

(** * Existence in a stack

    Whether a triple is among the additions and among the removals of each
    layer, the top layer first. *)
Notation mentions := (list (bool * bool)).

(** A triple exists if the topmost layer that mentions it adds it. *)
Fixpoint exm (m : mentions) : bool :=
  match m with
  | [] => false
  | (p, n) :: m => p || (negb n && exm m)
  end.

(** A layer adds only what does not exist below, and removes only what does. *)
Fixpoint wfm (m : mentions) : bool :=
  match m with
  | [] => true
  | (p, n) :: m => (negb p || negb (exm m)) && (negb n || exm m) && wfm m
  end.

Definition mention (Ps Ns : list (list IdTriple)) (t : IdTriple) : mentions :=
  zip_with (λ P N, (bool_decide (t ∈ P), bool_decide (t ∈ N))) Ps Ns.

(** The triple exists in the stack of layers with additions [Ps], removals [Ns]. *)
Definition stack_exists (Ps Ns : list (list IdTriple)) (t : IdTriple) : bool := exm (mention Ps Ns t).
Definition stack_wf (Ps Ns : list (list IdTriple)) : Prop := ∀ t, wfm (mention Ps Ns t) = true.

Lemma exm_Some m : exm m = true → ∃ i n, m !! i = Some (true, n).
Proof.
  induction m as [|[p n] m IH]; simpl; [done|]. destruct p; [by exists 0, n|].
  simpl. destruct n; [done|]. simpl. intros (i & n & Hi)%IH. by exists (S i), n.
Qed.

Lemma wfm_below m j p : wfm m = true → m !! j = Some (p, true) → ∃ i n, m !! i = Some (true, n).
Proof.
  revert j. induction m as [|[q n] m IH]; intros j; [done|]. simpl. rewrite !andb_true_iff.
  intros [[_ Hn] Hwf] Hj. destruct j as [|j]; simplify_eq/=.
  - apply exm_Some in Hn as (i & n & Hi). by exists (S i), n.
  - destruct (IH _ Hwf Hj) as (i & n' & Hi). by exists (S i), n'.
Qed.

(** The topmost mention is an addition: the triple exists, and not without it. *)
Lemma mention_yield m i n :
  wfm m = true → m !! i = Some (true, n) → (∀ j, j < i → m !! j = Some (false, false)) →
  exm m = true ∧ wfm (<[i := (false, n)]> m) = true ∧ exm (<[i := (false, n)]> m) = false.
Proof.
  revert i. induction m as [|[p q] m IH]; intros i; [done|]. simpl. rewrite !andb_true_iff.
  intros [[Hp Hn] Hwf] Hi Hj. destruct i as [|i]; simplify_eq/=.
  - destruct (exm m) eqn:He; [done|]. rewrite Hwf. by destruct n.
  - specialize (Hj 0 (Nat.lt_0_succ _)) as H0. simpl in H0. simplify_eq.
    destruct (IH i Hwf Hi) as (He & Hw & He'); [intros j Hlt; apply (Hj (S j)); lia|].
    unfold insert in *. by rewrite He, Hw, He'.
Qed.

(** Above the first addition of an existing triple there is no removal. *)
Lemma exm_not_removed m i n :
  exm m = true → m !! i = Some (true, n) → (∀ j, j < i → ∃ n', m !! j = Some (false, n')) →
  ∀ j, j < i → m !! j = Some (false, false).
Proof.
  revert i. induction m as [|[p q] m IH]; intros i He Hi Hpf j Hj; [done|].
  destruct i as [|i]; [lia|]. destruct (Hpf 0) as [n' H0]; [lia|]. simplify_eq/=.
  apply andb_true_iff in He as [Hn' He]. destruct n'; [done|]. destruct j as [|j]; [done|]. simpl.
  eapply (IH i He Hi); [|lia]. intros j1 Hj1. apply (Hpf (S j1)). lia.
Qed.

(** The topmost mention is a removal: it cancels with the addition below it. *)
Lemma mention_cancel m i j n :
  wfm m = true → m !! i = Some (true, n) → j < i → m !! j = Some (false, true) →
  (∀ j', j' < i → ∃ n', m !! j' = Some (false, n')) → (∀ j', j' < j → m !! j' = Some (false, false)) →
  let m' := <[j := (false, false)]> (<[i := (false, n)]> m) in
  exm m = false ∧ wfm m' = true ∧ exm m' = false.
Proof.
  revert i j. induction m as [|[p q] m IH]; intros i j; [done|]. simpl. rewrite !andb_true_iff.
  intros [[Hp Hn] Hwf] Hi Hji Hj Hpf Hnf. destruct i as [|i]; [lia|]. simpl in Hi.
  destruct j as [|j]; simplify_eq/=.
  - assert (∀ j', j' < i → m !! j' = Some (false, false)) as Hff.
    { eapply exm_not_removed; [done..|]. intros j' Hj'. apply (Hpf (S j')). lia. }
    destruct (mention_yield m i n Hwf Hi Hff) as (_ & Hw & He). unfold insert in *. by rewrite Hw, He.
  - specialize (Hnf 0 (Nat.lt_0_succ _)) as H0. simpl in H0. simplify_eq.
    destruct (IH i j Hwf Hi) as (He & Hw & He'); [lia|done| | |].
    + intros j' Hj'. apply (Hpf (S j')). lia.
    + intros j' Hj'. apply (Hnf (S j')). lia.
    + simpl in *. unfold insert in *. by rewrite He, Hw, He'.
Qed.

(** * The operations of the merge against the lists still to come *)

Section merge_laws.
Context {I : Type} `{TripleIterLaws I} (k : IdTriple → key) `{!Inj (=) (=) k}.
Implicit Types Ls Ps Ns : list (list IdTriple).

Notation all_yield := (Forall2 (A := I) yields).

Lemma peek_all_spec its Ls :
  all_yield its Ls → ∃ its', peek_all its = Ok (head <$> Ls, its') ∧ all_yield its' Ls.
Proof.
  induction 1 as [|it L its Ls Hy Hall (its' & IH & Hall')]; [by exists []|]. simpl.
  destruct (yields_peek _ _ Hy) as (it' & -> & Hy'). simpl. rewrite IH. simpl.
  exists (it' :: its'). split; [done|]. by constructor.
Qed.

Lemma lowest_from_spec i best l :
  match lowest_from k i best l with
  | None => best = None ∧ ∀ j u, l !! j ≠ Some (Some u)
  | Some r =>
      (∃ t, best = Some (r, t) ∧ ∀ j u, l !! j = Some (Some u) → ¬ key_lt (k u) (k t)) ∨
      (∃ j t, r = i + j ∧ l !! j = Some (Some t) ∧
         (∀ j' u, l !! j' = Some (Some u) → ¬ key_lt (k u) (k t)) ∧
         (∀ j' u, j' < j → l !! j' = Some (Some u) → key_lt (k t) (k u)) ∧
         (∀ b, best = Some b → key_lt (k t) (k b.2)))
  end.
Proof.
  revert i best. induction l as [|o l IH]; intros i best; simpl.
  { destruct best as [[r t]|]; simpl; [|done]. left. exists t. by split. }
  set (best' := match o with Some _ => _ | None => _ end).
  specialize (IH (S i) best').
  destruct (lowest_from k (S i) best' l) as [r|].
  - destruct IH as [(t & Hb & Hle)|(j & t & -> & Hj & Hle & Hlt & Hbest)].
    + (* the best so far is final *)
      assert ((o = Some t ∧ r = i ∧ ∀ b, best = Some b → key_lt (k t) (k b.2)) ∨
              (best = Some (r, t) ∧ ∀ u, o = Some u → ¬ key_lt (k u) (k t))) as [Hc|Hc].
      { subst best'. destruct o as [u|], best as [[r' b]|]; simplify_eq; try naive_solver.
        case_decide; simplify_eq; naive_solver. }
      * destruct Hc as (-> & -> & Hbest). right. exists 0, t. rewrite Nat.add_0_r.
        split_and!; try done; [|lia]. intros [|j'] u Hu; simplify_eq/=; [|by eapply Hle].
        apply irreflexivity, key_lt_irrefl.
      * destruct Hc as (-> & Ho). left. exists t. split; [done|].
        intros [|j'] u Hu; simplify_eq/=; [by apply Ho|by eapply Hle].
    + (* a later element is smaller *)
      assert ((∀ u, o = Some u → key_lt (k t) (k u)) ∧ ∀ b, best = Some b → key_lt (k t) (k b.2)) as [Ho Hb].
      { subst best'. destruct o as [u|], best as [[r' b]|]; simplify_eq; try naive_solver.
        case_decide as Hd; specialize (Hbest _ eq_refl); simpl in *.
        - split; intros ? [= <-]; [done|]. simpl. by etrans.
        - split; intros ? [= <-]; [|done].
          destruct (key_lt_total (k b) (k u)) as [?|[Heq|?]]; [by etrans| |done].
          apply Inj0 in Heq. by subst. }
      right. exists (S j), t. split_and!; [lia|done| | |done].
      * intros [|j'] u Hu; simplify_eq/=; [|by eapply Hle]. intros Hut.
        apply (irreflexivity key_lt (k t)). etrans; [by eapply Ho|done].
      * intros [|j'] u Hj' Hu; simplify_eq/=; [by apply Ho|]. eapply Hlt; [|done]. lia.
  - destruct IH as [Hb Hno]. assert (o = None ∧ best = None) as [-> ->].
    { subst best'. destruct o as [u|], best as [[r' b]|]; simplify_eq; try done. by case_decide. }
    split; [done|]. intros [|j] u; simpl; [done|apply Hno].
Qed.

Lemma lowest_index_None Ls : lowest_index k (head <$> Ls) = None → ∀ L, L ∈ Ls → L = [].
Proof.
  unfold lowest_index. intros Hl. pose proof (lowest_from_spec 0 None (head <$> Ls)) as Hs.
  rewrite Hl in Hs. destruct Hs as [_ Hno]. intros L [j Hj]%list_elem_of_lookup.
  destruct L as [|t L]; [done|]. destruct (Hno j t). by rewrite list_lookup_fmap, Hj.
Qed.

(** The lowest index: its head is not above any element, and is below those
    that come earlier. *)
Lemma lowest_index_Some Ls i :
  lowest_index k (head <$> Ls) = Some i → Forall (triples_sorted k) Ls →
  ∃ t L, Ls !! i = Some (t :: L) ∧
    (∀ j L' u, Ls !! j = Some L' → u ∈ L' → t = u ∨ triple_lt k t u) ∧
    (∀ j L' u, j < i → Ls !! j = Some L' → u ∈ L' → triple_lt k t u).
Proof.
  unfold lowest_index. intros Hl Hsort. pose proof (lowest_from_spec 0 None (head <$> Ls)) as Hs.
  rewrite Hl in Hs. destruct Hs as [(t & ? & _)|(j & t & -> & Hj & Hle & Hlt & _)]; [done|].
  simpl. rewrite list_lookup_fmap in Hj. destruct (Ls !! j) as [L|] eqn:HL; [|done].
  simpl in Hj. destruct L as [|t' L]; simplify_eq/=. exists t, L. split; [done|].
  assert (∀ j' v L' u, Ls !! j' = Some (v :: L') → u ∈ v :: L' → v = u ∨ triple_lt k v u) as Hhead.
  { intros j' v L' u Hj' [->|Hu]%elem_of_cons; [by left|right].
    rewrite Forall_forall in Hsort. apply list_elem_of_lookup_2, Hsort in Hj'.
    apply StronglySorted_inv in Hj' as [_ Hall]. rewrite Forall_forall in Hall. auto. }
  assert (∀ j' v L', Ls !! j' = Some (v :: L') → (head <$> Ls) !! j' = Some (Some v)) as Hh.
  { intros j' v L' Hj'. by rewrite list_lookup_fmap, Hj'. }
  split.
  - intros j' [|v L'] u Hj' Hu; [by apply not_elem_of_nil in Hu|].
    specialize (Hle _ _ (Hh _ _ _ Hj')). destruct (key_lt_total (k v) (k t)) as [?|[Heq|?]]; [done| |].
    + apply Inj0 in Heq as ->. eauto.
    + right. destruct (Hhead _ _ _ _ Hj' Hu) as [<-|]; [done|]. by etrans.
  - intros j' [|v L'] u Hlt' Hj' Hu; [by apply not_elem_of_nil in Hu|].
    specialize (Hlt _ _ Hlt' (Hh _ _ _ Hj')).
    destruct (Hhead _ _ _ _ Hj' Hu) as [<-|]; [done|]. by etrans.
Qed.

Lemma next_at_spec its Ls i t L :
  all_yield its Ls → Ls !! i = Some (t :: L) →
  ∃ its', next_at its i = Ok (t, its') ∧ all_yield its' (<[i := L]> Ls).
Proof.
  intros Hall Hi. destruct (Forall2_lookup_r _ _ _ _ _ Hall Hi) as (it & Hit & Hy).
  destruct (yields_next _ _ Hy) as (it' & Hn & Hy'). unfold next_at. rewrite Hit. simpl.
  rewrite Hn. simpl. eexists. split; [done|]. by apply Forall2_insert.
Qed.

Lemma take_removal_spec t its Ls :
  all_yield its Ls →
  ∃ found its', take_removal t its = Ok (found, its') ∧
    if found : bool
    then ∃ j L, Ls !! j = Some (t :: L) ∧ all_yield its' (<[j := L]> Ls) ∧
           ∀ j' L', j' < j → Ls !! j' = Some L' → head L' ≠ Some t
    else all_yield its' Ls ∧ ∀ j' L', Ls !! j' = Some L' → head L' ≠ Some t.
Proof.
  induction 1 as [|it L its Ls Hy Hall IH]; simpl; [by exists false, []|].
  destruct (yields_peek _ _ Hy) as (it1 & Hp & Hy1). rewrite Hp. simpl. case_decide as Ht.
  - destruct (yields_next _ _ Hy1) as (it2 & Hn & Hy2). rewrite Hn, Ht. simpl.
    exists true, (it2 :: its). split; [done|]. destruct L as [|t' L]; simplify_eq/=.
    exists 0, L. split_and!; [done|by constructor|lia].
  - destruct IH as (found & its' & -> & IH). simpl. exists found, (it1 :: its'). split; [done|].
    destruct found.
    + destruct IH as (j & L1 & Hj & Hall' & Hb). exists (S j), L1. split_and!; [done|by constructor|].
      intros [|j'] L' Hlt Hj'; simplify_eq/=; [done|]. eapply Hb; [|done]. lia.
    + destruct IH as [Hall' Hb]. split; [by constructor|].
      intros [|j'] L' Hj'; simplify_eq/=; [done|]. by eapply Hb.
Qed.

(** ** The invariant of the merge

    [p] is the part of the order the consumer looks at: all triples, or those
    with the subject (and predicate, or object) sought. *)

Record merge_inv Ps Ns (p : IdTriple → bool) : Prop := {
  ms_length : length Ps = length Ns;
  ms_pos : Forall (triples_sorted k) Ps;
  ms_neg : Forall (triples_sorted k) Ns;
  ms_wf t : p t = true → wfm (mention Ps Ns t) = true;
  ms_closed t1 t2 : t1 ∈ concat Ps ∨ t1 ∈ concat Ns → t2 ∈ concat Ps →
    triple_lt k t1 t2 → p t2 = true → p t1 = true;
}.

Lemma mention_lookup Ps Ns t i P N :
  Ps !! i = Some P → Ns !! i = Some N →
  mention Ps Ns t !! i = Some (bool_decide (t ∈ P), bool_decide (t ∈ N)).
Proof. intros HP HN. unfold mention. by rewrite lookup_zip_with, HP, HN. Qed.

Lemma mention_lookup_inv Ps Ns t i b :
  mention Ps Ns t !! i = Some b →
  ∃ P N, Ps !! i = Some P ∧ Ns !! i = Some N ∧ b = (bool_decide (t ∈ P), bool_decide (t ∈ N)).
Proof. unfold mention. rewrite lookup_zip_with. intros (P & HP & (N & HN & [= <-])%bind_Some)%bind_Some. eauto. Qed.

Lemma elem_of_concat_lookup Ls t : t ∈ concat Ls ↔ ∃ i L, Ls !! i = Some L ∧ t ∈ L.
Proof.
  rewrite list_elem_of_In, in_concat. split.
  - intros (L & HL%list_elem_of_In & Ht%list_elem_of_In).
    apply list_elem_of_lookup in HL as [i Hi]. eauto.
  - intros (i & L & Hi%list_elem_of_lookup_2 & Ht). exists L. by rewrite <- !list_elem_of_In.
Qed.

Lemma sorted_head_notin t L : triples_sorted k (t :: L) → t ∉ L.
Proof.
  intros [_ Hall]%StronglySorted_inv Ht. rewrite Forall_forall in Hall.
  by apply (irreflexivity (triple_lt k) t), Hall.
Qed.

Lemma mention_tail_other Ls1 Ls2 i t L t' :
  Ls1 !! i = Some (t :: L) → t' ≠ t →
  mention (<[i := L]> Ls1) Ls2 t' = mention Ls1 Ls2 t' ∧
  mention Ls2 (<[i := L]> Ls1) t' = mention Ls2 Ls1 t'.
Proof.
  intros Hi Hne. unfold mention. split; apply list_eq; intros j; rewrite !lookup_zip_with;
    (destruct (decide (i = j)) as [<-|]; [|by rewrite list_lookup_insert_ne]);
    rewrite list_lookup_insert_eq by (by eapply lookup_lt_Some); rewrite Hi; simpl;
    destruct (Ls2 !! i); simpl; [|done| |done]; do 2 f_equal; apply bool_decide_ext;
    rewrite elem_of_cons; naive_solver.
Qed.

Lemma mention_tail_pos Ps Ns i t L N :
  Ps !! i = Some (t :: L) → Ns !! i = Some N → t ∉ L →
  mention (<[i := L]> Ps) Ns t = <[i := (false, bool_decide (t ∈ N))]> (mention Ps Ns t).
Proof.
  intros Hi HN Ht. pose proof (mention_lookup _ _ t _ _ _ Hi HN) as Hm.
  unfold mention in *. apply list_eq. intros j. rewrite lookup_zip_with.
  destruct (decide (i = j)) as [<-|].
  - rewrite !list_lookup_insert_eq by (by eapply lookup_lt_Some). simpl. rewrite HN. simpl.
    by rewrite bool_decide_eq_false_2.
  - by rewrite !list_lookup_insert_ne, lookup_zip_with.
Qed.

Lemma mention_tail_neg Ps Ns i t L P :
  Ns !! i = Some (t :: L) → Ps !! i = Some P → t ∉ L →
  mention Ps (<[i := L]> Ns) t = <[i := (bool_decide (t ∈ P), false)]> (mention Ps Ns t).
Proof.
  intros Hi HP Ht. pose proof (mention_lookup _ _ t _ _ _ HP Hi) as Hm.
  unfold mention in *. apply list_eq. intros j. rewrite lookup_zip_with.
  destruct (decide (i = j)) as [<-|].
  - rewrite !list_lookup_insert_eq by (by eapply lookup_lt_Some). simpl. rewrite HP. simpl.
    by rewrite (bool_decide_eq_false_2 (t ∈ L)).
  - by rewrite !list_lookup_insert_ne, lookup_zip_with.
Qed.

Lemma elem_of_concat_tail Ls i t L u :
  Ls !! i = Some (t :: L) → u ∈ concat (<[i := L]> Ls) → u ∈ concat Ls.
Proof.
  intros Hi (j & L' & Hj & Hu)%elem_of_concat_lookup. apply elem_of_concat_lookup.
  destruct (decide (i = j)) as [<-|].
  - rewrite list_lookup_insert_eq in Hj by (by eapply lookup_lt_Some). simplify_eq.
    exists i, (t :: L'). split; [done|by right].
  - rewrite list_lookup_insert_ne in Hj by done. eauto.
Qed.

Lemma sorted_tail_insert Ls i t L :
  Forall (triples_sorted k) Ls → Ls !! i = Some (t :: L) → Forall (triples_sorted k) (<[i := L]> Ls).
Proof.
  intros Hall Hi. apply Forall_insert; [done|].
  rewrite Forall_forall in Hall. apply list_elem_of_lookup_2, Hall in Hi.
  by apply StronglySorted_inv in Hi as [? _].
Qed.

(** What [lowest_index] tells about the triple it finds. *)
Record is_lowest Ps (i : nat) (t : IdTriple) (L : list IdTriple) : Prop := {
  low_at : Ps !! i = Some (t :: L);
  low_le j L' u : Ps !! j = Some L' → u ∈ L' → t = u ∨ triple_lt k t u;
  low_first j L' u : j < i → Ps !! j = Some L' → u ∈ L' → triple_lt k t u;
}.

Lemma stack_exists_elem Ps Ns t : stack_exists Ps Ns t = true → t ∈ concat Ps.
Proof.
  intros (i & n & Hi)%exm_Some. apply mention_lookup_inv in Hi as (P & N & HP & _ & [= HtP _]).
  apply elem_of_concat_lookup. exists i, P. split; [done|]. by eapply bool_decide_eq_true_1.
Qed.

(** A removal of the lowest triple is at the head of its list. *)
Lemma removal_at_head Ps Ns p i t L j N :
  merge_inv Ps Ns p → is_lowest Ps i t L → p t = true →
  Ns !! j = Some N → head N ≠ Some t → t ∉ N.
Proof.
  intros Hinv [Hi Hle _] Hpt Hj Hhead Ht. destruct N as [|u N]; [by apply not_elem_of_nil in Ht|].
  apply elem_of_cons in Ht as [->|Ht]; [done|].
  assert (triple_lt k u t) as Hut.
  { pose proof (ms_neg _ _ _ Hinv) as Hs. rewrite Forall_forall in Hs.
    apply list_elem_of_lookup_2 in Hj. apply Hs in Hj.
    apply StronglySorted_inv in Hj as [_ Hall]. rewrite Forall_forall in Hall. auto. }
  assert (t ∈ concat Ps) as HtP.
  { apply elem_of_concat_lookup. exists i, (t :: L). split; [done|by left]. }
  assert (p u = true) as Hpu.
  { eapply (ms_closed _ _ _ Hinv); [right|exact HtP|done|done].
    apply elem_of_concat_lookup. exists j, (u :: N). split; [done|by left]. }
  assert (j < length Ps) as Hlen by (rewrite (ms_length _ _ _ Hinv); by eapply lookup_lt_Some).
  destruct (lookup_lt_is_Some_2 Ps j Hlen) as [P HP].
  pose proof (mention_lookup _ _ u _ _ _ HP Hj) as Hm.
  rewrite (bool_decide_eq_true_2 (u ∈ u :: N)) in Hm by by left.
  apply wfm_below in Hm as (i' & n & Hi'); [|by apply (ms_wf _ _ _ Hinv)].
  apply mention_lookup_inv in Hi' as (P' & N' & HP' & _ & [= HuP' _]).
  symmetry in HuP'. eapply bool_decide_eq_true_1 in HuP'.
  destruct (Hle _ _ _ HP' HuP') as [->|Htu]; [by apply (irreflexivity (triple_lt k) u)|].
  apply (irreflexivity (triple_lt k) t). by etrans.
Qed.

(** Above the lowest index the triple is not added. *)
Lemma not_added_above Ps Ns p i t L j :
  merge_inv Ps Ns p → is_lowest Ps i t L → j < i →
  ∃ N, Ns !! j = Some N ∧ mention Ps Ns t !! j = Some (false, bool_decide (t ∈ N)).
Proof.
  intros Hinv [Hi Hle Hfirst] Hj. pose proof (lookup_lt_Some _ _ _ Hi) as Hlen.
  destruct (lookup_lt_is_Some_2 Ps j) as [P HP]; [lia|].
  destruct (lookup_lt_is_Some_2 Ns j) as [N HN]; [rewrite <- (ms_length _ _ _ Hinv); lia|].
  exists N. split; [done|]. rewrite (mention_lookup _ _ _ _ _ _ HP HN).
  rewrite (bool_decide_eq_false_2 (t ∈ P)); [done|]. intros Ht.
  by apply (irreflexivity (triple_lt k) t), (Hfirst j P).
Qed.

Lemma merge_inv_tail_pos Ps Ns p i t L :
  merge_inv Ps Ns p → Ps !! i = Some (t :: L) →
  (p t = true → wfm (mention (<[i := L]> Ps) Ns t) = true) → merge_inv (<[i := L]> Ps) Ns p.
Proof.
  intros [Hlen Hpos Hneg Hwf Hcl] Hi Ht. split.
  - by rewrite length_insert.
  - by eapply sorted_tail_insert.
  - done.
  - intros t' Hp'. destruct (decide (t' = t)) as [->|Hne]; [auto|].
    destruct (mention_tail_other Ps Ns i t L t' Hi Hne) as [-> _]. auto.
  - intros t1 t2 H1 H2. apply Hcl; [|by eapply elem_of_concat_tail].
    destruct H1 as [H1|H1]; [left|by right]. by eapply elem_of_concat_tail.
Qed.

(** Cancelling the lowest addition with the first removal above it. *)
Lemma cancel_mention Ps Ns p i t L j N :
  merge_inv Ps Ns p → is_lowest Ps i t L → Ns !! j = Some (t :: N) → j < i →
  (∀ j' N', j' < j → Ns !! j' = Some N' → head N' ≠ Some t) → p t = true →
  stack_exists Ps Ns t = false ∧
  wfm (mention (<[i := L]> Ps) (<[j := N]> Ns) t) = true ∧
  stack_exists (<[i := L]> Ps) (<[j := N]> Ns) t = false.
Proof.
  intros Hinv Hlow Hj Hji Hfirst Hpt. pose proof Hlow as [Hi _ _].
  pose proof (ms_pos _ _ _ Hinv) as Hpos. pose proof (ms_neg _ _ _ Hinv) as Hneg.
  rewrite Forall_forall in Hpos. rewrite Forall_forall in Hneg.
  assert (t ∉ L) as HtL by (by apply sorted_head_notin, Hpos, list_elem_of_lookup_2 with i).
  assert (t ∉ N) as HtN by (by apply sorted_head_notin, Hneg, list_elem_of_lookup_2 with j).
  destruct (lookup_lt_is_Some_2 Ns i) as [Ni HNi].
  { rewrite <- (ms_length _ _ _ Hinv). by eapply lookup_lt_Some. }
  destruct (not_added_above _ _ _ _ _ _ j Hinv Hlow Hji) as (N1 & HN1 & Hmj). simplify_eq.
  rewrite (bool_decide_eq_true_2 (t ∈ t :: N)) in Hmj by by left.
  apply mention_lookup_inv in Hmj as HPj. destruct HPj as (Pj & ? & HPj & _ & [= HtPj _]).
  unfold stack_exists.
  rewrite (mention_tail_neg _ _ j t N Pj Hj) by (done || by rewrite list_lookup_insert_ne by lia).
  rewrite <- HtPj, (mention_tail_pos _ _ i t L Ni Hi HNi HtL).
  apply mention_cancel with (n := bool_decide (t ∈ Ni)); [by apply (ms_wf _ _ _ Hinv)| |done|done| |].
  - rewrite (mention_lookup _ _ _ _ _ _ Hi HNi). by rewrite bool_decide_eq_true_2 by by left.
  - intros j' Hj'. destruct (not_added_above _ _ _ _ _ _ j' Hinv Hlow Hj') as (N2 & _ & ->). eauto.
  - intros j' Hj'.
    destruct (not_added_above _ _ _ _ _ _ j' Hinv Hlow) as (N2 & HN2 & ->); [lia|].
    rewrite bool_decide_eq_false_2; [done|]. eapply removal_at_head; eauto.
Qed.

Lemma merge_cancel Ps Ns p i t L j N :
  merge_inv Ps Ns p → is_lowest Ps i t L → Ns !! j = Some (t :: N) → j < i →
  (∀ j' N', j' < j → Ns !! j' = Some N' → head N' ≠ Some t) →
  merge_inv (<[i := L]> Ps) (<[j := N]> Ns) p ∧
  ∀ t', p t' = true → stack_exists (<[i := L]> Ps) (<[j := N]> Ns) t' = stack_exists Ps Ns t'.
Proof.
  intros Hinv Hlow Hj Hji Hfirst. pose proof Hlow as [Hi _ _].
  assert (∀ t', t' ≠ t → mention (<[i := L]> Ps) (<[j := N]> Ns) t' = mention Ps Ns t') as Hother.
  { intros t' Hne. destruct (mention_tail_other Ns (<[i := L]> Ps) j t N t' Hj Hne) as [_ ->].
    by destruct (mention_tail_other Ps Ns i t L t' Hi Hne) as [-> _]. }
  pose proof (cancel_mention _ _ _ _ _ _ _ _ Hinv Hlow Hj Hji Hfirst) as Hc. split.
  - destruct Hinv as [Hlen Hpos Hneg Hwf Hcl]. split.
    + by rewrite !length_insert.
    + by eapply sorted_tail_insert.
    + by eapply sorted_tail_insert.
    + intros t' Hp'. destruct (decide (t' = t)) as [->|Hne]; [by apply Hc|rewrite Hother; auto].
    + intros t1 t2 H1 H2. apply Hcl; [|by eapply elem_of_concat_tail].
      destruct H1; [left|right]; by eapply elem_of_concat_tail.
  - intros t' Hp'. destruct (decide (t' = t)) as [->|Hne].
    + by destruct (Hc Hp') as (-> & _ & ->).
    + unfold stack_exists. by rewrite Hother.
Qed.

(** Yielding the lowest addition when nothing above removes it. *)
Lemma merge_yield Ps Ns p i t L :
  merge_inv Ps Ns p → is_lowest Ps i t L → p t = true →
  (∀ j N, j < i → Ns !! j = Some N → head N ≠ Some t) →
  merge_inv (<[i := L]> Ps) Ns p ∧
  stack_exists Ps Ns t = true ∧ stack_exists (<[i := L]> Ps) Ns t = false ∧
  ∀ t', t' ≠ t → stack_exists (<[i := L]> Ps) Ns t' = stack_exists Ps Ns t'.
Proof.
  intros Hinv Hlow Hpt Hno. pose proof Hlow as [Hi _ _].
  pose proof (ms_pos _ _ _ Hinv) as Hpos. rewrite Forall_forall in Hpos.
  assert (t ∉ L) as HtL by (by apply sorted_head_notin, Hpos, list_elem_of_lookup_2 with i).
  destruct (lookup_lt_is_Some_2 Ns i) as [Ni HNi].
  { rewrite <- (ms_length _ _ _ Hinv). by eapply lookup_lt_Some. }
  destruct (mention_yield (mention Ps Ns t) i (bool_decide (t ∈ Ni))) as (He & Hw & He').
  { by apply (ms_wf _ _ _ Hinv). }
  { rewrite (mention_lookup _ _ _ _ _ _ Hi HNi). by rewrite bool_decide_eq_true_2 by by left. }
  { intros j Hj. destruct (not_added_above _ _ _ _ _ _ j Hinv Hlow Hj) as (N & HN & ->).
    rewrite bool_decide_eq_false_2; [done|]. eapply removal_at_head; eauto. }
  pose proof (mention_tail_pos _ _ i t L Ni Hi HNi HtL) as Hm.
  split_and!.
  - eapply merge_inv_tail_pos; eauto. intros _. by rewrite Hm.
  - done.
  - unfold stack_exists. by rewrite Hm.
  - intros t' Hne. unfold stack_exists. by destruct (mention_tail_other Ps Ns i t L t' Hi Hne) as [-> _].
Qed.

(** ** The theorem *)

Definition total Ls : nat := length (concat Ls).

Lemma total_tail Ls i t L : Ls !! i = Some (t :: L) → total Ls = S (total (<[i := L]> Ls)).
Proof.
  unfold total. revert i. induction Ls as [|L0 Ls IH]; intros i Hi; [done|].
  destruct i as [|i]; simplify_eq/=; [done|]. rewrite !length_app, (IH i Hi). unfold insert. lia.
Qed.

Lemma lowest_index_is_lowest Ps i :
  lowest_index k (head <$> Ps) = Some i → Forall (triples_sorted k) Ps → ∃ t L, is_lowest Ps i t L.
Proof. intros Hl Hs. destruct (lowest_index_Some Ps i Hl Hs) as (t & L & ? & ? & ?). by exists t, L. Qed.

Lemma total_nil Ls : (∀ L, L ∈ Ls → L = []) → total Ls = 0.
Proof.
  unfold total. induction Ls as [|L Ls IH]; intros Hnil; [done|]. simpl.
  rewrite (Hnil L) by by left. apply IH. intros L' HL'. apply Hnil. by right.
Qed.

Lemma total_zero_exists Ps Ns t : total Ps = 0 → stack_exists Ps Ns t = false.
Proof.
  intros Hz. destruct (stack_exists Ps Ns t) eqn:He; [|done].
  apply stack_exists_elem in He. unfold total in Hz. apply length_zero_iff_nil in Hz.
  rewrite Hz in He. by apply not_elem_of_nil in He.
Qed.

(** One round of the loop: nothing left, a cancellation, or a result. *)
Definition yields_stack (st : TripleStack I) Ps Ns : Prop :=
  all_yield (positives st) Ps ∧ all_yield (negatives st) Ns.

Lemma merge_round Ps Ns p fuel st :
  yields_stack st Ps Ns → merge_inv Ps Ns p →
  ∃ st',
  (merge_next k (S fuel) st = Ok (None, st') ∧ total Ps = 0) ∨
  (∃ i t L, is_lowest Ps i t L ∧
    ((∃ j N, j < i ∧ Ns !! j = Some (t :: N) ∧
       (∀ j' N', j' < j → Ns !! j' = Some N' → head N' ≠ Some t) ∧
       merge_next k (S fuel) st = merge_next k fuel st' ∧
       yields_stack st' (<[i := L]> Ps) (<[j := N]> Ns)) ∨
     ((∀ j N, j < i → Ns !! j = Some N → head N ≠ Some t) ∧
       merge_next k (S fuel) st = Ok (Some t, st') ∧ yields_stack st' (<[i := L]> Ps) Ns))).
Proof.
  intros [Hp Hn] Hinv. cbn [merge_next].
  destruct (peek_all_spec _ _ Hp) as (pos1 & -> & Hp1). cbn [mbind outcome_bind].
  destruct (lowest_index k (head <$> Ps)) as [i|] eqn:Hl.
  2: { eexists. left. split; [done|]. by apply total_nil, (lowest_index_None Ps). }
  destruct (lowest_index_is_lowest _ _ Hl (ms_pos _ _ _ Hinv)) as (t & L & Hlow).
  pose proof Hlow as [Hi _ _].
  destruct (next_at_spec _ _ _ _ _ Hp1 Hi) as (pos2 & -> & Hp2). cbn [mbind outcome_bind].
  assert (i < length (negatives st)) as Hlen.
  { rewrite (Forall2_length _ _ _ Hn), <- (ms_length _ _ _ Hinv). by eapply lookup_lt_Some. }
  rewrite checked_sub_ok by lia. cbn [mbind outcome_bind].
  destruct (take_removal_spec t (take i (negatives st)) (take i Ns)) as (found & neg1 & -> & Hf);
    [by apply Forall2_take|]. cbn [mbind outcome_bind].
  assert (∀ l, all_yield neg1 (take i l) → drop i l = drop i Ns →
            all_yield (neg1 ++ drop i (negatives st)) l) as Happ.
  { intros l Hl1 Hl2. rewrite <- (take_drop i l). apply Forall2_app; [done|].
    rewrite Hl2. by apply Forall2_drop. }
  eexists {| positives := pos2; negatives := neg1 ++ drop i (negatives st) |}. right.
  exists i, t, L. split; [done|]. destruct found.
  - left. destruct Hf as (j & N & Hj & Hy & Hfirst). exists j, N.
    assert (j < i) as Hji by (apply lookup_lt_Some in Hj; rewrite length_take in Hj; lia).
    rewrite lookup_take_lt in Hj by done. split_and!; [done|done| |done|split; [done|]].
    + intros j' N' Hj' HN'. apply (Hfirst j' N'); [done|]. by rewrite lookup_take_lt by lia.
    + apply Happ; [by rewrite take_insert_lt|]. by rewrite drop_insert_lt.
  - right. destruct Hf as [Hy Hno]. split_and!; [|done|split; [done|by apply Happ]].
    intros j N Hj HN. apply (Hno j N). by rewrite lookup_take_lt.
Qed.

Lemma merge_next_spec p fuel Ps Ns st :
  yields_stack st Ps Ns → merge_inv Ps Ns p → total Ps < fuel →
  ∃ o st', merge_next k fuel st = Ok (o, st') ∧
    ((∃ t Ps' Ns', o = Some t ∧ p t = true ∧ yields_stack st' Ps' Ns' ∧ merge_inv Ps' Ns' p ∧
        total Ps' < total Ps ∧ stack_exists Ps Ns t = true ∧
        ∀ t', p t' = true → (stack_exists Ps' Ns' t' = true ↔ stack_exists Ps Ns t' = true ∧ t' ≠ t) ∧
          (stack_exists Ps' Ns' t' = true → triple_lt k t t')) ∨
     (match o with Some t => p t = false | None => True end ∧
      ∀ t', p t' = true → stack_exists Ps Ns t' = false)).
Proof.
  revert Ps Ns st. induction fuel as [|fuel IH]; intros Ps Ns st Hy Hinv Hf; [lia|].
  destruct (merge_round _ _ _ fuel _ Hy Hinv) as (st1 & [[-> Hz]|(i & t & L & Hlow & Hr)]).
  { exists None, st1. split; [done|]. right. split; [done|]. intros. by apply total_zero_exists. }
  pose proof Hlow as [Hi Hle _]. pose proof (total_tail _ _ _ _ Hi) as Htot.
  destruct Hr as [(j & N & Hji & Hj & Hfirst & -> & Hy1)|(Hno & -> & Hy1)].
  - destruct (merge_cancel _ _ _ _ _ _ _ _ Hinv Hlow Hj Hji Hfirst) as [Hinv1 Hex].
    destruct (IH _ _ _ Hy1 Hinv1) as (o & st' & Hn & Hres); [lia|]. exists o, st'. split; [done|].
    destruct Hres as [(t1 & Ps' & Ns' & -> & Hp & Hy' & Hinv' & Hlt & Het & Hrest)|[Ho Hno]].
    + left. exists t1, Ps', Ns'. split_and!; try done; [lia|by rewrite <- Hex|].
      intros t' Hp'. rewrite <- (Hex t' Hp'). by apply Hrest.
    + right. split; [done|]. intros t' Hp'. rewrite <- Hex by done. auto.
  - exists (Some t), st1. split; [done|].
    assert (∀ t', stack_exists Ps Ns t' = true → t = t' ∨ triple_lt k t t') as Hmin.
    { intros t' He. apply stack_exists_elem, elem_of_concat_lookup in He as (j & L' & HL & Ht'). eauto. }
    destruct (p t) eqn:Hpt.
    + left. destruct (merge_yield _ _ _ _ _ _ Hinv Hlow Hpt Hno) as (Hinv' & He & He' & Hother).
      exists t, (<[i := L]> Ps), Ns. split_and!; try done; [lia|]. intros t' Hp'.
      destruct (decide (t' = t)) as [->|Hne]; [rewrite He'; naive_solver|].
      rewrite (Hother t' Hne). split; [naive_solver|]. intros [->|?]%Hmin; done.
    + right. split; [done|]. intros t' Hp'. destruct (stack_exists Ps Ns t') eqn:He; [|done].
      destruct (Hmin _ He) as [->|Hlt]; [congruence|].
      rewrite (ms_closed _ _ _ Hinv t t') in Hpt; try done.
      * left. apply elem_of_concat_lookup. exists i, (t :: L). split; [done|by left].
      * by eapply stack_exists_elem.
Qed.

(** Collecting while [p] holds yields, in order, the triples of the stack that
    satisfy [p]. *)
Lemma merge_collect p fuel n Ps Ns st :
  yields_stack st Ps Ns → merge_inv Ps Ns p → total Ps < fuel → total Ps < n →
  ∃ l, collect_while (merge_next k fuel) p n st = Ok l ∧ triples_sorted k l ∧
    ∀ t, t ∈ l ↔ p t = true ∧ stack_exists Ps Ns t = true.
Proof.
  revert Ps Ns st. induction n as [|n IH]; intros Ps Ns st Hy Hinv Hf Hn; [lia|].
  cbn [collect_while].
  destruct (merge_next_spec p fuel _ _ _ Hy Hinv Hf) as
    (o & st' & -> & [(t & Ps' & Ns' & -> & Hp & Hy' & Hinv' & Hlt & He & Hrest)|[Ho Hno]]);
    cbn [mbind outcome_bind].
  - rewrite Hp. destruct (IH _ _ _ Hy' Hinv') as (l & -> & Hs & Hl); [lia..|].
    cbn [mbind outcome_bind]. exists (t :: l). split_and!; [done| |].
    + constructor; [done|]. apply Forall_forall. intros t' [Hp' He']%Hl. by apply Hrest.
    + intros t'. rewrite elem_of_cons, Hl. split.
      * intros [->|[Hp' He']]; [done|]. split; [done|]. by apply (Hrest t' Hp').
      * intros [Hp' He']. destruct (decide (t' = t)) as [->|]; [by left|right].
        split; [done|]. by apply Hrest.
  - exists []. split_and!.
    + destruct o as [t|]; [by rewrite Ho|done].
    + constructor.
    + intros t. split; [by intros ?%not_elem_of_nil|]. intros [Hp He]. rewrite Hno in He; done.
Qed.
End merge_laws.
