(* ===== verification/ChangeMerge.v ===== *)
(** [InternalTripleStackIterator] of [src/layer/internal/subject_iterator.rs]: the
    changes a stack of layers makes, in order. Additions and removals of the
    same triple cancel; the theorem is that what remains is the difference
    between the triples that exist with the stack and those that exist below. *)

From S2P Require Import Prelude Succinct LayerTypes SubjectIterator StackMerge.

Inductive TripleChange := Addition | Removal.
#[export] Instance TripleChange_eq_dec : EqDecision TripleChange.
Proof. solve_decision. Defined.

Section changes.
Context {I : Type} `{TripleIter I}.

(** Peeking one iterator: [its[i].peek().unwrap()]. *)
Definition peek_at (its : list I) (i : nat) : outcome (IdTriple * list I) :=
  it ← unwrap (its !! i);
  '(o, it) ← it_peek it;
  t ← unwrap o;
  Ok (t, <[i := it]> its).

Fixpoint change_next (fuel : nat) (st : TripleStack I)
    : outcome (option (TripleChange * IdTriple) * TripleStack I) :=
  match fuel with
  | O => NoFuel
  | S fuel =>
      '(pos_peeks, positives) ← peek_all (positives st);
      '(neg_peeks, negatives) ← peek_all (negatives st);
      let addition i :=
        '(t, positives) ← next_at positives i;
        Ok (Some (Addition, t), {| positives := positives; negatives := negatives |}) in
      let removal i :=
        '(t, negatives) ← next_at negatives i;
        Ok (Some (Removal, t), {| positives := positives; negatives := negatives |}) in
      match lowest_index spo pos_peeks, lowest_index spo neg_peeks with
      | None, None => Ok (None, {| positives := positives; negatives := negatives |})
      | Some i, None => addition i
      | None, Some j => removal j
      | Some i, Some j =>
          '(lowest_pos, positives) ← peek_at positives i;
          '(lowest_neg, negatives) ← peek_at negatives j;
          if decide (triple_lt spo lowest_pos lowest_neg) then
            '(t, positives) ← next_at positives i;
            Ok (Some (Addition, t), {| positives := positives; negatives := negatives |})
          else if decide (triple_lt spo lowest_neg lowest_pos) then
            '(t, negatives) ← next_at negatives j;
            Ok (Some (Removal, t), {| positives := positives; negatives := negatives |})
          else
            '(_, positives) ← next_at positives i;
            '(_, negatives) ← next_at negatives j;
            change_next fuel {| positives := positives; negatives := negatives |}
      end
  end.

(** [from_parts] and [merge]. *)
Definition from_parts (positives negatives : list I) : TripleStack I :=
  {| positives := positives; negatives := negatives |}.

Definition merge_stacks (stacks : list (TripleStack I)) : TripleStack I :=
  {| positives := stacks ≫= positives; negatives := stacks ≫= negatives |}.
End changes.

(** * Counting mentions *)

(** How many of the lists contain a triple. *)
Definition occurrences (Ls : list (list IdTriple)) (t : IdTriple) : nat :=
  length (filter (λ L, t ∈ L) Ls).

Lemma occurrences_pos Ls t : 0 < occurrences Ls t ↔ t ∈ concat Ls.
Proof.
  unfold occurrences. induction Ls as [|L Ls IH]; simpl; [split; [lia|by intros ?%not_elem_of_nil]|].
  rewrite elem_of_app, filter_cons, <- IH. case_decide; simpl; [|naive_solver]. split; [by left|lia].
Qed.

Lemma occurrences_tail Ls i t L u :
  Ls !! i = Some (t :: L) → t ∉ L →
  occurrences Ls u = occurrences (<[i := L]> Ls) u + (if decide (u = t) then 1 else 0).
Proof.
  unfold occurrences. intros Hi Ht. revert i Hi.
  induction Ls as [|L0 Ls IH]; intros i Hi; [done|]. destruct i as [|i]; simplify_eq/=.
  - rewrite !filter_cons. destruct (decide (u = t)) as [->|Hne].
    + rewrite decide_True by (by left). rewrite decide_False by done. simpl. lia.
    + destruct (decide (u ∈ L)), (decide (u ∈ t :: L)); simpl; try lia; exfalso; set_solver.
  - rewrite !filter_cons. specialize (IH i Hi). unfold insert in *.
    destruct (decide (u = t)), (decide (u ∈ L0)); simpl in *; lia.
Qed.

Section change_laws.
Context {I : Type} `{TripleIterLaws I}.
Implicit Types Ls Ps Ns : list (list IdTriple).

Lemma peek_at_spec its Ls i t L :
  Forall2 (A := I) yields its Ls → Ls !! i = Some (t :: L) →
  ∃ its', peek_at its i = Ok (t, its') ∧ Forall2 yields its' Ls.
Proof.
  intros Hall Hi. destruct (Forall2_lookup_r _ _ _ _ _ Hall Hi) as (it & Hit & Hy).
  destruct (yields_peek _ _ Hy) as (it' & Hn & Hy'). unfold peek_at. rewrite Hit. simpl.
  rewrite Hn. simpl. eexists. split; [done|]. rewrite <- (list_insert_id Ls i (t :: L)) by done.
  by apply Forall2_insert.
Qed.

(** Additions and removals of a triple differ by at most one. *)
Record change_inv Ps Ns : Prop := {
  ci_pos : Forall (triples_sorted spo) Ps;
  ci_neg : Forall (triples_sorted spo) Ns;
  ci_diff t : occurrences Ps t ≤ S (occurrences Ns t) ∧ occurrences Ns t ≤ S (occurrences Ps t);
}.

(** The changes to report. *)
Definition changed Ps Ns (c : TripleChange * IdTriple) : Prop :=
  match c.1 with
  | Addition => occurrences Ps c.2 = S (occurrences Ns c.2)
  | Removal => occurrences Ns c.2 = S (occurrences Ps c.2)
  end.

Lemma sorted_at Ls i t L : Forall (triples_sorted spo) Ls → Ls !! i = Some (t :: L) → t ∉ L.
Proof.
  intros Hs Hi. rewrite Forall_forall in Hs. apply list_elem_of_lookup_2, Hs in Hi.
  by eapply sorted_head_notin.
Qed.

Lemma lowest_pos Ls i t L u : is_lowest spo Ls i t L → 0 < occurrences Ls u → t = u ∨ triple_lt spo t u.
Proof.
  intros [_ Hle _] (j & L' & Hj & Hu)%occurrences_pos%elem_of_concat_lookup. eauto.
Qed.

Lemma lowest_occurs Ls i t L : is_lowest spo Ls i t L → 0 < occurrences Ls t.
Proof.
  intros [Hi _ _]. apply occurrences_pos, elem_of_concat_lookup. exists i, (t :: L). split; [done|by left].
Qed.

(** The outcomes of one call, in terms of the lists. *)
Lemma change_none Ps Ns : total Ps = 0 → total Ns = 0 → ∀ c, ¬ changed Ps Ns c.
Proof.
  intros Hp Hn [[] t]; unfold changed; simpl; intros Ho;
    [assert (0 < occurrences Ps t) as Hpos by lia|assert (0 < occurrences Ns t) as Hpos by lia];
    apply occurrences_pos in Hpos; unfold total in *;
    [apply length_zero_iff_nil in Hp; rewrite Hp in Hpos|apply length_zero_iff_nil in Hn; rewrite Hn in Hpos];
    by apply not_elem_of_nil in Hpos.
Qed.

(** What a reported change leaves: the same changes without it, all greater. *)
Definition change_step Ps Ns Ps' Ns' (c : TripleChange * IdTriple) : Prop :=
  change_inv Ps' Ns' ∧ changed Ps Ns c ∧ total Ps' + total Ns' < total Ps + total Ns ∧
  ∀ c', (changed Ps' Ns' c' ↔ changed Ps Ns c' ∧ c' ≠ c) ∧
        (changed Ps' Ns' c' → triple_lt spo c.2 c'.2).

Lemma addition_step Ps Ns i t L :
  change_inv Ps Ns → is_lowest spo Ps i t L → (∀ u, 0 < occurrences Ns u → triple_lt spo t u) →
  change_step Ps Ns (<[i := L]> Ps) Ns (Addition, t).
Proof.
  intros [Hp Hn Hd] Hlow Hneg. pose proof Hlow as [Hi _ _].
  pose proof (sorted_at _ _ _ _ Hp Hi) as HtL. pose proof (occurrences_tail _ _ _ _ t Hi HtL) as Ht.
  rewrite decide_True in Ht by done. pose proof (lowest_occurs _ _ _ _ Hlow) as Hpos.
  assert (occurrences Ns t = 0) as HN0.
  { destruct (occurrences Ns t) eqn:He; [done|]. destruct (irreflexivity (triple_lt spo) t). apply Hneg. lia. }
  destruct (Hd t) as [Hd1 _].
  assert (∀ u, u ≠ t → occurrences (<[i := L]> Ps) u = occurrences Ps u) as Hother.
  { intros u Hne. rewrite (occurrences_tail _ _ _ _ u Hi HtL), decide_False by done. lia. }
  split_and!.
  - split; [by eapply sorted_tail_insert|done|]. intros u.
    destruct (decide (u = t)) as [->|Hne]; [lia|]. rewrite Hother by done. apply Hd.
  - unfold changed. simpl. lia.
  - rewrite (total_tail Ps i t L Hi). lia.
  - intros [c u]. unfold changed. simpl. destruct (decide (u = t)) as [->|Hne].
    + destruct c; (split; [split|]); naive_solver lia.
    + rewrite Hother by done. split; [destruct c; naive_solver|]. intros Hc.
      destruct c; [|apply Hneg; lia].
      destruct (lowest_pos _ _ _ _ u Hlow) as [->|]; [lia|done..].
Qed.

Lemma removal_step Ps Ns j t N :
  change_inv Ps Ns → is_lowest spo Ns j t N → (∀ u, 0 < occurrences Ps u → triple_lt spo t u) →
  change_step Ps Ns Ps (<[j := N]> Ns) (Removal, t).
Proof.
  intros [Hp Hn Hd] Hlow Hpos. pose proof Hlow as [Hj _ _].
  pose proof (sorted_at _ _ _ _ Hn Hj) as HtN. pose proof (occurrences_tail _ _ _ _ t Hj HtN) as Ht.
  rewrite decide_True in Ht by done. pose proof (lowest_occurs _ _ _ _ Hlow) as Hneg.
  assert (occurrences Ps t = 0) as HP0.
  { destruct (occurrences Ps t) eqn:He; [done|]. destruct (irreflexivity (triple_lt spo) t). apply Hpos. lia. }
  destruct (Hd t) as [_ Hd1].
  assert (∀ u, u ≠ t → occurrences (<[j := N]> Ns) u = occurrences Ns u) as Hother.
  { intros u Hne. rewrite (occurrences_tail _ _ _ _ u Hj HtN), decide_False by done. lia. }
  split_and!.
  - split; [done|by eapply sorted_tail_insert|]. intros u.
    destruct (decide (u = t)) as [->|Hne]; [lia|]. rewrite Hother by done. apply Hd.
  - unfold changed. simpl. lia.
  - rewrite (total_tail Ns j t N Hj). lia.
  - intros [c u]. unfold changed. simpl. destruct (decide (u = t)) as [->|Hne].
    + destruct c; (split; [split|]); naive_solver lia.
    + rewrite Hother by done. split; [destruct c; naive_solver|]. intros Hc.
      destruct c; [apply Hpos; lia|].
      destruct (lowest_pos _ _ _ _ u Hlow) as [->|]; [lia|done..].
Qed.

Lemma cancel_step Ps Ns i j t L N :
  change_inv Ps Ns → is_lowest spo Ps i t L → is_lowest spo Ns j t N →
  change_inv (<[i := L]> Ps) (<[j := N]> Ns) ∧
  ∀ c, changed (<[i := L]> Ps) (<[j := N]> Ns) c ↔ changed Ps Ns c.
Proof.
  intros [Hp Hn Hd] [Hi _ _] [Hj _ _].
  pose proof (sorted_at _ _ _ _ Hp Hi) as HtL. pose proof (sorted_at _ _ _ _ Hn Hj) as HtN.
  split.
  - split; [by eapply sorted_tail_insert..|]. intros u. specialize (Hd u).
    rewrite (occurrences_tail _ _ _ _ u Hi HtL), (occurrences_tail _ _ _ _ u Hj HtN) in Hd. lia.
  - intros [c u]. unfold changed. simpl.
    rewrite (occurrences_tail _ _ _ _ u Hi HtL), (occurrences_tail _ _ _ _ u Hj HtN).
    destruct c; lia.
Qed.

Lemma lowest_none_occurs Ls :
  lowest_index spo (head <$> Ls) = None → total Ls = 0 ∧ ∀ u, ¬ 0 < occurrences Ls u.
Proof.
  intros Hl. pose proof (total_nil Ls (lowest_index_None spo Ls Hl)) as Hz. split; [done|].
  intros u Hu%occurrences_pos. unfold total in Hz. apply length_zero_iff_nil in Hz.
  rewrite Hz in Hu. by apply not_elem_of_nil in Hu.
Qed.

Lemma change_next_spec fuel Ps Ns st :
  yields_stack st Ps Ns → change_inv Ps Ns → total Ps < fuel →
  ∃ o st', change_next fuel st = Ok (o, st') ∧
    match o with
    | None => ∀ c, ¬ changed Ps Ns c
    | Some c => ∃ Ps' Ns', yields_stack st' Ps' Ns' ∧ change_step Ps Ns Ps' Ns' c
    end.
Proof.
  revert Ps Ns st. induction fuel as [|fuel IH]; intros Ps Ns st [Hp Hn] Hinv Hf; [lia|].
  cbn [change_next].
  destruct (peek_all_spec _ _ Hp) as (pos1 & -> & Hp1). cbn [mbind outcome_bind].
  destruct (peek_all_spec _ _ Hn) as (neg1 & -> & Hn1). cbn [mbind outcome_bind].
  destruct (lowest_index spo (head <$> Ps)) as [i|] eqn:Hlp,
           (lowest_index spo (head <$> Ns)) as [j|] eqn:Hln.
  - destruct (lowest_index_is_lowest spo _ _ Hlp (ci_pos _ _ Hinv)) as (t & L & Hlow).
    destruct (lowest_index_is_lowest spo _ _ Hln (ci_neg _ _ Hinv)) as (u & N & Hlow').
    destruct (peek_at_spec _ _ _ _ _ Hp1 (low_at _ _ _ _ _ Hlow)) as (pos2 & -> & Hp2).
    cbn [mbind outcome_bind].
    destruct (peek_at_spec _ _ _ _ _ Hn1 (low_at _ _ _ _ _ Hlow')) as (neg2 & -> & Hn2).
    cbn [mbind outcome_bind].
    destruct (next_at_spec _ _ _ _ _ Hp2 (low_at _ _ _ _ _ Hlow)) as (pos3 & -> & Hp3).
    destruct (next_at_spec _ _ _ _ _ Hn2 (low_at _ _ _ _ _ Hlow')) as (neg3 & -> & Hn3).
    case_decide as Htu; [|case_decide as Hut]; cbn [mbind outcome_bind].
    + eexists _, _. split; [done|]. eexists _, _. split; [by split|].
      apply addition_step; [done..|]. intros v Hv.
      destruct (lowest_pos _ _ _ _ v Hlow' Hv) as [<-|]; [done|by etrans].
    + eexists _, _. split; [done|]. eexists _, _. split; [by split|].
      apply removal_step; [done..|]. intros v Hv.
      destruct (lowest_pos _ _ _ _ v Hlow Hv) as [<-|]; [done|by etrans].
    + assert (t = u) as <-.
      { destruct (key_lt_total (spo t) (spo u)) as [?|[?|?]]; [done| |done]. by apply (inj spo). }
      destruct (cancel_step _ _ _ _ _ _ _ Hinv Hlow Hlow') as [Hinv' Hch].
      pose proof (total_tail _ _ _ _ (low_at _ _ _ _ _ Hlow)).
      pose proof (total_tail _ _ _ _ (low_at _ _ _ _ _ Hlow')).
      destruct (IH _ _ {| positives := pos3; negatives := neg3 |} ltac:(by split) Hinv') as (o & st' & Ho & Hres);
        [lia|].
      exists o, st'. split; [done|]. destruct o as [c|].
      * destruct Hres as (Ps' & Ns' & Hy & Hinv2 & Hc & Htot & Hrest). exists Ps', Ns'. split; [done|].
        split_and!; [done|by apply Hch|lia|]. intros c'. rewrite <- Hch. apply Hrest.
      * intros c. rewrite <- Hch. apply Hres.
  - destruct (lowest_index_is_lowest spo _ _ Hlp (ci_pos _ _ Hinv)) as (t & L & Hlow).
    destruct (next_at_spec _ _ _ _ _ Hp1 (low_at _ _ _ _ _ Hlow)) as (pos2 & -> & Hp2).
    cbn [mbind outcome_bind]. eexists _, _. split; [done|]. eexists _, _. split; [by split|].
    apply addition_step; [done..|]. intros v Hv. by destruct (proj2 (lowest_none_occurs _ Hln) v).
  - destruct (lowest_index_is_lowest spo _ _ Hln (ci_neg _ _ Hinv)) as (t & N & Hlow).
    destruct (next_at_spec _ _ _ _ _ Hn1 (low_at _ _ _ _ _ Hlow)) as (neg2 & -> & Hn2).
    cbn [mbind outcome_bind]. eexists _, _. split; [done|]. eexists _, _. split; [by split|].
    apply removal_step; [done..|]. intros v Hv. by destruct (proj2 (lowest_none_occurs _ Hlp) v).
  - eexists _, _. split; [done|]. simpl. apply change_none; by apply lowest_none_occurs.
Qed.

(** Collecting: every change once, in increasing order of triples. *)
Lemma change_collect fuel n Ps Ns st :
  yields_stack st Ps Ns → change_inv Ps Ns → total Ps + total Ns < fuel → total Ps + total Ns < n →
  ∃ l, collect (change_next fuel) n st = Ok l ∧ triples_sorted spo l.*2 ∧
    ∀ c, c ∈ l ↔ changed Ps Ns c.
Proof.
  intros Hy Hinv Hf. revert Ps Ns st Hy Hinv Hf.
  induction n as [|n IH]; intros Ps Ns st Hy Hinv Hf Hn; [lia|]. cbn [collect].
  destruct (change_next_spec fuel _ _ _ Hy Hinv) as ([c|] & st' & -> & Hres); [lia|..]; cbn [mbind outcome_bind].
  - destruct Hres as (Ps' & Ns' & Hy' & Hinv' & Hc & Htot & Hrest).
    destruct (IH Ps' Ns' st' Hy' Hinv') as (l & -> & Hs & Hl); [lia..|]. cbn [mbind outcome_bind].
    exists (c :: l). split_and!; [done| |].
    + simpl. constructor; [done|]. apply Forall_fmap, Forall_forall. intros c' Hc'%Hl. by apply Hrest.
    + intros c'. rewrite elem_of_cons, Hl. destruct (Hrest c') as [-> _].
      destruct (decide (c' = c)) as [->|]; naive_solver.
  - exists []. split_and!; [done|constructor|]. intros c. split; [by intros ?%not_elem_of_nil|].
    intros Hc. by apply Hres in Hc.
Qed.
End change_laws.

(** * Changes of the top of a stack *)

Definition b2n (b : bool) : nat := if b then 1 else 0.

Fixpoint added (m : mentions) : nat := match m with [] => 0 | (p, _) :: m => b2n p + added m end.
Fixpoint removed (m : mentions) : nat := match m with [] => 0 | (_, n) :: m => b2n n + removed m end.

(** In a well-formed stack additions and removals balance with existence. *)
Lemma wfm_balance m1 m2 :
  wfm (m1 ++ m2) = true → added m1 + b2n (exm m2) = removed m1 + b2n (exm (m1 ++ m2)).
Proof.
  induction m1 as [|[p n] m1 IH]; simpl; [done|]. rewrite !andb_true_iff. intros [[Hp Hn] Hwf].
  specialize (IH Hwf). destruct p, n, (exm (m1 ++ m2)) eqn:He; simpl in *; try done; lia.
Qed.

Lemma mention_added Ps Ns t : length Ps = length Ns → added (mention Ps Ns t) = occurrences Ps t.
Proof.
  unfold mention, occurrences. revert Ns. induction Ps as [|P Ps IH]; intros [|N Ns] Hl; try done.
  simpl in *. rewrite IH, filter_cons by lia. by case_decide; case_bool_decide.
Qed.

Lemma mention_removed Ps Ns t : length Ps = length Ns → removed (mention Ps Ns t) = occurrences Ns t.
Proof.
  unfold mention, occurrences. revert Ps. induction Ns as [|N Ns IH]; intros [|P Ps] Hl; try done.
  simpl in *. rewrite IH, filter_cons by lia. by case_decide; case_bool_decide.
Qed.

Lemma mention_app Ps1 Ps2 Ns1 Ns2 t :
  length Ps1 = length Ns1 → mention (Ps1 ++ Ps2) (Ns1 ++ Ns2) t = mention Ps1 Ns1 t ++ mention Ps2 Ns2 t.
Proof. intros Hl. unfold mention. by rewrite zip_with_app. Qed.

(** The changes of the layers above a boundary are the difference of what exists. *)
Lemma stack_changes Ps1 Ps2 Ns1 Ns2 :
  length Ps1 = length Ns1 → stack_wf (Ps1 ++ Ps2) (Ns1 ++ Ns2) →
  Forall (triples_sorted spo) Ps1 → Forall (triples_sorted spo) Ns1 →
  change_inv Ps1 Ns1 ∧
  ∀ c t, changed Ps1 Ns1 (c, t) ↔
    (stack_exists (Ps1 ++ Ps2) (Ns1 ++ Ns2) t, stack_exists Ps2 Ns2 t) =
    match c with Addition => (true, false) | Removal => (false, true) end.
Proof.
  intros Hl Hwf Hp Hn.
  assert (∀ t, occurrences Ps1 t + b2n (stack_exists Ps2 Ns2 t) =
               occurrences Ns1 t + b2n (stack_exists (Ps1 ++ Ps2) (Ns1 ++ Ns2) t)) as Hb.
  { intros t. specialize (Hwf t). unfold stack_exists. rewrite mention_app in * by done.
    apply wfm_balance in Hwf. by rewrite mention_added, mention_removed in Hwf. }
  split.
  - split; [done..|]. intros t. specialize (Hb t).
    destruct (stack_exists Ps2 Ns2 t), (stack_exists (Ps1 ++ Ps2) _ t); simpl in Hb; lia.
  - intros c t. specialize (Hb t). unfold changed. simpl.
    destruct (stack_exists Ps2 Ns2 t), (stack_exists (Ps1 ++ Ps2) _ t), c; simpl in Hb;
      split; intros He; simplify_eq; try done; lia.
Qed.
