(* ===== verification/IdMap.v ===== *)
(** [IdMap] of [src/layer/id_map.rs]: the renumbering of the entries of a layer
    that was merged from several, kept as a wavelet tree. *)

From S2P Require Import Prelude Succinct.

Section idmap.
Context `{SuccinctOps}.

Record IdMap := from_parts { id_wtree : option WaveletTree }.

Definition outer_to_inner (m : IdMap) (id : nat) : outcome nat :=
  match id_wtree m with
  | None => Ok id
  | Some wtree =>
      if decide (wt_len wtree < id) then Ok id
      else
        i ← checked_sub id 1;
        inner ← unwrap (wt_lookup_one wtree i);
        Ok (inner + 1)
  end.

Definition inner_to_outer (m : IdMap) (id : nat) : outcome nat :=
  match id_wtree m with
  | None => Ok id
  | Some wtree =>
      if decide (wt_len wtree < id) then Ok id
      else
        i ← checked_sub id 1;
        outer ← wt_decode_one wtree i;
        Ok (outer + 1)
  end.
End idmap.

Section idmap_laws.
Context `{SuccinctLaws}.

(** The tree of a map of [n] entries is a permutation of [0 .. n-1]. *)
Definition idmap_wf (m : IdMap) : Prop :=
  match id_wtree m with None => True | Some t => wt_seq t ≡ₚ seq 0 (length (wt_seq t)) end.

Lemma idmap_seq_lookup t i :
  wt_seq t ≡ₚ seq 0 (length (wt_seq t)) → i < length (wt_seq t) →
  ∃ j, wt_seq t !! i = Some j ∧ j < length (wt_seq t).
Proof.
  intros Hp Hi. destruct (lookup_lt_is_Some_2 _ _ Hi) as [j Hj]. exists j. split; [done|].
  apply list_elem_of_lookup_2 in Hj. rewrite Hp in Hj. apply elem_of_seq in Hj. lia.
Qed.

Lemma idmap_seq_position t j :
  wt_seq t ≡ₚ seq 0 (length (wt_seq t)) → j < length (wt_seq t) →
  ∃ i, wt_lookup_one t j = Some i ∧ wt_seq t !! i = Some j ∧ i < length (wt_seq t).
Proof.
  intros Hp Hj. rewrite wt_lookup_one_spec.
  assert (j ∈ wt_seq t) as [i0 Hi0]%list_elem_of_lookup by (rewrite Hp; apply elem_of_seq; lia).
  destruct (positions j (wt_seq t)) as [|i l] eqn:Hpos.
  - assert (i0 ∈ positions j (wt_seq t)) as Hin by (apply elem_of_positions_from; by exists i0).
    rewrite Hpos in Hin. by apply not_elem_of_nil in Hin.
  - assert (i ∈ positions j (wt_seq t)) as Hin by (rewrite Hpos; by left).
    apply elem_of_positions_from in Hin as (i' & -> & Hi'). exists i'. split_and!; [done|done|].
    by eapply lookup_lt_Some.
Qed.

Lemma idmap_NoDup t : wt_seq t ≡ₚ seq 0 (length (wt_seq t)) → NoDup (wt_seq t).
Proof. intros ->. apply NoDup_seq. Qed.

(** The two directions are inverse on every id from 1 on, and keep ids within
    the range of the map. *)
Lemma inner_outer_inner m id n :
  idmap_wf m → id ≠ 0 → (∀ t, id_wtree m = Some t → length (wt_seq t) = n) →
  ∃ o, inner_to_outer m id = Ok o ∧ outer_to_inner m o = Ok id ∧ o ≠ 0 ∧ (id ≤ n ↔ o ≤ n).
Proof.
  unfold idmap_wf, inner_to_outer, outer_to_inner. intros Hwf Hid Hn.
  destruct (id_wtree m) as [t|] eqn:Ht; [|by exists id]. specialize (Hn t eq_refl). subst n.
  rewrite wt_len_spec. case_decide as Hlen; [exists id; rewrite decide_True by done; split_and!; done|].
  rewrite checked_sub_ok by lia. cbn [mbind outcome_bind].
  destruct (idmap_seq_lookup t (id - 1) Hwf) as (j & Hj & Hjlt); [lia|].
  rewrite (wt_decode_one_spec _ _ _ Hj). cbn [mbind outcome_bind]. exists (j + 1).
  rewrite decide_False, checked_sub_ok by lia. cbn [mbind outcome_bind].
  rewrite Nat.add_sub. destruct (idmap_seq_position t j Hwf Hjlt) as (i & -> & Hi & _).
  cbn [unwrap mbind outcome_bind].
  assert (i = id - 1) as -> by (eapply NoDup_lookup; [by apply idmap_NoDup|done..]).
  split_and!; [done|f_equal; lia|lia|lia].
Qed.

Lemma outer_inner_outer m id n :
  idmap_wf m → id ≠ 0 → (∀ t, id_wtree m = Some t → length (wt_seq t) = n) →
  ∃ i, outer_to_inner m id = Ok i ∧ inner_to_outer m i = Ok id ∧ i ≠ 0 ∧ (id ≤ n ↔ i ≤ n).
Proof.
  unfold idmap_wf, inner_to_outer, outer_to_inner. intros Hwf Hid Hn.
  destruct (id_wtree m) as [t|] eqn:Ht; [|by exists id]. specialize (Hn t eq_refl). subst n.
  rewrite wt_len_spec. case_decide as Hlen; [exists id; rewrite decide_True by done; split_and!; done|].
  rewrite checked_sub_ok by lia. cbn [mbind outcome_bind].
  destruct (idmap_seq_position t (id - 1) Hwf) as (i & -> & Hi & Hilt); [lia|].
  cbn [unwrap mbind outcome_bind]. exists (i + 1).
  rewrite decide_False, checked_sub_ok by lia. cbn [mbind outcome_bind].
  rewrite Nat.add_sub, (wt_decode_one_spec _ _ _ Hi). cbn [mbind outcome_bind].
  split_and!; [done|f_equal; lia|lia|lia].
Qed.
End idmap_laws.
