(* ===== verification/ObjectIterator.v ===== *)
(** [InternalLayerTripleObjectIterator] of
    [src/layer/internal/object_iterator.rs]: the iterator over one layer in object
    order, on the adjacency list from objects to the positions of
    subject-predicate pairs. *)

From S2P Require Import Prelude Succinct LayerTypes Nested SubjectIterator.

Section object_iterator.
Context `{SuccinctOps}.

Record InternalLayerTripleObjectIterator := ObjectIter {
  oi_subjects : option MonotonicLogArray;
  oi_objects : option MonotonicLogArray;
  oi_o_ps : AdjacencyList;
  oi_s_p : AdjacencyList;
  oi_stop_at_boundary : bool;
  oi_o_position : nat;
  oi_o_ps_position : nat;
  oi_peeked : option IdTriple;
  oi_hit_boundary : bool;
}.

Definition oi_new (subjects objects : option MonotonicLogArray) (o_ps s_p : AdjacencyList)
    (stop_at_boundary : bool) : InternalLayerTripleObjectIterator :=
  ObjectIter subjects objects o_ps s_p stop_at_boundary 0 0 None false.

(** The iterator at given positions. *)
Definition oi_at (it : InternalLayerTripleObjectIterator) (o o_ps : nat)
    (peeked : option IdTriple) (hit_boundary : bool) : InternalLayerTripleObjectIterator :=
  ObjectIter (oi_subjects it) (oi_objects it) (oi_o_ps it) (oi_s_p it) (oi_stop_at_boundary it)
    o o_ps peeked hit_boundary.

Definition seek_object_ref (it : InternalLayerTripleObjectIterator) (object : nat)
    : outcome InternalLayerTripleObjectIterator :=
  if decide (object = 0) then Ok (oi_at it 0 0 None false)
  else
    let o_position := match oi_objects it with
                      | None => object - 1
                      | Some objects => ml_nearest_index_of objects object
                      end in
    if decide (aj_left_count (oi_o_ps it) ≤ o_position)
    then Ok (oi_at it o_position (aj_right_count (oi_o_ps it)) None false)
    else
      o_ps_position ← aj_offset_for (oi_o_ps it) (o_position + 1);
      Ok (oi_at it o_position o_ps_position None false).

Definition stop_at_boundary_ref (it : InternalLayerTripleObjectIterator) (stop : bool)
    : InternalLayerTripleObjectIterator :=
  ObjectIter (oi_subjects it) (oi_objects it) (oi_o_ps it) (oi_s_p it) stop
    (oi_o_position it) (oi_o_ps_position it) (oi_peeked it) (oi_hit_boundary it).

Definition continue_from_boundary (it : InternalLayerTripleObjectIterator)
    : InternalLayerTripleObjectIterator :=
  oi_at it (oi_o_position it) (oi_o_ps_position it) (oi_peeked it) false.

(** The loop of [next]; each round moves [o_ps_position] on. *)
Fixpoint oi_next_loop (fuel : nat) (it : InternalLayerTripleObjectIterator)
    : outcome (option IdTriple * InternalLayerTripleObjectIterator) :=
  match fuel with
  | O => NoFuel
  | S fuel =>
      if oi_stop_at_boundary it && oi_hit_boundary it then Ok (None, it)
      else if decide (aj_right_count (oi_o_ps it) ≤ oi_o_ps_position it) then Ok (None, it)
      else
        let o_pos := oi_o_position it in
        o_ps_bit ← aj_bit_at_pos (oi_o_ps it) (oi_o_ps_position it);
        sp_pair_num ← aj_num_at_pos (oi_o_ps it) (oi_o_ps_position it);
        let it' :=
          if o_ps_bit : bool
          then oi_at it (o_pos + 1) (oi_o_ps_position it + 1) None
                     (if oi_stop_at_boundary it then true else oi_hit_boundary it)
          else oi_at it o_pos (oi_o_ps_position it + 1) None (oi_hit_boundary it) in
        if decide (sp_pair_num = 0) then oi_next_loop fuel it'
        else
          pos ← checked_sub sp_pair_num 1;
          '(mapped_subject, predicate) ← aj_pair_at_pos (oi_s_p it) pos;
          subject ← match oi_subjects it with
                    | Some subjects => i ← checked_sub mapped_subject 1; ml_entry subjects i
                    | None => Ok mapped_subject
                    end;
          object ← match oi_objects it with
                   | Some objects => ml_entry objects o_pos
                   | None => Ok (o_pos + 1)
                   end;
          Ok (Some (new_IdTriple subject predicate object), it')
  end.

Definition oi_next (it : InternalLayerTripleObjectIterator)
    : outcome (option IdTriple * InternalLayerTripleObjectIterator) :=
  match oi_peeked it with
  | Some t =>
      Ok (Some t, oi_at it (oi_o_position it) (oi_o_ps_position it) None (oi_hit_boundary it))
  | None => oi_next_loop (S (aj_right_count (oi_o_ps it) - oi_o_ps_position it)) it
  end.

Definition oi_peek (it : InternalLayerTripleObjectIterator)
    : outcome (option IdTriple * InternalLayerTripleObjectIterator) :=
  '(o, it) ← oi_next it;
  Ok (o, oi_at it (oi_o_position it) (oi_o_ps_position it) o (oi_hit_boundary it)).

#[export] Instance object_iter : TripleIter InternalLayerTripleObjectIterator :=
  { it_next := oi_next; it_peek := oi_peek }.
End object_iterator.

(** * The object index

    The rows of [o_ps]: for each object the positions (from 1) of the
    subject-predicate pairs that have it. *)

Section object_index.
Context (N : layout) (nm : nat → nat).

(** The pair of subject and predicate at a position of [s_p]. *)
Definition triple_at (o sp : nat) : list IdTriple :=
  if decide (sp = 0) then []
  else match concat (sp_rows N) !! (sp - 1) with
       | Some p => [new_IdTriple (nm (row_of_pos N (sp - 1) - 1)) p o]
       | None => []
       end.

(** The triples of the index in its order. *)
Fixpoint decode_objects (nmo : nat → nat) (i : nat) (Os : list (list nat)) : list IdTriple :=
  match Os with
  | [] => []
  | r :: Os => (r ≫= triple_at (nmo i)) ++ decode_objects nmo (S i) Os
  end.

(** What is left at a cursor: at row [o] with the pairs [l] of [o_ps] left. *)
Inductive owalks (nmo : nat → nat) (stop : bool) (n : nat) :
    nat → bool → list (bool * nat) → list IdTriple → Prop :=
  | owalks_nil o hit : owalks nmo stop n o hit [] []
  | owalks_stop o l : stop = true → owalks nmo stop n o true l []
  | owalks_cons o hit (b : bool) x l ts :
      stop && hit = false → o < n → x ≤ length (concat (sp_rows N)) →
      owalks nmo stop n (if b then o + 1 else o)
        (if b then if stop then true else hit else hit) l ts →
      owalks nmo stop n o hit ((b, x) :: l) (triple_at (nmo o) x ++ ts).
End object_index.

Lemma owalks_row N nm nmo stop n o r l ts :
  o < n → r ≠ [] → Forall (λ x, x ≤ length (concat (sp_rows N))) r →
  owalks N nm nmo stop n (o + 1) (if stop then true else false) l ts →
  owalks N nm nmo stop n o false (mark r ++ l) ((r ≫= triple_at N nm (nmo o)) ++ ts).
Proof.
  intros Ho Hne Hall Hl. induction Hall as [|x r Hx Hall IH]; [done|]. clear Hne.
  rewrite mark_cons. simpl. rewrite <- app_assoc. apply owalks_cons; [by destruct stop|done..|].
  case_bool_decide as Hr; [by subst|]. by apply IH.
Qed.

(** All rows of an index, when the iterator does not stop at a boundary. *)
Lemma owalks_decode N nm nmo n i Os :
  i + length Os ≤ n → Forall (λ r, r ≠ []) Os →
  Forall (Forall (λ x, x ≤ length (concat (sp_rows N)))) Os →
  owalks N nm nmo false n i false (flat Os) (decode_objects N nm nmo i Os).
Proof.
  intros Hi Hne Hall. revert i Hi Hne. induction Hall as [|r Os Hr Hall IH]; intros i Hi Hne; [constructor|].
  apply Forall_cons in Hne as [Hr' Hne]. simpl in Hi. rewrite flat_cons. cbn [decode_objects].
  apply owalks_row; [lia|done..|]. rewrite Nat.add_1_r. apply IH; [lia|done].
Qed.

Section object_iterator_laws.
Context `{SuccinctLaws}.
Notation nm_of subjects := (subject_name (ml_list <$> subjects)).

(** The index structures of a layer hold the rows [Os]. *)
Record holds_index (subjects objects : option MonotonicLogArray) (o_ps s_p : AdjacencyList)
    (N : layout) (Os : list (list nat)) : Prop := {
  hi_s_p : aj_rows s_p = sp_rows N;
  hi_o_ps : aj_rows o_ps = Os;
  hi_subjects : subjects_wf (ml_list <$> subjects) N;
  hi_objects : names_wf (ml_list <$> objects) (length Os);
  hi_bound : Forall (Forall (λ x, x ≤ sp_len N)) Os;
}.

Record oi_rest (N : layout) (Os : list (list nat)) (it : InternalLayerTripleObjectIterator)
    (l : list IdTriple) : Prop := {
  oi_rest_holds : holds_index (oi_subjects it) (oi_objects it) (oi_o_ps it) (oi_s_p it) N Os;
  oi_rest_walks : owalks N (nm_of (oi_subjects it)) (nm_of (oi_objects it))
    (oi_stop_at_boundary it) (length Os) (oi_o_position it) (oi_hit_boundary it)
    (drop (oi_o_ps_position it) (flat Os)) l;
}.

Definition oi_yields (it : InternalLayerTripleObjectIterator) (l : list IdTriple) : Prop :=
  ∃ N Os l', oi_rest N Os it l' ∧ l = option_list (oi_peeked it) ++ l'.

Lemma oi_object N Os subjects objects o_ps s_p o :
  holds_index subjects objects o_ps s_p N Os → o < length Os →
  match objects with Some m => ml_entry m o | None => Ok (o + 1) end = Ok (nm_of objects o).
Proof.
  intros Hh Ho. destruct Hh as [_ _ _ Hobj _]. destruct objects as [m|]; simpl in *.
  - destruct Hobj as [Hlen _]. destruct (lookup_lt_is_Some_2 (ml_list m) o) as [x Hx]; [lia|].
    rewrite Hx. by apply ml_entry_spec.
  - f_equal. lia.
Qed.

Lemma oi_subject N Os subjects objects o_ps s_p i :
  holds_index subjects objects o_ps s_p N Os → i < sp_len N →
  match subjects with
  | Some m => j ← checked_sub (row_of_pos (sp_rows N) i) 1; ml_entry m j
  | None => Ok (row_of_pos (sp_rows N) i)
  end = Ok (nm_of subjects (row_of_pos N i - 1)).
Proof.
  intros [_ _ Hsub _ _] Hi. destruct (row_of_pos_bound N i) as [H1 H2];
    [by rewrite <- sp_len_concat|]. rewrite row_of_pos_sp_rows. destruct subjects as [m|]; simpl in *.
  - rewrite checked_sub_ok by lia. cbn [mbind outcome_bind]. destruct Hsub as [Hlen _].
    destruct (lookup_lt_is_Some_2 (ml_list m) (row_of_pos N i - 1)) as [x Hx]; [lia|].
    rewrite Hx. by apply ml_entry_spec.
  - f_equal. lia.
Qed.

Lemma oi_next_loop_spec N Os fuel it l :
  oi_rest N Os it l → length (concat Os) - oi_o_ps_position it < fuel → oi_peeked it = None →
  ∃ it', oi_next_loop fuel it = Ok (head l, it') ∧ oi_rest N Os it' (tail l) ∧ oi_peeked it' = None.
Proof.
  revert it l. induction fuel as [|fuel IH]; intros it l [Hh Hw] Hf Hp; [lia|].
  pose proof Hh as [Hsp Hops _ _ _]. rewrite <- flat_length in Hf.
  cbn [oi_next_loop]. rewrite aj_right_count_spec, <- flat_length, Hops.
  inversion Hw as [o hit Ho1 Ho2 Ho3 Ho4|o l' Hst Ho1 Ho2 Ho3 Ho4
                  |o hit b x l' ts Hst Hlt Hx Hw' Ho1 Ho2 Ho3 Ho4]; subst.
  - destruct (oi_stop_at_boundary it && oi_hit_boundary it).
    { exists it. split_and!; [done| |done]. by split. }
    assert (length (flat (aj_rows (oi_o_ps it))) ≤ oi_o_ps_position it).
    { symmetry in Ho3. apply (f_equal length) in Ho3. rewrite length_drop in Ho3. simpl in Ho3. lia. }
    rewrite decide_True by done. exists it. split_and!; [done| |done]. by split.
  - rewrite Hst. exists it. split_and!; [done| |done]. split; [done|]. simpl.
    rewrite <- ?Ho2. by apply owalks_stop.
  - rewrite Hst. symmetry in Ho3. apply drop_lookup_head in Ho3 as [Hl Hd].
    pose proof (lookup_lt_Some _ _ _ Hl). rewrite decide_False by lia.
    rewrite (aj_bit_at_pos_spec _ _ _ _ Hl), (aj_num_at_pos_spec _ _ _ _ Hl).
    cbn [mbind outcome_bind]. set (it' := if b then _ else _).
    assert (oi_rest N (aj_rows (oi_o_ps it)) it' ts) as Hrest.
    { subst it'. destruct b; split; simpl; try done; by rewrite Hd. }
    assert (oi_peeked it' = None) by (subst it'; by destruct b).
    assert (oi_o_ps_position it' = oi_o_ps_position it + 1) by (subst it'; by destruct b).
    unfold triple_at. case_decide as Hx0.
    + apply IH; [done| |done]. rewrite <- flat_length. lia.
    + rewrite checked_sub_ok by lia. cbn [mbind outcome_bind].
      destruct (lookup_lt_is_Some_2 (concat (sp_rows N)) (x - 1)) as [p Hpx]; [lia|].
      rewrite <- Hsp in Hpx. rewrite (aj_pair_at_pos_spec _ _ _ Hpx). cbn [mbind outcome_bind].
      rewrite Hsp in *. rewrite (oi_subject _ _ _ _ _ _ _ Hh) by (unfold sp_len; lia).
      cbn [mbind outcome_bind]. rewrite (oi_object _ _ _ _ _ _ _ Hh Hlt). cbn [mbind outcome_bind].
      rewrite Hpx. by exists it'.
Qed.

Lemma oi_next_spec it l :
  oi_yields it l → ∃ it', oi_next it = Ok (head l, it') ∧ oi_yields it' (tail l) ∧ oi_peeked it' = None.
Proof.
  intros (N & Os & l' & Hr & ->). unfold oi_next. destruct (oi_peeked it) as [t|] eqn:Hp; simpl.
  - eexists. split_and!; [done| |done]. exists N, Os, l'. split; [|done]. by destruct Hr.
  - destruct (oi_next_loop_spec N Os _ it l' Hr (Nat.lt_succ_diag_r _) Hp) as (it' & Hn & Hr' & Hp').
    rewrite <- (hi_o_ps _ _ _ _ _ _ (oi_rest_holds _ _ _ _ Hr)), <- aj_right_count_spec in Hn.
    exists it'. split_and!; [done| |done]. exists N, Os, (tail l'). by rewrite Hp'.
Qed.

Lemma oi_peek_spec it l :
  oi_yields it l → ∃ it', oi_peek it = Ok (head l, it') ∧ oi_yields it' l.
Proof.
  intros (it' & Hn & (N & Os & l' & [Hh Hw] & Hl) & Hp)%oi_next_spec. unfold oi_peek. rewrite Hn.
  cbn [mbind outcome_bind]. eexists. split; [done|]. exists N, Os, l'. split; [done|].
  rewrite Hp in Hl. simpl in *. by destruct l; simplify_eq/=.
Qed.

#[export] Program Instance object_iter_laws : TripleIterLaws InternalLayerTripleObjectIterator :=
  { yields := oi_yields }.
Next Obligation. intros it l (it' & ? & ? & _)%oi_next_spec. eauto. Qed.
Next Obligation. apply oi_peek_spec. Qed.

(** ** Start and seeks *)

Lemma oi_new_yields subjects objects o_ps s_p N Os :
  holds_index subjects objects o_ps s_p N Os →
  oi_yields (oi_new subjects objects o_ps s_p false)
    (decode_objects N (nm_of subjects) (nm_of objects) 0 Os).
Proof.
  intros Hh. eexists N, Os, _. split; [|done]. split; [done|]. simpl.
  apply owalks_decode; [done| |apply Hh]. destruct Hh as [_ <- _ _ _]. apply aj_rows_nonempty.
Qed.

Definition oi_with (it : InternalLayerTripleObjectIterator) (stop : bool) :=
  oi_stop_at_boundary it = stop.

(** A cursor at the start of a row of the index. *)
Lemma oi_row_yields it N Os1 Os2 Os :
  holds_index (oi_subjects it) (oi_objects it) (oi_o_ps it) (oi_s_p it) N Os →
  Os = Os1 ++ Os2 →
  oi_yields (oi_at it (length Os1) (row_offset Os (length Os1)) None false)
    (if oi_stop_at_boundary it
     then default [] (head Os2) ≫= triple_at N (nm_of (oi_subjects it)) (nm_of (oi_objects it) (length Os1))
     else decode_objects N (nm_of (oi_subjects it)) (nm_of (oi_objects it)) (length Os1) Os2).
Proof.
  intros Hh HO. eexists N, Os, _. split; [|done]. split; [done|]. simpl.
  rewrite flat_drop_offset, HO, drop_app_length.
  assert (Forall (λ r, r ≠ []) Os2 ∧ Forall (Forall (λ x, x ≤ length (concat (sp_rows N)))) Os2) as [Hne Hb].
  { destruct Hh as [_ Ho _ _ Hb]. pose proof (aj_rows_nonempty (oi_o_ps it)) as Hne.
    rewrite Ho, HO in Hne. rewrite HO in Hb.
    apply Forall_app in Hne as [_ ?]. by apply Forall_app in Hb as [_ ?]. }
  destruct (oi_stop_at_boundary it) eqn:Hst.
  - destruct Os2 as [|r Os2]; simpl; [constructor|]. apply Forall_cons in Hne as [Hr _], Hb as [Hb _].
    rewrite flat_cons, <- (app_nil_r (r ≫= _)). apply owalks_row; [|done..|by apply owalks_stop].
    rewrite length_app. simpl. lia.
  - apply owalks_decode; [by rewrite length_app|done..].
Qed.

Definition seek_object_row (objects : option MonotonicLogArray) (object : nat) : nat :=
  match objects with None => object - 1 | Some m => ml_nearest_index_of m object end.

Lemma holds_index_counts subjects objects o_ps s_p N Os :
  holds_index subjects objects o_ps s_p N Os →
  aj_left_count o_ps = length Os ∧ aj_right_count o_ps = length (concat Os).
Proof. intros [_ <- _ _ _]. by rewrite aj_left_count_spec, aj_right_count_spec. Qed.

(** Where [seek_object] lands. *)
Lemma seek_object_spec it N Os o :
  holds_index (oi_subjects it) (oi_objects it) (oi_o_ps it) (oi_s_p it) N Os →
  let k := if decide (o = 0) then 0 else seek_object_row (oi_objects it) o in
  ∃ it', seek_object_ref it o = Ok it' ∧ oi_stop_at_boundary it' = oi_stop_at_boundary it ∧
    oi_yields it'
      (if oi_stop_at_boundary it
       then default [] (Os !! k) ≫= triple_at N (nm_of (oi_subjects it)) (nm_of (oi_objects it) k)
       else decode_objects N (nm_of (oi_subjects it)) (nm_of (oi_objects it)) k (drop k Os)).
Proof.
  intros Hh k. unfold seek_object_ref. subst k. case_decide as Ho.
  { eexists. split_and!; [done|done|]. rewrite <- head_lookup.
    apply (oi_row_yields it N [] Os Os Hh eq_refl). }
  fold (seek_object_row (oi_objects it) o). set (k := seek_object_row (oi_objects it) o).
  destruct (holds_index_counts _ _ _ _ _ _ Hh) as [-> ->]. case_decide as Hk.
  - eexists. split_and!; [done|done|]. eexists N, Os, _. split; [|done]. split; [done|]. simpl.
    rewrite drop_ge by (by rewrite flat_length). rewrite (drop_ge Os), (lookup_ge_None_2 Os k) by done.
    simpl. destruct (oi_stop_at_boundary it); constructor.
  - assert (length (take k Os) = k) as Hlk by (rewrite length_take; lia).
    pose proof (oi_row_yields it N (take k Os) (drop k Os) Os Hh (eq_sym (take_drop k Os))) as Hy.
    rewrite Hlk in Hy. rewrite Nat.add_1_r, aj_offset_for_row.
    2: { destruct (holds_index_counts _ _ _ _ _ _ Hh) as [-> _]. lia. }
    pose proof Hh as [_ -> _ _ _]. cbn [mbind outcome_bind].
    eexists. split_and!; [done|done|].
    by rewrite <- (Nat.add_0_r k) at 4; rewrite <- lookup_drop, <- head_lookup.
Qed.

(** ** Correctness of an index *)

(** The index lists, for each named object, the pairs that have it. *)
Record index_ok (N : layout) (nmo : nat → nat) (Os : list (list nat)) : Prop := {
  io_rows : Forall (λ r, r = [0] ∨ (r ≠ [] ∧ StronglySorted lt (0 :: r))) Os;
  io_names k1 k2 : k1 < k2 → k2 < length Os → nmo k1 < nmo k2;
  io_names_pos k : k < length Os → 0 < nmo k;
  io_pairs k r sp : Os !! k = Some r → sp ≠ 0 →
    sp ∈ r ↔ ∃ po, concat N !! (sp - 1) = Some po ∧ po.1 ≠ 0 ∧ nmo k ∈ po.2;
  io_complete i po o : concat N !! i = Some po → po.1 ≠ 0 → o ∈ po.2 → o ≠ 0 →
    ∃ k, k < length Os ∧ nmo k = o;
}.

Lemma elem_of_triple_at N nm o sp t :
  t ∈ triple_at N nm o sp ↔ sp ≠ 0 ∧ ∃ po, concat N !! (sp - 1) = Some po ∧
    t = new_IdTriple (nm (row_of_pos N (sp - 1) - 1)) po.1 o.
Proof.
  unfold triple_at. case_decide as Hz; [split; [by intros ?%not_elem_of_nil|by intros []]|].
  rewrite concat_sp_rows, list_lookup_fmap. destruct (concat N !! (sp - 1)) as [po|]; simpl.
  - rewrite list_elem_of_singleton. naive_solver.
  - split; [by intros ?%not_elem_of_nil|naive_solver].
Qed.

Lemma elem_of_decode_objects N nm nmo i Os t :
  t ∈ decode_objects N nm nmo i Os ↔
  ∃ k r sp, Os !! k = Some r ∧ sp ∈ r ∧ t ∈ triple_at N nm (nmo (i + k)) sp.
Proof.
  revert i. induction Os as [|r Os IH]; intros i; simpl.
  - split; [by intros ?%not_elem_of_nil|naive_solver].
  - rewrite elem_of_app, list_elem_of_bind, IH. split.
    + intros [(sp & Ht & Hsp)|(k & r' & sp & Hk & Hsp & Ht)].
      * exists 0, r, sp. by rewrite Nat.add_0_r.
      * exists (S k), r', sp. by rewrite Nat.add_succ_r.
    + intros ([|k] & r' & sp & Hk & Hsp & Ht); simplify_eq/=.
      * rewrite Nat.add_0_r in Ht. eauto.
      * rewrite Nat.add_succ_r in Ht. eauto 10.
Qed.

(** The index holds the triples of the layer. *)
Lemma decode_objects_elem N nm nmo Os t :
  index_ok N nmo Os → t ∈ decode_objects N nm nmo 0 Os ↔ t ∈ decode nm 0 N.
Proof.
  intros Hok. rewrite elem_of_decode_objects, elem_of_decode_pos.
  setoid_rewrite elem_of_pos_triples. setoid_rewrite elem_of_triple_at. split.
  - intros (k & r & sp & Hk & Hsp & Hz & po & Hpo & ->). pose proof (lookup_lt_Some _ _ _ Hk) as Hkl.
    apply (io_pairs _ _ _ Hok k r sp Hk Hz) in Hsp as (po' & Hpo' & Hp & Ho). rewrite Hpo in Hpo'. injection Hpo' as <-.
    exists (sp - 1), po. split; [done|]. apply elem_of_pair_triples. simpl.
    pose proof (io_names_pos _ _ _ Hok k Hkl). split_and!; [done..|lia].
  - intros (i & po & Hi & Ht). apply elem_of_pair_triples in Ht as (Hp & Hs & Hpr & Ho & Hoz).
    destruct (io_complete _ _ _ Hok i po _ Hi Hp Ho Hoz) as (k & Hk & Hnm).
    destruct (lookup_lt_is_Some_2 Os k Hk) as [r Hr].
    exists k, r, (S i). rewrite Nat.sub_succ, Nat.sub_0_r. split_and!; [done| |done|].
    + apply (io_pairs _ _ _ Hok k r (S i) Hr); [done|]. exists po. rewrite Nat.sub_succ, Nat.sub_0_r, Hnm. done.
    + exists po. split; [done|]. destruct t; simplify_eq/=. done.
Qed.

Lemma decode_objects_app N nm nmo i Os1 Os2 :
  decode_objects N nm nmo i (Os1 ++ Os2) =
  decode_objects N nm nmo i Os1 ++ decode_objects N nm nmo (i + length Os1) Os2.
Proof.
  revert i. induction Os1 as [|r Os1 IH]; intros i; simpl; [by rewrite Nat.add_0_r|].
  by rewrite IH, <- app_assoc, Nat.add_succ_r.
Qed.

Lemma decode_objects_object N nm nmo i Os t :
  t ∈ decode_objects N nm nmo i Os → ∃ k, k < length Os ∧ object t = nmo (i + k).
Proof.
  intros (k & r & sp & Hk & _ & Ht)%elem_of_decode_objects.
  apply elem_of_triple_at in Ht as (_ & po & _ & ->). exists k. split; [|done].
  by eapply lookup_lt_Some.
Qed.

Lemma index_row_sorted N subjects o r :
  layout_wf N → subjects_wf subjects N → (r = [0] ∨ (r ≠ [] ∧ StronglySorted lt (0 :: r))) →
  triples_sorted osp (r ≫= triple_at N (subject_name subjects) o).
Proof.
  intros Hwf Hsub [->|[_ Hs]]; [constructor|]. apply StronglySorted_inv in Hs as [Hs _].
  induction Hs as [|sp r Hs IH Hall]; [constructor|]. simpl.
  apply StronglySorted_app_intro; [|done|].
  - unfold triple_at. case_decide; [constructor|]. case_match; repeat constructor.
  - rewrite Forall_forall in Hall.
    intros t1 t2 (Hz & po1 & Hi1 & ->)%elem_of_triple_at (sp2 & Ht2 & Hsp2)%list_elem_of_bind.
    apply elem_of_triple_at in Ht2 as (Hz2 & po2 & Hi2 & ->). specialize (Hall _ Hsp2).
    assert (sp - 1 < sp2 - 1) as Hlt by lia.
    pose proof (pair_order _ _ _ _ _ _ Hwf Hsub Hlt Hi1 Hi2) as Ho.
    unfold triple_lt, key_lt, osp. simpl. simpl in Ho. lia.
Qed.

Lemma decode_objects_sorted N subjects nmo i Os n :
  layout_wf N → subjects_wf subjects N →
  Forall (λ r, r = [0] ∨ (r ≠ [] ∧ StronglySorted lt (0 :: r))) Os →
  (∀ k1 k2, k1 < k2 → k2 < n → nmo k1 < nmo k2) → i + length Os ≤ n →
  triples_sorted osp (decode_objects N (subject_name subjects) nmo i Os).
Proof.
  intros Hwf Hsub Hall Hnm. revert i. induction Hall as [|r Os Hr Hall IH]; intros i Hi; [constructor|].
  simpl in *. apply StronglySorted_app_intro; [by apply index_row_sorted|apply IH; lia|].
  intros t1 t2 (sp & Ht1 & _)%list_elem_of_bind (k & Hk & Ht2)%decode_objects_object.
  apply elem_of_triple_at in Ht1 as (_ & po & _ & ->).
  assert (nmo i < nmo (S i + k)) by (apply Hnm; lia).
  unfold triple_lt, key_lt, osp. simpl in *. lia.
Qed.

(** The index structures of a layer: what they hold is a correct index. *)
Record indexes (subjects objects : option MonotonicLogArray) (o_ps s_p sp_o : AdjacencyList)
    (N : layout) (Os : list (list nat)) : Prop := {
  ix_holds : holds subjects s_p sp_o N;
  ix_index : holds_index subjects objects o_ps s_p N Os;
  ix_ok : index_ok N (nm_of objects) Os;
}.

Definition object_triples (subjects objects : option MonotonicLogArray) (N : layout)
    (Os : list (list nat)) : list IdTriple :=
  decode_objects N (nm_of subjects) (nm_of objects) 0 Os.

Lemma object_triples_elem subjects objects o_ps s_p sp_o N Os t :
  indexes subjects objects o_ps s_p sp_o N Os →
  t ∈ object_triples subjects objects N Os ↔ t ∈ layer_triples subjects N.
Proof. intros [_ _ Hok]. by apply decode_objects_elem. Qed.

Lemma object_triples_sorted subjects objects o_ps s_p sp_o N Os :
  indexes subjects objects o_ps s_p sp_o N Os →
  triples_sorted osp (object_triples subjects objects N Os).
Proof.
  intros [[_ _ Hwf Hsub] _ Hok]. eapply decode_objects_sorted; [done|done|apply Hok| |done].
  intros k1 k2. apply (io_names _ _ _ Hok).
Qed.

(** Seeking an object: the triples with this object or a greater one. *)
Lemma seek_object_split it sp_o N Os o :
  indexes (oi_subjects it) (oi_objects it) (oi_o_ps it) (oi_s_p it) sp_o N Os →
  oi_stop_at_boundary it = false →
  ∃ it' T1 T2, seek_object_ref it o = Ok it' ∧
    object_triples (oi_subjects it) (oi_objects it) N Os = T1 ++ T2 ∧ oi_yields it' T2 ∧
    (∀ t, t ∈ T1 → object t < o) ∧ (∀ t, t ∈ T2 → o ≤ object t).
Proof.
  intros [_ Hi Hok] Hst. destruct (seek_object_spec it N Os o Hi) as (it' & Hseek & _ & Hy).
  rewrite Hst in Hy. case_decide as Ho.
  { subst. eexists it', [], _. split_and!; [done|done|exact Hy|by intros ? ?%not_elem_of_nil|intros; lia]. }
  set (k := seek_object_row (oi_objects it) o) in *.
  assert (∀ i, i < length Os → nm_of (oi_objects it) i < o ↔ i < k) as Hk.
  { intros i Hil. apply (seek_row_lt _ (length Os)); [apply Hi|done|done]. }
  exists it', (decode_objects N (nm_of (oi_subjects it)) (nm_of (oi_objects it)) 0 (take k Os)).
  eexists. split_and!; [done| |exact Hy| |].
  - unfold object_triples. rewrite <- (take_drop k Os) at 1. rewrite decode_objects_app. simpl.
    destruct (decide (k ≤ length Os)).
    + by rewrite length_take, Nat.min_l.
    + by rewrite (drop_ge Os) by lia.
  - intros t (j & Hj & ->)%decode_objects_object. rewrite length_take in Hj. apply Hk; simpl; lia.
  - intros t (j & Hj & ->)%decode_objects_object. rewrite length_drop in Hj.
    apply Nat.nlt_ge. intros Hlt%Hk; lia.
Qed.
End object_iterator_laws.
