(* ===== verification/SuccinctBuild.v ===== *)
(** The builders of [tdb_succinct] that layers are written with, besides those of
    [Succinct]: dictionaries, wavelet trees, and the streams that read adjacency lists
    back. They are parameters, as the structures are. *)

From S2P Require Import Prelude Succinct LayerTypes Order.

Class BuildOps `{SuccinctOps} := {
  (** [StringDictBufBuilder]: adding a string gives its id *)
  StringDictBuilder : Type;
  sdb_new : StringDictBuilder;
  sdb_add : StringDictBuilder → string → outcome (nat * StringDictBuilder);
  sdb_finalize : StringDictBuilder → StringDict;

  (** [TypedDictBufBuilder], and the derived order of [TypedDictEntry] *)
  TypedDictBuilder : Type;
  tdb_new : TypedDictBuilder;
  tdb_add : TypedDictBuilder → TypedDictEntry → outcome (nat * TypedDictBuilder);
  tdb_finalize : TypedDictBuilder → TypedDict;
  entry_before : TypedDictEntry → TypedDictEntry → bool;

  (** [adjacency_list_stream_pairs], with the 1-based number of the row first *)
  aj_stream_pairs : AdjacencyList → list (nat * nat);
  (** [heap_sorted_iter]: the merge of sorted lists *)
  heap_sorted_iter : list (list (nat * nat)) → list (nat * nat);
  (** [build_wavelet_tree_from_logarray], of the numbers of an adjacency list *)
  wt_from_logarray : AdjacencyList → WaveletTree;
}.

(** The pairs of rows, the first row with the number [i]. *)
Fixpoint pairs_of (i : nat) (rows : list (list nat)) : list (nat * nat) :=
  match rows with [] => [] | r :: rows => (pair i <$> r) ++ pairs_of (S i) rows end.

(** The derived order of pairs of numbers. *)
Notation num_pair_lt := (pair_lt Nat.lt).

Class BuildLaws `{SuccinctLaws, !BuildOps} := {
  sdb_entries : StringDictBuilder → list string;
  sdb_new_spec : sdb_entries sdb_new = [];
  sdb_add_spec b s :
    (∀ x, last (sdb_entries b) = Some x → string_lt x s) →
    ∃ b', sdb_add b s = Ok (S (length (sdb_entries b)), b') ∧ sdb_entries b' = sdb_entries b ++ [s];
  sdb_finalize_spec b : sd_entries (sdb_finalize b) = sdb_entries b;

  tdb_entries : TypedDictBuilder → list TypedDictEntry;
  tdb_new_spec : tdb_entries tdb_new = [];
  tdb_add_spec b e :
    (∀ x, last (tdb_entries b) = Some x → te_lt x e) →
    ∃ b', tdb_add b e = Ok (S (length (tdb_entries b)), b') ∧ tdb_entries b' = tdb_entries b ++ [e];
  tdb_finalize_spec b : td_entries (tdb_finalize b) = tdb_entries b;
  entry_before_spec x y : entry_before x y = true ↔ te_lt x y;

  (** the zero that stands for an empty row is not a pair *)
  aj_stream_pairs_spec a : aj_stream_pairs a = filter (λ p, p.2 ≠ 0) (pairs_of 1 (aj_rows a));
  heap_sorted_iter_spec ls :
    Forall (StronglySorted (or_eq num_pair_lt)) ls →
    StronglySorted (or_eq num_pair_lt) (heap_sorted_iter ls) ∧ heap_sorted_iter ls ≡ₚ concat ls;
  wt_from_logarray_spec a : wt_seq (wt_from_logarray a) = concat (aj_rows a);
}.

Lemma elem_of_pairs_of i rows l x :
  (l, x) ∈ pairs_of i rows ↔ ∃ k r, l = i + k ∧ rows !! k = Some r ∧ x ∈ r.
Proof.
  revert i. induction rows as [|r0 rows IH]; intros i; simpl.
  - split; [by intros ?%not_elem_of_nil|by intros (k & r & _ & ? & _)].
  - rewrite elem_of_app, list_elem_of_fmap, IH. split.
    + intros [(y & [= -> ->] & Hy)|(k & r & -> & Hk & Hx)].
      * exists 0, r0. split_and!; [lia|done..].
      * exists (S k), r. split_and!; [lia|done..].
    + intros ([|k] & r & -> & Hk & Hx); simplify_eq/=.
      * left. exists x. by rewrite Nat.add_0_r.
      * right. exists k, r. split_and!; [lia|done..].
Qed.

(** The order of typed entries, decided as the program does. *)
Section entries.
Context `{BuildOps}.

Definition value_lt : relation TypedDictEntry := λ x y, entry_before x y = true.
#[export] Instance value_lt_dec : RelDecision value_lt := λ x y, decide (entry_before x y = true).
End entries.

Section entry_laws.
Context `{BuildLaws}.

Lemma value_lt_te x y : value_lt x y ↔ te_lt x y.
Proof. apply entry_before_spec. Qed.

#[export] Instance value_lt_order : StrictOrder value_lt.
Proof.
  pose proof te_lt_order as [Hi Ht]. split.
  - intros x Hx%value_lt_te. by destruct (Hi x).
  - intros x y z Hxy%value_lt_te Hyz%value_lt_te. apply value_lt_te. by etrans.
Qed.

#[export] Instance value_lt_trichotomic : Trichotomic value_lt.
Proof. intros x y. rewrite !value_lt_te. apply te_lt_total. Qed.
End entry_laws.
