(* ===== verification/SuccinctBuildList.v ===== *)
(** An instance of the builders' interface of [SuccinctBuild] over plain lists, on
    top of [SuccinctList]. *)

From S2P Require Import Prelude Succinct SuccinctList LayerTypes Order SuccinctBuild.

Lemma remove_dups_NoDup_id {A} `{EqDecision A} (l : list A) : NoDup l → remove_dups l = l.
Proof. induction 1 as [|x l Hx Hl IH]; [done|]. simpl. rewrite IH. by destruct (decide_rel _ x l). Qed.

(** Something greater at the end of a sorted list. *)
Lemma as_sorted_snoc {A} (R : A → A → Prop) `{∀ x y, Decision (R x y), !Transitive R} l x :
  (∀ y, last (as_sorted R l) = Some y → R y x) → as_sorted R (as_sorted R l ++ [x]) = as_sorted R l ++ [x].
Proof.
  intros Hx. apply as_sorted_id. pose proof (as_sorted_sorted R l) as Hs.
  apply StronglySorted_app_intro; [done|repeat constructor|].
  intros a c Ha ->%list_elem_of_singleton. destruct (last (as_sorted R l)) as [y|] eqn:Hl.
  - apply last_Some in Hl as [l' Hl']. specialize (Hx y eq_refl). rewrite Hl' in Hs, Ha.
    apply elem_of_app in Ha as [Ha| ->%list_elem_of_singleton]; [|done].
    apply StronglySorted_app_inv in Hs as (_ & _ & Hs). etrans; [apply Hs; [done|by left]|done].
  - apply last_None in Hl. rewrite Hl in Ha. by apply not_elem_of_nil in Ha.
Qed.

#[export] Instance entry_lt_trans : Transitive entry_lt.
Proof. intros [x1 y1] [x2 y2] [x3 y3]. unfold entry_lt. simpl. lia. Qed.

#[export] Instance list_build : BuildOps (H := list_succinct) := {|
  StringDictBuilder := list string;
  sdb_new := [];
  sdb_add b s := Ok (S (length (as_sorted string_lt b)), as_sorted string_lt b ++ [s]);
  sdb_finalize b := as_sorted string_lt b;
  TypedDictBuilder := list (nat * nat);
  tdb_new := [];
  tdb_add b e := Ok (S (length (as_sorted entry_lt b)), as_sorted entry_lt b ++ [e]);
  tdb_finalize b := b;
  entry_before x y := bool_decide (entry_lt x y);
  aj_stream_pairs a := filter (λ p, p.2 ≠ 0) (pairs_of 1 (rows_of a));
  heap_sorted_iter ls := merge_sort (or_eq num_pair_lt) (concat ls);
  wt_from_logarray a := concat (rows_of a);
|}.

#[export] Program Instance list_build_laws : BuildLaws (H := list_succinct) := {|
  sdb_entries (b : list string) := as_sorted string_lt b;
  tdb_entries (b : list (nat * nat)) := as_sorted entry_lt b;
|}.
Next Obligation. done. Qed.
Next Obligation. intros b s Hs. simpl in *. eexists. split; [done|]. by apply (as_sorted_snoc string_lt). Qed.
Next Obligation.
  intros b. apply remove_dups_NoDup_id, (StronglySorted_NoDup string_lt), as_sorted_sorted.
Qed.
Next Obligation. done. Qed.
Next Obligation. intros b e He. simpl in *. eexists. split; [done|]. by apply (as_sorted_snoc entry_lt). Qed.
Next Obligation. done. Qed.
Next Obligation. intros x y. apply bool_decide_eq_true. Qed.
Next Obligation. done. Qed.
Next Obligation.
  intros ls _. split; [apply (StronglySorted_merge_sort _)|apply merge_sort_Permutation].
Qed.
Next Obligation. done. Qed.
