(* ===== verification/SuccinctMerge.v ===== *)
(** The functions of [tdb_succinct] that merge dictionaries and iterators, as
    parameters, and what the merge of sorted iterators by their least element gives. *)

From S2P Require Import Prelude Succinct LayerTypes Order SuccinctBuild.

Class MergeOps `{SuccinctOps} := {
  (** the entries of a dictionary, in order *)
  sd_iter : StringDict → list string;
  td_iter : TypedDict → list TypedDictEntry;
  (** [merge_string_dictionaries], [merge_typed_dictionaries] *)
  merge_string_dictionaries : list StringDict → StringDict;
  merge_typed_dictionaries : list TypedDict → TypedDict;
  (** [sorted_iterator]: the next element is that of the iterator picked from the
      elements in front *)
  sorted_iterator {A : Type} : (list (option A) → option nat) → list (list A) → list A;
}.

Class MergeLaws `{SuccinctLaws, !MergeOps} : Prop := {
  sd_iter_spec d : sd_iter d = sd_entries d;
  td_iter_spec d : td_iter d = td_entries d;
  merge_string_spec ds :
    Forall (λ d, StronglySorted string_lt (sd_entries d)) ds → NoDup (concat (sd_entries <$> ds)) →
    StronglySorted string_lt (sd_entries (merge_string_dictionaries ds)) ∧
    sd_entries (merge_string_dictionaries ds) ≡ₚ concat (sd_entries <$> ds);
  merge_typed_spec ds :
    NoDup (concat (td_entries <$> ds)) →
    td_entries (merge_typed_dictionaries ds) ≡ₚ concat (td_entries <$> ds);
  sorted_iterator_spec {A : Type} (pick : list (option A) → option nat) its :
    sorted_iterator pick its =
      match pick (head <$> its) with
      | None => []
      | Some i => match its !! i with
                  | Some (x :: rest) => x :: sorted_iterator pick (<[i := rest]> its)
                  | _ => []
                  end
      end;
}.

(** ** Picking the least

    [enumerate().filter(is_some).min_by(..).map(..)]: the first of the least. *)
Section pick.
Context {A : Type} (less : A → A → bool).

Fixpoint min_by (i : nat) (vals : list (option A)) : option (nat * A) :=
  match vals with
  | [] => None
  | None :: vals => min_by (S i) vals
  | Some x :: vals =>
      match min_by (S i) vals with
      | Some (j, y) => if less y x then Some (j, y) else Some (i, x)
      | None => Some (i, x)
      end
  end.

Definition pick_min (vals : list (option A)) : option nat := fst <$> min_by 0 vals.

Lemma min_by_None i vals : min_by i vals = None ↔ Forall (λ v, v = None) vals.
Proof.
  revert i. induction vals as [|[x|] vals IH]; intros i; simpl.
  - split; [constructor|done].
  - split; [|by intros [[=] _]%Forall_cons]. by destruct (min_by (S i) vals) as [[j y]|]; [destruct (less y x)|].
  - rewrite IH, Forall_cons. tauto.
Qed.

(** Elements are compared by a key. *)
Context {K : Type} (key : A → K) (lt : relation K).
Context (Hless : ∀ x y, less x y = true ↔ lt (key x) (key y)) `{!StrictOrder lt, !Trichotomic lt}.

Lemma min_by_Some i vals k x :
  min_by i vals = Some (k, x) →
  i ≤ k ∧ vals !! (k - i) = Some (Some x) ∧ ∀ y, Some y ∈ vals → or_eq lt (key x) (key y).
Proof.
  revert i k x. induction vals as [|[z|] vals IH]; intros i k x; simpl; [done| |].
  - destruct (min_by (S i) vals) as [[j y]|] eqn:Hm.
    + destruct (IH _ _ _ Hm) as (Hij & Hj & Hall). destruct (less y z) eqn:Hl.
      * intros [= <- <-]. split_and!; [lia| |].
        { replace (j - i) with (S (j - S i)) by lia. done. }
        intros w [[= ->]|Hw]%elem_of_cons; [left; by apply Hless|by apply Hall].
      * intros [= <- <-]. split_and!; [lia|by rewrite Nat.sub_diag|].
        intros w [[= ->]|Hw]%elem_of_cons; [by right|].
        assert (or_eq lt (key z) (key y)) as Hzy.
        { destruct (trichotomic_cases (lt := lt) (key z) (key y)) as [?|[?|Hyz]]; [by left|by right|].
          apply Hless in Hyz. congruence. }
        etrans; [exact Hzy|by apply Hall].
    + intros [= <- <-]. split_and!; [lia|by rewrite Nat.sub_diag|].
      intros w [[= ->]|Hw]%elem_of_cons; [by right|]. apply min_by_None in Hm. rewrite Forall_forall in Hm.
      by specialize (Hm _ Hw).
  - intros Hm. destruct (IH _ _ _ Hm) as (Hij & Hj & Hall). split_and!; [lia| |].
    + replace (k - i) with (S (k - S i)) by lia. done.
    + intros w [[=]|Hw]%elem_of_cons. by apply Hall.
Qed.
End pick.

Lemma fmap_concat_list {A B} (f : A → B) (ls : list (list A)) : f <$> (concat ls : list A) = concat ((fmap f : list A → list B) <$> ls).
Proof. induction ls as [|l ls IH]; [done|]. simpl. by rewrite fmap_app, IH. Qed.

(** ** The merge of sorted lists *)
Section sorted_merge.
Context `{MergeLaws} {A K : Type} (less : A → A → bool) (key : A → K) (lt : relation K).
Context (Hless : ∀ x y, less x y = true ↔ lt (key x) (key y)) `{!StrictOrder lt, !Trichotomic lt}.
Definition key_le : relation A := λ x y, or_eq lt (key x) (key y).
Notation merged := (sorted_iterator (pick_min less)).

Lemma sorted_merge n : ∀ its : list (list A),
  length (concat its) = n → Forall (StronglySorted key_le) its →
  StronglySorted key_le (merged its) ∧ merged its ≡ₚ concat its.
Proof.
  induction n as [|n IH]; intros its Hn Hs; rewrite sorted_iterator_spec; unfold pick_min.
  - apply length_zero_iff_nil in Hn. destruct (min_by less 0 (head <$> its)) as [[i x]|] eqn:Hm; simpl.
    + destruct (its !! i) as [[|y r]|] eqn:Hi; rewrite ?Hn; [by split; [constructor|]| |by split; [constructor|]].
      assert (y ∈ concat its) as Hy.
      { apply list_elem_of_In, in_concat. exists (y :: r).
        split; apply list_elem_of_In; [by eapply list_elem_of_lookup_2|by left]. }
      rewrite Hn in Hy. by apply not_elem_of_nil in Hy.
    + rewrite Hn. by split; [constructor|].
  - destruct (min_by less 0 (head <$> its)) as [[i x]|] eqn:Hm; simpl.
    2: { apply min_by_None in Hm. exfalso. rewrite Forall_fmap in Hm.
         assert (concat its = []) as Hc; [|by rewrite Hc in Hn].
         clear -Hm. induction Hm as [|[|x l] its Hx Hall IH]; [done|exact IH|done]. }
    destruct (min_by_Some less key lt Hless _ _ _ _ Hm) as (_ & Hi & Hmin). rewrite Nat.sub_0_r in Hi.
    apply list_lookup_fmap_Some in Hi as (it & Hit & Hi). destruct it as [|y r]; [done|]. simpl in Hit. injection Hit as <-.
    rewrite Hi. pose proof (take_drop_middle _ _ _ Hi) as Hsplit.
    assert (<[i:=r]> its = take i its ++ r :: drop (S i) its) as Hins.
    { rewrite <- Hsplit at 1. apply lookup_lt_Some in Hi as Hlt. rewrite insert_app_r_alt by (rewrite length_take; lia).
      rewrite length_take, Nat.min_l by lia. by rewrite Nat.sub_diag. }
    assert (x :: concat (<[i:=r]> its) ≡ₚ concat its) as Hperm.
    { rewrite Hins. trans (concat (take i its ++ (x :: r) :: drop (S i) its)); [|by rewrite Hsplit].
      rewrite !concat_app. apply Permutation_middle. }
    destruct (IH (<[i:=r]> its)) as [Hs' Hp'].
    { apply Permutation_length in Hperm. simpl in Hperm. lia. }
    { rewrite Hins. apply Forall_app. rewrite <- Hsplit in Hs. apply Forall_app in Hs as [Ha [Hb Hc]%Forall_cons].
      apply StronglySorted_inv in Hb as [Hb _]. split; [done|]. by constructor. }
    split; [|by rewrite Hp'].
    constructor; [done|]. rewrite Hp'. apply Forall_forall. intros z Hz.
    assert (z ∈ x :: concat (<[i:=r]> its)) as Hz' by by right.
    rewrite Hperm in Hz'. apply list_elem_of_In, in_concat in Hz' as (l & Hl & Hzl). apply list_elem_of_In in Hl, Hzl. rewrite Forall_forall in Hs. specialize (Hs l Hl).
    destruct l as [|h l]; [by apply not_elem_of_nil in Hzl|].
    assert (key_le x h) as Hxh by (apply Hmin; apply list_elem_of_fmap; by exists (h :: l)).
    apply elem_of_cons in Hzl as [->|Hzl]; [done|]. unfold key_le in *. etrans; [exact Hxh|].
    apply StronglySorted_inv in Hs as [_ Hall]. rewrite Forall_forall in Hall. by apply Hall.
Qed.

(** With different keys, the keys are sorted. *)
Lemma sorted_merge_keys its (ks : list (list K)) :
  (fmap key : list A → list K) <$> its = ks → Forall (StronglySorted lt) ks → NoDup (concat ks) →
  StronglySorted lt (key <$> merged its) ∧ merged its ≡ₚ concat its.
Proof.
  intros Hks Hs Hnd. destruct (sorted_merge _ its eq_refl) as [Hm Hp].
  - rewrite <- Hks, Forall_fmap in Hs. eapply Forall_impl; [exact Hs|]. intros l Hl. clear -Hl.
    change (StronglySorted lt (key <$> l)) in Hl. induction l as [|x l IH]; [constructor|]. rewrite fmap_cons in Hl. apply StronglySorted_inv in Hl as [Hl Hx].
    constructor; [by apply IH|]. apply (Forall_fmap key) in Hx. eapply Forall_impl; [exact Hx|]. intros y. by left.
  - split; [|done]. assert (NoDup (key <$> merged its)) as Hnd'.
    { rewrite Hp, fmap_concat_list, Hks. done. }
    clear Hp. apply sorted_strict; [done|]. induction Hm as [|x l Hm IH Hx]; [constructor|].
    simpl. constructor; [|by apply Forall_fmap]. apply IH. by apply NoDup_cons in Hnd' as [_ ?].
Qed.
End sorted_merge.
