(* ===== verification/SuccinctMergeList.v ===== *)
(** An instance of the merging functions of [SuccinctMerge] over plain lists. *)

From S2P Require Import Prelude Succinct SuccinctList LayerTypes Order SuccinctBuild SuccinctBuildList SuccinctMerge.

(** [fuel] iterations of [sorted_iterator]. *)
Fixpoint sorted_rounds {A} (fuel : nat) (pick : list (option A) → option nat) (its : list (list A)) : list A :=
  match fuel with
  | O => []
  | S fuel =>
      match pick (head <$> its) with
      | None => []
      | Some i => match its !! i with
                  | Some (x :: rest) => x :: sorted_rounds fuel pick (<[i := rest]> its)
                  | _ => []
                  end
      end
  end.

Lemma next_round_length {A} (its : list (list A)) i x rest :
  its !! i = Some (x :: rest) → length (concat its) = S (length (concat (<[i := rest]> its))).
Proof.
  revert i. induction its as [|it its IH]; intros [|i] Hi; simplify_eq/=; [by rewrite !length_app|].
  rewrite !length_app, (IH _ Hi). lia.
Qed.

#[export] Instance entry_lt_trichotomic : Trichotomic entry_lt.
Proof.
  intros [x1 y1] [x2 y2]. unfold entry_lt. simpl. destruct (decide (x1 = x2)), (decide (y1 = y2)); subst; auto; lia.
Qed.

#[export] Instance list_merge : MergeOps (H := list_succinct) := {|
  sd_iter d := remove_dups (d : list string);
  td_iter d := as_sorted entry_lt (d : list (nat * nat));
  merge_string_dictionaries ds := merge_sort (or_eq string_lt) (concat (remove_dups <$> (ds : list (list string))));
  merge_typed_dictionaries ds := merge_sort (or_eq entry_lt) (concat (as_sorted entry_lt <$> (ds : list (list (nat * nat)))));
  sorted_iterator A pick its := sorted_rounds (length (concat its)) pick its;
|}.

Lemma merge_sort_strict {A} (lt : relation A) `{EqDecision A, !RelDecision lt, !Transitive lt, !Trichotomic lt} l :
  NoDup l → StronglySorted lt (merge_sort (or_eq lt) l).
Proof.
  intros Hnd. apply sorted_strict; [by rewrite (merge_sort_Permutation (or_eq lt) l)|apply (StronglySorted_merge_sort _)].
Qed.

#[export] Program Instance list_merge_laws : MergeLaws (H := list_succinct).
Next Obligation. done. Qed.
Next Obligation. done. Qed.
Next Obligation.
  intros ds _ Hnd. simpl in *. pose proof (merge_sort_strict string_lt _ Hnd) as Hs.
  rewrite remove_dups_NoDup_id by by apply (StronglySorted_NoDup string_lt).
  split; [exact Hs|apply merge_sort_Permutation].
Qed.
Next Obligation.
  intros ds Hnd. simpl in *. rewrite as_sorted_id by exact (merge_sort_strict entry_lt _ Hnd). apply merge_sort_Permutation.
Qed.
Next Obligation.
  intros A pick its. simpl. destruct (length (concat its)) as [|n] eqn:Hn; simpl.
  - destruct (pick _) as [i|]; [|done]. destruct (its !! i) as [[|x rest]|] eqn:Hi; [done| |done].
    by rewrite (next_round_length _ _ _ _ Hi) in Hn.
  - destruct (pick _) as [i|]; [|done]. destruct (its !! i) as [[|x rest]|] eqn:Hi; [done| |done].
    rewrite (next_round_length _ _ _ _ Hi) in Hn. injection Hn as <-. done.
Qed.
