(* ===== verification/IndexBuilder.v ===== *)
(** The indexes of a layer: [build_indexes] of [src/layer/builder.rs] reads the
    adjacency lists of a layer back and writes the list from objects to pairs of
    subject and predicate, and the wavelet tree over predicates. What is built is
    the index that [ObjectIterator] and [PredicateIterator] rely on. *)

From S2P Require Import Prelude Succinct LayerTypes Order Nested SubjectIterator ObjectIterator TripleBuilder SuccinctBuild.

Section index_builder.
Context `{BuildOps}.

(** [SINGLE_SORT_LIMIT]: the number of pairs that are sorted at once. *)
Context (single_sort_limit : nat).

(** Gather the pairs of the stream; those sorted already are put aside. *)
Fixpoint gather_pairs (aj_stream : list (nat * nat)) (tally : nat) (pairs : list (nat * nat))
    (temp_arrays : list (list (nat * nat))) : list (list (nat * nat)) * list (nat * nat) :=
  match aj_stream with
  | [] => (temp_arrays, pairs)
  | (sp, object) :: aj_stream =>
      let pairs := pairs ++ [(object, sp)] in
      let tally := tally + 1 in
      if decide (tally mod single_sort_limit = 0)
      then gather_pairs aj_stream tally [] (temp_arrays ++ [sort_pairs Nat.lt pairs])
      else gather_pairs aj_stream tally pairs temp_arrays
  end.

(** [push_all] *)
Fixpoint push_all (b : AdjacencyListBuilder) (pairs : list (nat * nat)) : outcome AdjacencyListBuilder :=
  match pairs with
  | [] => Ok b
  | (object, sp) :: pairs => b ← ajb_push b object sp; push_all b pairs
  end.

(** The sparse index numbers the objects in use without gaps. *)
Fixpoint push_sparse (b : AdjacencyListBuilder) (objects : list nat) (last_object object_ix : nat)
    (pairs : list (nat * nat)) : outcome (AdjacencyListBuilder * list nat) :=
  match pairs with
  | [] => Ok (b, objects)
  | (object, sp) :: pairs =>
      let '(objects, last_object, object_ix) :=
        if decide (last_object < object) then (objects ++ [object], object, object_ix + 1)
        else (objects, last_object, object_ix) in
      b ← ajb_push b object_ix sp;
      push_sparse b objects last_object object_ix pairs
  end.

Definition build_object_index (sp_o : AdjacencyList) (build_sparse_index : bool)
    : outcome (AdjacencyList * option MonotonicLogArray) :=
  let '(temp_arrays, pairs) := gather_pairs (aj_stream_pairs sp_o) 0 [] [] in
  let merged_iters := heap_sorted_iter (temp_arrays ++ [sort_pairs Nat.lt pairs]) in
  if build_sparse_index then
    '(b, objects) ← push_sparse ajb_new [] 0 0 merged_iters;
    Ok (ajb_finalize b, Some (ml_from_vec objects))
  else
    b ← push_all ajb_new merged_iters;
    Ok (ajb_finalize b, None).

Definition build_predicate_index (s_p : AdjacencyList) : WaveletTree := wt_from_logarray s_p.

(** The two tasks do not share a file. *)
Definition build_indexes (s_p sp_o : AdjacencyList) (sparse : bool)
    : outcome (AdjacencyList * option MonotonicLogArray * WaveletTree) :=
  index ← build_object_index sp_o sparse;
  Ok (index, build_predicate_index s_p).
End index_builder.

(** ** What is gathered *)

Section gathered.
Context `{BuildLaws}.

Lemma gather_pairs_spec limit stream : ∀ tally pairs temp,
  Forall (StronglySorted (or_eq num_pair_lt)) temp →
  let '(temp', pairs') := gather_pairs limit stream tally pairs temp in
  Forall (StronglySorted (or_eq num_pair_lt)) temp' ∧
  concat temp' ++ pairs' ≡ₚ concat temp ++ pairs ++ (prod_swap <$> stream).
Proof.
  induction stream as [|[sp o] stream IH]; intros tally pairs temp Ht; simpl.
  { split; [done|]. by rewrite app_nil_r. }
  case_decide.
  - specialize (IH (tally + 1) [] (temp ++ [sort_pairs Nat.lt (pairs ++ [(o, sp)])])).
    destruct (gather_pairs _ _ _ _ _) as [temp' pairs']. destruct IH as [Hs Hp].
    { apply Forall_app; split; [done|]. apply Forall_singleton, (sort_pairs_sorted Nat.lt). }
    split; [done|]. rewrite Hp, concat_app. simpl. rewrite app_nil_r, sort_pairs_perm.
    by rewrite <- !app_assoc.
  - specialize (IH (tally + 1) (pairs ++ [(o, sp)]) temp Ht).
    destruct (gather_pairs _ _ _ _ _) as [temp' pairs']. destruct IH as [Hs Hp].
    split; [done|]. by rewrite Hp, <- !app_assoc.
Qed.

(** The pairs that are merged, each object with the pair it belongs to. *)
Lemma merged_pairs limit stream :
  let '(temp, pairs) := gather_pairs limit stream 0 [] [] in
  let merged := heap_sorted_iter (temp ++ [sort_pairs Nat.lt pairs]) in
  StronglySorted (or_eq num_pair_lt) merged ∧ merged ≡ₚ prod_swap <$> stream.
Proof.
  pose proof (gather_pairs_spec limit stream 0 [] [] (Forall_nil_2 _)) as Hg.
  destruct (gather_pairs _ _ _ _ _) as [temp pairs]. destruct Hg as [Hs Hp]. intros merged.
  destruct (heap_sorted_iter_spec (temp ++ [sort_pairs Nat.lt pairs])) as [Hm Hmp].
  { apply Forall_app; split; [done|]. apply Forall_singleton, (sort_pairs_sorted Nat.lt). }
  split; [done|]. subst merged. rewrite Hmp, concat_app. simpl. by rewrite app_nil_r, sort_pairs_perm.
Qed.

Lemma pairs_of_NoDup i rows : Forall NoDup rows → NoDup (pairs_of i rows).
Proof.
  intros Hall. revert i. induction Hall as [|r rows Hr Hall IH]; intros i; simpl; [constructor|].
  apply NoDup_app. split_and!; [by apply NoDup_fmap; [intros ? ? [=]|]| |done].
  intros [l x] (y & [= -> ->] & _)%list_elem_of_fmap (k & r' & Hk & _)%elem_of_pairs_of. lia.
Qed.
End gathered.

(** ** What is pushed *)

(** The rows hold the pairs: row [k] those whose first number is [S k]. *)
Record rows_hold (rows : list (list nat)) (L : list (nat * nat)) : Prop := {
  rh_rows : Forall (λ r, r = [0] ∨ (r ≠ [] ∧ StronglySorted lt (0 :: r))) rows;
  rh_elem o sp : sp ≠ 0 → (o, sp) ∈ L ↔ ∃ k r, o = S k ∧ rows !! k = Some r ∧ sp ∈ r;
  rh_last : rows = [] ∨ ∃ R r x, rows = R ++ [r ++ [x]] ∧ x ≠ 0;
}.

Lemma rows_hold_nil : rows_hold [] [].
Proof.
  split; [constructor| |by left]. intros o sp _. split; [by intros ?%not_elem_of_nil|].
  by intros (k & r & _ & ? & _).
Qed.

Section pushed.
Context `{BuildLaws}.

Lemma push_row_end r x y :
  x ≠ 0 → x < y → r ++ [x] = [0] ∨ (r ++ [x] ≠ [] ∧ StronglySorted lt (0 :: (r ++ [x]))) →
  StronglySorted lt (0 :: (r ++ [x]) ++ [y]).
Proof.
  intros Hx Hxy [Hz|[_ Hs]].
  - destruct r; simplify_eq/=. by destruct r.
  - rewrite app_comm_cons in Hs. rewrite <- app_assoc, app_comm_cons. by apply sorted_snoc.
Qed.

Lemma push_pair_holds b L o sp :
  rows_hold (ajb_rows b) L → o ≠ 0 → sp ≠ 0 → (∀ p, p ∈ L → num_pair_lt p (o, sp)) →
  ∃ b', ajb_push b o sp = Ok b' ∧ rows_hold (ajb_rows b') (L ++ [(o, sp)]) ∧ length (ajb_rows b') = o.
Proof.
  intros [Hr He Hl] Ho Hsp Hlt.
  assert (ajb_rows b = [] ∨ length (ajb_rows b) ≤ o) as Hle.
  { destruct Hl as [?|(R & r & x & HR & Hx)]; [by left|right].
    assert ((length (ajb_rows b), x) ∈ L) as Hin.
    { apply He; [done|]. exists (length R), (r ++ [x]). rewrite HR, length_app. simpl.
      split_and!; [lia|by rewrite lookup_app_r, Nat.sub_diag|apply elem_of_app; right; by left]. }
    apply Hlt in Hin. unfold pair_lt in Hin. simpl in Hin. lia. }
  destruct (decide (o = length (ajb_rows b))) as [Heq|Hne].
  - destruct Hl as [Hnil|(R & r & x & HR & Hx)]; [rewrite Hnil in Heq; done|].
    assert (x < sp) as Hxsp.
    { assert ((o, x) ∈ L) as Hin.
      { apply He; [done|]. exists (length R), (r ++ [x]). rewrite Heq, HR, length_app. simpl.
        split_and!; [lia|by rewrite lookup_app_r, Nat.sub_diag|apply elem_of_app; right; by left]. }
      apply Hlt in Hin. unfold pair_lt in Hin. simpl in Hin. lia. }
    destruct (ajb_push_last b R r x sp HR Hxsp) as (b' & Hp & Hrows). exists b'.
    rewrite HR, length_app in Heq. simpl in Heq. rewrite Heq. split; [done|].
    rewrite HR, push_last_snoc in Hrows. rewrite Hrows. rewrite HR in Hr, He.
    apply Forall_app in Hr as [HrR Hr1]. rewrite Forall_singleton in Hr1.
    pose proof (push_row_end r x sp Hx Hxsp Hr1) as Hnew.
    split; [|by rewrite length_app]. split.
    + apply Forall_app; split; [done|]. apply Forall_singleton. right. split; [by destruct r|done].
    + intros o' sp' Hsp'. rewrite elem_of_app, list_elem_of_singleton, He by done. split.
      * intros [(k & r' & -> & Hk & Hin)|[= -> ->]].
        -- apply lookup_app_Some in Hk as [Hk|[Hk1 Hk2]].
           ++ exists k, r'. split_and!; [done|by apply lookup_app_l_Some|done].
           ++ apply list_lookup_singleton_Some in Hk2 as [Hk2 <-]. exists k, ((r ++ [x]) ++ [sp]).
              split_and!; [done| |apply elem_of_app; by left]. rewrite lookup_app_r by done. by rewrite Hk2.
        -- exists (length R), ((r ++ [x]) ++ [sp]). split_and!; [lia|by rewrite lookup_app_r, Nat.sub_diag|].
           apply elem_of_app. right. by left.
      * intros (k & r' & -> & Hk & Hin). apply lookup_app_Some in Hk as [Hk|[Hk1 Hk2]].
        -- left. exists k, r'. split_and!; [done|by apply lookup_app_l_Some|done].
        -- apply list_lookup_singleton_Some in Hk2 as [Hk2 <-].
           apply elem_of_app in Hin as [Hin| ->%list_elem_of_singleton]; [|right; f_equal; lia].
           left. exists k, (r ++ [x]). split_and!; [done| |done]. rewrite lookup_app_r by done. by rewrite Hk2.
    + right. by exists R, (r ++ [x]), sp.
  - set (g := o - length (ajb_rows b) - 1).
    assert (length (ajb_rows b) < o) as Hlo by (destruct Hle as [->|]; simpl; lia).
    destruct (ajb_push_new b g sp) as (b' & Hp & Hrows). exists b'.
    replace (length (ajb_rows b) + g + 1) with o in Hp by lia. split; [done|]. rewrite Hrows.
    split; [|rewrite !length_app, length_replicate; simpl; lia]. split.
    + apply Forall_app; split; [done|]. apply Forall_app; split; [apply Forall_replicate; by left|].
      apply Forall_singleton. right. split; [done|]. repeat constructor. lia.
    + intros o' sp' Hsp'. rewrite elem_of_app, list_elem_of_singleton, He by done. split.
      * intros [(k & r' & -> & Hk & Hin)|[= -> ->]].
        -- exists k, r'. split_and!; [done|by apply lookup_app_l_Some|done].
        -- exists (o - 1), [sp]. split_and!; [lia| |by left].
           rewrite lookup_app_r by lia. rewrite lookup_app_r by (rewrite length_replicate; lia).
           rewrite length_replicate. replace (o - 1 - _ - g) with 0 by lia. done.
      * intros (k & r' & -> & Hk & Hin). apply lookup_app_Some in Hk as [Hk|[Hk1 Hk2]]; [by left; exists k, r'|].
        apply lookup_app_Some in Hk2 as [Hk2|[Hk2 Hk3]].
        -- apply lookup_replicate in Hk2 as [-> _]. apply list_elem_of_singleton in Hin. done.
        -- apply list_lookup_singleton_Some in Hk3 as [Hk3 <-]. apply list_elem_of_singleton in Hin as ->.
           rewrite length_replicate in Hk2, Hk3. right. f_equal. lia.
    + right. exists (ajb_rows b ++ replicate g [0]), [], sp. by rewrite <- app_assoc.
Qed.
End pushed.

(** ** The two kinds of index *)

Section indexed.
Context `{BuildLaws}.

Definition positive_pair (p : nat * nat) : Prop := p.1 ≠ 0 ∧ p.2 ≠ 0.

Lemma sorted_snoc_lt {A} (R : relation A) l x : StronglySorted R (l ++ [x]) → ∀ y, y ∈ l → R y x.
Proof. intros (_ & _ & Hs)%StronglySorted_app_inv y Hy. apply Hs; [done|by left]. Qed.

Lemma push_all_holds pairs : ∀ b L,
  rows_hold (ajb_rows b) L → StronglySorted num_pair_lt (L ++ pairs) → Forall positive_pair pairs →
  ∃ b', push_all b pairs = Ok b' ∧ rows_hold (ajb_rows b') (L ++ pairs).
Proof.
  induction pairs as [|[o sp] pairs IH]; intros b L Hb Hs Hpos.
  { exists b. by rewrite app_nil_r. }
  apply Forall_cons in Hpos as [[Ho Hsp] Hpos]. simpl in Ho, Hsp.
  replace (L ++ (o, sp) :: pairs) with ((L ++ [(o, sp)]) ++ pairs) in * by by rewrite <- app_assoc.
  pose proof (StronglySorted_app_1_l _ _ _ Hs) as Hs1.
  destruct (push_pair_holds b L o sp Hb Ho Hsp (sorted_snoc_lt _ _ _ Hs1)) as (b1 & Hp & Hb1 & _).
  destruct (IH b1 _ Hb1 Hs Hpos) as (b' & Hp' & Hb'). exists b'. split; [|done]. simpl. by rewrite Hp.
Qed.

(** The numbers of the objects of a sparse index. *)
Record sparse_inv (b : AdjacencyListBuilder) (objects : list nat) (L L' : list (nat * nat)) : Prop := {
  sx_rows : rows_hold (ajb_rows b) L';
  sx_length : length (ajb_rows b) = length objects;
  sx_objects : StronglySorted lt (0 :: objects);
  sx_numbers o sp : (o, sp) ∈ L ↔ ∃ k, objects !! k = Some o ∧ (S k, sp) ∈ L';
  sx_used k k' sp : (k', sp) ∈ L' → k' = S k → k < length objects;
  sx_positive k sp : (k, sp) ∈ L' → k ≠ 0;
  sx_all o : o ∈ objects → ∃ sp, (o, sp) ∈ L;
}.

Lemma sorted_lookup_iff (l : list nat) i j x y :
  StronglySorted lt l → l !! i = Some x → l !! j = Some y → i < j ↔ x < y.
Proof.
  intros Hs Hi Hj. split; [intros Hij; by eapply sorted_lookup_lt|]. intros Hxy.
  destruct (Nat.lt_trichotomy i j) as [?|[->|Hji]]; [done|simplify_eq; lia|].
  pose proof (sorted_lookup_lt _ _ _ _ _ Hs Hji Hj Hi). lia.
Qed.

(** The objects so far, with one that is not smaller. *)
Lemma next_objects objects o :
  StronglySorted lt (0 :: objects) → o ≠ 0 → (∀ x, x ∈ objects → x ≤ o) →
  let objects' := if decide (default 0 (last objects) < o) then objects ++ [o] else objects in
  default 0 (last objects') = o ∧ StronglySorted lt (0 :: objects') ∧ objects' !! (length objects' - 1) = Some o ∧
  0 < length objects' ∧ (∃ tl, objects' = objects ++ tl) ∧ (∀ x, x ∈ objects' → x ∈ objects ∨ x = o).
Proof.
  intros Hobj Ho Hmax objects'. subst objects'. case_decide as Hnew.
  - rewrite last_snoc, length_app. simpl. replace (length objects + 1 - 1) with (length objects) by lia.
    rewrite lookup_app_r, Nat.sub_diag by done. split_and!; [done| |done|lia|by eexists|intros y [?| ->%list_elem_of_singleton]%elem_of_app; auto].
    rewrite app_comm_cons. destruct objects as [|x l] using rev_ind; [repeat constructor; lia|].
    rewrite last_snoc in Hnew. simpl in Hnew. rewrite app_comm_cons, <- app_assoc. apply sorted_snoc; [|done].
    by rewrite app_comm_cons in Hobj.
  - destruct objects as [|x l] using rev_ind; [simpl in Hnew; lia|]. rewrite last_snoc in Hnew |- *. simpl in *.
    assert (x = o) as ->.
    { assert (x ≤ o) by (apply Hmax, elem_of_app; right; by left). lia. }
    rewrite length_app. simpl. replace (length l + 1 - 1) with (length l) by lia.
    rewrite lookup_app_r, Nat.sub_diag by done.
    split_and!; [done|done|done|lia|exists []; by rewrite app_nil_r|intros y Hy; by left].
Qed.

Lemma push_sparse_step b objects L L' o sp :
  sparse_inv b objects L L' → o ≠ 0 → sp ≠ 0 → (∀ p, p ∈ L → num_pair_lt p (o, sp)) →
  let objects' := if decide (default 0 (last objects) < o) then objects ++ [o] else objects in
  ∃ b', ajb_push b (length objects') sp = Ok b' ∧
    sparse_inv b' objects' (L ++ [(o, sp)]) (L' ++ [(length objects', sp)]) ∧ default 0 (last objects') = o.
Proof.
  intros [Hr Hlen Hobj Hnum Huse Hpos Hall] Ho Hsp Hlt objects'.
  pose proof (StronglySorted_inv Hobj) as [Hobj' Hobjp].
  assert (∀ x, x ∈ objects → x ≤ o) as Hmax.
  { intros x [sp' Hx]%Hall. apply Hlt in Hx. unfold pair_lt in Hx. simpl in Hx. lia. }
  destruct (next_objects objects o Hobj Ho Hmax) as (Hl' & Hs' & Hlk & Hlen' & [tl Htl] & Hin').
  fold objects' in Hl', Hs', Hlk, Hlen', Htl, Hin'.
  assert (∀ k x, objects !! k = Some x → objects' !! k = Some x) as Hold.
  { intros k x Hk. rewrite Htl. by apply lookup_app_l_Some. }
  pose proof (StronglySorted_inv Hs') as [Hs'' _].
  assert (∀ p, p ∈ L' → num_pair_lt p (length objects', sp)) as Hlt'.
  { intros [k' sp'] Hp. unfold pair_lt. simpl. destruct k' as [|k]; [by apply Hpos in Hp|].
    pose proof (Huse k _ _ Hp eq_refl) as Hk. destruct (lookup_lt_is_Some_2 objects k Hk) as [x Hx].
    assert ((x, sp') ∈ L) as Hxl by (apply Hnum; eauto).
    pose proof (sorted_lookup_iff objects' k (length objects' - 1) x o Hs'' (Hold _ _ Hx) Hlk) as Hiff.
    apply Hlt in Hxl. unfold pair_lt in Hxl. simpl in Hxl. destruct Hxl as [Hxo|[-> ?]]; [apply Hiff in Hxo; lia|].
    destruct (decide (S k = length objects')); [right; split; done|left].
    assert (k < length objects') by (rewrite Htl, length_app; lia). lia. }
  destruct (push_pair_holds b L' (length objects') sp Hr) as (b' & Hp & Hr' & Hlb); [lia|done..|].
  exists b'. split; [done|]. split; [|done]. split; [done|done|done| | | |].
  - intros o' sp'. rewrite elem_of_app, list_elem_of_singleton, Hnum. setoid_rewrite elem_of_app.
    setoid_rewrite list_elem_of_singleton. split.
    + intros [(k & Hk & Hkl)|[= -> ->]]; [by eauto|]. exists (length objects' - 1). split; [done|]. right. f_equal. lia.
    + intros (k & Hk & [Hkl|[= Hkeq ->]]).
      * left. pose proof (Huse k _ _ Hkl eq_refl) as Hkl'. destruct (lookup_lt_is_Some_2 objects k Hkl') as [x Hx].
        exists k. split; [|done]. rewrite (Hold _ _ Hx) in Hk. by simplify_eq.
      * right. f_equal. replace (length objects' - 1) with k in Hlk by lia. rewrite Hlk in Hk. by simplify_eq.
  - intros k k' sp' [Hin|[= -> ->]%list_elem_of_singleton]%elem_of_app ->.
    + assert (k < length objects) by by eapply Huse. rewrite Htl, length_app. lia.
    + lia.
  - intros k sp' [Hin|[= -> ->]%list_elem_of_singleton]%elem_of_app; [by eapply Hpos|lia].
  - intros x [Hx| ->]%Hin'; [|exists sp; apply elem_of_app; right; by left].
    destruct (Hall x Hx) as [sp' ?]. exists sp'. apply elem_of_app. by left.
Qed.

Lemma push_sparse_holds pairs : ∀ b objects L L',
  sparse_inv b objects L L' → StronglySorted num_pair_lt (L ++ pairs) → Forall positive_pair pairs →
  ∃ b' objects' L'', push_sparse b objects (default 0 (last objects)) (length objects) pairs = Ok (b', objects') ∧
    sparse_inv b' objects' (L ++ pairs) L''.
Proof.
  induction pairs as [|[o sp] pairs IH]; intros b objects L L' Hb Hs Hpos.
  { exists b, objects, L'. by rewrite app_nil_r. }
  apply Forall_cons in Hpos as [[Ho Hsp] Hpos]. simpl in Ho, Hsp.
  replace (L ++ (o, sp) :: pairs) with ((L ++ [(o, sp)]) ++ pairs) in * by by rewrite <- app_assoc.
  pose proof (StronglySorted_app_1_l _ _ _ Hs) as Hs1.
  destruct (push_sparse_step b objects L L' o sp Hb Ho Hsp (sorted_snoc_lt _ _ _ Hs1)) as (b1 & Hp & Hb1 & Hlast).
  destruct (IH b1 _ _ _ Hb1 Hs Hpos) as (b' & objects' & L'' & Hp' & Hb'). exists b', objects', L''.
  split; [|done]. rewrite Hlast in Hp'. cbn [push_sparse]. case_decide as Hnew.
  - rewrite length_app in Hp, Hp'. simpl in Hp, Hp'. rewrite Hp. exact Hp'.
  - rewrite Hp. cbn [mbind outcome_bind]. rewrite <- Hp'. f_equal.
    assert (default 0 (last objects) = o) as -> by exact Hlast. done.
Qed.

Lemma sparse_inv_nil : sparse_inv ajb_new [] [] [].
Proof.
  split; rewrite ?ajb_new_spec; [apply rows_hold_nil|done|repeat constructor| |..].
  - intros o sp. split; [by intros ?%not_elem_of_nil|by intros (k & ? & _)].
  - by intros k k' sp ?%not_elem_of_nil.
  - by intros k sp ?%not_elem_of_nil.
  - by intros o ?%not_elem_of_nil.
Qed.
End indexed.

(** ** The indexes that are built *)

Section built.
Context `{BuildLaws}.
Notation nm_of objects := (subject_name (ml_list <$> objects)).

(** A pair of a layout is a gap, or has a predicate. *)
Lemma layout_pair_cases N i po : layout_wf N → concat N !! i = Some po → po = (0, [0]) ∨ (po.1 ≠ 0 ∧ pair_wf po).
Proof.
  intros Hwf Hpo%list_elem_of_lookup_2. apply list_elem_of_In, in_concat in Hpo as (r & Hr & Hpo).
  apply list_elem_of_In in Hr, Hpo. unfold layout_wf in Hwf. rewrite Forall_forall in Hwf.
  destruct (Hwf r Hr) as [->|(_ & Hs & Hall)]; [left; by apply list_elem_of_singleton in Hpo|right].
  rewrite Forall_forall in Hall. split; [|by apply Hall].
  apply StronglySorted_inv in Hs as [_ Hs]. rewrite Forall_fmap, Forall_forall in Hs.
  specialize (Hs po Hpo). simpl in Hs. lia.
Qed.

Lemma layout_pair_object N i po o : layout_wf N → concat N !! i = Some po → o ∈ po.2 → o ≠ 0 → po.1 ≠ 0.
Proof. intros Hwf Hi Ho Hne. by destruct (layout_pair_cases _ _ _ Hwf Hi) as [->|[? _]]; [apply list_elem_of_singleton in Ho|]. Qed.

Lemma spo_rows_NoDup N : layout_wf N → Forall (λ r, NoDup r) (spo_rows N).
Proof.
  intros Hwf. rewrite spo_rows_concat. apply Forall_fmap, Forall_lookup. intros i po Hpo. simpl.
  destruct (layout_pair_cases _ _ _ Hwf Hpo) as [->|[_ [_ [Hs _]%StronglySorted_inv]]]; [apply NoDup_singleton|].
  by apply (StronglySorted_NoDup lt).
Qed.

(** The pairs of objects and positions that a layout has. *)
Definition layout_pairs (N : layout) (L : list (nat * nat)) : Prop :=
  ∀ o sp, (o, sp) ∈ L ↔ sp ≠ 0 ∧ o ≠ 0 ∧ ∃ po, concat N !! (sp - 1) = Some po ∧ o ∈ po.2.

Lemma layout_stream a N :
  aj_rows a = spo_rows N → layout_wf N →
  NoDup (prod_swap <$> aj_stream_pairs a) ∧ layout_pairs N (prod_swap <$> aj_stream_pairs a) ∧
  Forall positive_pair (prod_swap <$> aj_stream_pairs a).
Proof.
  intros Ha Hwf. rewrite aj_stream_pairs_spec, Ha.
  assert (layout_pairs N (prod_swap <$> filter (λ p, p.2 ≠ 0) (pairs_of 1 (spo_rows N)))) as Hp.
  { intros o sp. rewrite list_elem_of_fmap. split.
    - intros ([sp' o'] & [= -> ->] & [Ho0 (k & r & -> & Hk & Ho)%elem_of_pairs_of]%list_elem_of_filter).
      split_and!; [done|done|].
      rewrite spo_rows_concat in Hk. apply list_lookup_fmap_Some in Hk as (po & -> & Hk).
      exists po. by replace (1 + k - 1) with k by lia.
    - intros (Hsp & Ho0 & po & Hk & Ho). exists (sp, o). split; [done|]. apply list_elem_of_filter. split; [done|].
      apply elem_of_pairs_of. exists (sp - 1), po.2.
      split_and!; [lia| |done]. rewrite spo_rows_concat, list_lookup_fmap. by rewrite Hk. }
  split_and!; [|done|].
  - apply NoDup_fmap; [intros [] [] [=]; by subst|]. by apply NoDup_filter, pairs_of_NoDup, spo_rows_NoDup.
  - apply Forall_forall. intros [o sp] (Hsp & Ho & _)%Hp. by split.
Qed.

(** The rows of an index of the layout, the objects named by [nmo]. *)
Lemma rows_index N nmo Os L L' :
  layout_wf N → layout_pairs N L → rows_hold Os L' →
  (∀ k1 k2, k1 < k2 → k2 < length Os → nmo k1 < nmo k2) → (∀ k, k < length Os → 0 < nmo k) →
  (∀ o sp, (o, sp) ∈ L ↔ ∃ k, k < length Os ∧ nmo k = o ∧ (S k, sp) ∈ L') →
  index_ok N nmo Os ∧ Forall (Forall (λ x, x ≤ sp_len N)) Os.
Proof.
  intros Hwf Hp [Hr He _] Hnm Hnmp HL.
  assert (∀ k r sp, Os !! k = Some r → sp ≠ 0 → sp ∈ r ↔ (nmo k, sp) ∈ L) as Hin.
  { intros k r sp Hk Hsp. pose proof (lookup_lt_Some _ _ _ Hk) as Hkl. rewrite HL. split.
    - intros Hspr. exists k. split_and!; [done..|]. apply He; [done|]. by exists k, r.
    - intros (k' & Hk' & Hnk & (k'' & r' & [= <-] & Hr' & Hspr)%He); [|done].
      assert (k' = k) as ->; [|by simplify_eq].
      destruct (Nat.lt_trichotomy k k') as [Hlt|[->|Hlt]]; [|done|]; apply Hnm in Hlt; lia. }
  split; [split; try done|].
  - intros k r sp Hk Hsp. rewrite (Hin k r sp Hk Hsp), (Hp _ _). split.
    + intros (_ & Ho0 & po & Hpo & Ho). exists po. split_and!; [done|by eapply layout_pair_object|done].
    + intros (po & Hpo & _ & Ho). split_and!; [done| |by exists po].
      apply lookup_lt_Some in Hk. specialize (Hnmp k Hk). lia.
  - intros i po o Hi _ Ho Ho0. assert ((o, S i) ∈ L) as (k & Hk & Hn & _)%HL.
    { apply Hp. split_and!; [done|done|]. exists po. by rewrite Nat.sub_succ, Nat.sub_0_r. }
    by exists k.
  - apply Forall_lookup. intros k r Hk. apply Forall_forall. intros sp Hsp.
    destruct (decide (sp = 0)) as [->|Hsp0]; [lia|]. apply (Hin k r sp Hk Hsp0), Hp in Hsp as (_ & _ & po & Hpo & _).
    apply lookup_lt_Some in Hpo. rewrite sp_len_concat. lia.
Qed.

Lemma build_object_index_holds limit subjects s_p sp_o N sparse :
  holds subjects s_p sp_o N →
  ∃ o_ps objects Os, build_object_index limit sp_o sparse = Ok (o_ps, objects) ∧
    indexes subjects objects o_ps s_p sp_o N Os ∧ (is_Some objects ↔ sparse = true).
Proof.
  intros Hh. pose proof Hh as [Hsp Hspo Hwf Hsub].
  destruct (layout_stream sp_o N Hspo Hwf) as (Hnd & Hpairs & Hpos). unfold build_object_index.
  pose proof (merged_pairs limit (aj_stream_pairs sp_o)) as Hm.
  destruct (gather_pairs limit (aj_stream_pairs sp_o) 0 [] []) as [temp pairs]. destruct Hm as [Hms Hmp].
  set (merged := heap_sorted_iter _) in *.
  assert (StronglySorted num_pair_lt ([] ++ merged)) as Hs by (apply sorted_strict; [by rewrite Hmp|done]).
  assert (Forall positive_pair merged) as Hmpos by by rewrite Hmp.
  assert (layout_pairs N merged) as HL by (intros o sp; rewrite Hmp; apply Hpairs).
  destruct sparse.
  - destruct (push_sparse_holds merged ajb_new [] [] [] sparse_inv_nil Hs Hmpos) as (b & objects & L' & Hb & [Hr Hlen Hobj Hnum Huse _ _]).
    simpl in Hb. rewrite Hb. cbn [mbind outcome_bind]. pose proof (StronglySorted_inv Hobj) as [Hobj' Hobjp].
    assert (∀ k, k < length (ajb_rows b) → objects !! k = Some (subject_name (Some objects) k)) as Hnm.
    { intros k Hk. rewrite Hlen in Hk. destruct (lookup_lt_is_Some_2 objects k Hk) as [x Hx]. simpl. by rewrite Hx. }
    destruct (rows_index N (subject_name (Some objects)) (ajb_rows b) merged L' Hwf HL Hr) as [Hok Hbound].
    + intros k1 k2 Hk Hk2. apply (sorted_lookup_iff objects k1 k2); [exact Hobj'|apply Hnm; lia|by apply Hnm|done].
    + intros k Hk. rewrite Forall_forall in Hobjp. apply Hobjp. eapply list_elem_of_lookup_2. by apply Hnm.
    + intros o sp. rewrite (Hnum o sp). split.
      * intros (k & Hk & Hin). pose proof (lookup_lt_Some _ _ _ Hk). exists k. rewrite Hlen. split_and!; [done| |done].
        simpl. by rewrite Hk.
      * intros (k & Hk & Hn & Hin). exists k. split; [|done]. rewrite <- Hn. by apply Hnm.
    + assert (ml_list <$> Some (ml_from_vec objects) = Some objects) as Hml by (simpl; by rewrite ml_from_vec_spec).
      eexists _, _, (ajb_rows b). split_and!; [done| |done]. split; [done| |by rewrite Hml].
      split; rewrite ?Hml, ?ajb_finalize_spec; done.
  - destruct (push_all_holds merged ajb_new []) as (b & Hb & Hr); [rewrite ajb_new_spec; apply rows_hold_nil|done|done|].
    rewrite Hb. cbn [mbind outcome_bind].
    destruct (rows_index N (subject_name None) (ajb_rows b) merged merged Hwf HL Hr) as [Hok Hbound].
    + simpl. lia.
    + simpl. lia.
    + intros o sp. split.
      * intros Hin. assert (o ≠ 0 ∧ sp ≠ 0) as [Ho Hsp0] by (rewrite Forall_forall in Hmpos; by apply (Hmpos (o, sp))).
        pose proof Hin as Hin'. apply (rh_elem _ _ Hr) in Hin' as (k & r & -> & Hk & _); [|done].
        exists k. split_and!; [by eapply lookup_lt_Some|done..].
      * by intros (k & _ & <- & Hin).
    + eexists _, _, (ajb_rows b). split_and!; [done| |by split; [intros [? ?]|]].
      split; [done| |done]. split; rewrite ?ajb_finalize_spec; done.
Qed.
End built.
