(* ===== verification/PredicateIterator.v ===== *)
(** [InternalLayerTriplePredicateIterator] of
    [src/layer/internal/predicate_iterator.rs]: the iterator over the triples of
    one layer with a given predicate, which visits the positions of the
    predicate in the wavelet tree and lets a subject iterator read each. *)

From S2P Require Import Prelude Succinct LayerTypes Nested SubjectIterator.

Section predicate_iterator.
Context `{SuccinctOps}.

Record InternalLayerTriplePredicateIterator := PredicateIter {
  pi_len : nat;
  pi_predicate_wavelet_lookup : WaveletLookup;
  pi_subject_iterator : InternalLayerTripleSubjectIterator;
  pi_predicate_pos : nat;
  pi_sp_boundary : bool;
  pi_peeked : option IdTriple;
}.

Definition pi_new (lookup : WaveletLookup) (subjects : option MonotonicLogArray)
    (s_p sp_o : AdjacencyList) : InternalLayerTriplePredicateIterator :=
  PredicateIter (wl_len lookup) lookup (si_new subjects s_p sp_o) 0 true None.

Definition pi_at (it : InternalLayerTriplePredicateIterator)
    (si : InternalLayerTripleSubjectIterator) (pos : nat) (boundary : bool)
    (peeked : option IdTriple) : InternalLayerTriplePredicateIterator :=
  PredicateIter (pi_len it) (pi_predicate_wavelet_lookup it) si pos boundary peeked.

(** [next_pos]: whether there is a next position, and the iterator there. *)
Definition next_pos (it : InternalLayerTriplePredicateIterator)
    : outcome (bool * InternalLayerTriplePredicateIterator) :=
  if decide (pi_len it ≤ pi_predicate_pos it) then Ok (false, it)
  else
    s_p_pos ← wl_entry (pi_predicate_wavelet_lookup it) (pi_predicate_pos it);
    si ← seek_s_p_pos (pi_subject_iterator it) s_p_pos;
    Ok (true, pi_at it si (pi_predicate_pos it + 1) (pi_sp_boundary it) (pi_peeked it)).

Definition sp_of (t : IdTriple) : nat * nat := (subject t, predicate t).

Definition pi_next (it : InternalLayerTriplePredicateIterator)
    : outcome (option IdTriple * InternalLayerTriplePredicateIterator) :=
  match pi_peeked it with
  | Some t =>
      Ok (Some t, pi_at it (pi_subject_iterator it) (pi_predicate_pos it) (pi_sp_boundary it) None)
  | None =>
      '(more, it) ← (if pi_sp_boundary it then next_pos it else Ok (true, it));
      if more : bool then
        '(result, si) ← si_next (pi_subject_iterator it);
        '(next, si) ← si_peek si;
        let boundary := bool_decide (next = None ∨ option_map sp_of next ≠ option_map sp_of result) in
        Ok (result, pi_at it si (pi_predicate_pos it) boundary None)
      else Ok (None, it)
  end.

Definition pi_peek (it : InternalLayerTriplePredicateIterator)
    : outcome (option IdTriple * InternalLayerTriplePredicateIterator) :=
  '(o, it) ← pi_next it;
  Ok (o, pi_at it (pi_subject_iterator it) (pi_predicate_pos it) (pi_sp_boundary it) o).

#[export] Instance predicate_iter : TripleIter InternalLayerTriplePredicateIterator :=
  { it_next := pi_next; it_peek := pi_peek }.
End predicate_iterator.

Section predicate_iterator_laws.
Context `{SuccinctLaws}.
Notation nm_of subjects := (subject_name (ml_list <$> subjects)).

(** The structures a subject iterator reads never change. *)
Definition si_same (it it' : InternalLayerTripleSubjectIterator) : Prop :=
  si_subjects it' = si_subjects it ∧ si_s_p it' = si_s_p it ∧ si_sp_o it' = si_sp_o it.

Lemma si_next_loop_same fuel it o it' : si_next_loop fuel it = Ok (o, it') → si_same it it'.
Proof.
  revert it. induction fuel as [|fuel IH]; intros it; [done|]. cbn [si_next_loop].
  case_decide; [by intros [= <- <-]|]. intros Hn. split_ok.
  case_decide; [by apply IH in Hn|]. split_ok. destruct a1.
  - case_decide; [by apply IH in Hn|]. split_ok. by injection Hn as <- <-.
  - case_decide; [by apply IH in Hn|]. split_ok. by injection Hn as <- <-.
Qed.

Lemma si_next_same it o it' : si_next it = Ok (o, it') → si_same it it'.
Proof. unfold si_next. case_match; [by intros [= <- <-]|apply si_next_loop_same]. Qed.

Lemma si_peek_same it o it' : si_peek it = Ok (o, it') → si_same it it'.
Proof.
  unfold si_peek. intros Hp. split_ok. destruct a as [o1 it1].
  apply si_next_same in Ha. by injection Hp as <- <-.
Qed.

(** Seeking the position of a pair: its triples come first, and nothing after
    them has the same subject and predicate. *)
Lemma seek_s_p_pos_spec it N i po :
  holds (si_subjects it) (si_s_p it) (si_sp_o it) N → concat N !! i = Some po →
  ∃ it' rest, seek_s_p_pos it i = Ok it' ∧ si_same it it' ∧
    si_yields it' (pos_triples (nm_of (si_subjects it)) N i ++ rest) ∧
    (∀ t, t ∈ rest → sp_of t ≠ (nm_of (si_subjects it) (row_of_pos N i - 1), po.1)).
Proof.
  intros Hh Hi. destruct (position_split _ _ _ Hi) as (N1 & r1 & r2 & N2 & HN & Hpos & Hrow).
  unfold seek_s_p_pos, pos_triples. rewrite aj_left_at_pos_spec.
  2: { rewrite (holds_s_p _ _ _ _ Hh). change (i < sp_len N). rewrite sp_len_concat.
       by eapply lookup_lt_Some. }
  rewrite (holds_s_p _ _ _ _ Hh), row_of_pos_sp_rows, Hi, Hrow. cbn [mbind outcome_bind].
  rewrite checked_sub_ok, Nat.sub_succ, Nat.sub_0_r by lia. cbn [mbind outcome_bind]. subst i.
  pose proof Hh as Hh'. rewrite HN in Hh'.
  rewrite (holds_offset_objects _ _ _ _ _ _ _ Hh'). cbn [mbind outcome_bind].
  eexists _, _. split_and!; [done|done| |].
  - pose proof (cursor_yields it N N1 r1 (po :: r2) N2 Hh HN) as Hy.
    change (row_triples ?s (po :: r2)) with (pair_triples s po ++ row_triples s r2) in Hy.
    rewrite <- app_assoc in Hy. by apply Hy.
  - pose proof (holds_wf _ _ _ _ Hh) as Hwf. pose proof (holds_subjects _ _ _ _ Hh) as Hsub.
    intros t [Ht|Ht]%elem_of_app Heq; injection Heq as Hs Hp.
    + rewrite HN in Hwf. apply Forall_app in Hwf as [_ [Hr _]%Forall_cons].
      apply elem_of_row_triples in Ht as (_ & _ & _ & os & Hin & _). destruct Hr as [Hr|(_ & Hr & _)].
      { apply (f_equal length) in Hr. rewrite length_app in Hr. simpl in Hr.
        destruct r2; [by apply not_elem_of_nil in Hin|simpl in Hr; lia]. }
      apply StronglySorted_inv in Hr as [Hr _]. rewrite fmap_app in Hr.
      apply StronglySorted_app_inv in Hr as (_ & Hr & _). apply StronglySorted_inv in Hr as [_ Hr].
      rewrite Forall_forall in Hr. apply (list_elem_of_fmap_2 fst), Hr in Hin. simpl in Hin. lia.
    + apply decode_subject_bound in Ht as (j & Hj & Hst).
      assert (length N = length N1 + S (length N2)) by (rewrite HN, length_app; done).
      pose proof (subject_name_mono _ (length N) (length N1) (S (length N1) + j) Hsub). lia.
Qed.

(** Positions an iterator visits: pairs with a predicate. *)
Definition visits (N : layout) (ps : list nat) : Prop :=
  Forall (λ i, ∃ po, concat N !! i = Some po ∧ po.1 ≠ 0) ps.

Record pi_rest (it : InternalLayerTriplePredicateIterator) (N : layout) (ps : list nat)
    (cur : list IdTriple) : Prop := {
  pr_holds : holds (si_subjects (pi_subject_iterator it)) (si_s_p (pi_subject_iterator it))
                   (si_sp_o (pi_subject_iterator it)) N;
  pr_positions : wl_positions (pi_predicate_wavelet_lookup it) = ps;
  pr_len : pi_len it = length ps;
  pr_visits : visits N ps;
  pr_current :
    if pi_sp_boundary it then cur = []
    else cur ≠ [] ∧ ∃ rest sp, si_yields (pi_subject_iterator it) (cur ++ rest) ∧
           (∀ t, t ∈ cur → sp_of t = sp) ∧ (∀ t, t ∈ rest → sp_of t ≠ sp);
}.

Definition pi_yields (it : InternalLayerTriplePredicateIterator) (l : list IdTriple) : Prop :=
  ∃ N ps cur, pi_rest it N ps cur ∧
    l = option_list (pi_peeked it) ++ cur ++
        (drop (pi_predicate_pos it) ps ≫= pos_triples (nm_of (si_subjects (pi_subject_iterator it))) N).

(** Reading one triple and looking at the one after it. *)
Lemma read_current si t cur rest sp :
  si_yields si ((t :: cur) ++ rest) →
  (∀ t', t' ∈ t :: cur → sp_of t' = sp) → (∀ t', t' ∈ rest → sp_of t' ≠ sp) →
  ∃ si1 next si2, si_next si = Ok (Some t, si1) ∧ si_peek si1 = Ok (next, si2) ∧ si_same si si2 ∧
    si_yields si2 (cur ++ rest) ∧
    bool_decide (next = None ∨ option_map sp_of next ≠ option_map sp_of (Some t)) = bool_decide (cur = []).
Proof.
  intros Hy Hcur Hrest. destruct (si_next_spec _ _ Hy) as (si1 & Hn & Hy1 & _).
  destruct (si_peek_spec _ _ Hy1) as (si2 & Hp & Hy2). simpl in *.
  exists si1, (head (cur ++ rest)), si2. split_and!; [done|done| |done|].
  - apply si_next_same in Hn as (? & ? & ?). apply si_peek_same in Hp as (? & ? & ?).
    split_and!; congruence.
  - apply bool_decide_ext. assert (sp_of t = sp) as Ht by (apply Hcur; by left).
    destruct cur as [|t' cur]; simpl.
    + split; [done|]. intros _. destruct rest as [|t' rest]; [by left|right]. simpl.
      intros [= He]. destruct (Hrest t'); [by left|]. unfold sp_of in *. congruence.
    + split; [|done]. intros [?|Hne]; [done|]. destruct Hne. f_equal.
      rewrite Ht. apply Hcur. right. by left.
Qed.

Lemma pos_triples_current nm N i po :
  concat N !! i = Some po → po.1 ≠ 0 → layout_wf N →
  ∃ t cur, pos_triples nm N i = t :: cur ∧
    ∀ t', t' ∈ t :: cur → sp_of t' = (nm (row_of_pos N i - 1), po.1).
Proof.
  intros Hi Hp Hwf. unfold pos_triples. rewrite Hi.
  assert (∀ t', t' ∈ pair_triples (nm (row_of_pos N i - 1)) po →
            sp_of t' = (nm (row_of_pos N i - 1), po.1)) as Hsp.
  { intros t' (_ & Hs & Hpr & _)%elem_of_pair_triples. unfold sp_of. by rewrite Hs, Hpr. }
  destruct (pair_triples _ po) as [|t cur] eqn:Hpt; [|by exists t, cur].
  exfalso. apply concat_lookup_row in Hi as (k & r & j & Hk & Hj & _).
  unfold layout_wf in Hwf. rewrite Forall_forall in Hwf.
  destruct (Hwf r) as [->|(_ & _ & Hall)]; [by eapply list_elem_of_lookup_2| |].
  { apply list_elem_of_lookup_2, list_elem_of_singleton in Hj. by subst. }
  rewrite Forall_forall in Hall. destruct (Hall po) as [Hos Hs]; [by eapply list_elem_of_lookup_2|].
  destruct (po.2) as [|o os] eqn:Hpo; [done|]. apply StronglySorted_inv in Hs as [_ Hs].
  apply Forall_cons in Hs as [Ho _].
  assert (new_IdTriple (nm (row_of_pos N i - 1)) po.1 o ∈
          pair_triples (nm (row_of_pos N i - 1)) po) as Hin.
  { apply elem_of_pair_triples. simpl. rewrite Hpo. split_and!; [done..|by left|lia]. }
  rewrite Hpt in Hin. by apply not_elem_of_nil in Hin.
Qed.

Lemma pi_next_spec it l :
  pi_yields it l → ∃ it', pi_next it = Ok (head l, it') ∧ pi_yields it' (tail l) ∧ pi_peeked it' = None.
Proof.
  intros (N & ps & cur & [Hh Hps Hlen Hvis Hcur] & ->). unfold pi_next.
  destruct (pi_peeked it) as [t|] eqn:Hpk.
  { eexists. split_and!; [done| |done]. exists N, ps, cur. split; [by split|done]. }
  simpl option_list. cbn [app].
  (* reading from a subject iterator on the current pair *)
  assert (∀ it0 t cur' rest sp,
    pi_predicate_wavelet_lookup it0 = pi_predicate_wavelet_lookup it → pi_len it0 = pi_len it →
    si_same (pi_subject_iterator it) (pi_subject_iterator it0) →
    si_yields (pi_subject_iterator it0) ((t :: cur') ++ rest) →
    (∀ t', t' ∈ t :: cur' → sp_of t' = sp) → (∀ t', t' ∈ rest → sp_of t' ≠ sp) →
    ∃ it', ('(result, si) ← si_next (pi_subject_iterator it0);
            '(next, si) ← si_peek si;
            let boundary := bool_decide (next = None ∨ option_map sp_of next ≠ option_map sp_of result) in
            Ok (result, pi_at it0 si (pi_predicate_pos it0) boundary None)) = Ok (Some t, it') ∧
      pi_yields it' (cur' ++ (drop (pi_predicate_pos it0) ps ≫=
                     pos_triples (nm_of (si_subjects (pi_subject_iterator it))) N)) ∧
      pi_peeked it' = None) as Hread.
  { intros it0 t cur' rest sp Hl0 Hlen0 (Hsame1 & Hsame2 & Hsame3) Hy Hc Hr.
    destruct (read_current _ _ _ _ _ Hy Hc Hr) as (si1 & next & si2 & -> & Hp & (H1 & H2 & H3) & Hy2 & Hb).
    cbn [mbind outcome_bind]. rewrite Hp. cbn [mbind outcome_bind]. rewrite Hb.
    eexists. split_and!; [done| |done]. exists N, ps, cur'. split; simpl.
    - split; simpl.
      + by rewrite H1, H2, H3, Hsame1, Hsame2, Hsame3.
      + by rewrite Hl0.
      + by rewrite Hlen0.
      + done.
      + destruct cur' as [|t1 cur']; simpl; [done|]. split; [done|]. exists rest, sp. split_and!; [done| |done].
        intros t' Ht'. apply Hc. by right.
    - by rewrite H1, Hsame1. }
  destruct (pi_sp_boundary it) eqn:Hb.
  - subst cur. cbn [app]. unfold next_pos. case_decide as Hpos.
    + cbn [mbind outcome_bind]. rewrite drop_ge by lia. eexists. split_and!; [done| |done].
      exists N, ps, []. split; [split; try done; by rewrite Hb|].
      rewrite Hpk, drop_ge by lia. done.
    + destruct (lookup_lt_is_Some_2 ps (pi_predicate_pos it)) as [i Hi]; [lia|].
      rewrite <- Hps in Hi. rewrite (wl_entry_spec _ _ _ Hi). cbn [mbind outcome_bind].
      rewrite Hps in Hi. unfold visits in Hvis. rewrite Forall_forall in Hvis.
      destruct (Hvis i) as (po & Hpo & Hp0); [by eapply list_elem_of_lookup_2|].
      destruct (seek_s_p_pos_spec _ _ _ _ Hh Hpo) as (si & rest & -> & Hsame & Hy & Hrest).
      cbn [mbind outcome_bind]. rewrite (drop_S _ _ _ Hi). simpl.
      destruct (pos_triples_current (nm_of (si_subjects (pi_subject_iterator it))) N i po Hpo Hp0)
        as (t & cur & Hcur & Hsp); [apply Hh|]. rewrite Hcur in Hy |- *.
      edestruct (Hread (pi_at it si (pi_predicate_pos it + 1) (pi_sp_boundary it) (pi_peeked it)))
        as (it' & Hn & Hy' & Hpk'); [done|done|exact Hsame|exact Hy|exact Hsp|exact Hrest|].
      simpl in Hn. exists it'. split_and!; [exact Hn| |done].
      simpl in Hy'. by rewrite Nat.add_1_r in Hy'.
  - destruct Hcur as (Hne & rest & sp & Hy & Hc & Hr). cbn [mbind outcome_bind].
    destruct cur as [|t cur]; [done|].
    by edestruct (Hread it) as (it' & Hn & Hy' & Hpk'); [done|done|by split_and!|exact Hy|exact Hc|exact Hr|];
      exists it'.
Qed.

Lemma pi_peek_spec it l :
  pi_yields it l → ∃ it', pi_peek it = Ok (head l, it') ∧ pi_yields it' l.
Proof.
  intros (it' & Hn & (N & ps & cur & [Hh Hps Hlen Hvis Hcur] & Hl) & Hp)%pi_next_spec.
  unfold pi_peek. rewrite Hn. cbn [mbind outcome_bind]. eexists. split; [done|].
  exists N, ps, cur. split; [by split|]. rewrite Hp in Hl. simpl in *. by destruct l; simplify_eq/=.
Qed.

#[export] Program Instance predicate_iter_laws : TripleIterLaws InternalLayerTriplePredicateIterator :=
  { yields := pi_yields }.
Next Obligation. intros it l (it' & ? & ? & _)%pi_next_spec. eauto. Qed.
Next Obligation. apply pi_peek_spec. Qed.

(** ** The iterator for one predicate *)

Lemma positions_from_sorted i x l : StronglySorted lt (positions_from i x l).
Proof.
  revert i. induction l as [|y l IH]; intros i; simpl; [constructor|].
  case_decide; [|apply IH]. constructor; [apply IH|]. apply Forall_forall.
  intros j (j' & -> & _)%elem_of_positions_from. lia.
Qed.

Definition with_predicate (p : nat) (T : list IdTriple) : list IdTriple :=
  filter (λ t, predicate t = p) T.

(** The positions of a predicate give its triples, in order. *)
Lemma positions_triples subjects N p :
  p ≠ 0 → layout_wf N → subjects_wf subjects N →
  positions p (concat (sp_rows N)) ≫= pos_triples (subject_name subjects) N =
  with_predicate p (decode (subject_name subjects) 0 N).
Proof.
  intros Hp Hwf Hsub. apply (triples_sorted_unique spo).
  - apply pos_triples_sorted; [done..|apply positions_from_sorted].
  - by apply StronglySorted_filter, layout_sorted.
  - intros t. unfold with_predicate. rewrite list_elem_of_filter, elem_of_decode_pos, list_elem_of_bind. split.
    + intros (i & Ht & (j & -> & Hj)%elem_of_positions_from). split; [|by exists j].
      apply elem_of_pos_triples in Ht as (po & Hpo & Ht).
      apply elem_of_pair_triples in Ht as (_ & _ & -> & _).
      simpl in Hpo. rewrite concat_sp_rows, list_lookup_fmap, Hpo in Hj. by simplify_eq/=.
    + intros [Htp (i & Ht)]. exists i. split; [done|]. apply elem_of_positions_from. exists i. split; [done|].
      apply elem_of_pos_triples in Ht as (po & Hpo & Ht).
      apply elem_of_pair_triples in Ht as (_ & _ & Hpr & _).
      rewrite concat_sp_rows, list_lookup_fmap, Hpo. simpl. congruence.
Qed.

Lemma pi_new_yields wt lookup subjects s_p sp_o N p :
  holds subjects s_p sp_o N → wt_seq wt = concat (sp_rows N) → p ≠ 0 →
  wt_lookup wt p = Some lookup →
  pi_yields (pi_new lookup subjects s_p sp_o) (with_predicate p (layer_triples subjects N)).
Proof.
  intros Hh Hwt Hp Hl. exists N, (positions p (concat (sp_rows N))), []. split.
  - split; simpl; [done| | | |done].
    + by rewrite (wt_lookup_Some _ _ _ Hl), Hwt.
    + by rewrite wl_len_spec, (wt_lookup_Some _ _ _ Hl), Hwt.
    + apply Forall_forall. intros i (j & -> & Hj)%elem_of_positions_from. simpl.
      rewrite concat_sp_rows, list_lookup_fmap in Hj. destruct (concat N !! j) as [po|]; [|done].
      exists po. split; [done|]. by simplify_eq/=.
  - simpl. unfold layer_triples. by rewrite drop_0, positions_triples by (done || apply Hh).
Qed.

Lemma no_predicate wt subjects s_p sp_o N p :
  holds subjects s_p sp_o N → wt_seq wt = concat (sp_rows N) → p ≠ 0 →
  wt_lookup wt p = None → with_predicate p (layer_triples subjects N) = [].
Proof.
  intros Hh Hwt Hp Hl. unfold layer_triples. rewrite <- positions_triples by (done || apply Hh).
  apply wt_lookup_None in Hl. rewrite Hwt in Hl. by rewrite Hl.
Qed.
End predicate_iterator_laws.
