(* ===== verification/InternalLayer.v ===== *)
(** Layers: [BaseLayer], [ChildLayer], [RollupLayer] and [InternalLayer] of
    [src/layer/internal], with the accessors and the methods of the [Layer]
    trait. A loop that walks up with [immediate_parent] is a recursion over
    [chain], the layers such a walk visits. *)

From S2P Require Import Prelude Names Succinct LayerTypes SubjectIterator LayerLookup ObjectIterator PredicateIterator StackMerge IdMap.

Section internal_layer.
Context `{SuccinctOps}.

Record BaseLayer := {
  bl_name : name;
  bl_node_dictionary : StringDict;
  bl_predicate_dictionary : StringDict;
  bl_value_dictionary : TypedDict;
  bl_node_value_idmap : IdMap;
  bl_predicate_idmap : IdMap;
  bl_subjects : option MonotonicLogArray;
  bl_objects : option MonotonicLogArray;
  bl_s_p_adjacency_list : AdjacencyList;
  bl_sp_o_adjacency_list : AdjacencyList;
  bl_o_ps_adjacency_list : AdjacencyList;
  bl_predicate_wavelet_tree : WaveletTree;
  bl_stored_size : nat;
}.

(** The fields of [ChildLayer] besides [parent]. *)
Record ChildLayer := {
  cl_name : name;
  cl_node_dictionary : StringDict;
  cl_predicate_dictionary : StringDict;
  cl_value_dictionary : TypedDict;
  cl_node_value_idmap : IdMap;
  cl_predicate_idmap : IdMap;
  cl_parent_node_value_count : nat;
  cl_parent_predicate_count : nat;
  cl_pos_subjects : MonotonicLogArray;
  cl_pos_objects : MonotonicLogArray;
  cl_pos_s_p_adjacency_list : AdjacencyList;
  cl_pos_sp_o_adjacency_list : AdjacencyList;
  cl_pos_o_ps_adjacency_list : AdjacencyList;
  cl_neg_subjects : MonotonicLogArray;
  cl_neg_objects : MonotonicLogArray;
  cl_neg_s_p_adjacency_list : AdjacencyList;
  cl_neg_sp_o_adjacency_list : AdjacencyList;
  cl_neg_o_ps_adjacency_list : AdjacencyList;
  cl_pos_predicate_wavelet_tree : WaveletTree;
  cl_neg_predicate_wavelet_tree : WaveletTree;
  cl_stored_size : nat;
}.

(** [Child parent child]; [Rollup internal original original_parent]. *)
Inductive InternalLayer :=
  | Base (base : BaseLayer)
  | Child (parent : InternalLayer) (child : ChildLayer)
  | Rollup (internal : InternalLayer) (original : name) (original_parent : option name).

Definition layer_name (l : InternalLayer) : name :=
  match l with
  | Base base => bl_name base
  | Child _ child => cl_name child
  | Rollup _ original _ => original
  end.

Definition parent_name (l : InternalLayer) : option name :=
  match l with
  | Base _ => None
  | Child parent _ => Some (layer_name parent)
  | Rollup _ _ original_parent => original_parent
  end.

Fixpoint immediate_parent (l : InternalLayer) : option InternalLayer :=
  match l with
  | Base _ => None
  | Child parent _ => Some parent
  | Rollup internal _ _ => immediate_parent internal
  end.

(** The layer and its immediate parents, the layer itself first. *)
Fixpoint chain (l : InternalLayer) : list InternalLayer :=
  match l with
  | Base _ => [l]
  | Child parent _ => l :: chain parent
  | Rollup internal _ _ => l :: tail (chain internal)
  end.

Definition layer_stack_size (l : InternalLayer) : nat := length (chain l).

(** ** Accessors *)

Fixpoint node_dictionary (l : InternalLayer) : StringDict :=
  match l with
  | Base base => bl_node_dictionary base
  | Child _ child => cl_node_dictionary child
  | Rollup internal _ _ => node_dictionary internal
  end.

Fixpoint predicate_dictionary (l : InternalLayer) : StringDict :=
  match l with
  | Base base => bl_predicate_dictionary base
  | Child _ child => cl_predicate_dictionary child
  | Rollup internal _ _ => predicate_dictionary internal
  end.

Fixpoint value_dictionary (l : InternalLayer) : TypedDict :=
  match l with
  | Base base => bl_value_dictionary base
  | Child _ child => cl_value_dictionary child
  | Rollup internal _ _ => value_dictionary internal
  end.

Fixpoint node_value_id_map (l : InternalLayer) : IdMap :=
  match l with
  | Base base => bl_node_value_idmap base
  | Child _ child => cl_node_value_idmap child
  | Rollup internal _ _ => node_value_id_map internal
  end.

Fixpoint predicate_id_map (l : InternalLayer) : IdMap :=
  match l with
  | Base base => bl_predicate_idmap base
  | Child _ child => cl_predicate_idmap child
  | Rollup internal _ _ => predicate_id_map internal
  end.

Fixpoint parent_node_value_count (l : InternalLayer) : nat :=
  match l with
  | Base _ => 0
  | Child _ child => cl_parent_node_value_count child
  | Rollup internal _ _ => parent_node_value_count internal
  end.

Fixpoint parent_predicate_count (l : InternalLayer) : nat :=
  match l with
  | Base _ => 0
  | Child _ child => cl_parent_predicate_count child
  | Rollup internal _ _ => parent_predicate_count internal
  end.

Fixpoint pos_s_p_adjacency_list (l : InternalLayer) : AdjacencyList :=
  match l with
  | Base base => bl_s_p_adjacency_list base
  | Child _ child => cl_pos_s_p_adjacency_list child
  | Rollup internal _ _ => pos_s_p_adjacency_list internal
  end.

Fixpoint pos_sp_o_adjacency_list (l : InternalLayer) : AdjacencyList :=
  match l with
  | Base base => bl_sp_o_adjacency_list base
  | Child _ child => cl_pos_sp_o_adjacency_list child
  | Rollup internal _ _ => pos_sp_o_adjacency_list internal
  end.

Fixpoint pos_o_ps_adjacency_list (l : InternalLayer) : AdjacencyList :=
  match l with
  | Base base => bl_o_ps_adjacency_list base
  | Child _ child => cl_pos_o_ps_adjacency_list child
  | Rollup internal _ _ => pos_o_ps_adjacency_list internal
  end.

Fixpoint neg_s_p_adjacency_list (l : InternalLayer) : option AdjacencyList :=
  match l with
  | Base _ => None
  | Child _ child => Some (cl_neg_s_p_adjacency_list child)
  | Rollup internal _ _ => neg_s_p_adjacency_list internal
  end.

Fixpoint neg_sp_o_adjacency_list (l : InternalLayer) : option AdjacencyList :=
  match l with
  | Base _ => None
  | Child _ child => Some (cl_neg_sp_o_adjacency_list child)
  | Rollup internal _ _ => neg_sp_o_adjacency_list internal
  end.

Fixpoint neg_o_ps_adjacency_list (l : InternalLayer) : option AdjacencyList :=
  match l with
  | Base _ => None
  | Child _ child => Some (cl_neg_o_ps_adjacency_list child)
  | Rollup internal _ _ => neg_o_ps_adjacency_list internal
  end.

Fixpoint pos_predicate_wavelet_tree (l : InternalLayer) : WaveletTree :=
  match l with
  | Base base => bl_predicate_wavelet_tree base
  | Child _ child => cl_pos_predicate_wavelet_tree child
  | Rollup internal _ _ => pos_predicate_wavelet_tree internal
  end.

Fixpoint neg_predicate_wavelet_tree (l : InternalLayer) : option WaveletTree :=
  match l with
  | Base _ => None
  | Child _ child => Some (cl_neg_predicate_wavelet_tree child)
  | Rollup internal _ _ => neg_predicate_wavelet_tree internal
  end.

Fixpoint pos_subjects (l : InternalLayer) : option MonotonicLogArray :=
  match l with
  | Base base => bl_subjects base
  | Child _ child => Some (cl_pos_subjects child)
  | Rollup internal _ _ => pos_subjects internal
  end.

Fixpoint pos_objects (l : InternalLayer) : option MonotonicLogArray :=
  match l with
  | Base base => bl_objects base
  | Child _ child => Some (cl_pos_objects child)
  | Rollup internal _ _ => pos_objects internal
  end.

Fixpoint neg_subjects (l : InternalLayer) : option MonotonicLogArray :=
  match l with
  | Base _ => None
  | Child _ child => Some (cl_neg_subjects child)
  | Rollup internal _ _ => neg_subjects internal
  end.

Fixpoint neg_objects (l : InternalLayer) : option MonotonicLogArray :=
  match l with
  | Base _ => None
  | Child _ child => Some (cl_neg_objects child)
  | Rollup internal _ _ => neg_objects internal
  end.

Fixpoint stored_size (l : InternalLayer) : nat :=
  match l with
  | Base base => bl_stored_size base
  | Child _ child => cl_stored_size child
  | Rollup internal _ _ => stored_size internal
  end.

Definition predicate_dict_get l id := sd_get (predicate_dictionary l) id.
Definition predicate_dict_len l := sd_num_entries (predicate_dictionary l).
Definition predicate_dict_id l predicate := sd_id (predicate_dictionary l) predicate.
Definition node_dict_id l subject := sd_id (node_dictionary l) subject.
Definition node_dict_get l id := sd_get (node_dictionary l) id.
Definition node_dict_len l := sd_num_entries (node_dictionary l).
Definition value_dict_id l value := td_id_entry (value_dictionary l) value.
Definition value_dict_len l := td_num_entries (value_dictionary l).
Definition value_dict_get l id := td_entry (value_dictionary l) id.

(** ** Additions and removals of a layer *)

Definition internal_triple_addition_exists (l : InternalLayer) (subject predicate object : nat)
    : outcome bool :=
  layer_triple_exists (pos_subjects l) (pos_s_p_adjacency_list l) (pos_sp_o_adjacency_list l)
    subject predicate object.

Definition internal_triple_removal_exists (l : InternalLayer) (subject predicate object : nat)
    : outcome bool :=
  match neg_s_p_adjacency_list l, neg_sp_o_adjacency_list l with
  | Some s_p, Some sp_o => layer_triple_exists (neg_subjects l) s_p sp_o subject predicate object
  | _, _ => Ok false
  end.

Definition internal_triple_additions (l : InternalLayer)
    : option InternalLayerTripleSubjectIterator :=
  Some (si_new (pos_subjects l) (pos_s_p_adjacency_list l) (pos_sp_o_adjacency_list l)).

Definition internal_triple_removals (l : InternalLayer)
    : option InternalLayerTripleSubjectIterator :=
  match neg_s_p_adjacency_list l, neg_sp_o_adjacency_list l with
  | Some s_p, Some sp_o => Some (si_new (neg_subjects l) s_p sp_o)
  | _, _ => None
  end.

Definition internal_triple_additions_p (l : InternalLayer) (predicate : nat)
    : option InternalLayerTriplePredicateIterator :=
  match wt_lookup (pos_predicate_wavelet_tree l) predicate with
  | Some lookup =>
      Some (pi_new lookup (pos_subjects l) (pos_s_p_adjacency_list l) (pos_sp_o_adjacency_list l))
  | None => None
  end.

Definition internal_triple_removals_p (l : InternalLayer) (predicate : nat)
    : option InternalLayerTriplePredicateIterator :=
  match neg_predicate_wavelet_tree l ≫= λ t, wt_lookup t predicate,
        neg_s_p_adjacency_list l, neg_sp_o_adjacency_list l with
  | Some lookup, Some s_p, Some sp_o => Some (pi_new lookup (neg_subjects l) s_p sp_o)
  | _, _, _ => None
  end.

Definition internal_triple_additions_by_object (l : InternalLayer)
    : option InternalLayerTripleObjectIterator :=
  Some (oi_new (pos_subjects l) (pos_objects l) (pos_o_ps_adjacency_list l)
               (pos_s_p_adjacency_list l) false).

Definition internal_triple_removals_by_object (l : InternalLayer)
    : option InternalLayerTripleObjectIterator :=
  match neg_o_ps_adjacency_list l, neg_s_p_adjacency_list l with
  | Some o_ps, Some s_p => Some (oi_new (neg_subjects l) (neg_objects l) o_ps s_p false)
  | _, _ => None
  end.

(** The iterators for one subject, subject and predicate, or object, consumed:
    [fuel] bounds the number of triples read. *)
Definition internal_triple_additions_s (fuel : nat) (l : InternalLayer) (subject' : nat)
    : outcome (list IdTriple) :=
  it ← opt_seek (λ i, seek_subject_ref i subject') (internal_triple_additions l);
  collect_while opt_next (λ t, bool_decide (subject t = subject')) fuel it.

Definition internal_triple_removals_s (fuel : nat) (l : InternalLayer) (subject' : nat)
    : outcome (list IdTriple) :=
  it ← opt_seek (λ i, seek_subject_ref i subject') (internal_triple_removals l);
  collect_while opt_next (λ t, bool_decide (subject t = subject')) fuel it.

Definition internal_triple_additions_sp (fuel : nat) (l : InternalLayer) (subject' predicate' : nat)
    : outcome (list IdTriple) :=
  it ← opt_seek (λ i, seek_subject_predicate_ref i subject' predicate') (internal_triple_additions l);
  collect_while opt_next
    (λ t, bool_decide (predicate t = predicate' ∧ subject t = subject')) fuel it.

Definition internal_triple_removals_sp (fuel : nat) (l : InternalLayer) (subject' predicate' : nat)
    : outcome (list IdTriple) :=
  it ← opt_seek (λ i, seek_subject_predicate_ref i subject' predicate') (internal_triple_removals l);
  collect_while opt_next
    (λ t, bool_decide (predicate t = predicate' ∧ subject t = subject')) fuel it.

Definition internal_triple_additions_o (fuel : nat) (l : InternalLayer) (object : nat)
    : outcome (list IdTriple) :=
  it ← opt_seek (λ i, seek_object_ref i object) (internal_triple_additions_by_object l);
  collect opt_next fuel (option_map (λ i, stop_at_boundary_ref i true) it).

Definition internal_triple_removals_o (fuel : nat) (l : InternalLayer) (object : nat)
    : outcome (list IdTriple) :=
  it ← opt_seek (λ i, seek_object_ref i object) (internal_triple_removals_by_object l);
  collect opt_next fuel (option_map (λ i, stop_at_boundary_ref i true) it).

Definition lookup_len (t : WaveletTree) (symbol : nat) : nat :=
  default 0 (wl_len <$> wt_lookup t symbol).

Definition internal_triple_layer_addition_count (l : InternalLayer) : outcome nat :=
  checked_sub (aj_right_count (pos_sp_o_adjacency_list l))
              (lookup_len (pos_predicate_wavelet_tree l) 0).

Definition internal_triple_layer_removal_count (l : InternalLayer) : outcome nat :=
  match neg_sp_o_adjacency_list l with
  | None => Ok 0
  | Some sp_o =>
      t ← unwrap (neg_predicate_wavelet_tree l);
      checked_sub (aj_right_count sp_o) (lookup_len t 0)
  end.

Definition immediate_layers (l : InternalLayer) : list InternalLayer := reverse (chain l).

(** The layers of the walk up to the first with the given name. *)
Fixpoint layers_before (upto : name) (ls : list InternalLayer) : option (list InternalLayer) :=
  match ls with
  | [] => None
  | l :: ls => if decide (layer_name l = upto) then Some [] else cons l <$> layers_before upto ls
  end.

Definition immediate_layers_upto (l : InternalLayer) (upto_layer_id : name)
    : outcome (list InternalLayer) :=
  if decide (layer_name l = upto_layer_id) then Panic
  else result ← unwrap (layers_before upto_layer_id (chain l)); Ok (reverse result).

Definition is_rollup (l : InternalLayer) : bool :=
  match l with Rollup _ _ _ => true | _ => false end.

(** ** Stacks of iterators *)

Definition subject_stack_from_layer (l : InternalLayer)
    : TripleStack (option InternalLayerTripleSubjectIterator) :=
  {| positives := internal_triple_additions <$> chain l;
     negatives := internal_triple_removals <$> chain l |}.

Definition object_stack_from_layer (l : InternalLayer)
    : TripleStack (option InternalLayerTripleObjectIterator) :=
  {| positives := internal_triple_additions_by_object <$> chain l;
     negatives := internal_triple_removals_by_object <$> chain l |}.

Definition predicate_stack_from_layer (l : InternalLayer) (predicate : nat)
    : TripleStack (option InternalLayerTriplePredicateIterator) :=
  {| positives := (λ l, internal_triple_additions_p l predicate) <$> chain l;
     negatives := (λ l, internal_triple_removals_p l predicate) <$> chain l |}.

(** [iter_mut()] with a seek on every iterator. *)
Fixpoint seek_all {I} (seek : I → outcome I) (its : list (option I)) : outcome (list (option I)) :=
  match its with
  | [] => Ok []
  | it :: its => it ← opt_seek seek it; its ← seek_all seek its; Ok (it :: its)
  end.

Definition seek_stack {I} (seek : I → outcome I) (st : TripleStack (option I))
    : outcome (TripleStack (option I)) :=
  p ← seek_all seek (positives st);
  n ← seek_all seek (negatives st);
  Ok {| positives := p; negatives := n |}.

(** The [next] and seek methods of the three. *)
Definition subject_stack_next (fuel : nat) :=
  merge_next (I := option InternalLayerTripleSubjectIterator) spo fuel.
Definition object_stack_next (fuel : nat) :=
  merge_next (I := option InternalLayerTripleObjectIterator) osp fuel.
Definition predicate_stack_next (fuel : nat) :=
  merge_next (I := option InternalLayerTriplePredicateIterator) spo fuel.

Definition stack_seek_subject (st : TripleStack (option InternalLayerTripleSubjectIterator))
    (subject : nat) := seek_stack (λ i, seek_subject_ref i subject) st.
Definition stack_seek_subject_predicate (st : TripleStack (option InternalLayerTripleSubjectIterator))
    (subject predicate : nat) := seek_stack (λ i, seek_subject_predicate_ref i subject predicate) st.
Definition stack_seek_object (st : TripleStack (option InternalLayerTripleObjectIterator))
    (object : nat) := seek_stack (λ i, seek_object_ref i object) st.

(** [InternalTripleStackIterator::from_layer_stack] *)
Definition change_stack_from_layer (l : InternalLayer) (parent_id : name)
    : option (TripleStack (option InternalLayerTripleSubjectIterator)) :=
  above ← layers_before parent_id (tail (chain l));
  Some {| positives := internal_triple_additions <$> l :: above;
          negatives := internal_triple_removals <$> l :: above |}.

(** ** The [Layer] trait: triples *)

Definition triples (fuel : nat) (l : InternalLayer) : outcome (list IdTriple) :=
  collect (subject_stack_next fuel) fuel (subject_stack_from_layer l).

Definition triples_s (fuel : nat) (l : InternalLayer) (subject' : nat) : outcome (list IdTriple) :=
  st ← stack_seek_subject (subject_stack_from_layer l) subject';
  collect_while (subject_stack_next fuel) (λ t, bool_decide (subject t = subject')) fuel st.

Definition triples_sp (fuel : nat) (l : InternalLayer) (subject' predicate' : nat)
    : outcome (list IdTriple) :=
  st ← stack_seek_subject_predicate (subject_stack_from_layer l) subject' predicate';
  collect_while (subject_stack_next fuel)
    (λ t, bool_decide (subject t = subject' ∧ predicate t = predicate')) fuel st.

Definition triples_p (fuel : nat) (l : InternalLayer) (predicate : nat) : outcome (list IdTriple) :=
  collect (predicate_stack_next fuel) fuel (predicate_stack_from_layer l predicate).

Definition triples_o (fuel : nat) (l : InternalLayer) (object' : nat) : outcome (list IdTriple) :=
  st ← stack_seek_object (object_stack_from_layer l) object';
  collect_while (object_stack_next fuel) (λ t, bool_decide (object t = object')) fuel st.

(** The walk of [triple_exists]: the first layer that mentions the triple. *)
Fixpoint exists_walk (ls : list InternalLayer) (subject predicate object : nat) : outcome bool :=
  match ls with
  | [] => Ok false
  | l :: ls =>
      added ← internal_triple_addition_exists l subject predicate object;
      if added : bool then Ok true
      else
        removed ← internal_triple_removal_exists l subject predicate object;
        if removed : bool then Ok false else exists_walk ls subject predicate object
  end.

Definition layer_exists (l : InternalLayer) (subject predicate object : nat) : outcome bool :=
  if decide (subject = 0 ∨ predicate = 0 ∨ object = 0) then Ok false
  else exists_walk (chain l) subject predicate object.

Fixpoint sum_counts (count : InternalLayer → outcome nat) (ls : list InternalLayer) : outcome nat :=
  match ls with
  | [] => Ok 0
  | l :: ls => n ← count l; m ← sum_counts count ls; Ok (n + m)
  end.

Definition layer_triple_addition_count (l : InternalLayer) : outcome nat :=
  sum_counts internal_triple_layer_addition_count (chain l).
Definition layer_triple_removal_count (l : InternalLayer) : outcome nat :=
  sum_counts internal_triple_layer_removal_count (chain l).

(** ** [single_triple_sp] *)

(** The numbers from a position to the end of its row. *)
Fixpoint row_nums (aj : AdjacencyList) (fuel pos : nat) : outcome (list nat) :=
  match fuel with
  | O => NoFuel
  | S fuel =>
      num ← aj_num_at_pos aj pos;
      bit ← aj_bit_at_pos aj pos;
      if bit : bool then Ok [num]
      else nums ← row_nums aj fuel (pos + 1); Ok (num :: nums)
  end.

(** The first number of the row from a position on that is not excluded. *)
Fixpoint first_not_excluded (aj : AdjacencyList) (exclude : gset nat) (fuel pos : nat)
    : outcome (option nat) :=
  match fuel with
  | O => NoFuel
  | S fuel =>
      num ← aj_num_at_pos aj pos;
      if decide (num ∉ exclude) then Ok (Some num)
      else
        bit ← aj_bit_at_pos aj pos;
        if bit : bool then Ok None else first_not_excluded aj exclude fuel (pos + 1)
  end.

(** The loop: [l] is the current layer, [ls] its parents. *)
Fixpoint single_walk (exclude : gset nat) (l : InternalLayer) (ls : list InternalLayer)
    (subject predicate : nat) : outcome (option IdTriple) :=
  match ls with
  | [] => Ok None
  | parent :: ls =>
      exclude ←
        match neg_sp_o_adjacency_list l with
        | None => Ok exclude
        | Some neg_sp_o =>
            neg_s_p ← unwrap (neg_s_p_adjacency_list l);
            pos ← sp_o_position (neg_subjects l) neg_s_p neg_sp_o subject predicate;
            match pos with
            | None => Ok exclude
            | Some pos =>
                nums ← row_nums neg_sp_o (aj_right_count neg_sp_o) pos;
                Ok (list_to_set nums ∪ exclude)
            end
        end;
      pos ← sp_o_position (pos_subjects parent) (pos_s_p_adjacency_list parent)
              (pos_sp_o_adjacency_list parent) subject predicate;
      found ←
        match pos with
        | None => Ok None
        | Some pos =>
            first_not_excluded (pos_sp_o_adjacency_list parent) exclude
              (aj_right_count (pos_sp_o_adjacency_list parent)) pos
        end;
      match found with
      | Some num => Ok (Some (new_IdTriple subject predicate num))
      | None => single_walk exclude parent ls subject predicate
      end
  end.

Definition single_triple_sp (l : InternalLayer) (subject predicate : nat)
    : outcome (option IdTriple) :=
  pos ← sp_o_position (pos_subjects l) (pos_s_p_adjacency_list l) (pos_sp_o_adjacency_list l)
          subject predicate;
  match pos with
  | Some pos =>
      num ← aj_num_at_pos (pos_sp_o_adjacency_list l) pos;
      Ok (Some (new_IdTriple subject predicate num))
  | None => single_walk ∅ l (tail (chain l)) subject predicate
  end.
End internal_layer.
