(* ===== verification/LayerCache.v ===== *)
(** The cache of loaded layers ([src/storage/cache.rs]): [LayerCache],
    [NoCache] and [LockingHashMapLayerCache], a map from layer names to weak
    references. *)

From S2P Require Import Prelude Names Succinct InternalLayer.

(** ** The [LayerCache] trait, over the state [C] of the cache *)
Class LayerCache `{SuccinctOps} (C : Type) := {
  get_layer_from_cache : name → io C (option InternalLayer);
  cache_layer : InternalLayer → io C unit;
  invalidate : name → io C unit;
}.

(** What code that loads layers may rely on: a cache gives back layers it was
    given, under their names. [lc_inv P c]: all layers in it satisfy [P]. *)
Class LayerCacheLaws (C : Type) `{LayerCache C} := {
  lc_inv : (InternalLayer → Prop) → C → Prop;
  get_layer_from_cache_spec P c n : lc_inv P c →
    ∃ o c', get_layer_from_cache n c = (Ok o, c') ∧ lc_inv P c' ∧
      ∀ l, o = Some l → P l ∧ layer_name l = n;
  cache_layer_spec P c l : lc_inv P c → P l → ∃ c', cache_layer l c = (Ok tt, c') ∧ lc_inv P c';
  invalidate_spec P c n : lc_inv P c →
    ∃ c', invalidate n c = (Ok tt, c') ∧ lc_inv (λ l, P l ∧ layer_name l ≠ n) c';
  lc_inv_mono (P Q : InternalLayer → Prop) c : (∀ l, P l → Q l) → lc_inv P c → lc_inv Q c;
}.

Section caches.
Context `{SuccinctOps}.

(** ** [NoCache] *)

#[export] Instance no_cache : LayerCache unit := {|
  get_layer_from_cache _ := mret None;
  cache_layer _ := mret tt;
  invalidate _ := mret tt;
|}.

#[export] Program Instance no_cache_laws : LayerCacheLaws unit := {| lc_inv _ _ := True |}.
Next Obligation. intros P c n _. by exists None, c. Qed.
Next Obligation. intros P c l _ _. by exists c. Qed.
Next Obligation. intros P c n _. by exists c. Qed.
Next Obligation. done. Qed.

(** ** [LockingHashMapLayerCache]

    [Weak::upgrade] gives the layer as long as an [Arc] of it is left; when the
    last one is dropped the entry goes dead ([release]). *)
Record Weak := { upgrade : option InternalLayer }.

Definition alive (w : Weak) : bool := bool_decide (is_Some (upgrade w)).
Definition downgrade (l : InternalLayer) : Weak := {| upgrade := Some l |}.

Notation cache := (gmap name Weak).

Definition CACHE_CLEANUP_THRESHOLD : nat := 100.
Definition DEAD_ENTRY_PERCENTAGE_THRESHOLD : nat := 20.

(** [HashMap::values] *)
Definition values (c : cache) : list Weak := (map_to_list c).*2.
(** [retain] of the entries that are alive *)
Definition retain_alive (c : cache) : cache := filter (λ nw, alive nw.2 = true) c.
Definition count_alive (c : cache) : nat := length (List.filter alive (values c)).
Definition count_dead (c : cache) : nat := length (List.filter (λ w, negb (alive w)) (values c)).

Definition stats : io cache (nat * nat * nat) :=
  c ← read_state;
  let total := size c in
  let live := count_alive c in
  dead ← lift (checked_sub total live);
  mret (total, live, dead).

Definition cleanup_stale : io cache nat :=
  c ← read_state;
  let before := size c in
  let c' := retain_alive c in
  _ ← write_state c';
  lift (checked_sub before (size c')).

Definition memory_bytes : io cache (nat * nat * nat) :=
  c ← read_state;
  let live := sum_list ((λ w, match upgrade w with Some l => stored_size l | None => 0 end) <$> values c) in
  let dead := 0 in
  mret (live + dead, live, dead).

Definition locking_get_layer_from_cache (n : name) : io cache (option InternalLayer) :=
  c ← read_state;
  match c !! n with
  | None => mret None
  | Some weak =>
      match upgrade weak with
      | None => _ ← write_state (delete n c); mret None
      | Some result => mret (Some result)
      end
  end.

Definition locking_cache_layer (l : InternalLayer) : io cache unit :=
  c ← read_state;
  let cache_size := size c in
  let c :=
    if decide (CACHE_CLEANUP_THRESHOLD ≤ cache_size) then
      let dead_count := count_dead c in
      let dead_percentage := dead_count * 100 / max cache_size 1 in
      if decide (DEAD_ENTRY_PERCENTAGE_THRESHOLD ≤ dead_percentage) then retain_alive c else c
    else c in
  write_state (<[layer_name l := downgrade l]> c).

Definition locking_invalidate (n : name) : io cache unit :=
  c ← read_state; write_state (delete n c).

#[export] Instance locking_cache : LayerCache cache := {|
  get_layer_from_cache := locking_get_layer_from_cache;
  cache_layer := locking_cache_layer;
  invalidate := locking_invalidate;
|}.

(** The last [Arc] of a layer is dropped. *)
Definition release (n : name) (c : cache) : cache := alter (λ _, {| upgrade := None |}) n c.

(** ** The layers a user of the cache can see *)
Definition visible (c : cache) : gmap name InternalLayer := omap upgrade c.

Lemma visible_lookup c n : visible c !! n = (w ← c !! n; upgrade w).
Proof. apply lookup_omap. Qed.

Lemma retain_alive_lookup c n :
  retain_alive c !! n = (w ← c !! n; if alive w then Some w else None).
Proof.
  unfold retain_alive. rewrite map_lookup_filter. destruct (c !! n) as [w|]; [|done]. simpl.
  destruct (alive w) eqn:Hw.
  - by rewrite option_guard_True.
  - by rewrite option_guard_False.
Qed.

Lemma visible_retain c : visible (retain_alive c) = visible c.
Proof.
  apply map_eq. intros n. rewrite !visible_lookup, retain_alive_lookup.
  destruct (c !! n) as [[[l|]]|]; done.
Qed.

Lemma visible_delete n c : visible (delete n c) = delete n (visible c).
Proof. apply map_eq. intros n'. unfold visible. by rewrite omap_delete. Qed.

Lemma visible_insert l c : visible (<[layer_name l := downgrade l]> c) = <[layer_name l := l]> (visible c).
Proof. unfold visible. by erewrite <- omap_insert_Some. Qed.

Lemma visible_release n c : visible (release n c) = delete n (visible c).
Proof.
  apply map_eq. intros n'. rewrite visible_lookup. unfold release. destruct (decide (n = n')) as [<-|Hn].
  - rewrite lookup_alter_eq, lookup_delete_eq. by destruct (c !! n).
  - by rewrite lookup_alter_ne, lookup_delete_ne, visible_lookup by done.
Qed.

(** The cache is a map of the layers that are alive; dead entries, and whether
    and when they are swept, cannot be told apart. *)
Lemma locking_get c n : ∃ c', get_layer_from_cache n c = (Ok (visible c !! n), c') ∧ visible c' = visible c.
Proof.
  rewrite visible_lookup. cbn. unfold locking_get_layer_from_cache. eval_io.
  destruct (c !! n) as [[[l|]]|] eqn:Hn; simpl; [by exists c| |by exists c].
  exists (delete n c). split; [done|]. rewrite visible_delete. apply delete_id. by rewrite visible_lookup, Hn.
Qed.

Lemma locking_put c l : ∃ c', cache_layer l c = (Ok tt, c') ∧ visible c' = <[layer_name l := l]> (visible c).
Proof.
  cbn. unfold locking_cache_layer. eval_io. eexists. split; [done|]. rewrite visible_insert. f_equal.
  repeat case_decide; by rewrite ?visible_retain.
Qed.

Lemma locking_drop c n : ∃ c', invalidate n c = (Ok tt, c') ∧ visible c' = delete n (visible c).
Proof. eexists. split; [done|]. apply visible_delete. Qed.

(** ** Counting *)

#[local] Instance list_filter_perm {A} (f : A → bool) : Proper ((≡ₚ) ==> (≡ₚ)) (List.filter f).
Proof.
  intros l1 l2 Hp. induction Hp as [|x l1 l2 _ IH|x y l|l1 l2 l3 _ IH1 _ IH2]; simpl.
  - done.
  - destruct (f x); [by constructor|done].
  - destruct (f x), (f y); done || by constructor.
  - by etrans.
Qed.

Lemma alive_split (l : list Weak) :
  length (List.filter alive l) + length (List.filter (λ w, negb (alive w)) l) = length l.
Proof. induction l as [|w l IH]; simpl; [done|]. destruct (alive w); simpl; lia. Qed.

Lemma values_length c : length (values c) = size c.
Proof. unfold values. by rewrite length_fmap, length_map_to_list. Qed.

Lemma count_split c : count_alive c + count_dead c = size c.
Proof. rewrite <- values_length. apply alive_split. Qed.

Lemma values_retain c : values (retain_alive c) ≡ₚ List.filter alive (values c).
Proof.
  unfold values, retain_alive. induction c as [|n w c Hn IH] using map_ind.
  { by rewrite map_filter_empty, map_to_list_empty. }
  rewrite (map_to_list_insert c) by done. cbn [fmap list_fmap List.filter]. simpl.
  destruct (alive w) eqn:Hw.
  - rewrite map_filter_insert_True by done. rewrite map_to_list_insert; [simpl; by rewrite IH|].
    apply map_lookup_filter_None. by left.
  - rewrite map_filter_insert_False by (simpl; congruence). rewrite delete_id by done. exact IH.
Qed.

Lemma size_retain c : size (retain_alive c) = count_alive c.
Proof. rewrite <- values_length. by rewrite values_retain. Qed.

(** All entries are alive after [retain]. *)
Lemma count_dead_retain c : count_dead (retain_alive c) = 0.
Proof.
  unfold count_dead. rewrite values_retain. induction (values c) as [|w l IH]; simpl; [done|].
  destruct (alive w) eqn:Hw; simpl; [rewrite Hw|]; exact IH.
Qed.

Lemma stats_run c : stats c = (Ok (size c, count_alive c, count_dead c), c).
Proof.
  unfold stats. eval_io. pose proof (count_split c).
  rewrite checked_sub_ok by lia. do 3 f_equal. lia.
Qed.

Lemma cleanup_stale_run c : cleanup_stale c = (Ok (count_dead c), retain_alive c).
Proof.
  unfold cleanup_stale. eval_io. pose proof (count_split c). rewrite size_retain.
  rewrite checked_sub_ok by lia. do 2 f_equal. lia.
Qed.

(** The layers alive are counted by [visible]. *)
Lemma count_alive_visible c : count_alive c = size (visible c).
Proof.
  rewrite <- size_retain, <- visible_retain. unfold visible.
  assert (∀ n w, retain_alive c !! n = Some w → is_Some (upgrade w)) as Ha.
  { intros n w Hw. rewrite retain_alive_lookup in Hw. destruct (c !! n) as [[[l|]]|]; naive_solver. }
  revert Ha. generalize (retain_alive c) as d. intros d. induction d as [|n w d Hn IH] using map_ind; [done|].
  intros Ha. destruct (Ha n w) as [l Hl]; [by rewrite lookup_insert_eq|].
  rewrite (omap_insert_Some _ _ _ _ l) by done. rewrite !map_size_insert_None; [|by rewrite lookup_omap, Hn|done].
  f_equal. apply IH. intros n' w' Hw'. apply (Ha n'). rewrite lookup_insert_ne by (intros ->; congruence). done.
Qed.
End caches.

(** ** Sequences of calls *)

Inductive cache_call `{SuccinctOps} :=
  | CacheGet (n : name)
  | CachePut (l : InternalLayer)
  | CacheInvalidate (n : name)
  | CacheCleanup
  | CacheRelease (n : name).

Section calls.
Context `{SuccinctOps}.

(** The layers that the lookups of a sequence of calls return. *)
Fixpoint cache_answers (calls : list cache_call) (c : gmap name Weak) : list (outcome (option InternalLayer)) :=
  match calls with
  | [] => []
  | CacheGet n :: calls => let '(o, c') := get_layer_from_cache n c in o :: cache_answers calls c'
  | CachePut l :: calls => cache_answers calls (cache_layer l c).2
  | CacheInvalidate n :: calls => cache_answers calls (invalidate n c).2
  | CacheCleanup :: calls => cache_answers calls (cleanup_stale c).2
  | CacheRelease n :: calls => cache_answers calls (release n c)
  end.

(** The same of a plain map of layers. *)
Fixpoint map_answers (calls : list cache_call) (m : gmap name InternalLayer) : list (outcome (option InternalLayer)) :=
  match calls with
  | [] => []
  | CacheGet n :: calls => Ok (m !! n) :: map_answers calls m
  | CachePut l :: calls => map_answers calls (<[layer_name l := l]> m)
  | CacheInvalidate n :: calls => map_answers calls (delete n m)
  | CacheCleanup :: calls => map_answers calls m
  | CacheRelease n :: calls => map_answers calls (delete n m)
  end.

Lemma cache_answers_map calls c : cache_answers calls c = map_answers calls (visible c).
Proof.
  revert c. induction calls as [|[n|l|n| |n] calls IH]; intros c; cbn [cache_answers map_answers]; [done|..].
  - destruct (locking_get c n) as (c' & -> & Hv). by rewrite IH, Hv.
  - destruct (locking_put c l) as (c' & -> & Hv). cbn [snd]. by rewrite IH, Hv.
  - destruct (locking_drop c n) as (c' & -> & Hv). cbn [snd]. by rewrite IH, Hv.
  - rewrite cleanup_stale_run. cbn [snd]. by rewrite IH, visible_retain.
  - by rewrite IH, visible_release.
Qed.
End calls.

#[export] Program Instance locking_cache_laws `{SuccinctOps} : LayerCacheLaws (gmap name Weak) := {|
  lc_inv P c := ∀ n l, visible c !! n = Some l → P l ∧ layer_name l = n;
|}.
Next Obligation.
  intros ? P c n Hc. destruct (locking_get c n) as (c' & Hg & Hv). exists (visible c !! n), c'.
  split; [done|]. rewrite Hv. split; [done|]. intros l. apply Hc.
Qed.
Next Obligation.
  intros ? P c l Hc Hl. destruct (locking_put c l) as (c' & Hg & Hv). exists c'. split; [done|].
  rewrite Hv. intros n l'. rewrite lookup_insert_Some. intros [[<- <-]|[_ Hn]]; [done|by apply Hc].
Qed.
Next Obligation.
  intros ? P c n Hc. destruct (locking_drop c n) as (c' & Hg & Hv). exists c'. split; [done|].
  rewrite Hv. intros n' l' [Hne Hn']%lookup_delete_Some. destruct (Hc _ _ Hn') as [HP <-]. done.
Qed.
Next Obligation. intros ? P Q c HPQ Hc n l Hn. destruct (Hc n l Hn). split; [by apply HPQ|done]. Qed.

#[global] Notation layer_cache := (gmap name Weak).
