(* ===== verification/LayerIds.v ===== *)
(** Ids: the methods of [InternalLayer] that turn strings and values into ids
    and back ([subject_id], [predicate_id], [object_node_id], [object_value_id],
    [id_subject], [id_predicate], [id_object], [id_object_is_node]), the counts
    they are based on, and the instance of the [Layer] trait. *)

From S2P Require Import Prelude Names Succinct LayerTypes IdMap InternalLayer.

Section layer_ids.
Context `{SuccinctOps}.

Definition node_and_value_count (l : InternalLayer) : nat :=
  parent_node_value_count l + sd_num_entries (node_dictionary l) + td_num_entries (value_dictionary l).

Definition predicate_count (l : InternalLayer) : nat :=
  parent_predicate_count l + sd_num_entries (predicate_dictionary l).

(** The loop of the [*_id] methods: walk up until the entry is found; its id
    comes after those of the parent of the layer that has it. *)
Fixpoint id_walk (lookup : InternalLayer → outcome (option nat)) (count : InternalLayer → nat)
    (ls : list InternalLayer) : outcome (option nat) :=
  match ls with
  | [] => Ok None
  | l :: ls =>
      id ← lookup l;
      match id with
      | Some id => Ok (Some (id + default 0 (count <$> head ls)))
      | None => id_walk lookup count ls
      end
  end.

Definition layer_subject_id (l : InternalLayer) (subject : string) : outcome (option nat) :=
  id_walk (λ l, match into_option (node_dict_id l subject) with
                | Some i => o ← inner_to_outer (node_value_id_map l) i; Ok (Some o)
                | None => Ok None
                end) node_and_value_count (chain l).

Definition layer_predicate_id (l : InternalLayer) (predicate : string) : outcome (option nat) :=
  id_walk (λ l, match into_option (predicate_dict_id l predicate) with
                | Some i => o ← inner_to_outer (predicate_id_map l) i; Ok (Some o)
                | None => Ok None
                end) predicate_count (chain l).

Definition layer_object_node_id (l : InternalLayer) (object : string) : outcome (option nat) :=
  id_walk (λ l, match into_option (node_dict_id l object) with
                | Some i => o ← inner_to_outer (node_value_id_map l) i; Ok (Some o)
                | None => Ok None
                end) node_and_value_count (chain l).

Definition layer_object_value_id (l : InternalLayer) (object : TypedDictEntry) : outcome (option nat) :=
  id_walk (λ l, match into_option (value_dict_id l object) with
                | Some i => o ← inner_to_outer (node_value_id_map l) (i + node_dict_len l); Ok (Some o)
                | None => Ok None
                end) node_and_value_count (chain l).

(** The loop of the [id_*] methods: walk up while the id belongs to a parent;
    [parent_count] is the count of the layer looked at. *)
Fixpoint resolve_walk {A} (len : InternalLayer → nat) (get : InternalLayer → nat → outcome (option A))
    (id parent_count : nat) (ls : list InternalLayer) : outcome (option A) :=
  match ls with
  | [] => Ok None
  | l :: ls =>
      match ls with
      | [] => get l id
      | _ =>
          parent_count ← checked_sub parent_count (len l);
          if decide (parent_count < id) then get l (id - parent_count)
          else resolve_walk len get id parent_count ls
      end
  end.

Definition node_value_len (l : InternalLayer) : nat := node_dict_len l + value_dict_len l.

Definition layer_id_subject (l : InternalLayer) (id : nat) : outcome (option string) :=
  if decide (id = 0) then Ok None
  else resolve_walk node_value_len
         (λ l id, i ← outer_to_inner (node_value_id_map l) id; Ok (node_dict_get l i))
         id (node_and_value_count l) (chain l).

Definition layer_id_predicate (l : InternalLayer) (id : nat) : outcome (option string) :=
  if decide (id = 0) then Ok None
  else resolve_walk predicate_dict_len
         (λ l id, i ← outer_to_inner (predicate_id_map l) id; Ok (predicate_dict_get l i))
         id (predicate_count l) (chain l).

Definition layer_id_object (l : InternalLayer) (id : nat) : outcome (option ObjectType) :=
  if decide (id = 0) then Ok None
  else resolve_walk node_value_len
         (λ l id, i ← outer_to_inner (node_value_id_map l) id;
            if decide (node_dict_len l < i)
            then Ok (option_map Value (value_dict_get l (i - node_dict_len l)))
            else Ok (option_map Node (node_dict_get l i)))
         id (node_and_value_count l) (chain l).

Definition layer_id_object_is_node (l : InternalLayer) (id : nat) : outcome (option bool) :=
  if decide (id = 0) then Ok None
  else resolve_walk node_value_len
         (λ l id, i ← outer_to_inner (node_value_id_map l) id;
            if decide (node_dict_len l + value_dict_len l < i) then Ok None
            else if decide (node_dict_len l < i) then Ok (Some false) else Ok (Some true))
         id (node_and_value_count l) (chain l).

Fixpoint sum_lens (len : InternalLayer → nat) (ls : list InternalLayer) : nat :=
  match ls with [] => 0 | l :: ls => len l + sum_lens len ls end.

Definition all_counts (l : InternalLayer) : LayerCounts :=
  {| node_count := sum_lens node_dict_len (chain l);
     predicate_count' := sum_lens predicate_dict_len (chain l);
     value_count := sum_lens value_dict_len (chain l) |}.

#[export] Instance internal_layer_is_layer : Layer InternalLayer := {
  subject_id := layer_subject_id;
  predicate_id := layer_predicate_id;
  object_node_id := layer_object_node_id;
  object_value_id := layer_object_value_id;
  id_subject := layer_id_subject;
  id_predicate := layer_id_predicate;
  id_object := layer_id_object;
  id_object_is_node := layer_id_object_is_node;
  triple_exists := layer_exists;
  triple_addition_count := layer_triple_addition_count;
  triple_removal_count := layer_triple_removal_count;
}.
End layer_ids.

(** * Round trips

    Proved once for a numbering with its length, id map, lookup and retrieval
    per layer, then used for nodes, values and predicates. *)
Section numbering.
Context `{SuccinctLaws} {A K : Type}.
Context (len count : InternalLayer → nat) (idmap : InternalLayer → IdMap)
  (find : InternalLayer → K → option nat) (get : InternalLayer → nat → option A) (inj : K → A).

Definition walk_id (x : K) (ls : list InternalLayer) : outcome (option nat) :=
  id_walk (λ l, match find l x with
                | Some i => o ← inner_to_outer (idmap l) i; Ok (Some o)
                | None => Ok None
                end) count ls.
Definition walk_get (id parent_count : nat) (ls : list InternalLayer) : outcome (option A) :=
  resolve_walk len (λ l id, i ← outer_to_inner (idmap l) id; Ok (get l i)) id parent_count ls.

(** A layer numbers its own entries from 1, after those of its parent. *)
Definition idmap_ok (l : InternalLayer) : Prop :=
  idmap_wf (idmap l) ∧ ∀ t, id_wtree (idmap l) = Some t → length (wt_seq t) = len l.

Definition numbered (ls : list InternalLayer) : Prop :=
  Forall (λ l, idmap_ok l) ls ∧
  ∀ i l, ls !! i = Some l → count l = sum_lens len (drop i ls).

Context (Hfind : ∀ l x i, find l x = Some i → i ≠ 0 ∧ i ≤ len l ∧ get l i = Some (inj x)).

Lemma numbered_tail l ls : numbered (l :: ls) → numbered ls.
Proof.
  intros [[_ Hall]%Forall_cons Hc]. split; [done|]. intros i l' Hi. apply (Hc (S i) l' Hi).
Qed.

Lemma numbered_count l ls : numbered (l :: ls) → count l = len l + sum_lens len ls.
Proof. intros [_ Hc]. by apply (Hc 0). Qed.

Lemma numbered_head ls : numbered ls → default 0 (count <$> head ls) = sum_lens len ls.
Proof. destruct ls as [|l ls]; [done|]. intros Hn%numbered_count. done. Qed.

(** From an entry to its id and back. *)
Lemma walk_id_get ls x id :
  numbered ls → walk_id x ls = Ok (Some id) →
  id ≠ 0 ∧ id ≤ sum_lens len ls ∧ walk_get id (sum_lens len ls) ls = Ok (Some (inj x)).
Proof.
  unfold walk_id, walk_get. induction ls as [|l ls IH]; intros Hn; [done|]. cbn [id_walk].
  destruct (find l x) as [i|] eqn:Hi.
  - destruct (Hfind _ _ _ Hi) as (Hi0 & Hile & Hget).
    pose proof (proj1 Hn) as Hall. apply Forall_cons in Hall as [[Hwf' Hlen'] _].
    destruct (inner_outer_inner _ i (len l) Hwf' Hi0 Hlen') as (o & -> & Ho & Ho0 & Hole).
    cbn [mbind outcome_bind]. rewrite (numbered_head _ (numbered_tail _ _ Hn)).
    intros [= <-]. split_and!; [lia|simpl; lia|]. cbn [resolve_walk sum_lens].
    destruct ls as [|l' ls].
    + simpl. rewrite Nat.add_0_r, Ho. cbn [mbind outcome_bind]. by rewrite Hget.
    + rewrite checked_sub_ok by lia. cbn [mbind outcome_bind].
      replace (len l + _ - len l) with (sum_lens len (l' :: ls)) by lia.
      rewrite decide_True by lia. rewrite Nat.add_sub, Ho. cbn [mbind outcome_bind]. by rewrite Hget.
  - cbn [mbind outcome_bind]. intros Hw.
    destruct (IH (numbered_tail _ _ Hn) Hw) as (Hid & Hle & Hget).
    split_and!; [done|simpl; lia|]. cbn [resolve_walk sum_lens]. destruct ls as [|l' ls]; [done|].
    rewrite checked_sub_ok by lia. cbn [mbind outcome_bind].
    replace (len l + _ - len l) with (sum_lens len (l' :: ls)) by lia.
    rewrite decide_False by lia. done.
Qed.

Context (Hget : ∀ l x i, i ≠ 0 → get l i = Some (inj x) → find l x = Some i).

(** Every entry is in one layer of the stack only. *)
Definition distinct (ls : list InternalLayer) (x : K) : Prop :=
  ∀ i j l l', ls !! i = Some l → ls !! j = Some l' → is_Some (find l x) → is_Some (find l' x) → i = j.

Lemma distinct_tail l ls x : distinct (l :: ls) x → distinct ls x.
Proof. intros Hd i j l1 l2 Hi Hj H1 H2. by specialize (Hd (S i) (S j) l1 l2 Hi Hj H1 H2) as [= ->]. Qed.

Lemma walk_get_found ls x id :
  numbered ls → id ≠ 0 → id ≤ sum_lens len ls →
  walk_get id (sum_lens len ls) ls = Ok (Some (inj x)) → ∃ l, l ∈ ls ∧ is_Some (find l x).
Proof.
  unfold walk_get. induction ls as [|l ls IH]; intros Hn Hid Hle; [done|]. cbn [resolve_walk sum_lens].
  pose proof (proj1 Hn) as Hall. apply Forall_cons in Hall as [[Hwf Hlen] _].
  assert (∀ id', id' ≠ 0 → (i ← outer_to_inner (idmap l) id'; Ok (get l i)) = Ok (Some (inj x)) →
            is_Some (find l x)) as Hhere.
  { intros id' Hid'. destruct (outer_inner_outer _ id' (len l) Hwf Hid' Hlen) as (i & -> & _ & Hi & _).
    cbn [mbind outcome_bind]. intros [= Hg]. apply Hget in Hg; [|done]. by rewrite Hg. }
  destruct ls as [|l' ls].
  - intros Hg%Hhere; [|done]. exists l. split; [by left|done].
  - rewrite checked_sub_ok by lia. cbn [mbind outcome_bind].
    replace (len l + _ - len l) with (sum_lens len (l' :: ls)) by lia. case_decide as Hlt.
    + intros Hg%Hhere; [|lia]. exists l. split; [by left|done].
    + intros Hg. destruct (IH (numbered_tail _ _ Hn) Hid) as (l1 & Hl1 & Hf); [lia|done|].
      exists l1. split; [by right|done].
Qed.

(** An id that resolves is in range. *)
Lemma walk_get_bound ls x id :
  numbered ls → id ≠ 0 → walk_get id (sum_lens len ls) ls = Ok (Some (inj x)) → id ≤ sum_lens len ls.
Proof.
  unfold walk_get. induction ls as [|l ls IH]; intros Hn Hid; [done|]. cbn [resolve_walk sum_lens].
  pose proof (proj1 Hn) as Hall. apply Forall_cons in Hall as [[Hwf Hlen] _].
  assert (∀ id', id' ≠ 0 → (i ← outer_to_inner (idmap l) id'; Ok (get l i)) = Ok (Some (inj x)) →
            id' ≤ len l) as Hhere.
  { intros id' Hid'. destruct (outer_inner_outer _ id' (len l) Hwf Hid' Hlen) as (i & -> & _ & Hi & Hle).
    cbn [mbind outcome_bind]. intros [= Hg]. apply Hget in Hg; [|done].
    apply Hfind in Hg as (_ & ? & _). by apply Hle. }
  destruct ls as [|l' ls].
  - intros Hg%Hhere; [simpl; lia|done].
  - rewrite checked_sub_ok by lia. cbn [mbind outcome_bind].
    replace (len l + _ - len l) with (sum_lens len (l' :: ls)) by lia. case_decide as Hlt.
    + intros Hg%Hhere; lia.
    + intros _. lia.
Qed.

(** From an id to its entry and back. *)
Lemma walk_get_id ls x id :
  numbered ls → id ≠ 0 → id ≤ sum_lens len ls → distinct ls x →
  walk_get id (sum_lens len ls) ls = Ok (Some (inj x)) → walk_id x ls = Ok (Some id).
Proof.
  intros Hn Hid Hle Hd Hw. induction ls as [|l ls IH]; [done|].
  pose proof (proj1 Hn) as Hall. apply Forall_cons in Hall as [[Hwf Hlen] _].
  pose proof (numbered_head _ (numbered_tail _ _ Hn)) as Hh.
  assert (∀ id', id' ≠ 0 → (i ← outer_to_inner (idmap l) id'; Ok (get l i)) = Ok (Some (inj x)) →
            walk_id x (l :: ls) = Ok (Some (id' + sum_lens len ls))) as Hhere.
  { intros id' Hid'. destruct (outer_inner_outer _ id' (len l) Hwf Hid' Hlen) as (i & -> & Hio & Hi & _).
    cbn [mbind outcome_bind]. intros [= Hg]. apply Hget in Hg; [|done].
    unfold walk_id. cbn [id_walk]. rewrite Hg, Hio. cbn [mbind outcome_bind]. by rewrite Hh. }
  unfold walk_get in Hw. cbn [resolve_walk sum_lens] in Hw. destruct ls as [|l' ls].
  - apply Hhere in Hw; [|done]. by rewrite Nat.add_0_r in Hw.
  - rewrite checked_sub_ok in Hw by lia. cbn [mbind outcome_bind] in Hw.
    replace (len l + _ - len l) with (sum_lens len (l' :: ls)) in Hw by lia. case_decide as Hlt.
    + apply Hhere in Hw; [|lia]. rewrite Hw. do 2 f_equal. lia.
    + assert (id ≤ sum_lens len (l' :: ls)) as Hle' by lia.
      destruct (walk_get_found _ _ _ (numbered_tail _ _ Hn) Hid Hle' Hw) as (l1 & Hl1 & Hf1).
      apply list_elem_of_lookup in Hl1 as [j Hj]. destruct (find l x) as [i|] eqn:Hf.
      * specialize (Hd 0 (S j) l l1 eq_refl Hj). by discriminate Hd.
      * specialize (IH (numbered_tail _ _ Hn) Hle' (distinct_tail _ _ _ Hd) Hw).
        unfold walk_id in *. cbn [id_walk]. by rewrite Hf.
Qed.
End numbering.

(** * The ids of a layer *)

Section layer_id_laws.
Context `{SuccinctLaws}.

(** Every layer of the stack numbers its entries after those of its parent. *)
Record ids_wf (l : InternalLayer) : Prop := {
  ids_nodes : numbered node_value_len node_and_value_count node_value_id_map (chain l);
  ids_predicates : numbered predicate_dict_len predicate_count predicate_id_map (chain l);
}.

Definition find_node (l : InternalLayer) (s : string) : option nat := into_option (node_dict_id l s).
Definition find_predicate (l : InternalLayer) (s : string) : option nat :=
  into_option (predicate_dict_id l s).
Definition find_object (l : InternalLayer) (o : ObjectType) : option nat :=
  match o with
  | Node s => find_node l s
  | Value v => (λ i, i + node_dict_len l) <$> into_option (value_dict_id l v)
  end.
Definition get_object (l : InternalLayer) (i : nat) : option ObjectType :=
  if decide (node_dict_len l < i) then option_map Value (value_dict_get l (i - node_dict_len l))
  else option_map Node (node_dict_get l i).

Lemma sd_find d s i : into_option (sd_id d s) = Some i ↔ i ≠ 0 ∧ i ≤ sd_num_entries d ∧ sd_get d i = Some s.
Proof.
  rewrite sd_num_entries_spec. split.
  - destruct (sd_id d s) as [j| |] eqn:Hs; try done. intros [= <-].
    apply sd_id_spec in Hs as (k & -> & Hk). rewrite sd_get_spec.
    split_and!; [done|by eapply lookup_lt_Some|done].
  - intros (Hi & _ & Hg). destruct i as [|i]; [done|]. rewrite sd_get_spec in Hg.
    assert (sd_id d s = Found (S i)) as -> by (apply sd_id_spec; eauto). done.
Qed.

Lemma td_find d e i :
  into_option (td_id_entry d e) = Some i ↔ i ≠ 0 ∧ i ≤ td_num_entries d ∧ td_entry d i = Some e.
Proof.
  rewrite td_num_entries_spec. split.
  - destruct (td_id_entry d e) as [j| |] eqn:Hs; try done. intros [= <-].
    apply td_id_entry_Found in Hs as (k & -> & Hk). rewrite td_entry_spec.
    split_and!; [done|by eapply lookup_lt_Some|done].
  - intros (Hi & _ & Hg). destruct i as [|i]; [done|]. rewrite td_entry_spec in Hg.
    assert (td_id_entry d e = Found (S i)) as -> by (apply td_id_entry_Found; eauto). done.
Qed.

Lemma sd_get_bound d i s : i ≠ 0 → sd_get d i = Some s → i ≤ sd_num_entries d.
Proof.
  rewrite sd_num_entries_spec. destruct i as [|i]; [done|]. intros _. rewrite sd_get_spec.
  by intros ?%lookup_lt_Some.
Qed.

Lemma td_entry_bound d i e : i ≠ 0 → td_entry d i = Some e → i ≤ td_num_entries d.
Proof.
  rewrite td_num_entries_spec. destruct i as [|i]; [done|]. intros _. rewrite td_entry_spec.
  by intros ?%lookup_lt_Some.
Qed.

Lemma find_node_spec l s i :
  find_node l s = Some i → i ≠ 0 ∧ i ≤ node_value_len l ∧ node_dict_get l i = Some (id s).
Proof. unfold node_value_len, node_dict_len. intros (? & ? & ?)%sd_find. split_and!; [done|lia|done]. Qed.

Lemma find_predicate_spec l s i :
  find_predicate l s = Some i → i ≠ 0 ∧ i ≤ predicate_dict_len l ∧ predicate_dict_get l i = Some (id s).
Proof. by intros ?%sd_find. Qed.

Lemma find_object_spec l o i :
  find_object l o = Some i → i ≠ 0 ∧ i ≤ node_value_len l ∧ get_object l i = Some (id o).
Proof.
  unfold get_object, node_value_len, node_dict_len, value_dict_len. destruct o as [s|v]; simpl.
  - intros (? & ? & Hg)%sd_find. split_and!; [done|lia|]. rewrite decide_False by lia.
    unfold node_dict_get. by rewrite Hg.
  - intros (j & (? & ? & Hg)%td_find & ->)%fmap_Some. unfold node_dict_len. split_and!; [lia..|].
    rewrite decide_True, Nat.add_sub by lia. unfold value_dict_get. by rewrite Hg.
Qed.

Lemma get_node_find l s i : i ≠ 0 → node_dict_get l i = Some (id s) → find_node l s = Some i.
Proof. intros Hi Hg. apply sd_find. split_and!; [done|by eapply sd_get_bound|done]. Qed.

Lemma get_predicate_find l s i :
  i ≠ 0 → predicate_dict_get l i = Some (id s) → find_predicate l s = Some i.
Proof. intros Hi Hg. apply sd_find. split_and!; [done|by eapply sd_get_bound|done]. Qed.

Lemma get_object_find l o i : i ≠ 0 → get_object l i = Some (id o) → find_object l o = Some i.
Proof.
  unfold get_object. intros Hi. case_decide as Hlt.
  - destruct (value_dict_get l (i - node_dict_len l)) as [v|] eqn:Hv; [|done].
    intros [= <-]. simpl. apply fmap_Some. exists (i - node_dict_len l). split; [|lia].
    apply td_find. split_and!; [lia|eapply td_entry_bound; [lia|done]|done].
  - destruct (node_dict_get l i) as [s|] eqn:Hs; [|done]. intros [= <-]. by apply get_node_find.
Qed.

Lemma chain_head l : ∃ ls, chain l = l :: ls.
Proof. destruct l; eauto. Qed.

Lemma numbered_total len count idmap l :
  numbered len count idmap (chain l) → count l = sum_lens len (chain l).
Proof. destruct (chain_head l) as [ls Hl]. rewrite Hl. intros Hn%numbered_count. done. Qed.

(** The methods are the walks over the numbering. *)
Lemma layer_id_object_walk l id :
  ids_wf l → id ≠ 0 →
  layer_id_object l id =
    walk_get node_value_len node_value_id_map get_object id (sum_lens node_value_len (chain l)) (chain l).
Proof.
  intros [Hn _] Hid. unfold layer_id_object, walk_get. rewrite decide_False by done.
  rewrite (numbered_total _ _ _ _ Hn). generalize (sum_lens node_value_len (chain l)) at 1 2.
  induction (chain l) as [|l' ls IH]; intros n; [done|].
  cbn [resolve_walk]. destruct ls.
  - destruct (outer_to_inner (node_value_id_map l') id); try done. cbn [mbind outcome_bind].
    unfold get_object. by case_decide.
  - destruct (checked_sub n (node_value_len l')) as [n'| | |]; try done. cbn [mbind outcome_bind].
    case_decide; [|apply IH; eauto using numbered_tail].
    destruct (outer_to_inner (node_value_id_map l') (id - n')); try done. cbn [mbind outcome_bind].
    unfold get_object. by case_decide.
Qed.

Lemma layer_object_id_walk l o :
  match o with Node s => layer_object_node_id l s | Value v => layer_object_value_id l v end =
  walk_id node_and_value_count node_value_id_map find_object o (chain l).
Proof.
  unfold walk_id. destruct o as [s|v]; [done|]. unfold layer_object_value_id.
  induction (chain l) as [|l' ls IH]; [done|]. cbn [id_walk].
  rewrite IH. simpl. by destruct (into_option (value_dict_id l' v)).
Qed.

Lemma layer_subject_walk l id :
  ids_wf l → id ≠ 0 →
  layer_id_subject l id =
    walk_get node_value_len node_value_id_map node_dict_get id (sum_lens node_value_len (chain l)) (chain l).
Proof.
  intros [Hn _] Hid. unfold layer_id_subject. rewrite decide_False by done.
  by rewrite (numbered_total _ _ _ _ Hn).
Qed.

Lemma layer_predicate_walk l id :
  ids_wf l → id ≠ 0 →
  layer_id_predicate l id =
    walk_get predicate_dict_len predicate_id_map predicate_dict_get id
      (sum_lens predicate_dict_len (chain l)) (chain l).
Proof.
  intros [_ Hn] Hid. unfold layer_id_predicate. rewrite decide_False by done.
  by rewrite (numbered_total _ _ _ _ Hn).
Qed.

(** Ids found are resolved back to what was looked up. *)
Lemma subject_id_resolves l s id :
  ids_wf l → layer_subject_id l s = Ok (Some id) →
  id ≠ 0 ∧ id ≤ node_and_value_count l ∧ layer_id_subject l id = Ok (Some s).
Proof.
  intros Hwf Hs. pose proof (ids_nodes _ Hwf) as Hn.
  destruct (walk_id_get _ _ _ find_node node_dict_get Datatypes.id find_node_spec _ _ _ Hn Hs) as (Hid & Hle & Hg).
  by rewrite layer_subject_walk, (numbered_total _ _ _ _ Hn).
Qed.

Lemma predicate_id_resolves l s id :
  ids_wf l → layer_predicate_id l s = Ok (Some id) →
  id ≠ 0 ∧ id ≤ predicate_count l ∧ layer_id_predicate l id = Ok (Some s).
Proof.
  intros Hwf Hs. pose proof (ids_predicates _ Hwf) as Hn.
  destruct (walk_id_get _ _ _ find_predicate predicate_dict_get Datatypes.id find_predicate_spec _ _ _ Hn Hs)
    as (Hid & Hle & Hg).
  by rewrite layer_predicate_walk, (numbered_total _ _ _ _ Hn).
Qed.

Lemma object_id_resolves l o id :
  ids_wf l →
  match o with Node s => layer_object_node_id l s | Value v => layer_object_value_id l v end = Ok (Some id) →
  id ≠ 0 ∧ id ≤ node_and_value_count l ∧ layer_id_object l id = Ok (Some o).
Proof.
  intros Hwf. rewrite layer_object_id_walk. intros Hs. pose proof (ids_nodes _ Hwf) as Hn.
  destruct (walk_id_get _ _ _ find_object get_object Datatypes.id find_object_spec _ _ _ Hn Hs)
    as (Hid & Hle & Hg).
  by rewrite layer_id_object_walk, (numbered_total _ _ _ _ Hn).
Qed.

(** The entries of the layers of a stack are distinct. *)
Record entries_distinct (l : InternalLayer) : Prop := {
  ed_objects o : distinct find_object (chain l) o;
  ed_predicates p : distinct find_predicate (chain l) p;
}.

Lemma find_node_object l s : find_object l (Node s) = find_node l s.
Proof. done. Qed.

Lemma distinct_nodes l s : entries_distinct l → distinct find_node (chain l) s.
Proof. intros [Hd _]. exact (Hd (Node s)). Qed.

(** Ids resolved are found again. *)
Lemma id_subject_found l s id :
  ids_wf l → entries_distinct l → layer_id_subject l id = Ok (Some s) → layer_subject_id l s = Ok (Some id).
Proof.
  intros Hwf Hd Hs. pose proof (ids_nodes _ Hwf) as Hn.
  destruct (decide (id = 0)) as [->|Hid]; [unfold layer_id_subject in Hs; by rewrite decide_True in Hs|].
  rewrite layer_subject_walk in Hs by done. change (Some s) with (Some (Datatypes.id s)) in Hs.
  apply (walk_get_id _ _ _ _ _ Datatypes.id get_node_find _ _ _ Hn Hid); [|by apply distinct_nodes|done].
  exact (walk_get_bound _ _ _ _ _ _ find_node_spec get_node_find _ _ _ Hn Hid Hs).
Qed.

Lemma id_predicate_found l s id :
  ids_wf l → entries_distinct l → layer_id_predicate l id = Ok (Some s) →
  layer_predicate_id l s = Ok (Some id).
Proof.
  intros Hwf Hd Hs. pose proof (ids_predicates _ Hwf) as Hn.
  destruct (decide (id = 0)) as [->|Hid]; [unfold layer_id_predicate in Hs; by rewrite decide_True in Hs|].
  rewrite layer_predicate_walk in Hs by done. change (Some s) with (Some (Datatypes.id s)) in Hs.
  apply (walk_get_id _ _ _ _ _ Datatypes.id get_predicate_find _ _ _ Hn Hid); [|by apply Hd|done].
  exact (walk_get_bound _ _ _ _ _ _ find_predicate_spec get_predicate_find _ _ _ Hn Hid Hs).
Qed.

Lemma id_object_found l o id :
  ids_wf l → entries_distinct l → layer_id_object l id = Ok (Some o) →
  match o with Node s => layer_object_node_id l s | Value v => layer_object_value_id l v end = Ok (Some id).
Proof.
  intros Hwf Hd Hs. pose proof (ids_nodes _ Hwf) as Hn. rewrite layer_object_id_walk.
  destruct (decide (id = 0)) as [->|Hid]; [unfold layer_id_object in Hs; by rewrite decide_True in Hs|].
  rewrite layer_id_object_walk in Hs by done. change (Some o) with (Some (Datatypes.id o)) in Hs.
  apply (walk_get_id _ _ _ _ _ Datatypes.id get_object_find _ _ _ Hn Hid); [|by apply Hd|done].
  exact (walk_get_bound _ _ _ _ _ _ find_object_spec get_object_find _ _ _ Hn Hid Hs).
Qed.

(** ** Triples of names and triples of ids *)

Lemma value_triple_id_resolves l t i :
  ids_wf l → value_triple_to_id l t = Ok (Some i) → id_triple_to_string l i = Ok (Some t).
Proof.
  intros Hwf. unfold value_triple_to_id, id_triple_to_string. cbn [subject_id predicate_id object_node_id
    object_value_id id_subject id_predicate id_object internal_layer_is_layer].
  intros ([s|] & Hs & Hr)%outcome_bind_inv; [|done].
  apply outcome_bind_inv in Hr as ([p|] & Hp & Hr); [|done].
  apply outcome_bind_inv in Hr as ([o|] & Ho & [= <-]). simpl.
  apply subject_id_resolves in Hs as (_ & _ & ->); [|done].
  apply predicate_id_resolves in Hp as (_ & _ & ->); [|done].
  apply object_id_resolves in Ho as (_ & _ & ->); [|done]. by destruct t.
Qed.

Lemma id_triple_names_found l t i :
  ids_wf l → entries_distinct l → id_triple_to_string l i = Ok (Some t) → value_triple_to_id l t = Ok (Some i).
Proof.
  intros Hwf Hd. unfold value_triple_to_id, id_triple_to_string. cbn [subject_id predicate_id object_node_id
    object_value_id id_subject id_predicate id_object internal_layer_is_layer].
  intros ([s|] & Hs & Hr)%outcome_bind_inv; [|done].
  apply outcome_bind_inv in Hr as ([p|] & Hp & Hr); [|done].
  apply outcome_bind_inv in Hr as ([o|] & Ho & [= <-]). simpl.
  rewrite (id_subject_found _ _ _ Hwf Hd Hs), (id_predicate_found _ _ _ Hwf Hd Hp).
  cbn [mbind outcome_bind]. rewrite (id_object_found _ _ _ Hwf Hd Ho). by destruct i.
Qed.
End layer_id_laws.
