(* ===== verification/LayerQueries.v ===== *)
(** Queries: what the iterators and lookups of an [InternalLayer] answer, in
    terms of the triples its stack of layers adds and removes. *)

From S2P Require Import Prelude Names Succinct LayerTypes Nested SubjectIterator LayerLookup ObjectIterator PredicateIterator StackMerge ChangeMerge InternalLayer.

Section layer_queries.
Context `{SuccinctLaws}.

(** The additions (or removals) of a layer: its structures hold a layout, its
    object index and its wavelet tree agree with it, its triples are [T]. *)
Definition part_holds (subjects objects : option MonotonicLogArray)
    (s_p sp_o o_ps : AdjacencyList) (wt : WaveletTree) (T : list IdTriple) : Prop :=
  ∃ N Os, indexes subjects objects o_ps s_p sp_o N Os ∧ wt_seq wt = concat (sp_rows N) ∧
    T = layer_triples subjects N.

(** A layer adds the triples [PN.1] and removes [PN.2]. *)
Definition layer_holds (l : InternalLayer) (PN : list IdTriple * list IdTriple) : Prop :=
  part_holds (pos_subjects l) (pos_objects l) (pos_s_p_adjacency_list l)
    (pos_sp_o_adjacency_list l) (pos_o_ps_adjacency_list l) (pos_predicate_wavelet_tree l) PN.1 ∧
  match neg_s_p_adjacency_list l, neg_sp_o_adjacency_list l, neg_o_ps_adjacency_list l,
        neg_predicate_wavelet_tree l with
  | Some s_p, Some sp_o, Some o_ps, Some wt =>
      part_holds (neg_subjects l) (neg_objects l) s_p sp_o o_ps wt PN.2
  | None, None, None, None => PN.2 = []
  | _, _, _, _ => False
  end.

(** The layer stack [l] holds [st], the top layer first, and every layer adds
    only triples that do not exist below and removes only ones that do. *)
Record stack_holds (l : InternalLayer) (st : list (list IdTriple * list IdTriple)) : Prop := {
  sh_layers : Forall2 layer_holds (chain l) st;
  sh_wf : stack_wf st.*1 st.*2;
}.

Definition exists_in (st : list (list IdTriple * list IdTriple)) (t : IdTriple) : bool :=
  stack_exists st.*1 st.*2 t.

(** Size of a stack, enough fuel for the iterators over it. *)
Definition stack_size (st : list (list IdTriple * list IdTriple)) : nat := total st.*1 + total st.*2.

(** ** Additions and removals of one layer *)

Lemma part_sorted subjects objects s_p sp_o o_ps wt T :
  part_holds subjects objects s_p sp_o o_ps wt T → triples_sorted spo T.
Proof. intros (N & Os & [Hh _ _] & _ & ->). by eapply layer_triples_sorted. Qed.

Lemma part_pos subjects objects s_p sp_o o_ps wt T t :
  part_holds subjects objects s_p sp_o o_ps wt T → t ∈ T →
  subject t ≠ 0 ∧ predicate t ≠ 0 ∧ object t ≠ 0.
Proof. intros (N & Os & [Hh _ _] & _ & ->). by eapply layer_triples_pos. Qed.

Lemma layer_holds_sorted l PN :
  layer_holds l PN → triples_sorted spo PN.1 ∧ triples_sorted spo PN.2.
Proof.
  intros [Hp Hn]. split; [by eapply part_sorted|]. repeat case_match; try done.
  - by eapply part_sorted.
  - rewrite Hn. constructor.
Qed.

Lemma additions_yield l PN : layer_holds l PN → yields (internal_triple_additions l) PN.1.
Proof.
  intros [(N & Os & [Hh _ _] & _ & ->) _]. unfold internal_triple_additions. simpl.
  by apply si_new_yields.
Qed.

Lemma removals_yield l PN : layer_holds l PN → yields (internal_triple_removals l) PN.2.
Proof.
  intros [_ Hn]. unfold internal_triple_removals. repeat case_match; try done.
  destruct Hn as (N & Os & [Hh _ _] & _ & ->). by apply si_new_yields.
Qed.

Lemma additions_p_yield l PN p :
  layer_holds l PN → p ≠ 0 → yields (internal_triple_additions_p l p) (with_predicate p PN.1).
Proof.
  intros [(N & Os & [Hh _ _] & Hwt & ->) _] Hp. unfold internal_triple_additions_p.
  case_match eqn:Hl; simpl; [by eapply pi_new_yields|by eapply no_predicate].
Qed.

Lemma removals_p_yield l PN p :
  layer_holds l PN → p ≠ 0 → yields (internal_triple_removals_p l p) (with_predicate p PN.2).
Proof.
  intros [_ Hn] Hp. unfold internal_triple_removals_p.
  destruct (neg_s_p_adjacency_list l), (neg_sp_o_adjacency_list l), (neg_o_ps_adjacency_list l),
    (neg_predicate_wavelet_tree l) as [wt|]; try done; simpl; [|by rewrite Hn].
  destruct Hn as (N & Os & [Hh _ _] & Hwt & ->).
  destruct (wt_lookup wt p) eqn:Hl; simpl; [by eapply pi_new_yields|by eapply no_predicate].
Qed.

(** ** The stack *)

Lemma layers_sorted ls st :
  Forall2 layer_holds ls st → Forall (triples_sorted spo) st.*1 ∧ Forall (triples_sorted spo) st.*2.
Proof.
  intros Hall. induction Hall as [|l' PN ls st Hl Hall [IH1 IH2]]; simpl; [by split; constructor|].
  apply layer_holds_sorted in Hl as [? ?]. split; by constructor.
Qed.

Lemma stack_sorted l st :
  stack_holds l st → Forall (triples_sorted spo) st.*1 ∧ Forall (triples_sorted spo) st.*2.
Proof. intros [Hall _]. by eapply layers_sorted. Qed.

Lemma stack_merge_inv l st : stack_holds l st → merge_inv spo st.*1 st.*2 (λ _, true).
Proof.
  intros Hst. destruct (stack_sorted _ _ Hst). split; try done.
  - by rewrite !length_fmap.
  - intros t _. apply (sh_wf _ _ Hst).
Qed.

Lemma subject_stack_yields l st :
  stack_holds l st → yields_stack (subject_stack_from_layer l) st.*1 st.*2.
Proof.
  intros [Hall _]. split; simpl; rewrite Forall2_fmap;
    (eapply Forall2_impl; [exact Hall|]); [apply additions_yield|apply removals_yield].
Qed.

Lemma collect_while_true {I T} (next : I → outcome (option T * I)) fuel it :
  collect_while next (λ _, true) fuel it = collect next fuel it.
Proof.
  revert it. induction fuel as [|fuel IH]; intros it; [done|]. simpl.
  destruct (next it) as [[[t|] it']| | |]; try done. simpl. by rewrite IH.
Qed.

Lemma layer_triples_query l st fuel :
  stack_holds l st → stack_size st < fuel →
  ∃ ts, triples fuel l = Ok ts ∧ triples_sorted spo ts ∧ ∀ t, t ∈ ts ↔ exists_in st t = true.
Proof.
  intros Hst Hf. unfold stack_size in Hf.
  destruct (merge_collect spo (λ _, true) fuel fuel _ _ _ (subject_stack_yields _ _ Hst) (stack_merge_inv _ _ Hst))
    as (ts & Hc & Hs & Hts); [lia..|].
  exists ts. unfold triples. rewrite <- collect_while_true. split_and!; [done|done|].
  intros t. rewrite Hts. naive_solver.
Qed.

Lemma with_predicate_length p L : length (with_predicate p L) ≤ length L.
Proof. apply length_filter. Qed.

Lemma layer_triples_p_query l st p fuel :
  stack_holds l st → p ≠ 0 → stack_size st < fuel →
  ∃ ts, triples_p fuel l p = Ok ts ∧ triples_sorted spo ts ∧
    ∀ t, t ∈ ts ↔ predicate t = p ∧ exists_in st t = true.
Proof.
  intros Hst Hp Hf. unfold stack_size in Hf.
  assert (∀ Ls, total (with_predicate p <$> Ls) ≤ total Ls) as Htot.
  { intros Ls. unfold total. induction Ls as [|L Ls IH]; [done|]. rewrite fmap_cons. cbn [concat].
    rewrite !length_app. pose proof (with_predicate_length p L). lia. }
  assert (∀ t, mention (with_predicate p <$> st.*1) (with_predicate p <$> st.*2) t =
    if decide (predicate t = p) then mention st.*1 st.*2 t
    else (λ _, (false, false)) <$> mention st.*1 st.*2 t) as Hm.
  { intros t. unfold mention. clear.
    induction st as [|[P Nn] st IH]; [by case_decide|]. rewrite !fmap_cons. cbn [zip_with fst snd].
    rewrite IH. unfold with_predicate. case_decide; rewrite ?fmap_cons; do 2 f_equal;
      (apply bool_decide_ext || apply bool_decide_eq_false_2); rewrite list_elem_of_filter; naive_solver. }
  assert (∀ m : mentions, wfm ((λ _, (false, false)) <$> m) = true ∧
                          exm ((λ _, (false, false)) <$> m) = false) as Hff.
  { intros m. induction m as [|b m [IH1 IH2]]; [done|]. rewrite fmap_cons. cbn [wfm exm].
    by rewrite IH1, IH2. }
  destruct (stack_sorted _ _ Hst) as [Hs1 Hs2].
  destruct (merge_collect spo (λ _, true) fuel fuel (with_predicate p <$> st.*1) (with_predicate p <$> st.*2)
              (predicate_stack_from_layer l p)) as (ts & Hc & Hs & Hts).
  - split; simpl; rewrite <- list_fmap_compose, Forall2_fmap;
      (eapply Forall2_impl; [exact (sh_layers _ _ Hst)|]); intros;
      [by apply additions_p_yield|by apply removals_p_yield].
  - split; [by rewrite !length_fmap| | | |done].
    + apply Forall_fmap. eapply Forall_impl; [exact Hs1|]. intros. by apply StronglySorted_filter.
    + apply Forall_fmap. eapply Forall_impl; [exact Hs2|]. intros. by apply StronglySorted_filter.
    + intros t _. rewrite Hm. case_decide; [apply (sh_wf _ _ Hst)|apply Hff].
  - pose proof (Htot st.*1). lia.
  - pose proof (Htot st.*1). lia.
  - exists ts. unfold triples_p. rewrite <- collect_while_true. split_and!; [done|done|].
    intros t. rewrite Hts. unfold exists_in, stack_exists. rewrite Hm.
    case_decide; [naive_solver|]. rewrite (proj2 (Hff _)). naive_solver.
Qed.

(** ** Seeking in a stack *)

(** What a seek leaves of a sorted list: all triples sought, and only triples
    from there on. *)
Definition sought (k : IdTriple → key) (p ge : IdTriple → Prop) (T T' : list IdTriple) : Prop :=
  triples_sorted k T' ∧ (∀ t, p t → t ∈ T ↔ t ∈ T') ∧ (∀ t, t ∈ T' → ge t) ∧ length T' ≤ length T.

Lemma seek_all_spec {I} `{TripleIterLaws I} (seek : I → outcome I)
    (R : list IdTriple → list IdTriple → Prop) (its : list (option I)) (Ls : list (list IdTriple)) :
  Forall2 (λ (it : option I) L, ∃ it' L', opt_seek seek it = Ok it' ∧ yields it' L' ∧ R L L') its Ls →
  ∃ its' Ls', seek_all seek its = Ok its' ∧ Forall2 yields its' Ls' ∧ Forall2 R Ls Ls'.
Proof.
  induction 1 as [|it L its Ls (it' & L' & Hs & Hy & HR) _ (its' & Ls' & Hsa & Hys & HRs)]; simpl.
  - by exists [], [].
  - rewrite Hs. cbn [mbind outcome_bind]. rewrite Hsa. cbn [mbind outcome_bind].
    exists (it' :: its'), (L' :: Ls'). split_and!; [done|by constructor..].
Qed.

Lemma mention_sought k (p ge : IdTriple → Prop) Ps Ps' Ns Ns' t :
  Forall2 (sought k p ge) Ps Ps' → Forall2 (sought k p ge) Ns Ns' → p t →
  mention Ps' Ns' t = mention Ps Ns t.
Proof.
  intros HP HN Hp. unfold mention. revert Ns Ns' HN.
  induction HP as [|P P' Ps Ps' (_ & HP & _) HPs IH]; intros Ns Ns' HN; [done|].
  destruct HN as [|N N' Ns Ns' (_ & HN & _) HNs]; [done|]. cbn [zip_with].
  rewrite (IH _ _ HNs). do 2 f_equal; apply bool_decide_ext; symmetry; auto.
Qed.

Lemma total_sought k p ge Ls Ls' : Forall2 (sought k p ge) Ls Ls' → total Ls' ≤ total Ls.
Proof.
  unfold total. induction 1 as [|L L' Ls Ls' (_ & _ & _ & Hl) Hall IH]; simpl; [done|].
  rewrite !length_app. lia.
Qed.

Lemma sought_sorted k p ge Ls Ls' :
  Forall2 (sought k p ge) Ls Ls' → Forall (triples_sorted k) Ls' ∧ ∀ t, t ∈ concat Ls' → ge t.
Proof.
  induction 1 as [|L L' Ls Ls' (Hs & _ & Hg & _) Hall [IH1 IH2]]; simpl.
  - split; [constructor|]. by intros t ?%not_elem_of_nil.
  - split; [by constructor|]. intros t [?|?]%elem_of_app; auto.
Qed.

Lemma seek_collect {I} `{TripleIterLaws I} (k : IdTriple → key) `{!Inj (=) (=) k}
    (p : IdTriple → bool) (ge : IdTriple → Prop) Ps Ns Ps' Ns' st fuel :
  stack_wf Ps Ns → length Ps = length Ns →
  Forall2 (sought k (λ t, p t = true) ge) Ps Ps' → Forall2 (sought k (λ t, p t = true) ge) Ns Ns' →
  (∀ t1 t2, ge t1 → triple_lt k t1 t2 → p t2 = true → p t1 = true) →
  yields_stack (I := option I) st Ps' Ns' → total Ps + total Ns < fuel →
  ∃ ts, collect_while (merge_next k fuel) p fuel st = Ok ts ∧ triples_sorted k ts ∧
    ∀ t, t ∈ ts ↔ p t = true ∧ stack_exists Ps Ns t = true.
Proof.
  intros Hwf Hlen HP HN Hge Hy Hf.
  destruct (sought_sorted _ _ _ _ _ HP) as [HsP HgP]. destruct (sought_sorted _ _ _ _ _ HN) as [HsN HgN].
  pose proof (total_sought _ _ _ _ _ HP).
  destruct (merge_collect k p fuel fuel Ps' Ns' st Hy) as (ts & Hc & Hs & Hts); [|lia..|].
  - split; [|done|done| |].
    + by rewrite <- (Forall2_length _ _ _ HP), <- (Forall2_length _ _ _ HN).
    + intros t Hp. rewrite (mention_sought _ _ _ _ _ _ _ _ HP HN Hp). apply Hwf.
    + intros t1 t2 Ht1 Ht2. apply Hge. destruct Ht1; auto.
  - exists ts. split_and!; [done|done|]. intros t. rewrite Hts.
    split; intros [Hp He]; (split; [done|]); unfold stack_exists in *;
      by rewrite (mention_sought _ _ _ _ _ _ _ _ HP HN Hp) in *.
Qed.

Lemma sought_split k p ge T1 T2 :
  triples_sorted k (T1 ++ T2) → (∀ t, t ∈ T1 → ¬ p t) → (∀ t, t ∈ T2 → ge t) →
  sought k p ge (T1 ++ T2) T2.
Proof.
  intros Hs H1 H2. apply StronglySorted_app_inv in Hs as (_ & Hs & _). split_and!; [done| |done|].
  - intros t Hp. rewrite elem_of_app. naive_solver.
  - rewrite length_app. lia.
Qed.

Lemma stack_seek_collect {I} `{TripleIterLaws I} k `{!Inj (=) (=) k} (seek : I → outcome I)
    (add rem : InternalLayer → option I) (p : IdTriple → bool) (ge : IdTriple → Prop)
    (Ps Ns : list (list IdTriple)) l fuel :
  stack_wf Ps Ns → length Ps = length Ns →
  Forall2 (λ l' P, ∃ it' P', opt_seek seek (add l') = Ok it' ∧ yields it' P' ∧
             sought k (λ t, p t = true) ge P P') (chain l) Ps →
  Forall2 (λ l' N, ∃ it' N', opt_seek seek (rem l') = Ok it' ∧ yields it' N' ∧
             sought k (λ t, p t = true) ge N N') (chain l) Ns →
  (∀ t1 t2, ge t1 → triple_lt k t1 t2 → p t2 = true → p t1 = true) →
  total Ps + total Ns < fuel →
  ∃ ts, (s ← seek_stack seek {| positives := add <$> chain l; negatives := rem <$> chain l |};
         collect_while (merge_next k fuel) p fuel s) = Ok ts ∧ triples_sorted k ts ∧
    ∀ t, t ∈ ts ↔ p t = true ∧ stack_exists Ps Ns t = true.
Proof.
  intros Hwf Hlen HP HN Hge Hf. unfold seek_stack. cbn [positives negatives].
  destruct (seek_all_spec seek (sought k (λ t, p t = true) ge) (add <$> chain l) Ps)
    as (ps & Ps' & -> & Hyp & HsP); [by apply Forall2_fmap_l|]. cbn [mbind outcome_bind].
  destruct (seek_all_spec seek (sought k (λ t, p t = true) ge) (rem <$> chain l) Ns)
    as (ns & Ns' & -> & Hyn & HsN); [by apply Forall2_fmap_l|]. cbn [mbind outcome_bind].
  by eapply seek_collect.
Qed.

(** ** Triples of a subject, a subject and a predicate, an object *)

Lemma part_seek_subject subjects objects s_p sp_o o_ps wt T s :
  part_holds subjects objects s_p sp_o o_ps wt T →
  ∃ it' T', opt_seek (λ i, seek_subject_ref i s) (Some (si_new subjects s_p sp_o)) = Ok it' ∧
    yields it' T' ∧
    sought spo (λ t, bool_decide (subject t = s) = true) (λ t, s ≤ subject t) T T'.
Proof.
  intros (N & Os & [Hh _ _] & _ & ->).
  destruct (seek_subject_spec (si_new subjects s_p sp_o) N s Hh) as (it' & T1 & T2 & Hs & Heq & Hy & H1' & H2').
  simpl in Heq. exists (Some it'), T2. simpl. rewrite Hs. split_and!; [done|done|].
  rewrite Heq. apply sought_split; [rewrite <- Heq; by eapply layer_triples_sorted| |done].
  intros t Ht%H1' Hp%bool_decide_eq_true. lia.
Qed.

Lemma part_seek_sp subjects objects s_p sp_o o_ps wt T s p :
  part_holds subjects objects s_p sp_o o_ps wt T →
  ∃ it' T', opt_seek (λ i, seek_subject_predicate_ref i s p) (Some (si_new subjects s_p sp_o)) = Ok it' ∧
    yields it' T' ∧
    sought spo (λ t, bool_decide (subject t = s ∧ predicate t = p) = true)
      (λ t, s < subject t ∨ (subject t = s ∧ p ≤ predicate t)) T T'.
Proof.
  intros (N & Os & [Hh _ _] & _ & ->).
  destruct (seek_subject_predicate_spec (si_new subjects s_p sp_o) N s p Hh)
    as (it' & T1 & T2 & Hs & Heq & Hy & H1' & H2').
  simpl in Heq. exists (Some it'), T2. simpl. rewrite Hs. split_and!; [done|done|].
  rewrite Heq. apply sought_split; [rewrite <- Heq; by eapply layer_triples_sorted| |done].
  intros t Ht Hp%bool_decide_eq_true. specialize (H1' t Ht). lia.
Qed.

Lemma part_seek_object subjects objects s_p sp_o o_ps wt T o :
  part_holds subjects objects s_p sp_o o_ps wt T →
  ∃ it' T' T0, opt_seek (λ i, seek_object_ref i o) (Some (oi_new subjects objects o_ps s_p false)) = Ok it' ∧
    yields it' T' ∧
    sought osp (λ t, bool_decide (object t = o) = true) (λ t, o ≤ object t) T0 T' ∧
    (∀ t, t ∈ T0 ↔ t ∈ T) ∧ NoDup T0.
Proof.
  intros (N & Os & Hix & _ & ->).
  destruct (seek_object_split (oi_new subjects objects o_ps s_p false) sp_o N Os o Hix eq_refl)
    as (it' & T1 & T2 & Hs & Heq & Hy & H1' & H2').
  simpl in Heq. pose proof (object_triples_sorted _ _ _ _ _ _ _ Hix) as Hsort.
  exists (Some it'), T2, (object_triples subjects objects N Os). simpl. rewrite Hs.
  split_and!; [done|done| | |].
  - rewrite Heq in *. apply sought_split; [done| |done]. intros t Ht%H1' Hp%bool_decide_eq_true. lia.
  - intros t. by eapply object_triples_elem.
  - eapply StronglySorted_NoDup; [apply (triple_lt_irrefl osp)|exact Hsort].
Qed.

Lemma sought_nil k p ge : sought k p ge [] [].
Proof. split_and!; [constructor|done|by intros t ?%not_elem_of_nil|done]. Qed.

Lemma removals_seek {R : list IdTriple → list IdTriple → Prop} l PN seek :
  layer_holds l PN → R [] [] →
  (∀ subjects objects s_p sp_o o_ps wt T, part_holds subjects objects s_p sp_o o_ps wt T →
     ∃ it' T', opt_seek seek (Some (si_new subjects s_p sp_o)) = Ok it' ∧ yields it' T' ∧ R T T') →
  ∃ it' T', opt_seek seek (internal_triple_removals l) = Ok it' ∧ yields it' T' ∧ R PN.2 T'.
Proof.
  intros [_ Hn] Hnil Hseek. unfold internal_triple_removals. repeat case_match; try done.
  - by eapply Hseek.
  - rewrite Hn. by exists None, [].
Qed.

Lemma layer_triples_s_query l st s fuel :
  stack_holds l st → stack_size st < fuel →
  ∃ ts, triples_s fuel l s = Ok ts ∧ triples_sorted spo ts ∧
    ∀ t, t ∈ ts ↔ subject t = s ∧ exists_in st t = true.
Proof.
  intros Hst Hf. pose proof (sh_layers _ _ Hst) as Hall.
  destruct (stack_seek_collect spo (λ i, seek_subject_ref i s) internal_triple_additions
    internal_triple_removals (λ t, bool_decide (subject t = s)) (λ t, s ≤ subject t) st.*1 st.*2 l fuel)
    as (ts & Hc & Hs & Hts); [apply (sh_wf _ _ Hst)|by rewrite !length_fmap| | | |done|].
  - apply Forall2_fmap_r. eapply Forall2_impl; [exact Hall|]. intros l' PN [Hp _].
    by eapply part_seek_subject.
  - apply Forall2_fmap_r. eapply Forall2_impl; [exact Hall|]. intros l' PN Hl.
    eapply (removals_seek _ _ _ Hl); [apply sought_nil|]. intros. by eapply part_seek_subject.
  - intros t1 t2 Hge Hlt Hp%bool_decide_eq_true. apply bool_decide_eq_true.
    unfold triple_lt, key_lt, spo in Hlt. simpl in Hlt. lia.
  - exists ts. split_and!; [done|done|]. intros t. by rewrite Hts, bool_decide_eq_true.
Qed.

Lemma layer_triples_sp_query l st s p fuel :
  stack_holds l st → stack_size st < fuel →
  ∃ ts, triples_sp fuel l s p = Ok ts ∧ triples_sorted spo ts ∧
    ∀ t, t ∈ ts ↔ (subject t = s ∧ predicate t = p) ∧ exists_in st t = true.
Proof.
  intros Hst Hf. pose proof (sh_layers _ _ Hst) as Hall.
  destruct (stack_seek_collect spo (λ i, seek_subject_predicate_ref i s p) internal_triple_additions
    internal_triple_removals (λ t, bool_decide (subject t = s ∧ predicate t = p))
    (λ t, s < subject t ∨ (subject t = s ∧ p ≤ predicate t)) st.*1 st.*2 l fuel)
    as (ts & Hc & Hs & Hts); [apply (sh_wf _ _ Hst)|by rewrite !length_fmap| | | |done|].
  - apply Forall2_fmap_r. eapply Forall2_impl; [exact Hall|]. intros l' PN [Hp _].
    by eapply part_seek_sp.
  - apply Forall2_fmap_r. eapply Forall2_impl; [exact Hall|]. intros l' PN Hl.
    eapply (removals_seek _ _ _ Hl); [apply sought_nil|]. intros. by eapply part_seek_sp.
  - intros t1 t2 Hge Hlt Hp%bool_decide_eq_true. apply bool_decide_eq_true.
    unfold triple_lt, key_lt, spo in Hlt. simpl in Hlt. lia.
  - exists ts. split_and!; [done|done|]. intros t. by rewrite Hts, bool_decide_eq_true.
Qed.

(** The same triples in another order. *)
Definition reordered (T T0 : list IdTriple) : Prop := (∀ t, t ∈ T0 ↔ t ∈ T) ∧ length T0 = length T.

Lemma reordered_NoDup T T0 : NoDup T → NoDup T0 → (∀ t, t ∈ T0 ↔ t ∈ T) → reordered T T0.
Proof. intros H1' H2' Hel. split; [done|]. apply Permutation_length. by apply NoDup_Permutation. Qed.

Lemma mention_reordered Ps Ps0 Ns Ns0 t :
  Forall2 reordered Ps Ps0 → Forall2 reordered Ns Ns0 → mention Ps0 Ns0 t = mention Ps Ns t.
Proof.
  intros HP HN. unfold mention. revert Ns Ns0 HN.
  induction HP as [|P P0 Ps Ps0 [HP _] HPs IH]; intros Ns Ns0 HN; [done|].
  destruct HN as [|N N0 Ns Ns0 [HN _] HNs]; [done|]. cbn [zip_with].
  rewrite (IH _ _ HNs). do 2 f_equal; by apply bool_decide_ext.
Qed.

Lemma total_reordered Ls Ls0 : Forall2 reordered Ls Ls0 → total Ls0 = total Ls.
Proof.
  unfold total. induction 1 as [|L L0 Ls Ls0 [_ Hl] Hall IH]; simpl; [done|].
  rewrite !length_app. lia.
Qed.

Lemma Forall2_choose {X Y Z} (R : X → Z → Prop) (S : Y → Z → Prop) xs ys :
  Forall2 (λ x y, ∃ z, R x z ∧ S y z) xs ys → ∃ zs, Forall2 R xs zs ∧ Forall2 S ys zs.
Proof.
  induction 1 as [|x y xs ys (z & HR & HS) _ (zs & IH1 & IH2)]; [by exists []|].
  exists (z :: zs). split; by constructor.
Qed.

Lemma sorted_NoDup k T : triples_sorted k T → NoDup T.
Proof. apply (StronglySorted_NoDup (triple_lt k)). Qed.

Lemma additions_seek_object l PN o :
  layer_holds l PN →
  ∃ T0, (∃ it' T', opt_seek (λ i, seek_object_ref i o) (internal_triple_additions_by_object l) = Ok it' ∧
           yields it' T' ∧ sought osp (λ t, bool_decide (object t = o) = true) (λ t, o ≤ object t) T0 T') ∧
        reordered PN.1 T0.
Proof.
  intros Hl. pose proof (sorted_NoDup _ _ (proj1 (layer_holds_sorted _ _ Hl))) as Hnd.
  destruct Hl as [Hp _]. destruct (part_seek_object _ _ _ _ _ _ _ o Hp)
    as (it' & T' & T0 & Hs & Hy & Hso & Hel & Hnd0).
  exists T0. split; [|by apply reordered_NoDup]. by exists it', T'.
Qed.

Lemma removals_seek_object l PN o :
  layer_holds l PN →
  ∃ T0, (∃ it' T', opt_seek (λ i, seek_object_ref i o) (internal_triple_removals_by_object l) = Ok it' ∧
           yields it' T' ∧ sought osp (λ t, bool_decide (object t = o) = true) (λ t, o ≤ object t) T0 T') ∧
        reordered PN.2 T0.
Proof.
  intros Hl. pose proof (sorted_NoDup _ _ (proj2 (layer_holds_sorted _ _ Hl))) as Hnd.
  destruct Hl as [_ Hn]. unfold internal_triple_removals_by_object. repeat case_match; try done.
  - destruct (part_seek_object _ _ _ _ _ _ _ o Hn) as (it' & T' & T0 & Hs & Hy & Hso & Hel & Hnd0).
    exists T0. split; [|by apply reordered_NoDup]. by exists it', T'.
  - rewrite Hn. exists []. split; [|done]. exists None, []. split_and!; [done|done|apply sought_nil].
Qed.

Lemma layer_triples_o_query l st o fuel :
  stack_holds l st → stack_size st < fuel →
  ∃ ts, triples_o fuel l o = Ok ts ∧ triples_sorted osp ts ∧
    ∀ t, t ∈ ts ↔ object t = o ∧ exists_in st t = true.
Proof.
  intros Hst Hf. pose proof (sh_layers _ _ Hst) as Hall.
  destruct (Forall2_choose _ (λ PN, reordered PN.1) (chain l) st
    (Forall2_impl _ _ _ _ Hall (λ l' PN Hl, additions_seek_object l' PN o Hl))) as (Ps0 & HP & HrP).
  destruct (Forall2_choose _ (λ PN, reordered PN.2) (chain l) st
    (Forall2_impl _ _ _ _ Hall (λ l' PN Hl, removals_seek_object l' PN o Hl))) as (Ns0 & HN & HrN).
  assert (Forall2 reordered st.*1 Ps0) as HrP' by (by apply Forall2_fmap_l).
  assert (Forall2 reordered st.*2 Ns0) as HrN' by (by apply Forall2_fmap_l).
  assert (∀ t, mention Ps0 Ns0 t = mention st.*1 st.*2 t) as Hm.
  { intros t. by apply mention_reordered. }
  destruct (stack_seek_collect osp (λ i, seek_object_ref i o) internal_triple_additions_by_object
    internal_triple_removals_by_object (λ t, bool_decide (object t = o)) (λ t, o ≤ object t) Ps0 Ns0 l fuel)
    as (ts & Hc & Hs & Hts); [| |done|done| | |].
  - intros t. rewrite Hm. apply (sh_wf _ _ Hst).
  - by rewrite <- (Forall2_length _ _ _ HrP), <- (Forall2_length _ _ _ HrN).
  - intros t1 t2 Hge Hlt Hp%bool_decide_eq_true. apply bool_decide_eq_true.
    unfold triple_lt, key_lt, osp in Hlt. simpl in Hlt. lia.
  - by rewrite (total_reordered _ _ HrP'), (total_reordered _ _ HrN').
  - exists ts. split_and!; [done|done|]. intros t. rewrite Hts, bool_decide_eq_true.
    unfold exists_in, stack_exists. by rewrite Hm.
Qed.

(** ** Existence *)

Lemma addition_exists l PN t :
  layer_holds l PN →
  internal_triple_addition_exists l (subject t) (predicate t) (object t) = Ok (bool_decide (t ∈ PN.1)).
Proof.
  intros [(N & Os & [Hh _ _] & _ & ->) _]. unfold internal_triple_addition_exists.
  rewrite (layer_triple_exists_spec _ _ _ _ _ _ _ Hh). by destruct t.
Qed.

Lemma removal_exists l PN t :
  layer_holds l PN →
  internal_triple_removal_exists l (subject t) (predicate t) (object t) = Ok (bool_decide (t ∈ PN.2)).
Proof.
  intros [_ Hn]. unfold internal_triple_removal_exists. repeat case_match; try done.
  - destruct Hn as (N & Os & [Hh _ _] & _ & ->).
    rewrite (layer_triple_exists_spec _ _ _ _ _ _ _ Hh). by destruct t.
  - by rewrite Hn, bool_decide_eq_false_2 by apply not_elem_of_nil.
Qed.

Lemma exists_walk_spec ls st t :
  Forall2 layer_holds ls st →
  exists_walk ls (subject t) (predicate t) (object t) = Ok (exists_in st t).
Proof.
  unfold exists_in, stack_exists. induction 1 as [|l PN ls st Hl Hall IH]; [done|].
  cbn [exists_walk]. rewrite (addition_exists _ _ _ Hl). cbn [mbind outcome_bind].
  destruct (bool_decide (t ∈ PN.1)) eqn:HP; simpl; rewrite HP; [done|].
  rewrite (removal_exists _ _ _ Hl). cbn [mbind outcome_bind].
  destruct (bool_decide (t ∈ PN.2)); simpl; [done|apply IH].
Qed.

Lemma exists_in_pos l st t :
  Forall2 layer_holds l st → exists_in st t = true → subject t ≠ 0 ∧ predicate t ≠ 0 ∧ object t ≠ 0.
Proof.
  intros Hall He. apply stack_exists_elem, elem_of_concat_lookup in He as (i & P & Hi & Ht).
  apply list_lookup_fmap_Some in Hi as (PN & -> & Hi).
  destruct (Forall2_lookup_r _ _ _ _ _ Hall Hi) as (l' & _ & [Hp _]). by eapply part_pos.
Qed.

Lemma layer_exists_query l st t :
  stack_holds l st →
  layer_exists l (subject t) (predicate t) (object t) = Ok (exists_in st t).
Proof.
  intros Hst. unfold layer_exists. case_decide as Hz; [|apply exists_walk_spec, Hst].
  f_equal. symmetry. destruct (exists_in st t) eqn:He; [|done].
  eapply exists_in_pos in He; [lia|apply Hst].
Qed.

(** ** Counts *)

Definition zeros (l : list nat) : nat := length (positions 0 l).

Lemma positions_from_length i x l : length (positions_from i x l) = length (positions x l).
Proof.
  generalize 0 at 1. intros j. revert i j. induction l as [|y l IH]; intros i j; simpl; [done|].
  case_decide; simpl; auto.
Qed.

Lemma zeros_app l1 l2 : zeros (l1 ++ l2) = zeros l1 + zeros l2.
Proof.
  unfold zeros. induction l1 as [|x l1 IH]; simpl; [done|].
  case_decide; simpl; rewrite !(positions_from_length 1), IH; lia.
Qed.

Lemma row_count nm r :
  row_wf r → length (concat r.*2) = length (row_triples nm r) + zeros r.*1.
Proof.
  intros [->|(_ & Hs & Hall)]; [done|]. apply StronglySorted_inv in Hs as [_ Hpos].
  apply Forall_fmap in Hpos. induction r as [|[p os] r IH]; [done|].
  apply Forall_cons in Hpos as [Hp Hpos], Hall as [[Hne Hos] Hall].
  rewrite !fmap_cons. cbn [concat fst snd] in *.
  change (row_triples nm ((p, os) :: r)) with (pair_triples nm (p, os) ++ row_triples nm r).
  rewrite !length_app, IH by done. change (p :: r.*1) with ([p] ++ r.*1). rewrite zeros_app.
  unfold pair_triples, zeros at 2. cbn [positions_from fst snd]. rewrite !decide_False by (simpl in *; lia).
  simpl.
  rewrite length_fmap. apply StronglySorted_inv in Hos as [_ Hos]. rewrite Forall_forall in Hos.
  rewrite (filter_split (λ o, o ≠ 0) [] os); [lia|by intros ? ?%not_elem_of_nil|].
  intros o Ho%Hos. lia.
Qed.

Lemma layout_count nm i N :
  layout_wf N → spo_len N = length (decode nm i N) + zeros (concat (sp_rows N)).
Proof.
  unfold spo_len. intros Hwf. revert i. induction Hwf as [|r N Hr Hwf IH]; intros i; [done|].
  change (spo_rows (r :: N)) with (r.*2 ++ spo_rows N).
  change (concat (sp_rows (r :: N))) with (r.*1 ++ concat (sp_rows N)). cbn [decode].
  rewrite concat_app, !length_app, zeros_app, (IH (S i)), (row_count (nm i) r Hr). lia.
Qed.

Lemma lookup_len_zeros wt l : wt_seq wt = l → lookup_len wt 0 = zeros l.
Proof.
  intros <-. unfold lookup_len, zeros. destruct (wt_lookup wt 0) as [wl|] eqn:Hl; simpl.
  - by rewrite wl_len_spec, (wt_lookup_Some _ _ _ Hl).
  - by rewrite (wt_lookup_None _ _ Hl).
Qed.

Lemma part_count subjects objects s_p sp_o o_ps wt T :
  part_holds subjects objects s_p sp_o o_ps wt T →
  checked_sub (aj_right_count sp_o) (lookup_len wt 0) = Ok (length T).
Proof.
  intros (N & Os & [Hh _ _] & Hwt & ->). rewrite (lookup_len_zeros _ _ Hwt).
  destruct (holds_right_count _ _ _ _ Hh) as (_ & -> & _).
  rewrite (layout_count (subject_name (ml_list <$> subjects)) 0 N) by apply Hh.
  rewrite checked_sub_ok by lia. f_equal. unfold layer_triples. lia.
Qed.

Lemma layer_addition_count l PN :
  layer_holds l PN → internal_triple_layer_addition_count l = Ok (length PN.1).
Proof. intros [Hp _]. by eapply part_count. Qed.

Lemma layer_removal_count l PN :
  layer_holds l PN → internal_triple_layer_removal_count l = Ok (length PN.2).
Proof.
  intros [_ Hn]. unfold internal_triple_layer_removal_count.
  destruct (neg_s_p_adjacency_list l), (neg_sp_o_adjacency_list l), (neg_o_ps_adjacency_list l),
    (neg_predicate_wavelet_tree l) as [wt|]; try done; simpl; [by eapply part_count|by rewrite Hn].
Qed.

Lemma sum_counts_spec count (f : list IdTriple * list IdTriple → list IdTriple) ls st :
  Forall2 layer_holds ls st → (∀ l PN, layer_holds l PN → count l = Ok (length (f PN))) →
  sum_counts count ls = Ok (total (f <$> st)).
Proof.
  intros Hall Hc. unfold total. induction Hall as [|l PN ls st Hl Hall IH]; [done|].
  cbn [sum_counts]. rewrite (Hc _ _ Hl), IH. rewrite fmap_cons. cbn [concat mbind outcome_bind].
  by rewrite length_app.
Qed.

Lemma layer_counts_query l st :
  stack_holds l st →
  layer_triple_addition_count l = Ok (total st.*1) ∧ layer_triple_removal_count l = Ok (total st.*2).
Proof.
  intros [Hall _]. split; apply sum_counts_spec; try done;
    [apply layer_addition_count|apply layer_removal_count].
Qed.

(** Sum over the triples of a list. *)
Definition sum_over (f : IdTriple → nat) (U : list IdTriple) : nat := sum_list (f <$> U).

Lemma sum_over_add f g U : sum_over (λ t, f t + g t) U = sum_over f U + sum_over g U.
Proof. unfold sum_over. induction U; simpl; [done|]. unfold fmap in *. lia. Qed.

Lemma sum_over_member U L :
  NoDup U → NoDup L → (∀ t, t ∈ L → t ∈ U) → sum_over (λ t, b2n (bool_decide (t ∈ L))) U = length L.
Proof.
  intros HU HL Hsub. rewrite <- (Permutation_length (NoDup_Permutation (filter (λ t, t ∈ L) U) L
    (NoDup_filter _ _ HU) HL ltac:(intros t; rewrite list_elem_of_filter; naive_solver))).
  clear. unfold sum_over. induction U as [|t U IH]; [done|]. rewrite fmap_cons, filter_cons. simpl.
  rewrite IH. by case_decide; case_bool_decide.
Qed.

Lemma sum_over_occurrences U Ls :
  NoDup U → Forall NoDup Ls → (∀ t, t ∈ concat Ls → t ∈ U) →
  sum_over (occurrences Ls) U = total Ls.
Proof.
  intros HU. unfold total. induction 1 as [|L Ls HL Hall IH]; intros Hsub; simpl.
  - clear. unfold sum_over. induction U as [|t U IH]; [done|]. by rewrite fmap_cons.
  - rewrite length_app, <- IH, <- (sum_over_member U L), <- sum_over_add; try done.
    + unfold sum_over. f_equal. apply list_fmap_ext. intros _ t _. unfold occurrences.
      rewrite filter_cons. by case_decide; case_bool_decide.
    + intros t Ht. apply Hsub. simpl. apply elem_of_app. by left.
    + intros t Ht. apply Hsub. simpl. apply elem_of_app. by right.
Qed.

(** Additions less removals are the triples that exist. *)
Lemma count_exists st ts :
  stack_wf st.*1 st.*2 → Forall (triples_sorted spo) st.*1 → Forall (triples_sorted spo) st.*2 →
  NoDup ts → (∀ t, t ∈ ts ↔ exists_in st t = true) →
  total st.*1 = length ts + total st.*2.
Proof.
  intros Hwf Hs1 Hs2 Hnd Hts. set (U := remove_dups (concat st.*1 ++ concat st.*2)).
  assert (NoDup U) as HU by apply NoDup_remove_dups.
  assert (∀ t, t ∈ U ↔ t ∈ concat st.*1 ∨ t ∈ concat st.*2) as HinU.
  { intros t. unfold U. by rewrite elem_of_remove_dups, elem_of_app. }
  assert (∀ Ls, Forall (triples_sorted spo) Ls → Forall NoDup Ls) as Hnds.
  { intros Ls Hs. eapply Forall_impl; [exact Hs|]. apply sorted_NoDup. }
  assert (sum_over (occurrences st.*1) U = total st.*1) as <-.
  { apply sum_over_occurrences; [done|by apply Hnds|]. intros t Ht. apply HinU. by left. }
  assert (sum_over (occurrences st.*2) U = total st.*2) as <-.
  { apply sum_over_occurrences; [done|by apply Hnds|]. intros t Ht. apply HinU. by right. }
  assert (sum_over (λ t, b2n (bool_decide (t ∈ ts))) U = length ts) as <-.
  { apply sum_over_member; [done..|]. intros t Ht%Hts. apply HinU. left.
    by apply stack_exists_elem with st.*2. }
  rewrite <- sum_over_add. unfold sum_over. f_equal. apply list_fmap_ext. intros _ t _.
  assert (length st.*1 = length st.*2) as Hlen by by rewrite !length_fmap.
  pose proof (Hwf t) as Hw. pose proof (wfm_balance (mention st.*1 st.*2 t) []) as Hb.
  rewrite app_nil_r in Hb. specialize (Hb Hw). simpl in Hb.
  rewrite mention_added, mention_removed in Hb by done.
  assert (bool_decide (t ∈ ts) = exm (mention st.*1 st.*2 t)) as ->; [|lia].
  change (exm _) with (exists_in st t). destruct (exists_in st t) eqn:He.
  - apply bool_decide_eq_true. by apply Hts.
  - apply bool_decide_eq_false. rewrite Hts, He. done.
Qed.

(** ** Changes up to a boundary *)

Lemma layers_before_spec upto ls above :
  layers_before upto ls = Some above →
  ∃ boundary below, ls = above ++ boundary :: below ∧ layer_name boundary = upto.
Proof.
  revert above. induction ls as [|l ls IH]; intros above; [done|]. simpl. case_decide.
  - intros [= <-]. by exists l, ls.
  - intros (above' & Ha & ->)%fmap_Some. destruct (IH _ Ha) as (b & below & -> & Hb).
    by exists b, below.
Qed.

Lemma iter_yields_fmap {I} `{TripleIterLaws I} (add : InternalLayer → I)
    (f : list IdTriple * list IdTriple → list IdTriple) ls st :
  Forall2 layer_holds ls st → (∀ l PN, layer_holds l PN → yields (add l) (f PN)) →
  Forall2 yields (add <$> ls) (f <$> st).
Proof. intros Hall Hy. apply Forall2_fmap. eapply Forall2_impl; [exact Hall|]. apply Hy. Qed.

(** The changes that the layers above another make. *)
Lemma layers_above_changes ls below st fuel :
  Forall2 layer_holds (ls ++ below) st → stack_wf st.*1 st.*2 → stack_size st < fuel →
  ∃ cs, collect (change_next fuel) fuel {| positives := internal_triple_additions <$> ls; negatives := internal_triple_removals <$> ls |} = Ok cs ∧
    triples_sorted spo cs.*2 ∧
    ∀ c t, (c, t) ∈ cs ↔
      (exists_in st t, exists_in (drop (length ls) st) t) =
      match c with Addition => (true, false) | Removal => (false, true) end.
Proof.
  intros Hall Hwf Hf. destruct (layers_sorted _ _ Hall) as [Hs1 Hs2].
  apply Forall2_app_inv_l in Hall as (st1 & st2 & Hall1 & Hall2 & ->).
  pose proof (Forall2_length _ _ _ Hall1) as Hlen.
  unfold stack_size in Hf. rewrite !fmap_app in *.
  apply Forall_app in Hs1 as [Hs1 _], Hs2 as [Hs2 _].
  destruct (stack_changes st1.*1 st2.*1 st1.*2 st2.*2) as [Hci Hch]; [by rewrite !length_fmap|done..|].
  assert (∀ A B : list (list IdTriple), total (A ++ B) = total A + total B) as Htot.
  { intros A B. unfold total. by rewrite concat_app, length_app. }
  rewrite !Htot in Hf.
  destruct (change_collect fuel fuel st1.*1 st1.*2
    {| positives := internal_triple_additions <$> ls; negatives := internal_triple_removals <$> ls |})
    as (cs & Hcs & Hsort & Hel); [|done|lia..|].
  - split; simpl positives; simpl negatives; apply (iter_yields_fmap _ _ ls); try done;
      [apply additions_yield|apply removals_yield].
  - exists cs. split_and!; try done.
    intros c t. rewrite Hel, Hch. unfold exists_in. rewrite Hlen, drop_app_length, !fmap_app. done.
Qed.

Lemma layer_changes_query l st upto changes fuel :
  stack_holds l st → change_stack_from_layer l upto = Some changes → stack_size st < fuel →
  ∃ cs above boundary below, collect (change_next fuel) fuel changes = Ok cs ∧
    triples_sorted spo cs.*2 ∧ chain l = above ++ boundary :: below ∧ layer_name boundary = upto ∧
    ∀ c t, (c, t) ∈ cs ↔
      (exists_in st t, exists_in (drop (length above) st) t) =
      match c with Addition => (true, false) | Removal => (false, true) end.
Proof.
  intros [Hall Hwf] Hc Hf.
  unfold change_stack_from_layer in Hc. destruct (layers_before upto (tail (chain l))) as [above|] eqn:Hb; [|done].
  injection Hc as <-. destruct (layers_before_spec _ _ _ Hb) as (boundary & below & Htail & Hname).
  assert (chain l = (l :: above) ++ boundary :: below) as Hchain.
  { destruct l; simpl in *; by rewrite Htail. }
  rewrite Hchain in Hall. destruct (layers_above_changes (l :: above) _ _ fuel Hall Hwf Hf) as (cs & Hcs & Hsort & Hel).
  by exists cs, (l :: above), boundary, below.
Qed.

(** ** One triple of a subject and a predicate *)

Lemma row_nums_spec a fuel pos r rest :
  drop pos (flat (aj_rows a)) = mark r ++ rest → r ≠ [] → length r ≤ fuel →
  row_nums a fuel pos = Ok r.
Proof.
  revert pos r. induction fuel as [|fuel IH]; intros pos r Hd Hne Hf; [destruct r; simpl in *; [done|lia]|].
  destruct r as [|y r]; [done|]. rewrite mark_cons in Hd. simpl in Hd.
  apply drop_lookup_head in Hd as [Hl Hd]. cbn [row_nums].
  rewrite (aj_num_at_pos_spec _ _ _ _ Hl), (aj_bit_at_pos_spec _ _ _ _ Hl). cbn [mbind outcome_bind].
  case_bool_decide as Hr; [by subst|]. rewrite (IH _ _ Hd Hr) by (simpl in *; lia). done.
Qed.

Lemma first_not_excluded_spec a exclude fuel pos r rest :
  drop pos (flat (aj_rows a)) = mark r ++ rest → r ≠ [] → length r ≤ fuel →
  (∃ x, first_not_excluded a exclude fuel pos = Ok (Some x) ∧ x ∈ r ∧ x ∉ exclude) ∨
  (first_not_excluded a exclude fuel pos = Ok None ∧ ∀ x, x ∈ r → x ∈ exclude).
Proof.
  revert pos r. induction fuel as [|fuel IH]; intros pos r Hd Hne Hf; [destruct r; simpl in *; [done|lia]|].
  destruct r as [|y r]; [done|]. rewrite mark_cons in Hd. simpl in Hd.
  apply drop_lookup_head in Hd as [Hl Hd]. cbn [first_not_excluded].
  rewrite (aj_num_at_pos_spec _ _ _ _ Hl), (aj_bit_at_pos_spec _ _ _ _ Hl). cbn [mbind outcome_bind].
  case_decide as Hy; [left; exists y; split_and!; [done|by left|done]|].
  case_bool_decide as Hr.
  - subst. right. split; [done|]. by intros x ->%list_elem_of_singleton.
  - destruct (IH _ _ Hd Hr) as [(x & -> & Hx & He)|[-> Hall]]; [simpl in *; lia| |].
    + left. exists x. split_and!; [done|by right|done].
    + right. split; [done|]. intros x [->|?]%elem_of_cons; auto.
Qed.

(** Objects of a subject and predicate in one part. *)
Lemma part_row subjects objects s_p sp_o o_ps wt T s p :
  part_holds subjects objects s_p sp_o o_ps wt T →
  (∃ pos os rest, sp_o_position subjects s_p sp_o s p = Ok (Some pos) ∧
     drop pos (flat (aj_rows sp_o)) = mark os ++ rest ∧ os ≠ [] ∧ length os ≤ aj_right_count sp_o ∧
     ∀ o, o ∈ os ↔ new_IdTriple s p o ∈ T) ∨
  (sp_o_position subjects s_p sp_o s p = Ok None ∧ ∀ o, new_IdTriple s p o ∉ T).
Proof.
  intros (N & Os & [Hh _ _] & _ & ->).
  destruct (sp_o_position_spec _ _ _ _ s p Hh) as [(Hp & N1 & r1 & os & r2 & N2 & Hat & Hpos)|[Hpos Hno]].
  - left. destruct (at_pair_flat _ _ _ _ _ _ _ _ _ _ _ Hh Hat) as (rest & Hd & Hne & Hlen).
    exists (spo_len (N1 ++ [r1])), os, rest. split_and!; try done. intros o.
    destruct (decide (o = 0)) as [->|Ho]; [|by eapply at_pair_exists].
    split; [|intros Hin; eapply layer_triples_pos in Hin as (_ & _ & Hz); [done|exact Hh]].
    intros Hin. exfalso. destruct Hat as [HN _]. pose proof (holds_wf _ _ _ _ Hh) as Hwf. rewrite HN in Hwf.
    apply Forall_app in Hwf as [_ [Hr _]%Forall_cons]. destruct Hr as [Hr|(_ & _ & Hall)].
    { assert ((p, os) ∈ [(0, [0])]) as [=]%list_elem_of_singleton by (rewrite <- Hr; set_solver). done. }
    apply Forall_app in Hall as [_ [[_ Hos] _]%Forall_cons]. apply StronglySorted_inv in Hos as [_ Hos].
    rewrite Forall_forall in Hos. apply Hos in Hin. lia.
  - right. split; [done|]. intros o Hin. by eapply Hno.
Qed.
Lemma exists_in_cons PN st t :
  exists_in (PN :: st) t = bool_decide (t ∈ PN.1) || (negb (bool_decide (t ∈ PN.2)) && exists_in st t).
Proof. done. Qed.

(** The objects that the walk of [single_triple_sp] excludes at a layer. *)
Lemma excluded_spec l PN s p (e : gset nat) :
  layer_holds l PN →
  ∃ e', match neg_sp_o_adjacency_list l with
        | None => Ok e
        | Some neg_sp_o =>
            neg_s_p ← unwrap (neg_s_p_adjacency_list l);
            pos ← sp_o_position (neg_subjects l) neg_s_p neg_sp_o s p;
            match pos with
            | None => Ok e
            | Some pos =>
                nums ← row_nums neg_sp_o (aj_right_count neg_sp_o) pos;
                Ok (list_to_set nums ∪ e)
            end
        end = Ok e' ∧ ∀ o, o ∈ e' ↔ o ∈ e ∨ new_IdTriple s p o ∈ PN.2.
Proof.
  intros [_ Hn]. destruct (neg_s_p_adjacency_list l), (neg_sp_o_adjacency_list l) as [sp_o|],
    (neg_o_ps_adjacency_list l), (neg_predicate_wavelet_tree l); try done.
  - cbn [unwrap mbind outcome_bind].
    destruct (part_row _ _ _ _ _ _ _ s p Hn) as [(pos & os & rest & -> & Hd & Hne & Hlen & Hos)|[-> Hno]];
      cbn [mbind outcome_bind].
    + rewrite (row_nums_spec _ _ _ _ _ Hd Hne Hlen). eexists. split; [done|].
      intros o. rewrite <- Hos. set_solver.
    + exists e. split; [done|]. intros o. naive_solver.
  - rewrite Hn. exists e. split; [done|]. set_solver.
Qed.

Lemma single_walk_spec s p ls st l PN e :
  Forall2 layer_holds ls st → layer_holds l PN →
  (∃ o, single_walk e l ls s p = Ok (Some (new_IdTriple s p o)) ∧ o ∉ e ∧
     new_IdTriple s p o ∉ PN.2 ∧ exists_in st (new_IdTriple s p o) = true) ∨
  (single_walk e l ls s p = Ok None ∧
     ∀ o, o ∉ e → new_IdTriple s p o ∉ PN.2 → exists_in st (new_IdTriple s p o) = false).
Proof.
  intros Hall. revert l PN e. induction Hall as [|l' PN' ls st Hl' Hall IH]; intros l PN e Hl; [by right|].
  cbn [single_walk]. destruct (excluded_spec l PN s p e Hl) as (e' & -> & He').
  cbn [mbind outcome_bind].
  assert (∀ P : nat → Prop, (∀ o, o ∉ e' → P o) → ∀ o, o ∉ e → new_IdTriple s p o ∉ PN.2 → P o) as Hex.
  { intros P HP o H1 H2. apply HP. rewrite He'. naive_solver. }
  assert ((∀ o, new_IdTriple s p o ∈ PN'.1 → o ∈ e') →
    (∃ o, single_walk e' l' ls s p = Ok (Some (new_IdTriple s p o)) ∧ o ∉ e ∧
       new_IdTriple s p o ∉ PN.2 ∧ exists_in (PN' :: st) (new_IdTriple s p o) = true) ∨
    (single_walk e' l' ls s p = Ok None ∧
       ∀ o, o ∉ e → new_IdTriple s p o ∉ PN.2 → exists_in (PN' :: st) (new_IdTriple s p o) = false)) as Hrec.
  { intros Hall'. destruct (IH l' PN' e' Hl') as [(o & Hw & Ho & Hn & Hx)|[Hw Hno]]; rewrite Hw; [left|right].
    - exists o. rewrite exists_in_cons, Hx, (bool_decide_eq_false_2 _ Hn). rewrite He' in Ho.
      split_and!; [done|naive_solver..|apply orb_true_r].
    - split; [done|]. apply (Hex (λ o, exists_in _ _ = false)). intros o Ho. rewrite exists_in_cons.
      rewrite bool_decide_eq_false_2 by (intros Hin; by apply Ho, Hall').
      case_bool_decide as Hn; [done|]. by apply Hno. }
  destruct (part_row _ _ _ _ _ _ _ s p (proj1 Hl')) as [(pos & os & rest & -> & Hd & Hne & Hlen & Hos)|[-> Hno]];
    cbn [mbind outcome_bind].
  - destruct (first_not_excluded_spec _ e' _ _ _ _ Hd Hne Hlen) as [(o & -> & Ho & Hoe)|[-> Hall']];
      cbn [mbind outcome_bind].
    + left. exists o. rewrite exists_in_cons. rewrite Hos in Ho. rewrite He' in Hoe.
      rewrite (bool_decide_eq_true_2 _ Ho). split_and!; [done|naive_solver..|done].
    + apply Hrec. intros o Ho. by apply Hall', Hos.
  - apply Hrec. intros o Ho. by destruct (Hno o).
Qed.

Lemma single_triple_sp_query l st s p :
  stack_holds l st →
  (∃ o, single_triple_sp l s p = Ok (Some (new_IdTriple s p o)) ∧ exists_in st (new_IdTriple s p o) = true) ∨
  (single_triple_sp l s p = Ok None ∧ ∀ o, exists_in st (new_IdTriple s p o) = false).
Proof.
  intros [Hall _]. destruct st as [|PN st]; [by destruct l; apply Forall2_length in Hall|].
  assert (layer_holds l PN ∧ Forall2 layer_holds (tail (chain l)) st) as [Hl Hls].
  { destruct l; simpl in *; by apply Forall2_cons in Hall. }
  unfold single_triple_sp.
  destruct (part_row _ _ _ _ _ _ _ s p (proj1 Hl)) as [(pos & os & rest & -> & Hd & Hne & Hlen & Hos)|[-> Hno]];
    cbn [mbind outcome_bind].
  - destruct os as [|o os]; [done|]. rewrite mark_cons in Hd. apply drop_lookup_head in Hd as [Hd _].
    rewrite (aj_num_at_pos_spec _ _ _ _ Hd). left. exists o. split; [done|].
    rewrite exists_in_cons, bool_decide_eq_true_2; [done|]. apply Hos. by left.
  - destruct (single_walk_spec s p _ _ l PN ∅ Hls Hl) as [(o & -> & _ & Hn & Hx)|[-> Hnone]]; [left|right].
    + exists o. split; [done|]. by rewrite exists_in_cons, Hx, (bool_decide_eq_false_2 _ Hn), orb_true_r.
    + split; [done|]. intros o. rewrite exists_in_cons, bool_decide_eq_false_2 by apply Hno.
      case_bool_decide; [done|]. by apply Hnone.
Qed.
End layer_queries.
