(* ===== verification/NewLayerIds.v ===== *)
(** The ids of a layer that was just built on top of another: the entries of its
    dictionaries are numbered after those of the parent, nodes before values, and
    the entries of the parent keep their ids. *)

From S2P Require Import Prelude Names Succinct LayerTypes Order IdMap InternalLayer LayerIds.

Section walks.
Context `{SuccinctLaws} {A K : Type}.
Context (len count : InternalLayer → nat) (idmap : InternalLayer → IdMap) (find : InternalLayer → K → option nat).
Notation walk := (walk_id count idmap find).

(** A lookup does not fail. *)
Lemma walk_id_total ls x :
  (∀ l i, find l x = Some i → i ≠ 0) → numbered len count idmap ls → ∃ r, walk x ls = Ok r.
Proof.
  intros Hfind. unfold walk_id. induction ls as [|l ls IH]; intros Hn; [by eexists|]. cbn [id_walk].
  destruct (find l x) as [i|] eqn:Hi.
  - pose proof (proj1 Hn) as Hall. apply Forall_cons in Hall as [[Hwf Hlen] _].
    destruct (inner_outer_inner _ i (len l) Hwf (Hfind _ _ Hi) Hlen) as (o & -> & _). by eexists.
  - apply IH. by eapply numbered_tail.
Qed.

Lemma walk_id_None ls x l :
  (∀ l i, find l x = Some i → i ≠ 0) → numbered len count idmap ls →
  walk x ls = Ok None → l ∈ ls → find l x = None.
Proof.
  intros Hfind. unfold walk_id. induction ls as [|l0 ls IH]; intros Hn Hw Hl; [by apply not_elem_of_nil in Hl|].
  cbn [id_walk] in Hw. destruct (find l0 x) as [i|] eqn:Hi.
  - pose proof (proj1 Hn) as Hall. apply Forall_cons in Hall as [[Hwf Hlen] _].
    destruct (inner_outer_inner _ i (len l0) Hwf (Hfind _ _ Hi) Hlen) as (o & Ho & _).
    by rewrite Ho in Hw.
  - apply elem_of_cons in Hl as [->|Hl]; [done|]. apply IH; [by eapply numbered_tail|done|done].
Qed.

(** One more layer, without an id map, on top. *)
Lemma walk_id_push l ls x :
  id_wtree (idmap l) = None →
  walk x (l :: ls) = match find l x with
                     | Some i => Ok (Some (i + default 0 (count <$> head ls)))
                     | None => walk x ls
                     end.
Proof.
  intros Hm. unfold walk_id. cbn [id_walk]. destruct (find l x) as [i|]; [|done].
  unfold inner_to_outer. by rewrite Hm.
Qed.

Lemma numbered_push l ls :
  id_wtree (idmap l) = None → count l = len l + sum_lens len ls → numbered len count idmap ls →
  numbered len count idmap (l :: ls).
Proof.
  intros Hm Hc [Hall Hn]. split.
  - constructor; [|done]. unfold idmap_ok, idmap_wf. rewrite Hm. by split.
  - intros [|i] l' Hi; simplify_eq/=; [done|]. by apply Hn.
Qed.

Lemma distinct_push l ls x :
  (is_Some (find l x) → ∀ l', l' ∈ ls → find l' x = None) → distinct find ls x → distinct find (l :: ls) x.
Proof.
  intros Hno Hd [|i] [|j] l1 l2 Hi Hj H1 H2; simplify_eq/=; [done| | |].
  - apply list_elem_of_lookup_2 in Hj. rewrite (Hno H1 _ Hj) in H2. by destruct H2.
  - apply list_elem_of_lookup_2 in Hi. rewrite (Hno H2 _ Hi) in H1. by destruct H1.
  - f_equal. by eapply Hd.
Qed.
End walks.

Section known.
Context `{SuccinctLaws}.

(** The id of a node or of a value, and of a predicate, in a layer that may be
    missing. *)
Definition entry_known (l : option InternalLayer) (e : ObjectType) : outcome (option nat) :=
  match l with
  | None => Ok None
  | Some l => match e with Node s => layer_object_node_id l s | Value v => layer_object_value_id l v end
  end.
Definition predicate_known (l : option InternalLayer) (p : string) : outcome (option nat) :=
  match l with None => Ok None | Some l => layer_predicate_id l p end.

Definition nv_count (l : option InternalLayer) : nat := default 0 (node_and_value_count <$> l).
Definition p_count (l : option InternalLayer) : nat := default 0 (predicate_count <$> l).

Definition ids_ok (l : option InternalLayer) : Prop :=
  match l with None => True | Some l => ids_wf l ∧ entries_distinct l end.

Lemma find_object_pos l o i : find_object l o = Some i → i ≠ 0.
Proof. by intros (? & _)%find_object_spec. Qed.
Lemma find_predicate_pos l p i : find_predicate l p = Some i → i ≠ 0.
Proof. by intros (? & _)%find_predicate_spec. Qed.

Lemma entry_known_total l e : ids_ok l → ∃ r, entry_known l e = Ok r.
Proof.
  destruct l as [l|]; [|by eexists]. intros [Hwf _]. simpl. rewrite layer_object_id_walk.
  eapply walk_id_total; [intros ??; apply find_object_pos|apply Hwf].
Qed.
Lemma predicate_known_total l p : ids_ok l → ∃ r, predicate_known l p = Ok r.
Proof.
  destruct l as [l|]; [|by eexists]. intros [Hwf _].
  eapply (walk_id_total _ _ _ find_predicate); [intros ??; apply find_predicate_pos|apply Hwf].
Qed.

Lemma entry_known_bound l e id : ids_ok l → entry_known l e = Ok (Some id) → id ≠ 0 ∧ id ≤ nv_count l.
Proof.
  destruct l as [l|]; [|done]. intros [Hwf _] Hk. apply object_id_resolves in Hk as (? & ? & _); done.
Qed.
Lemma predicate_known_bound l p id : ids_ok l → predicate_known l p = Ok (Some id) → id ≠ 0 ∧ id ≤ p_count l.
Proof.
  destruct l as [l|]; [|done]. intros [Hwf _] Hk. apply predicate_id_resolves in Hk as (? & ? & _); done.
Qed.

Lemma entry_known_inj l e1 e2 id :
  ids_ok l → entry_known l e1 = Ok (Some id) → entry_known l e2 = Ok (Some id) → e1 = e2.
Proof.
  destruct l as [l|]; [|done]. intros [Hwf _] H1 H2.
  apply object_id_resolves in H1 as (_ & _ & H1); [|done]. apply object_id_resolves in H2 as (_ & _ & H2); [|done].
  rewrite H1 in H2. by injection H2.
Qed.
Lemma predicate_known_inj l p1 p2 id :
  ids_ok l → predicate_known l p1 = Ok (Some id) → predicate_known l p2 = Ok (Some id) → p1 = p2.
Proof.
  destruct l as [l|]; [|done]. intros [Hwf _] H1 H2.
  apply predicate_id_resolves in H1 as (_ & _ & H1); [|done]. apply predicate_id_resolves in H2 as (_ & _ & H2); [|done].
  rewrite H1 in H2. by injection H2.
Qed.

(** A triple of names by the ids of its parts. *)
Lemma value_triple_known l t i :
  value_triple_to_id l t = Ok (Some i) ↔
  entry_known (Some l) (Node (vt_subject t)) = Ok (Some (subject i)) ∧
  predicate_known (Some l) (vt_predicate t) = Ok (Some (predicate i)) ∧
  entry_known (Some l) (vt_object t) = Ok (Some (object i)).
Proof.
  unfold value_triple_to_id. cbn [subject_id predicate_id object_node_id object_value_id internal_layer_is_layer].
  change (layer_subject_id l (vt_subject t)) with (entry_known (Some l) (Node (vt_subject t))).
  change (layer_predicate_id l (vt_predicate t)) with (predicate_known (Some l) (vt_predicate t)).
  change (match vt_object t with Node n => layer_object_node_id l n | Value v => layer_object_value_id l v end)
    with (entry_known (Some l) (vt_object t)).
  split.
  - intros ([s|] & Hs & Hr)%outcome_bind_inv; [|done]. apply outcome_bind_inv in Hr as ([p|] & Hp & Hr); [|done].
    apply outcome_bind_inv in Hr as ([o|] & Ho & [= <-]). done.
  - intros (-> & -> & ->). by destruct i.
Qed.

Lemma value_triple_unknown l t :
  ids_wf l → entries_distinct l → (∀ i, value_triple_to_id l t ≠ Ok (Some i)) → value_triple_to_id l t = Ok None.
Proof.
  intros Hwf Hd Hno. assert (ids_ok (Some l)) as Hok by done.
  destruct (entry_known_total _ (Node (vt_subject t)) Hok) as [s Hs].
  destruct (predicate_known_total _ (vt_predicate t) Hok) as [p Hp].
  destruct (entry_known_total _ (vt_object t) Hok) as [o Ho].
  destruct s as [s|], p as [p|], o as [o|].
  { destruct (Hno (new_IdTriple s p o)). by apply value_triple_known. }
  all: unfold value_triple_to_id; cbn [subject_id predicate_id object_node_id object_value_id internal_layer_is_layer];
    simpl in Hs, Hp; change (layer_subject_id l (vt_subject t)) with (layer_object_node_id l (vt_subject t)); rewrite Hs; cbn [mbind outcome_bind]; try reflexivity; rewrite Hp; cbn [mbind outcome_bind];
    try reflexivity; change (match vt_object t with Node n => layer_object_node_id l n | Value v => layer_object_value_id l v end)
    with (entry_known (Some l) (vt_object t)); by rewrite Ho.
Qed.
End known.

(** The string dictionaries of a layer are in the order of strings. *)
Definition dicts_sorted `{SuccinctLaws} (l : InternalLayer) : Prop :=
  StronglySorted string_lt (sd_entries (node_dictionary l)) ∧ StronglySorted string_lt (sd_entries (predicate_dictionary l)).

Definition all_dicts_sorted `{SuccinctLaws} (l : option InternalLayer) : Prop :=
  match l with None => True | Some l => Forall dicts_sorted (chain l) end.

(** ** The new layer *)
Section new_layer.
Context `{SuccinctLaws}.

Record new_layer (parent : option InternalLayer) (l : InternalLayer)
    (nodes predicates : list string) (values : list TypedDictEntry) : Prop := {
  nl_chain : chain l = l :: match parent with Some p => chain p | None => [] end;
  nl_nodes : sd_entries (node_dictionary l) = nodes;
  nl_predicates : sd_entries (predicate_dictionary l) = predicates;
  nl_values : td_entries (value_dictionary l) = values;
  nl_nv_map : id_wtree (node_value_id_map l) = None;
  nl_p_map : id_wtree (predicate_id_map l) = None;
  nl_nv_count : parent_node_value_count l = nv_count parent;
  nl_p_count : parent_predicate_count l = p_count parent;
  nl_new_nodes s : s ∈ nodes → entry_known parent (Node s) = Ok None;
  nl_new_values v : v ∈ values → entry_known parent (Value v) = Ok None;
  nl_new_predicates p : p ∈ predicates → predicate_known parent p = Ok None;
}.

Context (parent : option InternalLayer) (l : InternalLayer) (nodes predicates : list string)
  (values : list TypedDictEntry) (Hl : new_layer parent l nodes predicates values) (Hok : ids_ok parent).
Notation below := (match parent with Some p => chain p | None => [] end).

Definition new_entry (e : ObjectType) : Prop := match e with Node s => s ∈ nodes | Value v => v ∈ values end.

Lemma new_entry_unknown e : new_entry e → entry_known parent e = Ok None.
Proof. destruct e; [apply (nl_new_nodes _ _ _ _ _ Hl)|apply (nl_new_values _ _ _ _ _ Hl)]. Qed.

Lemma find_new_node s i : nodes !! i = Some s → find_object l (Node s) = Some (S i).
Proof.
  intros Hi. apply sd_find. rewrite sd_num_entries_spec, sd_get_spec, (nl_nodes _ _ _ _ _ Hl).
  split_and!; [done|by eapply lookup_lt_Some|done].
Qed.

Lemma find_new_value v i : values !! i = Some v → find_object l (Value v) = Some (S i + length nodes).
Proof.
  intros Hi. simpl. unfold node_dict_len. rewrite sd_num_entries_spec, (nl_nodes _ _ _ _ _ Hl).
  assert (into_option (value_dict_id l v) = Some (S i)) as ->; [|done].
  apply td_find. rewrite td_num_entries_spec, td_entry_spec, (nl_values _ _ _ _ _ Hl).
  split_and!; [done|by eapply lookup_lt_Some|done].
Qed.

Lemma find_new_predicate p i : predicates !! i = Some p → find_predicate l p = Some (S i).
Proof.
  intros Hi. apply sd_find. rewrite sd_num_entries_spec, sd_get_spec, (nl_predicates _ _ _ _ _ Hl).
  split_and!; [done|by eapply lookup_lt_Some|done].
Qed.

Lemma find_object_new e : is_Some (find_object l e) → new_entry e.
Proof.
  intros [i Hi]. destruct e as [s|v]; simpl in *.
  - apply sd_find in Hi as (Hi & _ & Hg). destruct i as [|i]; [done|]. rewrite sd_get_spec, (nl_nodes _ _ _ _ _ Hl) in Hg.
    by eapply list_elem_of_lookup_2.
  - apply fmap_Some in Hi as (j & Hj & _). apply td_find in Hj as (Hj & _ & Hg). destruct j as [|j]; [done|].
    rewrite td_entry_spec, (nl_values _ _ _ _ _ Hl) in Hg. by eapply list_elem_of_lookup_2.
Qed.

Lemma find_predicate_new p : is_Some (find_predicate l p) → p ∈ predicates.
Proof.
  intros [i Hi]. apply sd_find in Hi as (Hi & _ & Hg). destruct i as [|i]; [done|].
  rewrite sd_get_spec, (nl_predicates _ _ _ _ _ Hl) in Hg. by eapply list_elem_of_lookup_2.
Qed.

Lemma below_counts :
  default 0 (node_and_value_count <$> head below) = nv_count parent ∧
  default 0 (predicate_count <$> head below) = p_count parent.
Proof. destruct parent as [p|]; [|done]. destruct (chain_head p) as [ls Hc]. by rewrite Hc. Qed.

Lemma below_known e : entry_known parent e = walk_id node_and_value_count node_value_id_map find_object e below.
Proof. destruct parent as [p|]; [|done]. apply layer_object_id_walk. Qed.

Lemma below_predicate p : predicate_known parent p = walk_id predicate_count predicate_id_map find_predicate p below.
Proof. by destruct parent. Qed.

Lemma top_known e :
  entry_known (Some l) e = match find_object l e with
                           | Some i => Ok (Some (i + nv_count parent))
                           | None => entry_known parent e
                           end.
Proof.
  simpl. rewrite layer_object_id_walk, (nl_chain _ _ _ _ _ Hl), walk_id_push by apply Hl.
  destruct below_counts as [-> _]. by rewrite below_known.
Qed.

Lemma top_predicate p :
  predicate_known (Some l) p = match find_predicate l p with
                               | Some i => Ok (Some (i + p_count parent))
                               | None => predicate_known parent p
                               end.
Proof.
  change (walk_id predicate_count predicate_id_map find_predicate p (chain l) =
    match find_predicate l p with Some i => Ok (Some (i + p_count parent)) | None => predicate_known parent p end).
  rewrite (nl_chain _ _ _ _ _ Hl), walk_id_push by apply Hl.
  destruct below_counts as [_ ->]. by rewrite below_predicate.
Qed.

(** What the parent knows keeps its id. *)
Lemma entry_kept e id : entry_known parent e = Ok (Some id) → entry_known (Some l) e = Ok (Some id).
Proof.
  intros Hk. rewrite top_known. destruct (find_object l e) as [i|] eqn:Hf; [|done].
  rewrite (new_entry_unknown e) in Hk; [done|]. apply find_object_new. by rewrite Hf.
Qed.
Lemma predicate_kept p id : predicate_known parent p = Ok (Some id) → predicate_known (Some l) p = Ok (Some id).
Proof.
  intros Hk. rewrite top_predicate. destruct (find_predicate l p) as [i|] eqn:Hf; [|done].
  rewrite (nl_new_predicates _ _ _ _ _ Hl p) in Hk; [done|]. apply find_predicate_new. by rewrite Hf.
Qed.

(** An id of the parent's range is the parent's. *)
Lemma entry_low e id : entry_known (Some l) e = Ok (Some id) → id ≤ nv_count parent → entry_known parent e = Ok (Some id).
Proof.
  rewrite top_known. destruct (find_object l e) as [i|] eqn:Hf; [|done]. intros [= <-] Hle.
  apply find_object_spec in Hf as (? & _). lia.
Qed.
Lemma predicate_low p id :
  predicate_known (Some l) p = Ok (Some id) → id ≤ p_count parent → predicate_known parent p = Ok (Some id).
Proof.
  rewrite top_predicate. destruct (find_predicate l p) as [i|] eqn:Hf; [|done]. intros [= <-] Hle.
  apply find_predicate_spec in Hf as (? & _). lia.
Qed.

(** What neither the parent nor the dictionaries have is unknown. *)
Lemma entry_unknown e : ¬ new_entry e → entry_known (Some l) e = entry_known parent e.
Proof.
  intros Hn. rewrite top_known. destruct (find_object l e) as [i|] eqn:Hf; [|done].
  destruct Hn. apply find_object_new. by rewrite Hf.
Qed.
Lemma predicate_unknown p : p ∉ predicates → predicate_known (Some l) p = predicate_known parent p.
Proof.
  intros Hn. rewrite top_predicate. destruct (find_predicate l p) as [i|] eqn:Hf; [|done].
  destruct Hn. apply find_predicate_new. by rewrite Hf.
Qed.

Lemma new_layer_ids : ids_wf l ∧ entries_distinct l.
Proof.
  assert (numbered node_value_len node_and_value_count node_value_id_map below ∧
          numbered predicate_dict_len predicate_count predicate_id_map below ∧
          (∀ e, distinct find_object below e) ∧ (∀ p, distinct find_predicate below p)) as (Hn & Hp & Hdn & Hdp).
  { destruct parent as [p|]; [destruct Hok as [Hwf Hd]; split_and!; [apply Hwf..|apply Hd|apply Hd]|].
    split_and!; try (split; [constructor|by intros]); by intros ? ? ? ? ?. }
  assert (node_and_value_count l = node_value_len l + sum_lens node_value_len below ∧
          predicate_count l = predicate_dict_len l + sum_lens predicate_dict_len below) as [Hcn Hcp].
  { unfold node_and_value_count, predicate_count. rewrite (nl_nv_count _ _ _ _ _ Hl), (nl_p_count _ _ _ _ _ Hl).
    destruct below_counts as [<- <-]. rewrite (numbered_head _ _ _ _ Hn), (numbered_head _ _ _ _ Hp).
    unfold node_value_len, node_dict_len, value_dict_len, predicate_dict_len. lia. }
  split; split; rewrite (nl_chain _ _ _ _ _ Hl).
  - apply numbered_push; [apply Hl|done..].
  - apply numbered_push; [apply Hl|done..].
  - intros e. apply distinct_push; [|apply Hdn]. intros Hf l' Hl'. pose proof (new_entry_unknown e (find_object_new e Hf)) as Hk.
    rewrite below_known in Hk. eapply walk_id_None; [|exact Hn|exact Hk|exact Hl']. intros ??; apply find_object_pos.
  - intros p. apply distinct_push; [|apply Hdp]. intros Hf l' Hl'.
    pose proof (nl_new_predicates _ _ _ _ _ Hl p (find_predicate_new p Hf)) as Hk.
    rewrite below_predicate in Hk. eapply walk_id_None; [|exact Hp|exact Hk|exact Hl']. intros ??; apply find_predicate_pos.
Qed.
End new_layer.
