(* ===== verification/FileBuilder.v ===== *)
(** The builders that write the files of a layer: [DictionarySetFileBuilder] of
    [src/layer/builder.rs], [BaseLayerFileBuilder] of [src/layer/internal/base.rs] and
    [ChildLayerFileBuilder] of [src/layer/internal/child.rs], each in two phases,
    dictionaries first and triples second; the variants of an operation that take bytes are those
    that take strings. A file is represented by the structure
    that is read back from it, as in [TripleBuilder], and a finished builder by the
    layer that its files are loaded as. *)

From S2P Require Import Prelude Names Succinct LayerTypes Order Nested SubjectIterator LayerLookup ObjectIterator TripleBuilder SuccinctBuild IndexBuilder StackMerge IdMap InternalLayer LayerIds.

Section file_builders.
Context `{BuildOps}.

(** ** [DictionarySetFileBuilder] *)

Record DictionarySetFileBuilder := {
  node_dictionary_builder : StringDictBuilder;
  predicate_dictionary_builder : StringDictBuilder;
  value_dictionary_builder : TypedDictBuilder;
}.

Definition dictionaries_new : DictionarySetFileBuilder :=
  {| node_dictionary_builder := sdb_new; predicate_dictionary_builder := sdb_new;
     value_dictionary_builder := tdb_new |}.

Definition dict_add_node (b : DictionarySetFileBuilder) (node : string) : outcome (nat * DictionarySetFileBuilder) :=
  '(id, d) ← sdb_add (node_dictionary_builder b) node;
  Ok (id, {| node_dictionary_builder := d; predicate_dictionary_builder := predicate_dictionary_builder b;
             value_dictionary_builder := value_dictionary_builder b |}).

Definition dict_add_predicate (b : DictionarySetFileBuilder) (predicate : string) : outcome (nat * DictionarySetFileBuilder) :=
  '(id, d) ← sdb_add (predicate_dictionary_builder b) predicate;
  Ok (id, {| node_dictionary_builder := node_dictionary_builder b; predicate_dictionary_builder := d;
             value_dictionary_builder := value_dictionary_builder b |}).

Definition dict_add_value (b : DictionarySetFileBuilder) (value : TypedDictEntry) : outcome (nat * DictionarySetFileBuilder) :=
  '(id, d) ← tdb_add (value_dictionary_builder b) value;
  Ok (id, {| node_dictionary_builder := node_dictionary_builder b;
             predicate_dictionary_builder := predicate_dictionary_builder b; value_dictionary_builder := d |}).

(** The loops of [add_nodes], [add_predicates] and [add_values]. *)
Fixpoint add_each {B A} (add : B → A → outcome (nat * B)) (b : B) (l : list A) : outcome (list nat * B) :=
  match l with
  | [] => Ok ([], b)
  | x :: l => '(id, b) ← add b x; '(ids, b) ← add_each add b l; Ok (id :: ids, b)
  end.

Definition dict_add_nodes := add_each dict_add_node.
Definition dict_add_predicates := add_each dict_add_predicate.
Definition dict_add_values := add_each dict_add_value.

Record Dictionaries := { d_nodes : StringDict; d_predicates : StringDict; d_values : TypedDict }.

Definition dictionaries_finalize (b : DictionarySetFileBuilder) : Dictionaries :=
  {| d_nodes := sdb_finalize (node_dictionary_builder b);
     d_predicates := sdb_finalize (predicate_dictionary_builder b);
     d_values := tdb_finalize (value_dictionary_builder b) |}.

(** ** Base layers *)

Record BaseLayerFileBuilder := { bb_builder : DictionarySetFileBuilder }.
Definition base_builder : BaseLayerFileBuilder := {| bb_builder := dictionaries_new |}.

Definition on_dictionaries {A} (r : outcome (A * DictionarySetFileBuilder)) : outcome (A * BaseLayerFileBuilder) :=
  '(a, d) ← r; Ok (a, {| bb_builder := d |}).
Definition base_add_node (b : BaseLayerFileBuilder) (node : string) :=
  on_dictionaries (dict_add_node (bb_builder b) node).
Definition base_add_predicate (b : BaseLayerFileBuilder) (predicate : string) :=
  on_dictionaries (dict_add_predicate (bb_builder b) predicate).
Definition base_add_value (b : BaseLayerFileBuilder) (value : TypedDictEntry) :=
  on_dictionaries (dict_add_value (bb_builder b) value).
Definition base_add_nodes (b : BaseLayerFileBuilder) (nodes : list string) :=
  on_dictionaries (dict_add_nodes (bb_builder b) nodes).
Definition base_add_predicates (b : BaseLayerFileBuilder) (predicates : list string) :=
  on_dictionaries (dict_add_predicates (bb_builder b) predicates).
Definition base_add_values (b : BaseLayerFileBuilder) (values : list TypedDictEntry) :=
  on_dictionaries (dict_add_values (bb_builder b) values).

Record BaseLayerFileBuilderPhase2 := { bb_dictionaries : Dictionaries; bb_triples : TripleFileBuilder }.

Definition base_into_phase2 (b : BaseLayerFileBuilder) : BaseLayerFileBuilderPhase2 :=
  {| bb_dictionaries := dictionaries_finalize (bb_builder b); bb_triples := tb_new false |}.

Definition base_add_triple (b : BaseLayerFileBuilderPhase2) (s p o : nat) : outcome BaseLayerFileBuilderPhase2 :=
  t ← add_triple (bb_triples b) s p o;
  Ok {| bb_dictionaries := bb_dictionaries b; bb_triples := t |}.

Definition base_add_id_triples (b : BaseLayerFileBuilderPhase2) (triples : list IdTriple)
    : outcome BaseLayerFileBuilderPhase2 :=
  t ← add_id_triples (bb_triples b) triples;
  Ok {| bb_dictionaries := bb_dictionaries b; bb_triples := t |}.

(** [finalize], and [BaseLayer::load] of the files: id maps there are none. The size of
    the files is [stored]. *)
Definition base_finalize (limit : nat) (n : name) (stored : nat) (b : BaseLayerFileBuilderPhase2) : outcome InternalLayer :=
  let '(subjects, s_p, sp_o) := tb_finalize (bb_triples b) in
  '(o_ps, objects, wt) ← build_indexes limit s_p sp_o false;
  let d := bb_dictionaries b in
  Ok (Base {|
    bl_name := n;
    bl_node_dictionary := d_nodes d; bl_predicate_dictionary := d_predicates d; bl_value_dictionary := d_values d;
    bl_node_value_idmap := from_parts None; bl_predicate_idmap := from_parts None;
    bl_subjects := subjects; bl_objects := objects;
    bl_s_p_adjacency_list := s_p; bl_sp_o_adjacency_list := sp_o; bl_o_ps_adjacency_list := o_ps;
    bl_predicate_wavelet_tree := wt;
    bl_stored_size := stored |}).

(** ** Child layers *)

Record ChildLayerFileBuilder := { cb_parent : InternalLayer; cb_builder : DictionarySetFileBuilder }.
Definition child_builder (parent : InternalLayer) : ChildLayerFileBuilder :=
  {| cb_parent := parent; cb_builder := dictionaries_new |}.

(** Entries of the parent keep their ids. *)
Definition unless_in_parent (b : ChildLayerFileBuilder) (found : outcome (option nat))
    (add : outcome (nat * DictionarySetFileBuilder)) : outcome (nat * ChildLayerFileBuilder) :=
  id ← found;
  match id with
  | None => '(id, d) ← add; Ok (id, {| cb_parent := cb_parent b; cb_builder := d |})
  | Some id => Ok (id, b)
  end.

Definition child_add_node (b : ChildLayerFileBuilder) (node : string) :=
  unless_in_parent b (subject_id (cb_parent b) node) (dict_add_node (cb_builder b) node).
Definition child_add_predicate (b : ChildLayerFileBuilder) (predicate : string) :=
  unless_in_parent b (predicate_id (cb_parent b) predicate) (dict_add_predicate (cb_builder b) predicate).
Definition child_add_value (b : ChildLayerFileBuilder) (value : TypedDictEntry) :=
  unless_in_parent b (object_value_id (cb_parent b) value) (dict_add_value (cb_builder b) value).

Definition child_add_nodes := add_each child_add_node.
Definition child_add_predicates := add_each child_add_predicate.
Definition child_add_values := add_each child_add_value.

Record ChildLayerFileBuilderPhase2 := {
  cb2_parent : InternalLayer;
  cb_dictionaries : Dictionaries;
  pos_builder : TripleFileBuilder;
  neg_builder : TripleFileBuilder;
}.

Definition child_into_phase2 (b : ChildLayerFileBuilder) : ChildLayerFileBuilderPhase2 :=
  {| cb2_parent := cb_parent b; cb_dictionaries := dictionaries_finalize (cb_builder b);
     pos_builder := tb_new true; neg_builder := tb_new true |}.

Definition with_pos (b : ChildLayerFileBuilderPhase2) (t : TripleFileBuilder) : ChildLayerFileBuilderPhase2 :=
  {| cb2_parent := cb2_parent b; cb_dictionaries := cb_dictionaries b; pos_builder := t; neg_builder := neg_builder b |}.
Definition with_neg (b : ChildLayerFileBuilderPhase2) (t : TripleFileBuilder) : ChildLayerFileBuilderPhase2 :=
  {| cb2_parent := cb2_parent b; cb_dictionaries := cb_dictionaries b; pos_builder := pos_builder b; neg_builder := t |}.

Definition child_add_triple_unchecked (b : ChildLayerFileBuilderPhase2) (s p o : nat) : outcome ChildLayerFileBuilderPhase2 :=
  t ← add_triple (pos_builder b) s p o; Ok (with_pos b t).
Definition child_add_triple (b : ChildLayerFileBuilderPhase2) (s p o : nat) : outcome ChildLayerFileBuilderPhase2 :=
  exists_ ← triple_exists (cb2_parent b) s p o;
  if exists_ : bool then Ok b else child_add_triple_unchecked b s p o.

Definition child_remove_triple_unchecked (b : ChildLayerFileBuilderPhase2) (s p o : nat) : outcome ChildLayerFileBuilderPhase2 :=
  t ← add_triple (neg_builder b) s p o; Ok (with_neg b t).
Definition child_remove_triple (b : ChildLayerFileBuilderPhase2) (s p o : nat) : outcome ChildLayerFileBuilderPhase2 :=
  exists_ ← triple_exists (cb2_parent b) s p o;
  if exists_ : bool then child_remove_triple_unchecked b s p o else Ok b.

(** The triples of which the test is [keep]. *)
Fixpoint filter_triples (test : IdTriple → outcome bool) (keep : bool) (triples : list IdTriple) : outcome (list IdTriple) :=
  match triples with
  | [] => Ok []
  | t :: triples =>
      b ← test t;
      ts ← filter_triples test keep triples;
      Ok (if decide (b = keep) then t :: ts else ts)
  end.

Definition child_add_id_triples (b : ChildLayerFileBuilderPhase2) (triples : list IdTriple)
    : outcome ChildLayerFileBuilderPhase2 :=
  filtered ← filter_triples (id_triple_exists (cb2_parent b)) false triples;
  t ← add_id_triples (pos_builder b) filtered; Ok (with_pos b t).

Definition child_remove_id_triples (b : ChildLayerFileBuilderPhase2) (triples : list IdTriple)
    : outcome ChildLayerFileBuilderPhase2 :=
  filtered ← filter_triples (id_triple_exists (cb2_parent b)) true triples;
  t ← add_id_triples (neg_builder b) filtered; Ok (with_neg b t).

(** [finalize], and [ChildLayer::load] of the files. The arrays of subjects and of
    objects are there, since the builders are sparse. *)
Definition child_finalize (limit : nat) (n : name) (stored : nat) (b : ChildLayerFileBuilderPhase2) : outcome InternalLayer :=
  let '(pos_subjects, pos_s_p, pos_sp_o) := tb_finalize (pos_builder b) in
  let '(neg_subjects, neg_s_p, neg_sp_o) := tb_finalize (neg_builder b) in
  '(pos_o_ps, pos_objects, pos_wt) ← build_indexes limit pos_s_p pos_sp_o true;
  '(neg_o_ps, neg_objects, neg_wt) ← build_indexes limit neg_s_p neg_sp_o true;
  ps ← unwrap pos_subjects; po ← unwrap pos_objects;
  ns ← unwrap neg_subjects; no ← unwrap neg_objects;
  let d := cb_dictionaries b in
  Ok (Child (cb2_parent b) {|
    cl_name := n;
    cl_node_dictionary := d_nodes d; cl_predicate_dictionary := d_predicates d; cl_value_dictionary := d_values d;
    cl_node_value_idmap := from_parts None; cl_predicate_idmap := from_parts None;
    cl_parent_node_value_count := node_and_value_count (cb2_parent b);
    cl_parent_predicate_count := predicate_count (cb2_parent b);
    cl_pos_subjects := ps; cl_pos_objects := po;
    cl_pos_s_p_adjacency_list := pos_s_p; cl_pos_sp_o_adjacency_list := pos_sp_o; cl_pos_o_ps_adjacency_list := pos_o_ps;
    cl_neg_subjects := ns; cl_neg_objects := no;
    cl_neg_s_p_adjacency_list := neg_s_p; cl_neg_sp_o_adjacency_list := neg_sp_o; cl_neg_o_ps_adjacency_list := neg_o_ps;
    cl_pos_predicate_wavelet_tree := pos_wt; cl_neg_predicate_wavelet_tree := neg_wt;
    cl_stored_size := stored |}).
End file_builders.
