(* ===== verification/FileBuilderSpec.v ===== *)
(** What the file builders write: a layer whose dictionaries are the entries added,
    in order, and whose additions and removals are the triples handed in that
    change something. *)

From S2P Require Import Prelude Names Succinct LayerTypes Order Nested SubjectIterator LayerLookup ObjectIterator PredicateIterator TripleBuilder SuccinctBuild IndexBuilder StackMerge IdMap InternalLayer LayerIds LayerQueries NewLayerIds FileBuilder.

(** ** Adding one after the other

    The part of a builder that is added to is seen through [get] and [put]. *)
Lemma add_each_spec {B A S : Type} (lt : relation A) (add : B → A → outcome (nat * B)) (view : B → S)
    (get : S → list A) (put : S → list A → S) (ok : S → A → Prop) :
  (∀ s l, get (put s l) = l) → (∀ s l1 l2, put (put s l1) l2 = put s l2) → (∀ s, put s (get s) = s) →
  (∀ s l x, ok s x → ok (put s l) x) →
  (∀ b x, ok (view b) x → (∀ y, last (get (view b)) = Some y → lt y x) →
     ∃ id b', add b x = Ok (id, b') ∧ view b' = put (view b) (get (view b) ++ [x])) →
  ∀ l b, Forall (ok (view b)) l → StronglySorted lt (get (view b) ++ l) →
    ∃ ids b', add_each add b l = Ok (ids, b') ∧ view b' = put (view b) (get (view b) ++ l).
Proof.
  intros Hgp Hpp Hpg Hok Hadd. induction l as [|x l IH]; intros b Hall Hs.
  { exists [], b. by rewrite app_nil_r, Hpg. }
  apply Forall_cons in Hall as [Hx Hall].
  destruct (Hadd b x Hx) as (id & b1 & He & Hb1).
  { intros y Hy. apply StronglySorted_app_inv in Hs as (_ & _ & Hs). apply Hs; [|by left].
    apply last_Some in Hy as [l' ->]. apply elem_of_app. right. by left. }
  destruct (IH b1) as (ids & b' & He' & Hb').
  { rewrite Hb1. eapply Forall_impl; [exact Hall|]. auto. }
  { rewrite Hb1, Hgp, <- app_assoc. exact Hs. }
  exists (id :: ids), b'. simpl. rewrite He. cbn [mbind outcome_bind]. rewrite He'. split; [done|].
  by rewrite Hb', Hb1, Hgp, Hpp, <- app_assoc.
Qed.

(** What the dictionaries of a builder have so far, and the parent it asks. *)
Record entry_state `{SuccinctOps} := EntryState {
  es_parent : option InternalLayer;
  es_nodes : list string;
  es_predicates : list string;
  es_values : list TypedDictEntry;
}.

Section dictionaries.
Context `{BuildLaws}.

Definition put_nodes (s : entry_state) (l : list string) := EntryState _ (es_parent s) l (es_predicates s) (es_values s).
Definition put_predicates (s : entry_state) (l : list string) := EntryState _ (es_parent s) (es_nodes s) l (es_values s).
Definition put_values (s : entry_state) (l : list TypedDictEntry) := EntryState _ (es_parent s) (es_nodes s) (es_predicates s) l.

Definition dict_state (parent : option InternalLayer) (b : DictionarySetFileBuilder) : entry_state :=
  EntryState _ parent (sdb_entries (node_dictionary_builder b)) (sdb_entries (predicate_dictionary_builder b))
    (tdb_entries (value_dictionary_builder b)).

Lemma dict_state_new parent : dict_state parent dictionaries_new = EntryState _ parent [] [] [].
Proof. unfold dict_state. simpl. by rewrite !sdb_new_spec, tdb_new_spec. Qed.

(** A builder with these dictionaries, and its three ways to add. *)
Class adds_entries (B : Type) (view : B → entry_state)
    (add_node add_predicate : B → string → outcome (nat * B)) (add_value : B → TypedDictEntry → outcome (nat * B)) : Prop := {
  adds_node b s :
    entry_known (es_parent (view b)) (Node s) = Ok None → (∀ y, last (es_nodes (view b)) = Some y → string_lt y s) →
    ∃ id b', add_node b s = Ok (id, b') ∧ view b' = put_nodes (view b) (es_nodes (view b) ++ [s]);
  adds_predicate b s :
    predicate_known (es_parent (view b)) s = Ok None → (∀ y, last (es_predicates (view b)) = Some y → string_lt y s) →
    ∃ id b', add_predicate b s = Ok (id, b') ∧ view b' = put_predicates (view b) (es_predicates (view b) ++ [s]);
  adds_value b v :
    entry_known (es_parent (view b)) (Value v) = Ok None → (∀ y, last (es_values (view b)) = Some y → te_lt y v) →
    ∃ id b', add_value b v = Ok (id, b') ∧ view b' = put_values (view b) (es_values (view b) ++ [v]);
}.

#[export] Instance dict_adds :
  adds_entries DictionarySetFileBuilder (dict_state None) dict_add_node dict_add_predicate dict_add_value.
Proof.
  split; intros b x _ Hx.
  - destruct (sdb_add_spec (node_dictionary_builder b) x Hx) as (d & He & Hd).
    eexists _, _. unfold dict_add_node. rewrite He. split; [done|]. unfold dict_state. simpl. by rewrite Hd.
  - destruct (sdb_add_spec (predicate_dictionary_builder b) x Hx) as (d & He & Hd).
    eexists _, _. unfold dict_add_predicate. rewrite He. split; [done|]. unfold dict_state. simpl. by rewrite Hd.
  - destruct (tdb_add_spec (value_dictionary_builder b) x Hx) as (d & He & Hd).
    eexists _, _. unfold dict_add_value. rewrite He. split; [done|]. unfold dict_state. simpl. by rewrite Hd.
Qed.

Definition child_state (b : ChildLayerFileBuilder) : entry_state := dict_state (Some (cb_parent b)) (cb_builder b).

#[export] Instance child_adds :
  adds_entries ChildLayerFileBuilder child_state child_add_node child_add_predicate child_add_value.
Proof.
  split; intros b x Hno Hx.
  - destruct (sdb_add_spec (node_dictionary_builder (cb_builder b)) x Hx) as (d & He & Hd).
    eexists _, _. unfold child_add_node, unless_in_parent, dict_add_node.
    change (subject_id (cb_parent b) x) with (entry_known (es_parent (child_state b)) (Node x)). rewrite Hno, He.
    split; [done|]. unfold child_state, dict_state. simpl. by rewrite Hd.
  - destruct (sdb_add_spec (predicate_dictionary_builder (cb_builder b)) x Hx) as (d & He & Hd).
    eexists _, _. unfold child_add_predicate, unless_in_parent, dict_add_predicate.
    change (predicate_id (cb_parent b) x) with (predicate_known (es_parent (child_state b)) x). rewrite Hno, He.
    split; [done|]. unfold child_state, dict_state. simpl. by rewrite Hd.
  - destruct (tdb_add_spec (value_dictionary_builder (cb_builder b)) x Hx) as (d & He & Hd).
    eexists _, _. unfold child_add_value, unless_in_parent, dict_add_value.
    change (object_value_id (cb_parent b) x) with (entry_known (es_parent (child_state b)) (Value x)). rewrite Hno, He.
    split; [done|]. unfold child_state, dict_state. simpl. by rewrite Hd.
Qed.

(** Three sorted lists that the parent does not have. *)
Record new_entries (parent : option InternalLayer) (nodes predicates : list string) (values : list TypedDictEntry) : Prop := {
  ne_nodes : StronglySorted string_lt nodes;
  ne_predicates : StronglySorted string_lt predicates;
  ne_values : StronglySorted te_lt values;
  ne_no_node s : s ∈ nodes → entry_known parent (Node s) = Ok None;
  ne_no_predicate p : p ∈ predicates → predicate_known parent p = Ok None;
  ne_no_value v : v ∈ values → entry_known parent (Value v) = Ok None;
}.

Lemma dictionaries_built {B} view add_node add_predicate add_value `{!adds_entries B view add_node add_predicate add_value}
    (b : B) parent nodes predicates values :
  view b = EntryState _ parent [] [] [] → new_entries parent nodes predicates values →
  ∃ i1 i2 i3 b1 b2 b3, add_each add_node b nodes = Ok (i1, b1) ∧ add_each add_predicate b1 predicates = Ok (i2, b2) ∧
    add_each add_value b2 values = Ok (i3, b3) ∧ view b3 = EntryState _ parent nodes predicates values.
Proof.
  intros Hb [Hn Hp Hv Hnn Hnp Hnv].
  destruct (add_each_spec string_lt add_node view es_nodes put_nodes (λ s x, entry_known (es_parent s) (Node x) = Ok None))
    with (l := nodes) (b := b) as (i1 & b1 & He1 & E1); [done|done|by intros []|done|apply adds_node|..].
  { rewrite Hb. by apply Forall_forall. }
  { by rewrite Hb. }
  rewrite Hb in E1. cbn [es_nodes app] in E1.
  destruct (add_each_spec string_lt add_predicate view es_predicates put_predicates (λ s x, predicate_known (es_parent s) x = Ok None))
    with (l := predicates) (b := b1) as (i2 & b2 & He2 & E2); [done|done|by intros []|done|apply adds_predicate|..].
  { rewrite E1. by apply Forall_forall. }
  { by rewrite E1. }
  rewrite E1 in E2. cbn in E2.
  destruct (add_each_spec te_lt add_value view es_values put_values (λ s x, entry_known (es_parent s) (Value x) = Ok None))
    with (l := values) (b := b2) as (i3 & b3 & He3 & E3); [done|done|by intros []|done|apply adds_value|..].
  { rewrite E2. by apply Forall_forall. }
  { by rewrite E2. }
  rewrite E2 in E3. cbn in E3. exists i1, i2, i3, b1, b2, b3. done.
Qed.
End dictionaries.

(** ** Triples and indexes *)

Section parts.
Context `{BuildLaws}.

Lemma part_built limit sparse ts :
  triples_sorted spo (filter triple_pos ts) →
  ∃ b subjects s_p sp_o o_ps objects wt,
    add_id_triples (tb_new sparse) ts = Ok b ∧ tb_finalize b = (subjects, s_p, sp_o) ∧
    build_indexes limit s_p sp_o sparse = Ok (o_ps, objects, wt) ∧
    part_holds subjects objects s_p sp_o o_ps wt (filter triple_pos ts) ∧
    (is_Some subjects ↔ sparse = true) ∧ (is_Some objects ↔ sparse = true).
Proof.
  intros Hs. destruct (build_triples_holds sparse ts Hs) as (subjects & s_p & sp_o & N & Hb & Hh & HT & Hsub).
  unfold build_triples in Hb. apply outcome_bind_inv in Hb as (b & Hb & Hf).
  assert (tb_finalize b = (subjects, s_p, sp_o)) as Hfin by congruence.
  destruct (build_object_index_holds limit subjects s_p sp_o N sparse Hh) as (o_ps & objects & Os & Hi & Hx & Hobj).
  exists b, subjects, s_p, sp_o, o_ps, objects, (build_predicate_index s_p).
  split_and!; [done|done| | |done|done].
  - unfold build_indexes. by rewrite Hi.
  - exists N, Os. split_and!; [done| |by symmetry]. unfold build_predicate_index.
    rewrite wt_from_logarray_spec. by rewrite (holds_s_p _ _ _ _ Hh).
Qed.
End parts.

(** ** The layers *)

Section layers.
Context `{BuildLaws}.

Lemma filter_triples_spec test f keep ts :
  (∀ t, test t = Ok (f t)) → filter_triples test keep ts = Ok (filter (λ t, f t = keep) ts).
Proof.
  intros Ht. induction ts as [|t ts IH]; [done|]. simpl. rewrite Ht. cbn [mbind outcome_bind]. rewrite IH.
  cbn [mbind outcome_bind]. rewrite filter_cons. done.
Qed.

(** The triples that change something. *)
Definition effective (st : list (list IdTriple * list IdTriple)) (keep : bool) (ts : list IdTriple) : list IdTriple :=
  filter triple_pos (filter (λ t, exists_in st t = keep) ts).

Lemma elem_of_effective st keep ts t : t ∈ effective st keep ts ↔ triple_pos t ∧ exists_in st t = keep ∧ t ∈ ts.
Proof. unfold effective. by rewrite !list_elem_of_filter. Qed.

Lemma effective_sorted st keep ts : triples_sorted spo (filter triple_pos ts) → triples_sorted spo (effective st keep ts).
Proof.
  intros Hs. unfold effective. rewrite list_filter_filter.
  rewrite (list_filter_iff _ (λ t, exists_in st t = keep ∧ triple_pos t)) by tauto.
  rewrite <- list_filter_filter. by apply sorted_filter.
Qed.

(** One layer more on a stack. *)
Lemma mention_cons P N st t :
  mention (P :: st.*1) (N :: st.*2) t = (bool_decide (t ∈ P), bool_decide (t ∈ N)) :: mention st.*1 st.*2 t.
Proof. done. Qed.

Lemma stack_wf_cons P N st :
  stack_wf st.*1 st.*2 → (∀ t, t ∈ P → exists_in st t = false) → (∀ t, t ∈ N → exists_in st t = true) →
  stack_wf ((P, N) :: st).*1 ((P, N) :: st).*2.
Proof.
  intros Hwf HP HN t. change (wfm (mention (P :: st.*1) (N :: st.*2) t) = true). rewrite mention_cons. simpl.
  rewrite (Hwf t), andb_true_r. apply andb_true_iff. split.
  - case_bool_decide as Ht; [|done]. specialize (HP t Ht). unfold exists_in, stack_exists in HP. by rewrite HP.
  - case_bool_decide as Ht; [|done]. specialize (HN t Ht). unfold exists_in, stack_exists in HN. by rewrite HN.
Qed.

Lemma child_written limit stored n parent st nodes predicates values additions removals :
  stack_holds parent st → new_entries (Some parent) nodes predicates values →
  triples_sorted spo (filter triple_pos additions) → triples_sorted spo (filter triple_pos removals) →
  ∃ l, ('(_, b) ← child_add_nodes (child_builder parent) nodes;
        '(_, b) ← child_add_predicates b predicates;
        '(_, b) ← child_add_values b values;
        b ← child_add_id_triples (child_into_phase2 b) additions;
        b ← child_remove_id_triples b removals;
        child_finalize limit n stored b) = Ok l ∧
    new_layer (Some parent) l nodes predicates values ∧
    stack_holds l ((effective st false additions, effective st true removals) :: st) ∧
    layer_name l = n ∧ immediate_parent l = Some parent.
Proof.
  intros Hst Hne Ha Hr.
  destruct (dictionaries_built child_state child_add_node child_add_predicate child_add_value (child_builder parent)
              (Some parent) nodes predicates values (dict_state_new _) Hne) as (i1 & i2 & i3 & b1 & b2 & b3 & He1 & He2 & He3 & Hb3).
  unfold child_add_nodes, child_add_predicates, child_add_values.
  rewrite He1. cbn [mbind outcome_bind]. rewrite He2. cbn [mbind outcome_bind]. rewrite He3. cbn [mbind outcome_bind].
  unfold child_state, dict_state in Hb3. injection Hb3 as Hpar Hnodes Hpreds Hvals.
  assert (∀ t, id_triple_exists parent t = Ok (exists_in st t)) as Hex by (intros t; by apply layer_exists_query).
  unfold child_add_id_triples, child_into_phase2. cbn [cb2_parent pos_builder]. rewrite Hpar.
  rewrite (filter_triples_spec _ _ false additions Hex). cbn [mbind outcome_bind].
  destruct (part_built limit true (filter (λ t, exists_in st t = false) additions)) as
    (pb & ps & ps_p & psp_o & po_ps & po & pwt & Hpa & Hpf & Hpi & Hph & Hps & Hpo); [by apply effective_sorted|].
  rewrite Hpa. cbn [mbind outcome_bind]. unfold child_remove_id_triples, with_pos, with_neg.
  cbn [cb2_parent pos_builder neg_builder cb_dictionaries].
  rewrite (filter_triples_spec _ _ true removals Hex). cbn [mbind outcome_bind].
  destruct (part_built limit true (filter (λ t, exists_in st t = true) removals)) as
    (nb & ns & ns_p & nsp_o & no_ps & no & nwt & Hna & Hnf & Hni & Hnh & Hns & Hno); [by apply effective_sorted|].
  rewrite Hna. cbn [mbind outcome_bind]. unfold child_finalize. cbn [cb2_parent pos_builder neg_builder cb_dictionaries].
  rewrite Hpf, Hnf, Hpi. cbn [mbind outcome_bind]. rewrite Hni. cbn [mbind outcome_bind].
  destruct (proj2 Hps eq_refl) as [ps' ->], (proj2 Hpo eq_refl) as [po' ->],
    (proj2 Hns eq_refl) as [ns' ->], (proj2 Hno eq_refl) as [no' ->].
  cbn [unwrap mbind outcome_bind]. eexists. split; [reflexivity|]. split_and!; [| |done|done].
  - destruct Hne as [_ _ _ Hn1 Hn2 Hn3]. split; try done; simpl.
    + by rewrite sdb_finalize_spec.
    + by rewrite sdb_finalize_spec.
    + by rewrite tdb_finalize_spec.
  - destruct Hst as [Hall Hwf]. split.
    + constructor; [|exact Hall]. split; [exact Hph|exact Hnh].
    + apply stack_wf_cons; [done| |]; intros t Ht; apply elem_of_effective in Ht as (_ & ? & _); done.
Qed.

Lemma base_written limit stored n nodes predicates values additions :
  new_entries None nodes predicates values →
  triples_sorted spo (filter triple_pos additions) →
  ∃ l, ('(_, b) ← base_add_nodes base_builder nodes;
        '(_, b) ← base_add_predicates b predicates;
        '(_, b) ← base_add_values b values;
        b ← base_add_id_triples (base_into_phase2 b) additions;
        base_finalize limit n stored b) = Ok l ∧
    new_layer None l nodes predicates values ∧ stack_holds l [(filter triple_pos additions, [])] ∧
    layer_name l = n ∧ immediate_parent l = None.
Proof.
  intros Hne Ha.
  destruct (dictionaries_built (dict_state None) dict_add_node dict_add_predicate dict_add_value dictionaries_new
              None nodes predicates values (dict_state_new _) Hne) as (i1 & i2 & i3 & b1 & b2 & b3 & He1 & He2 & He3 & Hb3).
  unfold base_add_nodes, base_add_predicates, base_add_values, dict_add_nodes, dict_add_predicates, dict_add_values, on_dictionaries.
  cbn [bb_builder base_builder]. rewrite He1. cbn [mbind outcome_bind bb_builder]. rewrite He2. cbn [mbind outcome_bind bb_builder].
  rewrite He3. cbn [mbind outcome_bind]. unfold dict_state in Hb3. injection Hb3 as Hnodes Hpreds Hvals.
  destruct (part_built limit false additions Ha) as
    (pb & ps & ps_p & psp_o & po_ps & po & pwt & Hpa & Hpf & Hpi & Hph & Hps & Hpo).
  unfold base_add_id_triples, base_into_phase2. cbn [bb_triples bb_dictionaries bb_builder]. rewrite Hpa. cbn [mbind outcome_bind].
  unfold base_finalize. cbn [bb_triples bb_dictionaries]. rewrite Hpf, Hpi. cbn [mbind outcome_bind].
  eexists. split; [reflexivity|]. split_and!; [| |done|done].
  - destruct Hne as [_ _ _ Hn1 Hn2 Hn3]. split; try done; simpl.
    + by rewrite sdb_finalize_spec.
    + by rewrite sdb_finalize_spec.
    + by rewrite tdb_finalize_spec.
  - split; [constructor; [split; [exact Hph|done]|constructor]|].
    apply (stack_wf_cons _ [] []); [by intros t|done|by intros t ?%not_elem_of_nil].
Qed.
End layers.
