(* ===== verification/SimpleBuilder.v ===== *)
(** [SimpleLayerBuilder] of [src/layer/simple_builder.rs]: it takes the additions and
    removals of a new layer in any order, as triples of names or of ids, and on
    commit sorts them, gives the new names their ids and writes the layer with the
    builders of [FileBuilder]. *)

From S2P Require Import Prelude Names Succinct LayerTypes Order Nested SubjectIterator LayerLookup ObjectIterator TripleBuilder SuccinctBuild IndexBuilder StackMerge IdMap InternalLayer LayerIds FileBuilder.

#[export] Instance ObjectType_countable `{SuccinctOps} : Countable ObjectType.
Proof.
  refine (inj_countable' (λ o, match o with Node s => inl s | Value v => inr v end)
                         (λ o, match o with inl s => Node s | inr v => Value v end) _).
  by intros [].
Defined.

Section simple_builder.
Context `{BuildOps}.

(** ** The state *)

Record SimpleLayerBuilder := {
  sb_name : name;
  sb_parent : option InternalLayer;
  sb_id_additions : list IdTriple;
  sb_id_removals : list IdTriple;
  sb_nodes_values_map : gmap ObjectType nat;
  sb_predicates_map : gmap string nat;
  sb_nodes_values_map_count : nat;
  sb_predicates_map_count : nat;
  sb_node_count : nat;
  sb_pred_count : nat;
  sb_val_count : nat;
}.

Definition sb_new (n : name) : SimpleLayerBuilder := {|
  sb_name := n; sb_parent := None; sb_id_additions := []; sb_id_removals := [];
  sb_nodes_values_map := ∅; sb_predicates_map := ∅;
  sb_nodes_values_map_count := 0; sb_predicates_map_count := 0;
  sb_node_count := 0; sb_pred_count := 0; sb_val_count := 0 |}.

Definition sb_from_parent (n : name) (parent : InternalLayer) : SimpleLayerBuilder := {|
  sb_name := n; sb_parent := Some parent; sb_id_additions := []; sb_id_removals := [];
  sb_nodes_values_map := ∅; sb_predicates_map := ∅;
  sb_nodes_values_map_count := node_and_value_count parent; sb_predicates_map_count := predicate_count parent;
  sb_node_count := 0; sb_pred_count := 0; sb_val_count := 0 |}.

(** ** Ids while building *)

Definition in_parent (b : SimpleLayerBuilder) (f : InternalLayer → outcome (option nat)) : outcome (option nat) :=
  match sb_parent b with Some p => f p | None => Ok None end.

Definition put_entry (b : SimpleLayerBuilder) (entry : ObjectType) (id count nodes vals : nat) : SimpleLayerBuilder := {|
  sb_name := sb_name b; sb_parent := sb_parent b;
  sb_id_additions := sb_id_additions b; sb_id_removals := sb_id_removals b;
  sb_nodes_values_map := <[entry := id]> (sb_nodes_values_map b); sb_predicates_map := sb_predicates_map b;
  sb_nodes_values_map_count := count; sb_predicates_map_count := sb_predicates_map_count b;
  sb_node_count := nodes; sb_pred_count := sb_pred_count b; sb_val_count := vals |}.

Definition put_predicate (b : SimpleLayerBuilder) (predicate : string) (id count preds : nat) : SimpleLayerBuilder := {|
  sb_name := sb_name b; sb_parent := sb_parent b;
  sb_id_additions := sb_id_additions b; sb_id_removals := sb_id_removals b;
  sb_nodes_values_map := sb_nodes_values_map b; sb_predicates_map := <[predicate := id]> (sb_predicates_map b);
  sb_nodes_values_map_count := sb_nodes_values_map_count b; sb_predicates_map_count := count;
  sb_node_count := sb_node_count b; sb_pred_count := preds; sb_val_count := sb_val_count b |}.

(** A node or a value: its id in the map, in the parent, or the next one. *)
Definition entry_id (b : SimpleLayerBuilder) (entry : ObjectType) (lookup : InternalLayer → outcome (option nat))
    : outcome (nat * SimpleLayerBuilder) :=
  match sb_nodes_values_map b !! entry with
  | Some n => Ok (n, b)
  | None =>
      found ← in_parent b lookup;
      match found with
      | Some id => Ok (id, put_entry b entry id (sb_nodes_values_map_count b) (sb_node_count b) (sb_val_count b))
      | None =>
          let id := sb_nodes_values_map_count b + 1 in
          Ok (id, match entry with
                  | Node _ => put_entry b entry id id (sb_node_count b + 1) (sb_val_count b)
                  | Value _ => put_entry b entry id id (sb_node_count b) (sb_val_count b + 1)
                  end)
      end
  end.

Definition sb_predicate_id (b : SimpleLayerBuilder) (predicate : string) : outcome (nat * SimpleLayerBuilder) :=
  match sb_predicates_map b !! predicate with
  | Some p => Ok (p, b)
  | None =>
      found ← in_parent b (λ p, predicate_id p predicate);
      match found with
      | Some id => Ok (id, put_predicate b predicate id (sb_predicates_map_count b) (sb_pred_count b))
      | None =>
          let id := sb_predicates_map_count b + 1 in
          Ok (id, put_predicate b predicate id id (sb_pred_count b + 1))
      end
  end.

Definition calculate_triple (b : SimpleLayerBuilder) (triple : ValueTriple) : outcome (IdTriple * SimpleLayerBuilder) :=
  '(s, b) ← entry_id b (Node (vt_subject triple)) (λ p, subject_id p (vt_subject triple));
  '(p, b) ← sb_predicate_id b (vt_predicate triple);
  '(o, b) ← entry_id b (vt_object triple)
              (λ p, match vt_object triple with Node n => object_node_id p n | Value v => object_value_id p v end);
  Ok (new_IdTriple s p o, b).

(** ** Additions and removals *)

Definition push_addition (b : SimpleLayerBuilder) (t : IdTriple) : SimpleLayerBuilder := {|
  sb_name := sb_name b; sb_parent := sb_parent b;
  sb_id_additions := sb_id_additions b ++ [t]; sb_id_removals := sb_id_removals b;
  sb_nodes_values_map := sb_nodes_values_map b; sb_predicates_map := sb_predicates_map b;
  sb_nodes_values_map_count := sb_nodes_values_map_count b; sb_predicates_map_count := sb_predicates_map_count b;
  sb_node_count := sb_node_count b; sb_pred_count := sb_pred_count b; sb_val_count := sb_val_count b |}.

Definition push_removal (b : SimpleLayerBuilder) (t : IdTriple) : SimpleLayerBuilder := {|
  sb_name := sb_name b; sb_parent := sb_parent b;
  sb_id_additions := sb_id_additions b; sb_id_removals := sb_id_removals b ++ [t];
  sb_nodes_values_map := sb_nodes_values_map b; sb_predicates_map := sb_predicates_map b;
  sb_nodes_values_map_count := sb_nodes_values_map_count b; sb_predicates_map_count := sb_predicates_map_count b;
  sb_node_count := sb_node_count b; sb_pred_count := sb_pred_count b; sb_val_count := sb_val_count b |}.

Definition add_value_triple (b : SimpleLayerBuilder) (addition : ValueTriple) : outcome SimpleLayerBuilder :=
  '(t, b) ← calculate_triple b addition; Ok (push_addition b t).
Definition add_id_triple (b : SimpleLayerBuilder) (t : IdTriple) : outcome SimpleLayerBuilder := Ok (push_addition b t).
Definition remove_value_triple (b : SimpleLayerBuilder) (removal : ValueTriple) : outcome SimpleLayerBuilder :=
  '(t, b) ← calculate_triple b removal; Ok (push_removal b t).
Definition remove_id_triple (b : SimpleLayerBuilder) (t : IdTriple) : outcome SimpleLayerBuilder := Ok (push_removal b t).

(** Calls of a builder, one after the other. *)
Inductive builder_op :=
  | AddValue (t : ValueTriple) | AddId (t : IdTriple) | RemoveValue (t : ValueTriple) | RemoveId (t : IdTriple).

Definition run_op (b : SimpleLayerBuilder) (op : builder_op) : outcome SimpleLayerBuilder :=
  match op with
  | AddValue t => add_value_triple b t
  | AddId t => add_id_triple b t
  | RemoveValue t => remove_value_triple b t
  | RemoveId t => remove_id_triple b t
  end.

Fixpoint run_ops (b : SimpleLayerBuilder) (ops : list builder_op) : outcome SimpleLayerBuilder :=
  match ops with [] => Ok b | op :: ops => b ← run_op b op; run_ops b ops end.

(** ** Commit *)

Definition zero_triple : IdTriple := new_IdTriple 0 0 0.

(** The loop that finds the triples without effect: those added and removed, and
    removals of what the parent cannot have. They become zeroes in their place. *)
Fixpoint clear_noops (out_of_range : IdTriple → bool) (additions : list IdTriple)
    : list IdTriple → list IdTriple * list IdTriple :=
  let clear := λ t, if out_of_range t then zero_triple else t in
  fix removals_loop (removals : list IdTriple) :=
    match removals with
    | [] => (additions, [])
    | removal :: removals' =>
        match additions with
        | [] => ([], clear <$> removals)
        | addition :: additions' =>
            if decide (triple_lt spo addition removal) then
              let '(a, r) := clear_noops out_of_range additions' removals in (addition :: a, r)
            else if decide (triple_lt spo removal addition) then
              let '(a, r) := removals_loop removals' in (a, clear removal :: r)
            else
              let '(a, r) := clear_noops out_of_range additions' removals' in (zero_triple :: a, zero_triple :: r)
        end
    end.

(** [BitVec::set] and indexing, in range or a panic. *)
Definition vec_set {A} (l : list A) (i : nat) (x : A) : outcome (list A) :=
  if decide (i < length l) then Ok (<[i := x]> l) else Panic.
Definition vec_get {A} (l : list A) (i : nat) : outcome A := unwrap (l !! i).

(** Mark an id, unless it is the parent's. *)
Definition mark_used (offset : nat) (existences : list bool) (id : nat) : outcome (list bool) :=
  if decide (offset < id) then vec_set existences (id - offset - 1) true else Ok existences.

Fixpoint mark_triples (nv_offset p_offset : nat) (nvs ps : list bool) (triples : list IdTriple)
    : outcome (list bool * list bool) :=
  match triples with
  | [] => Ok (nvs, ps)
  | t :: triples =>
      nvs ← mark_used nv_offset nvs (subject t);
      ps ← mark_used p_offset ps (predicate t);
      nvs ← mark_used nv_offset nvs (object t);
      mark_triples nv_offset p_offset nvs ps triples
  end.

(** The new entries of a map that are in use, with their ids. *)
Fixpoint collect_used {K} (offset : nat) (existences : list bool) (entries : list (K * nat)) : outcome (list (K * nat)) :=
  match entries with
  | [] => Ok []
  | (entry, id) :: entries =>
      if decide (id ≤ offset) then collect_used offset existences entries
      else
        used ← vec_get existences (id - offset - 1);
        rest ← collect_used offset existences entries;
        Ok (if used : bool then (entry, id) :: rest else rest)
  end.

Definition entry_nodes (l : list (ObjectType * nat)) : list (string * nat) :=
  omap (λ '(e, id), match e with Node n => Some (n, id) | Value _ => None end) l.
Definition entry_values (l : list (ObjectType * nat)) : list (TypedDictEntry * nat) :=
  omap (λ '(e, id), match e with Value v => Some (v, id) | Node _ => None end) l.

(** The final ids of a sorted dictionary, from [base] on. *)
Fixpoint assign_ids {K} (offset base : nat) (entries : list (K * nat)) (id_map : list nat) : outcome (list nat) :=
  match entries with
  | [] => Ok id_map
  | (_, old_id) :: entries =>
      i ← checked_sub old_id (offset + 1);
      id_map ← vec_set id_map i base;
      assign_ids offset (base + 1) entries id_map
  end.

Definition map_id (offset : nat) (id_map : list nat) (id : nat) : outcome nat :=
  if decide (offset < id) then vec_get id_map (id - offset - 1) else Ok id.

Fixpoint map_triples (nv_offset p_offset : nat) (nv_map p_map : list nat) (triples : list IdTriple)
    : outcome (list IdTriple) :=
  match triples with
  | [] => Ok []
  | t :: triples =>
      s ← map_id nv_offset nv_map (subject t);
      p ← map_id p_offset p_map (predicate t);
      o ← map_id nv_offset nv_map (object t);
      ts ← map_triples nv_offset p_offset nv_map p_map triples;
      Ok (new_IdTriple s p o :: ts)
  end.

(** What is handed to the file builders. *)
Record commit_plan := {
  cp_nodes : list string;
  cp_predicates : list string;
  cp_values : list TypedDictEntry;
  cp_additions : list IdTriple;
  cp_removals : list IdTriple;
}.

Definition sb_nv_offset (b : SimpleLayerBuilder) : nat := default 0 (node_and_value_count <$> sb_parent b).
Definition sb_p_offset (b : SimpleLayerBuilder) : nat := default 0 (predicate_count <$> sb_parent b).

(** The maps are listed in some order, which [sort_pairs_unique] shows not to matter. *)
Definition plan_commit (b : SimpleLayerBuilder) : outcome commit_plan :=
  let nv_offset := sb_nv_offset b in
  let p_offset := sb_p_offset b in
  let id_additions := dedup (sort_triples (sb_id_additions b)) in
  let id_removals := dedup (sort_triples (sb_id_removals b)) in
  let out_of_range := λ t, bool_decide (nv_offset < subject t ∨ p_offset < predicate t ∨ nv_offset < object t) in
  let '(id_additions, id_removals) := clear_noops out_of_range id_additions id_removals in
  '(nvs, ps) ← mark_triples nv_offset p_offset (replicate (sb_node_count b + sb_val_count b) false)
                 (replicate (sb_pred_count b) false) (id_additions ++ id_removals);
  entries ← collect_used nv_offset nvs (map_to_list (sb_nodes_values_map b));
  predicates ← collect_used p_offset ps (map_to_list (sb_predicates_map b));
  let nodes := sort_pairs string_lt (entry_nodes entries) in
  let values := sort_pairs value_lt (entry_values entries) in
  let predicates := sort_pairs string_lt predicates in
  nv_map ← assign_ids nv_offset (nv_offset + 1) nodes (replicate (sb_node_count b + sb_val_count b) 0);
  nv_map ← assign_ids nv_offset (nv_offset + length nodes + 1) values nv_map;
  p_map ← assign_ids p_offset (p_offset + 1) predicates (replicate (sb_pred_count b) 0);
  id_additions ← map_triples nv_offset p_offset nv_map p_map id_additions;
  id_removals ← map_triples nv_offset p_offset nv_map p_map id_removals;
  Ok {| cp_nodes := nodes.*1; cp_predicates := predicates.*1; cp_values := values.*1;
        cp_additions := sort_triples id_additions; cp_removals := sort_triples id_removals |}.

(** The second half of [commit]; a layer without parent has no removals. *)
Definition write_plan (limit stored : nat) (n : name) (parent : option InternalLayer) (plan : commit_plan) : outcome InternalLayer :=
  match parent with
  | Some parent =>
      '(_, b) ← child_add_nodes (child_builder parent) (cp_nodes plan);
      '(_, b) ← child_add_predicates b (cp_predicates plan);
      '(_, b) ← child_add_values b (cp_values plan);
      b ← child_add_id_triples (child_into_phase2 b) (cp_additions plan);
      b ← child_remove_id_triples b (cp_removals plan);
      child_finalize limit n stored b
  | None =>
      '(_, b) ← base_add_nodes base_builder (cp_nodes plan);
      '(_, b) ← base_add_predicates b (cp_predicates plan);
      '(_, b) ← base_add_values b (cp_values plan);
      b ← base_add_id_triples (base_into_phase2 b) (cp_additions plan);
      base_finalize limit n stored b
  end.

Definition sb_commit (limit stored : nat) (b : SimpleLayerBuilder) : outcome InternalLayer :=
  plan ← plan_commit b; write_plan limit stored (sb_name b) (sb_parent b) plan.
End simple_builder.
