(* ===== verification/SimpleBuilderSpec.v ===== *)
(** What a [SimpleLayerBuilder] keeps while it collects: ids for the names of the
    triples, those of the parent where it has them and new ones after them
    otherwise, and the triples it was given under these ids. *)

From S2P Require Import Prelude Names Succinct LayerTypes Order Nested SubjectIterator LayerLookup ObjectIterator TripleBuilder SuccinctBuild IndexBuilder StackMerge IdMap InternalLayer LayerIds NewLayerIds FileBuilder SimpleBuilder.

(** ** Tables of ids *)
Section tables.
Context {K : Type} `{Countable K} (known : K → outcome (option nat)) (offset : nat).
Context (Hbound : ∀ e id, known e = Ok (Some id) → id ≠ 0 ∧ id ≤ offset)
        (Hinj : ∀ e1 e2 id, known e1 = Ok (Some id) → known e2 = Ok (Some id) → e1 = e2).

(** A map holds ids of the parent, and [n] new ones after the parent's. *)
Record id_table (n : nat) (m : gmap K nat) : Prop := {
  tab_entries e id : m !! e = Some id →
    known e = Ok (Some id) ∨ (known e = Ok None ∧ offset < id ∧ id ≤ offset + n);
  tab_inj e1 e2 id : m !! e1 = Some id → m !! e2 = Some id → offset < id → e1 = e2;
  tab_onto id : offset < id → id ≤ offset + n → ∃ e, m !! e = Some id;
}.

(** The id an entry has while building. *)
Definition temp_id (m : gmap K nat) (e : K) (id : nat) : Prop :=
  m !! e = Some id ∨ (m !! e = None ∧ known e = Ok (Some id)).

Lemma table_empty : id_table 0 ∅.
Proof.
  split; [intros e id; by rewrite lookup_empty|intros e1 e2 id; by rewrite lookup_empty|]. intros id. lia.
Qed.

Lemma table_known n m e id :
  id_table n m → m !! e = None → known e = Ok (Some id) → id_table n (<[e := id]> m).
Proof.
  intros [He Hi Ho] Hm Hk. pose proof (Hbound _ _ Hk) as [_ Hle]. split.
  - intros e' id' [[<- <-]|[_ ?]]%lookup_insert_Some; [by left|by apply He].
  - intros e1 e2 id' [[<- Heq1]|[_ H1]]%lookup_insert_Some [[<- Heq2]|[_ H2]]%lookup_insert_Some Hlt; [done|lia..|].
    by eapply Hi.
  - intros id' H1 H2. destruct (Ho id' H1 H2) as [e' He']. exists e'. apply lookup_insert_Some. right.
    split; [|done]. by intros ->; simplify_eq.
Qed.

Lemma table_new n m e :
  id_table n m → m !! e = None → known e = Ok None → id_table (n + 1) (<[e := offset + n + 1]> m).
Proof.
  intros [He Hi Ho] Hm Hk. assert (∀ e' id, m !! e' = Some id → id ≤ offset + n) as Hmax.
  { intros e' id [Hk'%Hbound|(_ & _ & ?)]%He; [lia|done]. }
  split.
  - intros e' id [[<- <-]|[_ Hin]]%lookup_insert_Some; [right; split_and!; [done|lia|lia]|].
    destruct (He _ _ Hin) as [?|(? & ? & ?)]; [by left|right; split_and!; [done|done|lia]].
  - intros e1 e2 id [[<- Heq1]|[_ H1]]%lookup_insert_Some [[<- Heq]|[_ H2]]%lookup_insert_Some Hlt; try done.
    + apply Hmax in H2. lia.
    + subst id. apply Hmax in H1. lia.
    + by eapply Hi.
  - intros id H1 H2. destruct (decide (id = offset + n + 1)) as [->|Hne]; [exists e; by rewrite lookup_insert_eq|].
    destruct (Ho id H1) as [e' He']; [lia|]. exists e'. apply lookup_insert_Some. right.
    split; [|done]. by intros ->; simplify_eq.
Qed.

Context (n : nat) (m : gmap K nat) (Hm : id_table n m).

Lemma temp_bound e id : temp_id m e id → id ≠ 0 ∧ id ≤ offset + n.
Proof.
  intros [[Hk|(_ & ? & ?)]%(tab_entries _ _ Hm)|[_ Hk]]; [|lia|]; apply Hbound in Hk; lia.
Qed.

Lemma temp_low e id : temp_id m e id → id ≤ offset → known e = Ok (Some id).
Proof. intros [[Hk|(_ & ? & ?)]%(tab_entries _ _ Hm)|[_ Hk]] Hle; [done|lia|done]. Qed.

Lemma temp_high e id : temp_id m e id → offset < id → m !! e = Some id ∧ known e = Ok None.
Proof.
  intros [He|[_ Hk]] Hlt; [|apply Hbound in Hk; lia]. split; [done|].
  destruct (tab_entries _ _ Hm _ _ He) as [Hk|(? & _)]; [|done]. apply Hbound in Hk. lia.
Qed.

Lemma temp_known e id : known e = Ok (Some id) → temp_id m e id.
Proof.
  intros Hk. destruct (m !! e) as [id'|] eqn:He; [|by right].
  destruct (tab_entries _ _ Hm _ _ He) as [Hk'|[Hk' _]]; rewrite Hk in Hk'; [|done]. left. by simplify_eq.
Qed.

Lemma temp_functional e id1 id2 : temp_id m e id1 → temp_id m e id2 → id1 = id2.
Proof. intros [H1|[H1 H1']] [H2|[H2 H2']]; simplify_eq; [done|]. rewrite H1' in H2'. by simplify_eq. Qed.

Lemma temp_injective e1 e2 id : temp_id m e1 id → temp_id m e2 id → e1 = e2.
Proof.
  intros H1 H2. destruct (decide (id ≤ offset)) as [Hle|Hgt].
  - eapply Hinj; by eapply temp_low.
  - destruct (temp_high _ _ H1) as [? _]; [lia|]. destruct (temp_high _ _ H2) as [? _]; [lia|].
    eapply (tab_inj _ _ Hm); [done..|lia].
Qed.

Lemma temp_insert_known e id e' id' :
  m !! e = None → known e = Ok (Some id) → temp_id m e' id' → temp_id (<[e := id]> m) e' id'.
Proof.
  intros He Hk Ht. destruct (decide (e = e')) as [<-|Hne].
  - destruct Ht as [?|[_ Hk']]; [simplify_eq|]. left. rewrite Hk in Hk'. simplify_eq. apply lookup_insert_eq.
  - unfold temp_id in *. by rewrite lookup_insert_ne.
Qed.

Lemma temp_insert_new e id e' id' :
  m !! e = None → known e = Ok None → temp_id m e' id' → temp_id (<[e := id]> m) e' id'.
Proof.
  intros He Hk Ht. destruct (decide (e = e')) as [<-|Hne].
  - destruct Ht as [?|[_ Hk']]; [simplify_eq|]. by rewrite Hk in Hk'.
  - unfold temp_id in *. by rewrite lookup_insert_ne.
Qed.
End tables.

(** ** The builder *)
Section builder.
Context `{BuildLaws}.

Definition sb_entry (b : SimpleLayerBuilder) := temp_id (entry_known (sb_parent b)) (sb_nodes_values_map b).
Definition sb_predicate (b : SimpleLayerBuilder) := temp_id (predicate_known (sb_parent b)) (sb_predicates_map b).

(** The ids of a triple of names. *)
Definition sb_triple (b : SimpleLayerBuilder) (vt : ValueTriple) (t : IdTriple) : Prop :=
  sb_entry b (Node (vt_subject vt)) (subject t) ∧ sb_predicate b (vt_predicate vt) (predicate t) ∧
  sb_entry b (vt_object vt) (object t).

Record sb_tables (b : SimpleLayerBuilder) : Prop := {
  st_ok : ids_ok (sb_parent b);
  st_entries : id_table (entry_known (sb_parent b)) (nv_count (sb_parent b)) (sb_node_count b + sb_val_count b)
                 (sb_nodes_values_map b);
  st_predicates : id_table (predicate_known (sb_parent b)) (p_count (sb_parent b)) (sb_pred_count b) (sb_predicates_map b);
  st_nv_count : sb_nodes_values_map_count b = nv_count (sb_parent b) + (sb_node_count b + sb_val_count b);
  st_p_count : sb_predicates_map_count b = p_count (sb_parent b) + sb_pred_count b;
}.

(** Tables only grow. *)
Record sb_grows (b b' : SimpleLayerBuilder) : Prop := {
  sg_name : sb_name b' = sb_name b;
  sg_parent : sb_parent b' = sb_parent b;
  sg_additions : sb_id_additions b' = sb_id_additions b;
  sg_removals : sb_id_removals b' = sb_id_removals b;
  sg_entries e id : sb_entry b e id → sb_entry b' e id;
  sg_predicates p id : sb_predicate b p id → sb_predicate b' p id;
}.

#[export] Instance sb_grows_preorder : PreOrder sb_grows.
Proof.
  split; [intros b; by split|]. intros b1 b2 b3 [] []. split; [congruence..|auto|auto].
Qed.

Lemma sb_triple_grows b b' vt t : sb_grows b b' → sb_triple b vt t → sb_triple b' vt t.
Proof. intros Hg (? & ? & ?). split_and!; by apply Hg. Qed.

Lemma entry_id_spec b e lookup :
  sb_tables b → (∀ p, lookup p = entry_known (Some p) e) →
  ∃ id b', entry_id b e lookup = Ok (id, b') ∧ sb_tables b' ∧ sb_grows b b' ∧ sb_entry b' e id.
Proof.
  intros [Hok Hnv Hp Hcn Hcp] Hlook. unfold entry_id.
  destruct (sb_nodes_values_map b !! e) as [id|] eqn:He.
  { exists id, b. split_and!; [done|by split|done|by left]. }
  assert (in_parent b lookup = entry_known (sb_parent b) e) as ->.
  { unfold in_parent. destruct (sb_parent b) as [p|]; [apply Hlook|done]. }
  pose proof (λ e id, entry_known_bound _ e id Hok) as Hb.
  destruct (entry_known_total _ e Hok) as [[id|] Hk]; rewrite Hk; cbn [mbind outcome_bind].
  - eexists _, _. split; [done|]. split_and!.
    + split; simpl; try done. by apply table_known.
    + split; try done. intros e' id'. simpl. by apply temp_insert_known.
    + left. apply lookup_insert_eq.
  - set (id := sb_nodes_values_map_count b + 1).
    assert (id = nv_count (sb_parent b) + (sb_node_count b + sb_val_count b) + 1) as Hid by (subst id; lia).
    eexists _, _. split; [done|]. destruct e as [s|v]; (split_and!; [split; simpl; try done|split; try done|left; apply lookup_insert_eq]).
    1,4: replace (sb_node_count b + 1 + sb_val_count b) with (sb_node_count b + sb_val_count b + 1) by lia;
      rewrite ?Nat.add_assoc, Hid; by apply table_new.
    1,3: lia.
    all: intros e' id'; by apply temp_insert_new.
Qed.

Lemma sb_predicate_id_spec b p :
  sb_tables b →
  ∃ id b', sb_predicate_id b p = Ok (id, b') ∧ sb_tables b' ∧ sb_grows b b' ∧ sb_predicate b' p id.
Proof.
  intros [Hok Hnv Hp Hcn Hcp]. unfold sb_predicate_id.
  destruct (sb_predicates_map b !! p) as [id|] eqn:He.
  { exists id, b. split_and!; [done|by split|done|by left]. }
  assert (in_parent b (λ l, predicate_id l p) = predicate_known (sb_parent b) p) as -> by done.
  pose proof (λ e id, predicate_known_bound _ e id Hok) as Hb.
  destruct (predicate_known_total _ p Hok) as [[id|] Hk]; rewrite Hk; cbn [mbind outcome_bind];
    (eexists _, _; split; [done|]; split_and!; [split; simpl; try done|split; try done|left; apply lookup_insert_eq]).
  - by apply table_known.
  - intros e' id'. by apply temp_insert_known.
  - rewrite Hcp. by apply table_new.
  - lia.
  - intros e' id'. by apply temp_insert_new.
Qed.

Lemma calculate_triple_spec b vt :
  sb_tables b →
  ∃ t b', calculate_triple b vt = Ok (t, b') ∧ sb_tables b' ∧ sb_grows b b' ∧ sb_triple b' vt t.
Proof.
  intros Ht. unfold calculate_triple.
  destruct (entry_id_spec b (Node (vt_subject vt)) (λ p, subject_id p (vt_subject vt)) Ht) as (s & b1 & -> & Ht1 & Hg1 & Hs); [done|].
  cbn [mbind outcome_bind].
  destruct (sb_predicate_id_spec b1 (vt_predicate vt) Ht1) as (p & b2 & -> & Ht2 & Hg2 & Hp). cbn [mbind outcome_bind].
  destruct (entry_id_spec b2 (vt_object vt) (λ p, match vt_object vt with Node n => object_node_id p n | Value v => object_value_id p v end) Ht2)
    as (o & b3 & -> & Ht3 & Hg3 & Ho); [done|]. cbn [mbind outcome_bind].
  exists (new_IdTriple s p o), b3. split_and!; [done|done|by do 2 (etrans; [done|])|]. split_and!; simpl.
  - by apply Hg3, Hg2.
  - by apply Hg3.
  - done.
Qed.
End builder.

(** ** Calls *)
Section calls.
Context `{BuildLaws}.

(** The triples a call adds or removes, by the ids of the builder. *)
Definition op_adds (b : SimpleLayerBuilder) (op : builder_op) (t : IdTriple) : Prop :=
  match op with AddValue vt => sb_triple b vt t | AddId i => t = i | _ => False end.
Definition op_removes (b : SimpleLayerBuilder) (op : builder_op) (t : IdTriple) : Prop :=
  match op with RemoveValue vt => sb_triple b vt t | RemoveId i => t = i | _ => False end.

(** A builder after some more calls. *)
Record sb_later (b b' : SimpleLayerBuilder) : Prop := {
  sl_name : sb_name b' = sb_name b;
  sl_parent : sb_parent b' = sb_parent b;
  sl_entries e id : sb_entry b e id → sb_entry b' e id;
  sl_predicates p id : sb_predicate b p id → sb_predicate b' p id;
}.

#[export] Instance sb_later_preorder : PreOrder sb_later.
Proof. split; [intros b; by split|]. intros b1 b2 b3 [] []. split; [congruence..|auto|auto]. Qed.

Lemma sb_triple_functional b vt t1 t2 : sb_triple b vt t1 → sb_triple b vt t2 → t1 = t2.
Proof.
  intros (Hs1 & Hp1 & Ho1) (Hs2 & Hp2 & Ho2). destruct t1, t2. simpl in *.
  f_equal; by eapply temp_functional.
Qed.

Lemma sb_triple_later b b' vt t : sb_later b b' → sb_triple b vt t → sb_triple b' vt t.
Proof. intros Hl (? & ? & ?). split_and!; by apply Hl. Qed.

(** What was collected are the triples of the calls. *)
Definition collected (b : SimpleLayerBuilder) (ops : list builder_op) : Prop :=
  (∀ t, t ∈ sb_id_additions b ↔ ∃ op, op ∈ ops ∧ op_adds b op t) ∧
  (∀ t, t ∈ sb_id_removals b ↔ ∃ op, op ∈ ops ∧ op_removes b op t) ∧
  (∀ vt, AddValue vt ∈ ops ∨ RemoveValue vt ∈ ops → ∃ t, sb_triple b vt t).

Lemma collected_later b b' ops adds removals op t :
  sb_later b b' → collected b ops →
  sb_id_additions b' = sb_id_additions b ++ adds → sb_id_removals b' = sb_id_removals b ++ removals →
  (∀ t, op_adds b' op t ↔ t ∈ adds) → (∀ t, op_removes b' op t ↔ t ∈ removals) →
  match op with AddValue vt | RemoveValue vt => sb_triple b' vt t | _ => True end →
  collected b' (ops ++ [op]).
Proof.
  intros Hl (Ha & Hr & Hv) Ea Er Hadds Hrems Ht.
  assert (∀ vt t, (∃ t', sb_triple b vt t') → sb_triple b' vt t ↔ sb_triple b vt t) as Hsame.
  { intros vt t1 [t' Ht']. split; [|by apply sb_triple_later]. intros Ht1.
    by rewrite (sb_triple_functional b' vt t1 t' Ht1 (sb_triple_later _ _ _ _ Hl Ht')). }
  assert (∀ (F F' : builder_op → Prop) (P : Prop), (∀ o, o ∈ ops → F o ↔ F' o) → (F' op ↔ P) →
    (∃ o, o ∈ ops ∧ F o) ∨ P ↔ ∃ o, o ∈ ops ++ [op] ∧ F' o) as Hex.
  { intros F F' P HF HP. setoid_rewrite elem_of_app. setoid_rewrite list_elem_of_singleton. split.
    - intros [(o & Ho & HFo)|HPo]; [exists o; split; [by left|by apply HF]|exists op; split; [by right|by apply HP]].
    - intros (o & [Ho| ->] & HFo); [left; exists o; split; [done|by apply HF]|right; by apply HP]. }
  split_and!.
  - intros t1. rewrite Ea, elem_of_app, Ha. apply Hex; [|apply Hadds].
    intros [vt|i|vt|i] Ho; simpl; try done. symmetry. apply Hsame, Hv. by left.
  - intros t1. rewrite Er, elem_of_app, Hr. apply Hex; [|apply Hrems].
    intros [vt|i|vt|i] Ho; simpl; try done. symmetry. apply Hsame, Hv. by right.
  - intros vt. rewrite !elem_of_app, !list_elem_of_singleton. intros Hvt.
    assert ((AddValue vt ∈ ops ∨ RemoveValue vt ∈ ops) ∨ op = AddValue vt ∨ op = RemoveValue vt) as [Ho|[->| ->]]
      by (destruct Hvt as [[?|?]|[?|?]]; auto).
    + destruct (Hv vt Ho) as [t' Ht']. exists t'. by eapply sb_triple_later.
    + by exists t.
    + by exists t.
Qed.

Lemma run_op_spec b op ops :
  sb_tables b → collected b ops →
  ∃ b', run_op b op = Ok b' ∧ sb_tables b' ∧ sb_later b b' ∧ collected b' (ops ++ [op]).
Proof.
  intros Ht Hc.
  assert (∀ vt, ∃ t b', calculate_triple b vt = Ok (t, b') ∧ sb_tables b' ∧ sb_later b b' ∧ sb_triple b' vt t ∧
    sb_id_additions b' = sb_id_additions b ∧ sb_id_removals b' = sb_id_removals b) as Hcalc.
  { intros vt. destruct (calculate_triple_spec b vt Ht) as (t & b' & He & Ht' & [] & Hst). exists t, b'. split_and!; try done. }
  assert (∀ b' t, sb_tables b' → sb_tables (push_addition b' t) ∧ sb_tables (push_removal b' t)) as Hpush.
  { intros b' t []. by split; split. }
  destruct op as [vt|i|vt|i]; simpl; unfold add_value_triple, remove_value_triple, add_id_triple, remove_id_triple.
  - destruct (Hcalc vt) as (t & b' & -> & Ht' & Hl & Hst & Ea & Er). cbn [mbind outcome_bind]. eexists. split; [done|].
    assert (sb_later b (push_addition b' t)) as Hl' by (etrans; [exact Hl|by split]).
    split_and!; [by apply Hpush|done|]. apply (collected_later b _ ops [t] [] _ t Hl' Hc); simpl; [by rewrite Ea|by rewrite app_nil_r| | |done].
    + intros t1. rewrite list_elem_of_singleton. split; [|by intros ->]. intros Hst1. by eapply sb_triple_functional.
    + intros t1. split; [done|by intros ?%not_elem_of_nil].
  - eexists. split; [done|]. assert (sb_later b (push_addition b i)) as Hl' by (by split).
    split_and!; [by apply Hpush|done|]. apply (collected_later b _ ops [i] [] _ i Hl' Hc); simpl; [done|by rewrite app_nil_r| | |done].
    + intros t1. by rewrite list_elem_of_singleton.
    + intros t1. split; [done|by intros ?%not_elem_of_nil].
  - destruct (Hcalc vt) as (t & b' & -> & Ht' & Hl & Hst & Ea & Er). cbn [mbind outcome_bind]. eexists. split; [done|].
    assert (sb_later b (push_removal b' t)) as Hl' by (etrans; [exact Hl|by split]).
    split_and!; [by apply Hpush|done|]. apply (collected_later b _ ops [] [t] _ t Hl' Hc); simpl; [by rewrite app_nil_r|by rewrite Er| | |done].
    + intros t1. split; [done|by intros ?%not_elem_of_nil].
    + intros t1. rewrite list_elem_of_singleton. split; [|by intros ->]. intros Hst1. by eapply sb_triple_functional.
  - eexists. split; [done|]. assert (sb_later b (push_removal b i)) as Hl' by (by split).
    split_and!; [by apply Hpush|done|]. apply (collected_later b _ ops [] [i] _ i Hl' Hc); simpl; [by rewrite app_nil_r|done| | |done].
    + intros t1. split; [done|by intros ?%not_elem_of_nil].
    + intros t1. by rewrite list_elem_of_singleton.
Qed.

Lemma run_ops_spec ops2 : ∀ b ops1,
  sb_tables b → collected b ops1 →
  ∃ b', run_ops b ops2 = Ok b' ∧ sb_tables b' ∧ sb_later b b' ∧ collected b' (ops1 ++ ops2).
Proof.
  induction ops2 as [|op ops2 IH]; intros b ops1 Ht Hc.
  { exists b. by rewrite app_nil_r. }
  destruct (run_op_spec b op ops1 Ht Hc) as (b1 & He & Ht1 & Hl1 & Hc1). simpl. rewrite He. cbn [mbind outcome_bind].
  destruct (IH b1 _ Ht1 Hc1) as (b' & -> & Ht' & Hl' & Hc'). exists b'. split_and!; [done|done|by etrans|].
  by rewrite <- app_assoc in Hc'.
Qed.

(** A builder that was just made. *)
Definition sb_start (n : name) (parent : option InternalLayer) : SimpleLayerBuilder :=
  match parent with None => sb_new n | Some p => sb_from_parent n p end.

Lemma sb_start_spec n parent :
  ids_ok parent → sb_tables (sb_start n parent) ∧ collected (sb_start n parent) [] ∧
  sb_name (sb_start n parent) = n ∧ sb_parent (sb_start n parent) = parent.
Proof.
  intros Hok. split_and!; [|split_and!|by destruct parent..].
  - destruct parent as [p|]; (split; simpl; [done|apply table_empty|apply table_empty|unfold nv_count; simpl; lia|unfold p_count; simpl; lia]).
  - intros t. destruct parent; (split; [by intros ?%not_elem_of_nil|by intros (op & ?%not_elem_of_nil & _)]).
  - intros t. destruct parent; (split; [by intros ?%not_elem_of_nil|by intros (op & ?%not_elem_of_nil & _)]).
  - by intros vt [?%not_elem_of_nil|?%not_elem_of_nil].
Qed.
End calls.
