(* ===== verification/CommitSteps.v ===== *)
(** The loops of a commit of [SimpleBuilder], one by one: clearing what has no
    effect, marking the ids in use, collecting the new entries, giving them their
    final ids and renaming the triples. *)

From S2P Require Import Prelude Names Succinct LayerTypes Order Nested SubjectIterator LayerLookup ObjectIterator TripleBuilder SuccinctBuild IndexBuilder StackMerge IdMap InternalLayer LayerIds FileBuilder SimpleBuilder.

Lemma filter_ext_in {A} (P Q : A → Prop) `{∀ x, Decision (P x), ∀ x, Decision (Q x)} (l : list A) :
  (∀ x, x ∈ l → P x ↔ Q x) → filter P l = filter Q l.
Proof.
  induction l as [|x l IH]; intros HPQ; [done|]. rewrite !filter_cons, IH by (intros; apply HPQ; by right).
  assert (P x ↔ Q x) as Hx by (apply HPQ; by left). repeat case_decide; tauto.
Qed.

Lemma filter_fmap {A B} (f : A → B) (P : B → Prop) `{∀ x, Decision (P x)} (l : list A) :
  filter P (f <$> l) = f <$> filter (λ x, P (f x)) l.
Proof. induction l as [|x l IH]; [done|]. rewrite fmap_cons, !filter_cons, IH. by case_decide. Qed.

(** ** Clearing *)
Section clear.
Context (out_of_range : IdTriple → bool).
Notation clear := (clear_noops out_of_range).

Lemma clear_nil_r A : clear A [] = (A, []).
Proof. by destruct A. Qed.

Lemma clear_cons a A r R :
  clear (a :: A) (r :: R) =
    if decide (triple_lt spo a r) then let '(x, y) := clear A (r :: R) in (a :: x, y)
    else if decide (triple_lt spo r a) then
      let '(x, y) := clear (a :: A) R in (x, (if out_of_range r then zero_triple else r) :: y)
    else let '(x, y) := clear A R in (zero_triple :: x, zero_triple :: y).
Proof. done. Qed.

(** What is left: additions that are not removed, removals that are not added and
    in range; zeroes aside. *)
Record cleared (A R A1 R1 : list IdTriple) : Prop := {
  cl_additions : filter triple_pos A1 = filter (λ t, triple_pos t ∧ t ∉ R) A;
  cl_removals : filter triple_pos R1 = filter (λ t, triple_pos t ∧ t ∉ A ∧ out_of_range t = false) R;
  cl_of_additions t : t ∈ A1 → t ∈ A ∨ t = zero_triple;
  cl_of_removals t : t ∈ R1 → (t ∈ R ∧ out_of_range t = false) ∨ t = zero_triple;
}.

Lemma zero_not_pos : ¬ triple_pos zero_triple.
Proof. unfold triple_pos. simpl. lia. Qed.

Lemma before_sorted a l : StronglySorted (triple_lt spo) l → (∀ x, head l = Some x → triple_lt spo a x) → a ∉ l.
Proof.
  intros Hs Hh Ha. destruct l as [|x l]; [by apply not_elem_of_nil in Ha|]. specialize (Hh x eq_refl).
  apply elem_of_cons in Ha as [->|Ha]; [by apply (irreflexivity (triple_lt spo)) in Hh|].
  apply StronglySorted_inv in Hs as [_ Hall]. rewrite Forall_forall in Hall.
  apply (irreflexivity (triple_lt spo) a). etrans; [done|by apply Hall].
Qed.

Lemma tail_sorted a l : StronglySorted (triple_lt spo) (a :: l) → StronglySorted (triple_lt spo) l ∧ a ∉ l.
Proof.
  intros [Hs Hall]%StronglySorted_inv. split; [done|]. apply before_sorted; [done|].
  intros x Hx. rewrite Forall_forall in Hall. apply Hall. by apply head_Some_elem_of.
Qed.

Lemma cleared_addition a A r R A1 R1 :
  a ∉ r :: R → cleared A (r :: R) A1 R1 → cleared (a :: A) (r :: R) (a :: A1) R1.
Proof.
  intros Ha [H1 H2 H3 H4]. split.
  - rewrite !filter_cons, H1. by repeat case_decide; try tauto.
  - rewrite H2. apply filter_ext_in. intros t Ht. rewrite not_elem_of_cons. set_solver.
  - intros t [->|Ht]%elem_of_cons; [left; by left|]. destruct (H3 t Ht); [left; by right|by right].
  - done.
Qed.

Lemma cleared_removal a A r R A1 R1 :
  r ∉ a :: A → cleared (a :: A) R A1 R1 →
  cleared (a :: A) (r :: R) A1 ((if out_of_range r then zero_triple else r) :: R1).
Proof.
  intros Hr [H1 H2 H3 H4]. split.
  - rewrite H1. apply filter_ext_in. intros t Ht. rewrite not_elem_of_cons. set_solver.
  - rewrite !filter_cons, H2. pose proof zero_not_pos. destruct (out_of_range r) eqn:Hor.
    + rewrite decide_False by done. rewrite decide_False by (intros (_ & _ & [=])). done.
    + by repeat case_decide; try tauto.
  - done.
  - intros t [->|Ht]%elem_of_cons.
    + destruct (out_of_range r) eqn:Hor; [by right|left]. split; [by left|done].
    + destruct (H4 t Ht) as [[? ?]|?]; [left; split; [by right|done]|by right].
Qed.

Lemma cleared_both t A R A1 R1 :
  t ∉ A → t ∉ R → cleared A R A1 R1 → cleared (t :: A) (t :: R) (zero_triple :: A1) (zero_triple :: R1).
Proof.
  intros HtA HtR [H1 H2 H3 H4]. pose proof zero_not_pos. split.
  - rewrite !filter_cons, H1. rewrite decide_False by done. rewrite decide_False by set_solver.
    apply filter_ext_in. intros x Hx. rewrite not_elem_of_cons. set_solver.
  - rewrite !filter_cons, H2. rewrite decide_False by done. rewrite decide_False by set_solver.
    apply filter_ext_in. intros x Hx. rewrite not_elem_of_cons. set_solver.
  - intros x [->|Hx]%elem_of_cons; [by right|]. destruct (H3 x Hx); [left; by right|by right].
  - intros x [->|Hx]%elem_of_cons; [by right|]. destruct (H4 x Hx) as [[? ?]|?]; [left; split; [by right|done]|by right].
Qed.

Lemma cleared_nil_l R : cleared [] R [] ((λ t, if out_of_range t then zero_triple else t) <$> R).
Proof.
  pose proof zero_not_pos. split; [done| |by intros t ?%not_elem_of_nil|].
  - induction R as [|r R IH]; [done|]. rewrite fmap_cons, !filter_cons, IH. destruct (out_of_range r) eqn:Hr.
    + rewrite decide_False by done. by rewrite decide_False by (intros (_ & _ & [=])).
    + pose proof (not_elem_of_nil r). by repeat case_decide; try tauto.
  - intros t (r & -> & Hr)%list_elem_of_fmap. destruct (out_of_range r) eqn:Hor; [by right|by left].
Qed.

Lemma cleared_nil_r A : cleared A [] A [].
Proof.
  split; [|done|by left|by intros t ?%not_elem_of_nil]. apply filter_ext_in. intros t _.
  pose proof (not_elem_of_nil t). tauto.
Qed.

Lemma clear_noops_spec A : ∀ R,
  triples_sorted spo A → triples_sorted spo R → cleared A R (clear A R).1 (clear A R).2.
Proof.
  induction A as [|a A IHA]; intros R; [intros _ _; destruct R; apply cleared_nil_l|].
  induction R as [|r R IHR]; intros HA HR; [apply cleared_nil_r|].
  destruct (tail_sorted _ _ HA) as [HA' HaA], (tail_sorted _ _ HR) as [HR' HrR]. rewrite clear_cons.
  repeat case_decide.
  - specialize (IHA (r :: R) HA' HR). destruct (clear A (r :: R)) as [x y]. apply cleared_addition; [|done].
    apply before_sorted; [done|]. by intros ? [= <-].
  - specialize (IHR HA HR'). destruct (clear (a :: A) R) as [x y]. apply cleared_removal; [|done].
    apply before_sorted; [done|]. by intros ? [= <-].
  - assert (a = r) as -> by by destruct (trichotomic_cases (lt := triple_lt spo) a r) as [?|[?|?]].
    specialize (IHA R HA' HR'). destruct (clear A R) as [x y]. by apply cleared_both.
Qed.
End clear.

(** ** Marking and collecting *)

(** A triple in the range of a builder. *)
Definition in_range (nv p : nat) (t : IdTriple) : Prop := subject t ≤ nv ∧ predicate t ≤ p ∧ object t ≤ nv.

Lemma vec_set_spec {A} (l : list A) i x : i < length l → vec_set l i x = Ok (<[i := x]> l).
Proof. intros Hi. unfold vec_set. by rewrite decide_True. Qed.

Lemma marked_insert (l : list bool) i j : i < length l → (<[i := true]> l) !! j = Some true ↔ l !! j = Some true ∨ j = i.
Proof.
  intros Hi. destruct (decide (i = j)) as [->|Hne]; [rewrite list_lookup_insert_eq by done; tauto|].
  rewrite list_lookup_insert_ne by done. split; [auto|]. by intros [?| ->].
Qed.

Lemma mark_used_spec offset l id :
  id ≤ offset + length l →
  ∃ l', mark_used offset l id = Ok l' ∧ length l' = length l ∧
    ∀ i, l' !! i = Some true ↔ l !! i = Some true ∨ id = offset + 1 + i.
Proof.
  intros Hid. unfold mark_used. case_decide as Hlt.
  - rewrite vec_set_spec by lia. eexists. split_and!; [done|apply length_insert|].
    intros i. rewrite marked_insert by lia. split; (intros [?|?]; [by left|right; lia]).
  - exists l. split_and!; [done..|]. intros i. split; [by left|]. intros [?|?]; [done|lia].
Qed.

Lemma mark_triples_spec nv_offset p_offset ts : ∀ nvs ps,
  Forall (in_range (nv_offset + length nvs) (p_offset + length ps)) ts →
  ∃ nvs' ps', mark_triples nv_offset p_offset nvs ps ts = Ok (nvs', ps') ∧
    length nvs' = length nvs ∧ length ps' = length ps ∧
    (∀ i, nvs' !! i = Some true ↔ nvs !! i = Some true ∨
       ∃ t, t ∈ ts ∧ (subject t = nv_offset + 1 + i ∨ object t = nv_offset + 1 + i)) ∧
    (∀ i, ps' !! i = Some true ↔ ps !! i = Some true ∨ ∃ t, t ∈ ts ∧ predicate t = p_offset + 1 + i).
Proof.
  induction ts as [|t ts IH]; intros nvs ps Hall.
  { exists nvs, ps. split_and!; [done..| |]; intros i; (split; [by left|]); by intros [?|(t & ?%not_elem_of_nil & _)]. }
  apply Forall_cons in Hall as [(Hs & Hp & Ho) Hall]. cbn [mark_triples].
  destruct (mark_used_spec nv_offset nvs (subject t) Hs) as (l1 & -> & L1 & M1). cbn [mbind outcome_bind].
  destruct (mark_used_spec p_offset ps (predicate t) Hp) as (l2 & -> & L2 & M2). cbn [mbind outcome_bind].
  destruct (mark_used_spec nv_offset l1 (object t)) as (l3 & -> & L3 & M3); [by rewrite L1|]. cbn [mbind outcome_bind].
  destruct (IH l3 l2) as (nvs' & ps' & -> & L4 & L5 & M4 & M5); [by rewrite L3, L1, L2|].
  exists nvs', ps'. split_and!; [done|by rewrite L4, L3|by rewrite L5| |]; intros i.
  - rewrite M4, M3, M1. setoid_rewrite elem_of_cons. naive_solver.
  - rewrite M5, M2. setoid_rewrite elem_of_cons. naive_solver.
Qed.

(** An id is in use if it is new and marked. *)
Definition id_used (offset : nat) (marks : list bool) (id : nat) : Prop :=
  offset < id ∧ marks !! (id - offset - 1) = Some true.
#[export] Instance id_used_dec offset marks id : Decision (id_used offset marks id).
Proof. unfold id_used. apply _. Defined.

Lemma collect_used_spec {K} offset marks (l : list (K * nat)) :
  Forall (λ e, e.2 ≤ offset + length marks) l →
  collect_used offset marks l = Ok (filter (λ e, id_used offset marks e.2) l).
Proof.
  induction 1 as [|[e id] l Hid Hl IH]; [done|]. cbn [collect_used]. rewrite filter_cons. simpl in *.
  case_decide as Hle.
  - rewrite decide_False by (intros []; lia). done.
  - destruct (lookup_lt_is_Some_2 marks (id - offset - 1)) as [b Hb]; [lia|].
    unfold vec_get. rewrite Hb. cbn [unwrap mbind outcome_bind]. rewrite IH. cbn [mbind outcome_bind].
    destruct b; [rewrite decide_True by (by split; [lia|])|rewrite decide_False by (intros []; congruence)]; done.
Qed.

(** ** Final ids *)

Lemma assign_ids_spec {K} offset (l : list (K * nat)) : ∀ base m,
  NoDup l.*2 → Forall (λ e, offset < e.2 ∧ e.2 ≤ offset + length m) l →
  ∃ m', assign_ids offset base l m = Ok m' ∧ length m' = length m ∧
    (∀ k e, l !! k = Some e → m' !! (e.2 - offset - 1) = Some (base + k)) ∧
    (∀ id, offset < id → id ∉ l.*2 → m' !! (id - offset - 1) = m !! (id - offset - 1)).
Proof.
  induction l as [|[e id] l IH]; intros base m Hnd Hall; [by exists m|].
  apply Forall_cons in Hall as [[Hlt Hle] Hall]. apply NoDup_cons in Hnd as [Hni Hnd]. cbn [assign_ids]. simpl in *.
  rewrite checked_sub_ok by lia. cbn [mbind outcome_bind].
  replace (id - (offset + 1)) with (id - offset - 1) by lia. rewrite vec_set_spec by lia. cbn [mbind outcome_bind].
  destruct (IH (base + 1) (<[id - offset - 1 := base]> m) Hnd) as (m' & -> & Hlen & Hin & Hout).
  { by rewrite length_insert. }
  exists m'. rewrite length_insert in Hlen. split_and!; [done|done| |].
  - intros [|k] e' Hk; simplify_eq/=.
    + rewrite Hout by done. rewrite list_lookup_insert_eq by lia. by rewrite Nat.add_0_r.
    + rewrite (Hin k e' Hk). f_equal. lia.
  - intros id' Hlt' [Hne Hni']%not_elem_of_cons. rewrite Hout by done.
    rewrite list_lookup_insert_ne by lia. done.
Qed.

(** The final id of an id. *)
Definition final_id (offset : nat) (m : list nat) (id : nat) : nat :=
  if decide (offset < id) then default 0 (m !! (id - offset - 1)) else id.

Lemma map_id_spec offset m id : id ≤ offset + length m → map_id offset m id = Ok (final_id offset m id).
Proof.
  intros Hid. unfold map_id, final_id. case_decide; [|done]. unfold vec_get.
  destruct (lookup_lt_is_Some_2 m (id - offset - 1)) as [x Hx]; [lia|]. by rewrite Hx.
Qed.

Definition final_triple (nv_offset p_offset : nat) (nv_map p_map : list nat) (t : IdTriple) : IdTriple :=
  new_IdTriple (final_id nv_offset nv_map (subject t)) (final_id p_offset p_map (predicate t))
    (final_id nv_offset nv_map (object t)).

Lemma map_triples_spec nv_offset p_offset nv_map p_map ts :
  Forall (in_range (nv_offset + length nv_map) (p_offset + length p_map)) ts →
  map_triples nv_offset p_offset nv_map p_map ts = Ok (final_triple nv_offset p_offset nv_map p_map <$> ts).
Proof.
  induction 1 as [|t ts (Hs & Hp & Ho) Hts IH]; [done|]. cbn [map_triples].
  rewrite !map_id_spec by done. cbn [mbind outcome_bind]. by rewrite IH.
Qed.

(** ** Nodes and values of a list of entries *)

Section entries.
Context `{SuccinctOps}.

Lemma elem_of_entry_nodes (U : list (ObjectType * nat)) s (id : nat) : (s, id) ∈ entry_nodes U ↔ (Node s, id) ∈ U.
Proof.
  unfold entry_nodes. rewrite list_elem_of_omap. split.
  - intros ([[n|v] id'] & Hin & [=]); by subst.
  - intros Hin. by exists (Node s, id).
Qed.

Lemma elem_of_entry_values (U : list (ObjectType * nat)) v (id : nat) : (v, id) ∈ entry_values U ↔ (Value v, id) ∈ U.
Proof.
  unfold entry_values. rewrite list_elem_of_omap. split.
  - intros ([[n|v'] id'] & Hin & [=]); by subst.
  - intros Hin. by exists (Value v, id).
Qed.

End entries.

Lemma omap_NoDup {A B C} (f : A → option B) (g : A → C) (h : B → C) l :
  (∀ x y, f x = Some y → g x = h y) → NoDup (g <$> l) → NoDup (h <$> omap f l).
Proof.
  intros Hf. induction l as [|x l IH]; intros Hnd; [constructor|].
  apply NoDup_cons in Hnd as [Hni Hnd]. change (omap f (x :: l)) with (match f x with Some y => y :: omap f l | None => omap f l end).
  destruct (f x) as [y|] eqn:Hx; [|auto]. apply NoDup_cons. split; [|auto].
  intros (y' & Heq & (x' & Hin & Hx')%list_elem_of_omap)%list_elem_of_fmap. apply Hni.
  rewrite (Hf x y Hx), Heq, <- (Hf x' y' Hx'). by apply list_elem_of_fmap_2.
Qed.
