(* ===== verification/CommitPlan.v ===== *)
(** What a commit of [SimpleBuilder] hands to the file builders: sorted dictionaries
    of the new entries in use, and the additions and removals under the ids these
    entries will have. *)

From S2P Require Import Prelude Names Succinct LayerTypes Order Nested SubjectIterator LayerLookup ObjectIterator TripleBuilder SuccinctBuild IndexBuilder StackMerge IdMap InternalLayer LayerIds NewLayerIds FileBuilder FileBuilderSpec SimpleBuilder SimpleBuilderSpec CommitSteps.

(** ** The entries of a table that are in use *)
Section used.
Context {K : Type} `{Countable K} (known : K → outcome (option nat)) (offset n : nat) (m : gmap K nat).
Context (Hbound : ∀ e id, known e = Ok (Some id) → id ≠ 0 ∧ id ≤ offset) (Hm : id_table known offset n m).

Definition used_entries (marks : list bool) : list (K * nat) :=
  filter (λ e, id_used offset marks e.2) (map_to_list m).

Lemma elem_of_used marks e id : (e, id) ∈ used_entries marks ↔ id_used offset marks id ∧ m !! e = Some id.
Proof. unfold used_entries. by rewrite list_elem_of_filter, elem_of_map_to_list. Qed.

Lemma table_bound : Forall (λ e, e.2 ≤ offset + n) (map_to_list m).
Proof.
  apply Forall_forall. intros [e id] Hin%elem_of_map_to_list. simpl.
  apply (temp_bound known offset Hbound n m Hm e). by left.
Qed.

Lemma used_bound marks : Forall (λ e, offset < e.2 ∧ e.2 ≤ offset + n) (used_entries marks).
Proof.
  apply Forall_forall. intros [e id] [[Hlt _] Hin]%elem_of_used. split; [done|].
  apply (temp_bound known offset Hbound n m Hm e). by left.
Qed.

Lemma used_unknown marks e id : (e, id) ∈ used_entries marks → known e = Ok None.
Proof.
  intros [[Hlt _] Hin]%elem_of_used. apply (temp_high known offset Hbound n m Hm e id); [by left|done].
Qed.

Lemma used_keys_NoDup marks : NoDup (used_entries marks).*1.
Proof.
  unfold used_entries. pose proof (NoDup_fst_map_to_list m) as Hnd.
  induction (map_to_list m) as [|e l IH]; [constructor|]. apply NoDup_cons in Hnd as [Hni Hnd].
  rewrite filter_cons. case_decide; [|auto]. apply NoDup_cons. split; [|auto].
  intros (e' & Heq & [_ Hin]%list_elem_of_filter)%list_elem_of_fmap. apply Hni. rewrite Heq. by apply list_elem_of_fmap_2.
Qed.

Lemma used_ids_NoDup marks : NoDup (used_entries marks).*2.
Proof.
  apply NoDup_fmap_2_strong; [|apply NoDup_filter, NoDup_map_to_list].
  intros [e1 id1] [e2 id2] [[Hlt _] H1]%elem_of_used [_ H2]%elem_of_used Heq. simpl in Heq. subst id2.
  f_equal. by eapply (tab_inj _ _ _ _ Hm).
Qed.
End used.

(** ** Sorted dictionaries *)
Section dictionary.
Context {K : Type} (lt : relation K) `{EqDecision K, !RelDecision lt, !StrictOrder lt, !Trichotomic lt}.

(** After sorting and assigning, an entry's final id is its place. *)
Lemma dictionary_ids offset base (l : list (K * nat)) m :
  NoDup l.*2 → Forall (λ e, offset < e.2 ∧ e.2 ≤ offset + length m) l →
  ∃ m', assign_ids offset base (sort_pairs lt l) m = Ok m' ∧ length m' = length m ∧
    (∀ e id, (e, id) ∈ l → ∃ k, (sort_pairs lt l).*1 !! k = Some e ∧ final_id offset m' id = base + k) ∧
    (∀ id, id ∉ l.*2 → final_id offset m' id = final_id offset m id).
Proof.
  intros Hnd Hall. pose proof (sort_pairs_perm lt l) as Hperm.
  destruct (assign_ids_spec offset (sort_pairs lt l) base m) as (m' & He & Hlen & Hin & Hout).
  { by rewrite Hperm. }
  { by rewrite Hperm. }
  exists m'. split_and!; [done|done| |].
  - intros e id He'. rewrite <- Hperm in He'. apply list_elem_of_lookup in He' as [k Hk]. exists k.
    rewrite list_lookup_fmap, Hk. split; [done|]. specialize (Hin _ _ Hk). simpl in Hin.
    assert (offset < id) as Hlt.
    { rewrite Forall_forall in Hall. apply (Hall (e, id)). rewrite <- Hperm. by eapply list_elem_of_lookup_2. }
    unfold final_id. by rewrite decide_True, Hin.
  - intros id Hni. unfold final_id. case_decide; [|done]. by rewrite Hout by (rewrite ?Hperm; done).
Qed.

Lemma sort_pairs_elem l e : e ∈ (sort_pairs lt l).*1 ↔ ∃ id, (e, id) ∈ l.
Proof.
  rewrite (sort_pairs_perm lt l), list_elem_of_fmap. split; [intros ([e' id] & -> & Hin); by exists id|].
  intros [id Hin]. by exists (e, id).
Qed.
End dictionary.

(** ** The plan *)
Section plan.
Context `{BuildLaws}.

(** Where an entry is numbered: nodes first, values after them. *)
Definition entry_place (nodes : list string) (values : list TypedDictEntry) (offset : nat) (e : ObjectType) (id : nat) : Prop :=
  match e with
  | Node s => ∃ k, nodes !! k = Some s ∧ id = offset + 1 + k
  | Value v => ∃ k, values !! k = Some v ∧ id = offset + length nodes + 1 + k
  end.

Definition rename (g gp : nat → nat) (t : IdTriple) : IdTriple :=
  new_IdTriple (g (subject t)) (gp (predicate t)) (g (object t)).

Definition beyond (nv p : nat) (t : IdTriple) : bool := bool_decide (nv < subject t ∨ p < predicate t ∨ nv < object t).

Definition sb_range (b : SimpleLayerBuilder) : IdTriple → Prop :=
  in_range (nv_count (sb_parent b) + (sb_node_count b + sb_val_count b)) (p_count (sb_parent b) + sb_pred_count b).

Record planned (b : SimpleLayerBuilder) (plan : commit_plan) (A1 R1 : list IdTriple) (g gp : nat → nat) : Prop := {
  pl_cleared : cleared (beyond (nv_count (sb_parent b)) (p_count (sb_parent b)))
    (dedup (sort_triples (sb_id_additions b))) (dedup (sort_triples (sb_id_removals b))) A1 R1;
  pl_entries : new_entries (sb_parent b) (cp_nodes plan) (cp_predicates plan) (cp_values plan);
  pl_low id : id ≤ nv_count (sb_parent b) → g id = id;
  pl_p_low id : id ≤ p_count (sb_parent b) → gp id = id;
  pl_high e id t : t ∈ A1 → subject t = id ∨ object t = id → nv_count (sb_parent b) < id →
    sb_nodes_values_map b !! e = Some id →
    entry_place (cp_nodes plan) (cp_values plan) (nv_count (sb_parent b)) e (g id);
  pl_p_high p id t : t ∈ A1 → predicate t = id → p_count (sb_parent b) < id → sb_predicates_map b !! p = Some id →
    ∃ k, cp_predicates plan !! k = Some p ∧ gp id = p_count (sb_parent b) + 1 + k;
  pl_additions : cp_additions plan = sort_triples (rename g gp <$> A1);
  pl_removals : cp_removals plan = sort_triples R1;
}.

Lemma beyond_false nv p t : beyond nv p t = false ↔ in_range nv p t.
Proof. unfold beyond, in_range. rewrite bool_decide_eq_false. lia. Qed.

Lemma in_range_le nv nv' p p' t : nv ≤ nv' → p ≤ p' → in_range nv p t → in_range nv' p' t.
Proof. unfold in_range. lia. Qed.

Lemma zero_in_range nv p : in_range nv p zero_triple.
Proof. unfold in_range. simpl. lia. Qed.

Lemma cleared_ranges b A1 R1 :
  Forall (sb_range b) (sb_id_additions b) →
  cleared (beyond (nv_count (sb_parent b)) (p_count (sb_parent b)))
    (dedup (sort_triples (sb_id_additions b))) (dedup (sort_triples (sb_id_removals b))) A1 R1 →
  Forall (sb_range b) (A1 ++ R1) ∧ Forall (in_range (nv_count (sb_parent b)) (p_count (sb_parent b))) R1.
Proof.
  intros Hall [_ _ HA HR]. rewrite Forall_forall in Hall.
  assert (Forall (in_range (nv_count (sb_parent b)) (p_count (sb_parent b))) R1) as HR1.
  { apply Forall_forall. intros t [[_ Ht%beyond_false]| ->]%HR; [done|apply zero_in_range]. }
  split; [|done]. apply Forall_app. split.
  - apply Forall_forall. intros t [Ht| ->]%HA; [|apply zero_in_range].
    apply Hall. by apply (sort_triples_dedup (sb_id_additions b)).
  - eapply Forall_impl; [exact HR1|]. intros t. apply in_range_le; lia.
Qed.

Lemma entry_nodes_keys (U : list (ObjectType * nat)) : NoDup U.*1 → NoDup (entry_nodes U).*1.
Proof.
  intros Hnd. apply (NoDup_fmap_1 Node). rewrite <- list_fmap_compose. unfold entry_nodes.
  apply (omap_NoDup _ fst); [|done]. by intros [[n|v] id] y [= <-].
Qed.

Lemma entry_values_keys (U : list (ObjectType * nat)) : NoDup U.*1 → NoDup (entry_values U).*1.
Proof.
  intros Hnd. apply (NoDup_fmap_1 Value). rewrite <- list_fmap_compose. unfold entry_values.
  apply (omap_NoDup _ fst); [|done]. by intros [[n|v] id] y [= <-].
Qed.

Lemma entry_nodes_ids (U : list (ObjectType * nat)) : NoDup U.*2 → NoDup (entry_nodes U).*2.
Proof. unfold entry_nodes. apply (omap_NoDup _ snd). by intros [[n|v] id] y [= <-]. Qed.

Lemma entry_values_ids (U : list (ObjectType * nat)) : NoDup U.*2 → NoDup (entry_values U).*2.
Proof. unfold entry_values. apply (omap_NoDup _ snd). by intros [[n|v] id] y [= <-]. Qed.

(** Nodes and values have different ids. *)
Lemma entries_disjoint (U : list (ObjectType * nat)) s v id :
  NoDup U.*2 → (s, id) ∈ entry_nodes U → (v, id) ∈ entry_values U → False.
Proof.
  intros Hnd Hs%elem_of_entry_nodes Hv%elem_of_entry_values.
  apply list_elem_of_lookup in Hs as [i Hi], Hv as [j Hj].
  assert (i = j) as ->; [|congruence].
  eapply (NoDup_lookup U.*2); [done|by rewrite list_lookup_fmap, Hi|by rewrite list_lookup_fmap, Hj].
Qed.

(** Both halves of the new entries get their places. *)
Lemma entries_ids offset n (U : list (ObjectType * nat)) :
  NoDup U.*2 → Forall (λ e, offset < e.2 ∧ e.2 ≤ offset + n) U →
  let nodes := sort_pairs string_lt (entry_nodes U) in
  let values := sort_pairs value_lt (entry_values U) in
  ∃ m1 m2, assign_ids offset (offset + 1) nodes (replicate n 0) = Ok m1 ∧
    assign_ids offset (offset + length nodes + 1) values m1 = Ok m2 ∧ length m2 = n ∧
    ∀ e id, (e, id) ∈ U → entry_place nodes.*1 values.*1 offset e (final_id offset m2 id).
Proof.
  intros Hnd Hall nodes values. rewrite Forall_forall in Hall.
  destruct (dictionary_ids string_lt offset (offset + 1) (entry_nodes U) (replicate n 0)) as (m1 & E1 & L1 & F1 & _).
  { by apply entry_nodes_ids. }
  { apply Forall_forall. intros [s id] Hin%elem_of_entry_nodes. rewrite length_replicate. apply (Hall (Node s, id) Hin). }
  rewrite length_replicate in L1.
  destruct (dictionary_ids value_lt offset (offset + length nodes + 1) (entry_values U) m1) as (m2 & E2 & L2 & F2 & O2).
  { by apply entry_values_ids. }
  { apply Forall_forall. intros [v id] Hin%elem_of_entry_values. rewrite L1. apply (Hall (Value v, id) Hin). }
  exists m1, m2. split_and!; [done|done|congruence|]. intros [s|v] id Hin; simpl.
  - apply elem_of_entry_nodes in Hin. destruct (F1 s id Hin) as (k & Hk & Hf). exists k. split; [done|].
    rewrite O2; [done|]. intros ([v id'] & -> & Hv)%list_elem_of_fmap. by eapply entries_disjoint.
  - apply elem_of_entry_values in Hin. destruct (F2 v id Hin) as (k & Hk & Hf). exists k. by rewrite length_fmap.
Qed.
(** The dictionaries are sorted and new to the parent. *)
Lemma used_new_entries b nvs ps :
  sb_tables b →
  let U := used_entries (nv_count (sb_parent b)) (sb_nodes_values_map b) nvs in
  new_entries (sb_parent b) (sort_pairs string_lt (entry_nodes U)).*1
    (sort_pairs string_lt (used_entries (p_count (sb_parent b)) (sb_predicates_map b) ps)).*1
    (sort_pairs value_lt (entry_values U)).*1.
Proof.
  intros [Hok Hnv Hp _ _] U. assert (NoDup U.*1) as Hk by apply used_keys_NoDup.
  pose proof (λ e id, entry_known_bound _ e id Hok) as Hb. pose proof (λ p id, predicate_known_bound _ p id Hok) as Hpb.
  assert (∀ e id, (e, id) ∈ U → entry_known (sb_parent b) e = Ok None) as Hnew.
  { intros e id. by apply (used_unknown _ _ _ _ Hb Hnv). }
  split.
  - by apply (sort_pairs_keys string_lt), entry_nodes_keys.
  - apply (sort_pairs_keys string_lt), used_keys_NoDup.
  - eapply sorted_weaken; [intros x y; apply value_lt_te|]. by apply (sort_pairs_keys value_lt), entry_values_keys.
  - intros s [id Hin%elem_of_entry_nodes]%(sort_pairs_elem string_lt). by eapply Hnew.
  - intros p [id Hin]%(sort_pairs_elem string_lt). by apply (used_unknown _ _ _ _ Hpb Hp ps p id).
  - intros v [id Hin%elem_of_entry_values]%(sort_pairs_elem value_lt). by eapply Hnew.
Qed.

Lemma rename_low g gp nv p t :
  (∀ id, id ≤ nv → g id = id) → (∀ id, id ≤ p → gp id = id) → in_range nv p t → rename g gp t = t.
Proof. intros Hg Hgp (Hs & Hp & Ho). unfold rename. rewrite !Hg, Hgp by done. by destruct t. Qed.

Lemma final_id_low offset m id : id ≤ offset → final_id offset m id = id.
Proof. intros Hle. unfold final_id. by rewrite decide_False by lia. Qed.

Lemma plan_commit_spec b :
  sb_tables b → Forall (sb_range b) (sb_id_additions b) →
  ∃ plan A1 R1 g gp, plan_commit b = Ok plan ∧ planned b plan A1 R1 g gp.
Proof.
  intros Ht Hrange. pose proof Ht as [Hok Hnv Hp _ _].
  pose proof (λ e id, entry_known_bound _ e id Hok) as Hb. pose proof (λ p id, predicate_known_bound _ p id Hok) as Hpb.
  unfold plan_commit. change (sb_nv_offset b) with (nv_count (sb_parent b)). change (sb_p_offset b) with (p_count (sb_parent b)).
  set (P := nv_count (sb_parent b)) in *. set (Q := p_count (sb_parent b)) in *.
  pose proof (clear_noops_spec (beyond P Q) _ _ (proj1 (sort_triples_dedup (sb_id_additions b)))
    (proj1 (sort_triples_dedup (sb_id_removals b)))) as Hc. unfold beyond in Hc at 2 3.
  destruct (clear_noops _ _ _) as [A1 R1]. simpl in Hc.
  destruct (cleared_ranges b A1 R1 Hrange Hc) as [Hall HR]. pose proof Hall as [HA1 HR1]%Forall_app.
  unfold sb_range in Hall, HA1, HR1. fold P Q in Hall, HA1, HR1.
  destruct (mark_triples_spec P Q (A1 ++ R1) (replicate (sb_node_count b + sb_val_count b) false)
              (replicate (sb_pred_count b) false)) as (nvs & ps & -> & Lnv & Lp & Mnv & Mp).
  { by rewrite !length_replicate. }
  rewrite length_replicate in Lnv, Lp. cbn [mbind outcome_bind].
  rewrite (collect_used_spec P nvs) by (rewrite Lnv; by apply (table_bound _ _ _ _ Hb Hnv)). cbn [mbind outcome_bind].
  rewrite (collect_used_spec Q ps) by (rewrite Lp; by apply (table_bound _ _ _ _ Hpb Hp)). cbn [mbind outcome_bind].
  fold (used_entries P (sb_nodes_values_map b) nvs) (used_entries Q (sb_predicates_map b) ps).
  set (U := used_entries P (sb_nodes_values_map b) nvs). set (V := used_entries Q (sb_predicates_map b) ps).
  destruct (entries_ids P (sb_node_count b + sb_val_count b) U) as (m1 & m2 & -> & E2 & Lm & F).
  { by eapply used_ids_NoDup. }
  { by apply (used_bound _ _ _ _ Hb Hnv). }
  cbn [mbind outcome_bind]. rewrite E2. cbn [mbind outcome_bind].
  destruct (dictionary_ids string_lt Q (Q + 1) V (replicate (sb_pred_count b) 0)) as (pm & E3 & Lpm & Fp & _).
  { by eapply used_ids_NoDup. }
  { rewrite length_replicate. by apply (used_bound _ _ _ _ Hpb Hp). }
  rewrite E3. rewrite length_replicate in Lpm. cbn [mbind outcome_bind].
  rewrite map_triples_spec by by rewrite Lm, Lpm. cbn [mbind outcome_bind].
  rewrite map_triples_spec by by rewrite Lm, Lpm. cbn [mbind outcome_bind].
  eexists _, A1, R1, (final_id P m2), (final_id Q pm). split; [reflexivity|].
  split; cbn [cp_nodes cp_values cp_predicates cp_additions cp_removals]; fold P Q.
  - exact Hc.
  - apply (used_new_entries b nvs ps Ht).
  - intros id. apply final_id_low.
  - intros id. apply final_id_low.
  - intros e id t Hin Heq Hlt He. apply F, elem_of_used. split; [|done]. split; [done|].
    apply Mnv. right. exists t. split; [apply elem_of_app; by left|]. lia.
  - intros p id t Hin Heq Hlt He. apply Fp, elem_of_used. split; [|done]. split; [done|].
    apply Mp. right. exists t. split; [apply elem_of_app; by left|]. lia.
  - done.
  - f_equal. rewrite <- (list_fmap_id R1) at 2. apply list_fmap_ext. intros i t Hi.
    apply (rename_low (final_id P m2) (final_id Q pm) P Q); [intros id; apply final_id_low..|].
    rewrite Forall_lookup in HR. by eapply HR.
Qed.
End plan.
