(* ===== verification/CommitSpec.v ===== *)
(** What a commit of [SimpleBuilder] makes of a parent layer: a layer in which the
    triples that were added are there, those that were removed are not, and all
    others are as they were; triples both added and removed stay as they were too. *)

From S2P Require Import Prelude Names Succinct LayerTypes Order Nested SubjectIterator LayerLookup ObjectIterator TripleBuilder SuccinctBuild IndexBuilder StackMerge IdMap InternalLayer LayerIds LayerQueries NewLayerIds FileBuilder FileBuilderSpec SimpleBuilder SimpleBuilderSpec CommitSteps CommitPlan.

#[export] Instance builder_op_eq_dec `{SuccinctOps} : EqDecision builder_op.
Proof. solve_decision. Defined.

(** ** The triples of a plan are sorted *)
Section renaming.
Context `{BuildLaws} (b : SimpleLayerBuilder) (plan : commit_plan) (A1 R1 : list IdTriple) (g gp : nat → nat).
Context (Ht : sb_tables b) (Hp : planned b plan A1 R1 g gp) (Hrange : Forall (sb_range b) (sb_id_additions b)).
Notation parent := (sb_parent b).

Lemma place_above nodes values offset e id : entry_place nodes values offset e id → offset < id.
Proof. destruct e; intros (k & _ & ->); lia. Qed.

Lemma place_injective nodes values offset e1 e2 id :
  NoDup nodes → NoDup values → entry_place nodes values offset e1 id → entry_place nodes values offset e2 id → e1 = e2.
Proof.
  intros Hn Hv. destruct e1, e2; intros (k1 & Hk1 & ->) (k2 & Hk2 & Heq);
    apply lookup_lt_Some in Hk1 as L1; apply lookup_lt_Some in Hk2 as L2; try lia;
    (assert (k1 = k2) as -> by lia); congruence.
Qed.

Lemma additions_range t : t ∈ A1 → sb_range b t.
Proof.
  destruct (cleared_ranges b A1 R1 Hrange (pl_cleared _ _ _ _ _ _ Hp)) as [[Hall _]%Forall_app _].
  rewrite Forall_forall in Hall. apply Hall.
Qed.

Lemma new_entry_of id : nv_count parent < id → id ≤ nv_count parent + (sb_node_count b + sb_val_count b) →
  ∃ e, sb_nodes_values_map b !! e = Some id.
Proof. intros. by apply (tab_onto _ _ _ _ (st_entries _ Ht)). Qed.

Lemma new_predicate_of id : p_count parent < id → id ≤ p_count parent + sb_pred_count b →
  ∃ p, sb_predicates_map b !! p = Some id.
Proof. intros. by apply (tab_onto _ _ _ _ (st_predicates _ Ht)). Qed.

(** An id of a node or a value in one of the additions. *)
Definition mentioned (id : nat) : Prop := ∃ t, t ∈ A1 ∧ (subject t = id ∨ object t = id).
Definition mentioned_predicate (id : nat) : Prop := ∃ t, t ∈ A1 ∧ predicate t = id.

Lemma mentioned_cases id : mentioned id → (id ≤ nv_count parent ∧ g id = id) ∨
  (nv_count parent < id ∧ ∃ e, sb_nodes_values_map b !! e = Some id ∧
     entry_place (cp_nodes plan) (cp_values plan) (nv_count parent) e (g id)).
Proof.
  intros (t & Hin & Heq). destruct (decide (id ≤ nv_count parent)) as [Hle|Hgt].
  - left. split; [done|]. by apply (pl_low _ _ _ _ _ _ Hp).
  - right. split; [lia|]. destruct (additions_range t Hin) as (? & _ & ?).
    destruct (new_entry_of id) as [e He]; [lia..|]. exists e. split; [done|].
    apply (pl_high _ _ _ _ _ _ Hp e id t); [done|lia|lia|done].
Qed.

Lemma mentioned_predicate_cases id : mentioned_predicate id → (id ≤ p_count parent ∧ gp id = id) ∨
  (p_count parent < id ∧ ∃ p k, sb_predicates_map b !! p = Some id ∧ cp_predicates plan !! k = Some p ∧
     gp id = p_count parent + 1 + k).
Proof.
  intros (t & Hin & Heq). destruct (decide (id ≤ p_count parent)) as [Hle|Hgt].
  - left. split; [done|]. by apply (pl_p_low _ _ _ _ _ _ Hp).
  - right. split; [lia|]. destruct (additions_range t Hin) as (_ & ? & _).
    destruct (new_predicate_of id) as [p He]; [lia..|].
    destruct (pl_p_high _ _ _ _ _ _ Hp p id t) as (k & Hk & Hgp); [done|lia|lia|done|]. by exists p, k.
Qed.

Lemma plan_NoDup : NoDup (cp_nodes plan) ∧ NoDup (cp_predicates plan) ∧ NoDup (cp_values plan).
Proof.
  destruct (pl_entries _ _ _ _ _ _ Hp) as [Hn Hpr Hv _ _ _]. pose proof te_lt_order as [Hirr _].
  split_and!; [by apply (StronglySorted_NoDup string_lt)..|]. by apply (StronglySorted_NoDup te_lt).
Qed.

Lemma g_injective id1 id2 : mentioned id1 → mentioned id2 → g id1 = g id2 → id1 = id2.
Proof.
  intros [[L1 E1]|(L1 & e1 & M1 & P1)]%mentioned_cases [[L2 E2]|(L2 & e2 & M2 & P2)]%mentioned_cases Heq; [congruence| | |].
  - apply place_above in P2. lia.
  - apply place_above in P1. lia.
  - rewrite Heq in P1. destruct plan_NoDup as (Hn & _ & Hv).
    pose proof (place_injective _ _ _ _ _ _ Hn Hv P1 P2). congruence.
Qed.

Lemma gp_injective id1 id2 : mentioned_predicate id1 → mentioned_predicate id2 → gp id1 = gp id2 → id1 = id2.
Proof.
  intros [[L1 E1]|(L1 & p1 & k1 & M1 & P1 & G1)]%mentioned_predicate_cases
    [[L2 E2]|(L2 & p2 & k2 & M2 & P2 & G2)]%mentioned_predicate_cases Heq; [congruence|lia|lia|].
  assert (k1 = k2) as -> by lia. congruence.
Qed.

Lemma g_zero id : mentioned id → g id = 0 ↔ id = 0.
Proof. intros [[? ->]|(? & e & _ & Hpl%place_above)]%mentioned_cases; [done|lia]. Qed.
Lemma gp_zero id : mentioned_predicate id → gp id = 0 ↔ id = 0.
Proof. intros [[? ->]|(? & p & k & _ & _ & ->)]%mentioned_predicate_cases; [done|lia]. Qed.

Lemma mentions t : t ∈ A1 → mentioned (subject t) ∧ mentioned_predicate (predicate t) ∧ mentioned (object t).
Proof. intros Hin. split_and!; exists t; auto. Qed.

Lemma rename_pos t : t ∈ A1 → triple_pos (rename g gp t) ↔ triple_pos t.
Proof.
  intros (Hs & Hpr & Ho)%mentions. unfold triple_pos, rename. simpl.
  rewrite (g_zero _ Hs), (gp_zero _ Hpr), (g_zero _ Ho). done.
Qed.

Lemma rename_injective t1 t2 : t1 ∈ A1 → t2 ∈ A1 → rename g gp t1 = rename g gp t2 → t1 = t2.
Proof.
  intros (Hs1 & Hp1 & Ho1)%mentions (Hs2 & Hp2 & Ho2)%mentions [= Es Ep Eo].
  apply g_injective in Es, Eo; [|done..]. apply gp_injective in Ep; [|done..]. destruct t1, t2. simpl in *. congruence.
Qed.

Lemma sorted_again ts : NoDup (filter triple_pos ts) → triples_sorted spo (filter triple_pos (sort_triples ts)).
Proof.
  intros Hnd. apply sorted_strict; [by rewrite (sort_triples_perm ts)|]. apply sorted_filter, sort_triples_sorted.
Qed.

Lemma dedup_NoDup l : NoDup (dedup (sort_triples l)).
Proof. apply (StronglySorted_NoDup (triple_lt spo)), sort_triples_dedup. Qed.

Lemma plan_sorted :
  triples_sorted spo (filter triple_pos (cp_additions plan)) ∧ triples_sorted spo (filter triple_pos (cp_removals plan)).
Proof.
  pose proof (pl_cleared _ _ _ _ _ _ Hp) as [Ha Hr _ _].
  rewrite (pl_additions _ _ _ _ _ _ Hp), (pl_removals _ _ _ _ _ _ Hp). split; apply sorted_again.
  - rewrite filter_fmap. apply NoDup_fmap_2_strong.
    + intros t1 t2 [_ Hin1]%list_elem_of_filter [_ Hin2]%list_elem_of_filter. by apply rename_injective.
    + rewrite (filter_ext_in _ triple_pos) by (intros t Hin; by apply rename_pos).
      rewrite Ha. apply NoDup_filter, dedup_NoDup.
  - rewrite Hr. apply NoDup_filter, dedup_NoDup.
Qed.
End renaming.

(** ** The layer that is written *)
Section written.
Context `{BuildLaws}.

(** The stack of a parent that may be missing. *)
Definition stack_of (parent : option InternalLayer) (st : list (list IdTriple * list IdTriple)) : Prop :=
  match parent with None => st = [] | Some p => stack_holds p st end.

Lemma effective_empty keep ts : effective [] keep ts = if keep : bool then [] else filter triple_pos ts.
Proof.
  unfold effective. destruct keep.
  - induction ts as [|t ts IH]; [done|]. rewrite (filter_cons _ t). by rewrite decide_False.
  - f_equal. induction ts as [|t ts IH]; [done|]. rewrite filter_cons, IH. by rewrite decide_True.
Qed.

Lemma write_plan_spec limit stored n parent st plan :
  stack_of parent st → new_entries parent (cp_nodes plan) (cp_predicates plan) (cp_values plan) →
  triples_sorted spo (filter triple_pos (cp_additions plan)) → triples_sorted spo (filter triple_pos (cp_removals plan)) →
  ∃ l, write_plan limit stored n parent plan = Ok l ∧
    new_layer parent l (cp_nodes plan) (cp_predicates plan) (cp_values plan) ∧
    stack_holds l ((effective st false (cp_additions plan), effective st true (cp_removals plan)) :: st) ∧
    layer_name l = n ∧ immediate_parent l = parent.
Proof.
  intros Hst Hne Ha Hr. destruct parent as [p|]; simpl in Hst.
  - by apply child_written.
  - subst st. rewrite !effective_empty. by apply base_written.
Qed.

Context (parent : option InternalLayer) (l : InternalLayer) (nodes predicates : list string) (values : list TypedDictEntry).
Context (Hl : new_layer parent l nodes predicates values) (Hok : ids_ok parent).

Lemma place_known e id : entry_place nodes values (nv_count parent) e id → entry_known (Some l) e = Ok (Some id).
Proof.
  intros Hpl. rewrite (top_known _ _ _ _ _ Hl) by done. destruct e as [s|v]; destruct Hpl as (k & Hk & ->).
  - rewrite (find_new_node _ _ _ _ _ Hl _ _ Hk). do 2 f_equal. lia.
  - rewrite (find_new_value _ _ _ _ _ Hl _ _ Hk). do 2 f_equal. lia.
Qed.

Lemma place_predicate p k : predicates !! k = Some p → predicate_known (Some l) p = Ok (Some (p_count parent + 1 + k)).
Proof.
  intros Hk. rewrite (top_predicate _ _ _ _ _ Hl), (find_new_predicate _ _ _ _ _ Hl _ _ Hk) by done. do 2 f_equal. lia.
Qed.
End written.

(** ** Ids of the builder and of the layer *)
Section ids.
Context `{BuildLaws} (b : SimpleLayerBuilder) (plan : commit_plan) (A1 R1 : list IdTriple) (g gp : nat → nat).
Context (Ht : sb_tables b) (Hp : planned b plan A1 R1 g gp) (Hrange : Forall (sb_range b) (sb_id_additions b)).
Notation parent := (sb_parent b).
Context (l : InternalLayer) (Hl : new_layer parent l (cp_nodes plan) (cp_predicates plan) (cp_values plan)).
Context (Hok : ids_ok (Some l)).
Let Hpar : ids_ok parent := st_ok b Ht.
Let Hb e id := entry_known_bound parent e id (st_ok b Ht).
Let Hpb p id := predicate_known_bound parent p id (st_ok b Ht).

Lemma mentioned_known id e : mentioned A1 id → sb_entry b e id → entry_known (Some l) e = Ok (Some (g id)).
Proof.
  intros Hm He. destruct (mentioned_cases b plan A1 R1 g gp Ht Hp Hrange id Hm) as [[Hle ->]|(Hlt & e' & He' & Hpl)].
  - eapply (entry_kept _ _ _ _ _ Hl Hpar). by apply (temp_low _ _ _ _ (st_entries _ Ht)) in He.
  - assert (e = e') as -> by (eapply (temp_injective _ _ Hb (λ e1 e2 id, entry_known_inj parent e1 e2 id (st_ok b Ht)) _ _ (st_entries _ Ht)); [exact He|by left]).
    by apply (place_known _ _ _ _ _ Hl Hpar).
Qed.

Lemma known_mentioned id e : mentioned A1 id → entry_known (Some l) e = Ok (Some (g id)) → sb_entry b e id.
Proof.
  intros Hm Hk. destruct (mentioned_cases b plan A1 R1 g gp Ht Hp Hrange id Hm) as [[Hle Hg]|(Hlt & e' & He' & Hpl)].
  - rewrite Hg in Hk. eapply temp_known; [exact (st_entries _ Ht)|]. by eapply (entry_low _ _ _ _ _ Hl Hpar).
  - apply (place_known _ _ _ _ _ Hl Hpar) in Hpl. rewrite (entry_known_inj _ _ _ _ Hok Hk Hpl). by left.
Qed.

Lemma mentioned_known_predicate id p :
  mentioned_predicate A1 id → sb_predicate b p id → predicate_known (Some l) p = Ok (Some (gp id)).
Proof.
  intros Hm He. destruct (mentioned_predicate_cases b plan A1 R1 g gp Ht Hp Hrange id Hm) as [[Hle ->]|(Hlt & p' & k & Hp' & Hk & ->)].
  - eapply (predicate_kept _ _ _ _ _ Hl Hpar). by apply (temp_low _ _ _ _ (st_predicates _ Ht)) in He.
  - assert (p = p') as -> by (eapply (temp_injective _ _ Hpb (λ e1 e2 id, predicate_known_inj parent e1 e2 id (st_ok b Ht)) _ _ (st_predicates _ Ht)); [exact He|by left]).
    by apply (place_predicate _ _ _ _ _ Hl Hpar).
Qed.

Lemma known_mentioned_predicate id p :
  mentioned_predicate A1 id → predicate_known (Some l) p = Ok (Some (gp id)) → sb_predicate b p id.
Proof.
  intros Hm Hk. destruct (mentioned_predicate_cases b plan A1 R1 g gp Ht Hp Hrange id Hm) as [[Hle Hg]|(Hlt & p' & k & Hp' & Hkp & Hg)].
  - rewrite Hg in Hk. eapply temp_known; [exact (st_predicates _ Ht)|]. by eapply (predicate_low _ _ _ _ _ Hl Hpar).
  - apply (place_predicate _ _ _ _ _ Hl Hpar) in Hkp. rewrite Hg in Hk.
    rewrite (predicate_known_inj _ _ _ _ Hok Hk Hkp). by left.
Qed.

(** The triple of a triple of names in a layer. *)
Definition sees (layer : option InternalLayer) (vt : ValueTriple) (t : IdTriple) : Prop :=
  entry_known layer (Node (vt_subject vt)) = Ok (Some (subject t)) ∧
  predicate_known layer (vt_predicate vt) = Ok (Some (predicate t)) ∧
  entry_known layer (vt_object vt) = Ok (Some (object t)).

Lemma sees_addition t vt : t ∈ A1 → sees (Some l) vt (rename g gp t) ↔ sb_triple b vt t.
Proof.
  intros (Hs & Hpr & Ho)%mentions. unfold sees, sb_triple. simpl subject. simpl predicate. simpl object. split.
  - intros (Ks & Kp & Ko). split_and!; [by apply known_mentioned|by apply known_mentioned_predicate|by apply known_mentioned].
  - intros (Ks & Kp & Ko). split_and!; [by apply mentioned_known|by apply mentioned_known_predicate|by apply mentioned_known].
Qed.

Lemma sees_low t vt : in_range (nv_count parent) (p_count parent) t → sees (Some l) vt t → sees parent vt t.
Proof.
  intros (Hs & Hpr & Ho) (Ks & Kp & Ko). split_and!;
    [by eapply (entry_low _ _ _ _ _ Hl Hpar)|by eapply (predicate_low _ _ _ _ _ Hl Hpar)|by eapply (entry_low _ _ _ _ _ Hl Hpar)].
Qed.

Lemma sees_kept t vt : sees parent vt t → sees (Some l) vt t.
Proof.
  intros (Ks & Kp & Ko). split_and!;
    [by eapply (entry_kept _ _ _ _ _ Hl Hpar)|by eapply (predicate_kept _ _ _ _ _ Hl Hpar)|by eapply (entry_kept _ _ _ _ _ Hl Hpar)].
Qed.

Lemma sees_range t vt : sees parent vt t → in_range (nv_count parent) (p_count parent) t.
Proof. intros (Ks%Hb & Kp%Hpb & Ko%Hb). unfold in_range. lia. Qed.

Lemma sees_triple t vt : sees parent vt t → sb_triple b vt t.
Proof.
  intros (Ks & Kp & Ko). split_and!; (eapply temp_known; [|done]);
    [exact (st_entries _ Ht)|exact (st_predicates _ Ht)|exact (st_entries _ Ht)].
Qed.

Lemma triple_sees t vt : sb_triple b vt t → in_range (nv_count parent) (p_count parent) t → sees parent vt t.
Proof.
  intros (Ks & Kp & Ko) (Hs & Hpr & Ho). split_and!;
    [by apply (temp_low _ _ _ _ (st_entries _ Ht))|by apply (temp_low _ _ _ _ (st_predicates _ Ht))|by apply (temp_low _ _ _ _ (st_entries _ Ht))].
Qed.

Lemma triple_positive t vt : sb_triple b vt t → triple_pos t.
Proof.
  intros (Ks & Kp & Ko). unfold triple_pos.
  apply (temp_bound _ _ Hb _ _ (st_entries _ Ht)) in Ks, Ko. apply (temp_bound _ _ Hpb _ _ (st_predicates _ Ht)) in Kp.
  lia.
Qed.
End ids.

(** ** What was asked for *)
Section requests.
Context `{BuildLaws}.

(** Ids that are given to a builder are those of its parent. *)
Definition op_in_range (parent : option InternalLayer) (op : builder_op) : Prop :=
  match op with
  | AddId t | RemoveId t => in_range (nv_count parent) (p_count parent) t
  | _ => True
  end.

(** The calls ask for a triple, by its names or by its ids. *)
Definition asks (by_value : ValueTriple → builder_op) (by_id : IdTriple → builder_op)
    (parent : option InternalLayer) (ops : list builder_op) (vt : ValueTriple) : bool :=
  bool_decide (by_value vt ∈ ops) ||
  match parent with
  | Some p => match value_triple_to_id p vt with Ok (Some t) => bool_decide (by_id t ∈ ops) | _ => false end
  | None => false
  end.
Definition asks_add := asks AddValue AddId.
Definition asks_remove := asks RemoveValue RemoveId.

Lemma sees_to_id p vt t : sees (Some p) vt t ↔ value_triple_to_id p vt = Ok (Some t).
Proof. symmetry. apply value_triple_known. Qed.

Lemma sb_triple_injective b vt1 vt2 t : sb_tables b → sb_triple b vt1 t → sb_triple b vt2 t → vt1 = vt2.
Proof.
  intros Ht (S1 & P1 & O1) (S2 & P2 & O2). pose proof Ht as [Hok He Hp _ _].
  pose proof (temp_injective _ _ (λ e id, entry_known_bound _ e id Hok) (λ e1 e2 id, entry_known_inj _ e1 e2 id Hok) _ _ He) as Ie.
  pose proof (temp_injective _ _ (λ e id, predicate_known_bound _ e id Hok) (λ e1 e2 id, predicate_known_inj _ e1 e2 id Hok) _ _ Hp) as Ip.
  destruct vt1, vt2. simpl in *. pose proof (Ie _ _ _ S1 S2) as [= ->]. rewrite (Ip _ _ _ P1 P2). by rewrite (Ie _ _ _ O1 O2).
Qed.

Lemma asks_spec by_value by_id b ops vt t (L : list IdTriple) :
  sb_tables b → (∀ t, by_id t ∈ ops → in_range (nv_count (sb_parent b)) (p_count (sb_parent b)) t) →
  (∀ t, t ∈ L ↔ (∃ vt, by_value vt ∈ ops ∧ sb_triple b vt t) ∨ by_id t ∈ ops) →
  sb_triple b vt t → t ∈ L ↔ asks by_value by_id (sb_parent b) ops vt = true.
Proof.
  intros Ht Hin HL Hvt. rewrite HL. unfold asks. rewrite orb_true_iff, bool_decide_eq_true. split.
  - intros [(vt' & Hop & Hvt')|Hop]; [left; by rewrite (sb_triple_injective b vt vt' t)|right].
    pose proof (triple_sees b Ht t vt Hvt (Hin t Hop)) as Hs. destruct (sb_parent b) as [p|]; [|by destruct Hs].
    apply sees_to_id in Hs. rewrite Hs. by apply bool_decide_eq_true.
  - intros [Hop|Hop]; [left; by exists vt|right]. destruct (sb_parent b) as [p|] eqn:Hpar; [|done].
    destruct (value_triple_to_id p vt) as [[t'|]| | |] eqn:Hv; [|done..]. apply bool_decide_eq_true in Hop.
    apply sees_to_id in Hv. rewrite <- Hpar in Hv. apply (sees_triple b Ht) in Hv.
    by rewrite (sb_triple_functional b vt t t' Hvt Hv).
Qed.

(** What a builder collected, in these terms. *)
Record collects (b : SimpleLayerBuilder) (ops : list builder_op) : Prop := {
  co_adds vt t : sb_triple b vt t → t ∈ sb_id_additions b ↔ asks_add (sb_parent b) ops vt = true;
  co_removes vt t : sb_triple b vt t → t ∈ sb_id_removals b ↔ asks_remove (sb_parent b) ops vt = true;
  co_triple vt : asks_add (sb_parent b) ops vt = true → ∃ t, sb_triple b vt t;
  co_range : Forall (sb_range b) (sb_id_additions b);
}.

Lemma sb_triple_range b vt t : sb_tables b → sb_triple b vt t → sb_range b t.
Proof.
  intros Ht (S1 & P1 & O1). pose proof Ht as [Hok He Hp _ _].
  apply (temp_bound _ _ (λ e id, entry_known_bound _ e id Hok) _ _ He) in S1, O1.
  apply (temp_bound _ _ (λ e id, predicate_known_bound _ e id Hok) _ _ Hp) in P1. unfold sb_range, in_range. lia.
Qed.

Lemma collected_collects b ops :
  sb_tables b → collected b ops → Forall (op_in_range (sb_parent b)) ops → collects b ops.
Proof.
  intros Ht (Ha & Hr & Hv) Hops. rewrite Forall_forall in Hops.
  assert (∀ t, t ∈ sb_id_additions b ↔ (∃ vt, AddValue vt ∈ ops ∧ sb_triple b vt t) ∨ AddId t ∈ ops) as Ha'.
  { intros t. rewrite Ha. split.
    - intros ([vt|i|vt|i] & Hop & Hd); simpl in Hd; try done; [left; by exists vt|right; by subst].
    - intros [(vt & Hop & Hd)|Hop]; [by exists (AddValue vt)|by exists (AddId t)]. }
  assert (∀ t, t ∈ sb_id_removals b ↔ (∃ vt, RemoveValue vt ∈ ops ∧ sb_triple b vt t) ∨ RemoveId t ∈ ops) as Hr'.
  { intros t. rewrite Hr. split.
    - intros ([vt|i|vt|i] & Hop & Hd); simpl in Hd; try done; [left; by exists vt|right; by subst].
    - intros [(vt & Hop & Hd)|Hop]; [by exists (RemoveValue vt)|by exists (RemoveId t)]. }
  split.
  - intros vt t. apply asks_spec; [done|intros i Hi; by apply (Hops _ Hi)|done].
  - intros vt t. apply asks_spec; [done|intros i Hi; by apply (Hops _ Hi)|done].
  - intros vt [Hop|Hop]%orb_true_iff; [apply Hv; left; by apply bool_decide_eq_true in Hop|].
    destruct (sb_parent b) as [p|] eqn:Hpar; [|done].
    destruct (value_triple_to_id p vt) as [[t|]| | |] eqn:Hvt; [|done..]. exists t. apply (sees_triple b Ht).
    rewrite Hpar. by apply sees_to_id.
  - apply Forall_forall. intros t [(vt & _ & Hvt)|Hop]%Ha'; [by eapply sb_triple_range|].
    eapply in_range_le; [| |apply (Hops _ Hop)]; lia.
Qed.
End requests.

(** ** The layer of a commit *)
Section commit.
Context `{BuildLaws}.

(** The triples of a stack have ids the layer knows. *)
Definition stack_in_range (parent : option InternalLayer) (st : list (list IdTriple * list IdTriple)) : Prop :=
  ∀ t, exists_in st t = true → in_range (nv_count parent) (p_count parent) t.

(** A triple of names, in a layer that may be missing, and after the calls. *)
Definition parent_has (parent : option InternalLayer) (vt : ValueTriple) : outcome bool :=
  match parent with Some p => value_triple_exists p vt | None => Ok false end.

Definition after (parent : option InternalLayer) (ops : list builder_op) (vt : ValueTriple) (before : bool) : bool :=
  match asks_add parent ops vt, asks_remove parent ops vt with
  | true, false => true
  | false, true => false
  | _, _ => before
  end.

Lemma parent_has_sees parent st vt t :
  stack_of parent st → sees parent vt t → parent_has parent vt = Ok (exists_in st t).
Proof.
  destruct parent as [p|]; [|by intros _ []]. intros Hst Hs%sees_to_id. simpl. unfold value_triple_exists.
  rewrite Hs. cbn [mbind outcome_bind]. by apply layer_exists_query.
Qed.

Lemma parent_has_unknown parent vt : ids_ok parent → (∀ t, ¬ sees parent vt t) → parent_has parent vt = Ok false.
Proof.
  destruct parent as [p|]; [|done]. intros [Hwf Hd] Hno. simpl. unfold value_triple_exists.
  rewrite value_triple_unknown; [done..|]. intros t Ht%sees_to_id. by apply (Hno t).
Qed.

Lemma sees_cases parent vt : (∃ t, sees parent vt t) ∨ ∀ t, ¬ sees parent vt t.
Proof.
  destruct parent as [p|]; [|right; by intros t []].
  destruct (value_triple_to_id p vt) as [[t|]| | |] eqn:Hv; [left; exists t; by apply sees_to_id|right..];
    intros t Ht%sees_to_id; by rewrite Hv in Ht.
Qed.

Lemma sees_functional parent vt t1 t2 : sees parent vt t1 → sees parent vt t2 → t1 = t2.
Proof. intros (S1 & P1 & O1) (S2 & P2 & O2). destruct t1, t2. simpl in *. congruence. Qed.

Context (b : SimpleLayerBuilder) (ops : list builder_op) (plan : commit_plan) (A1 R1 : list IdTriple) (g gp : nat → nat).
Notation parent := (sb_parent b).
Context (Ht : sb_tables b) (Hc : collects b ops) (Hp : planned b plan A1 R1 g gp).
Context (l : InternalLayer) (Hl : new_layer parent l (cp_nodes plan) (cp_predicates plan) (cp_values plan)).
Context (st : list (list IdTriple * list IdTriple)) (Hst : stack_of parent st) (Hr : stack_in_range parent st).
Let Hrange := co_range b ops Hc.
Let Hpar : ids_ok parent := st_ok b Ht.
Let Hok : ids_ok (Some l) := new_layer_ids _ _ _ _ _ Hl Hpar.
Notation adds := (asks_add parent ops).
Notation removes := (asks_remove parent ops).
Notation top := (effective st false (cp_additions plan), effective st true (cp_removals plan)).

Lemma elem_of_A1 vt t : sb_triple b vt t → t ∈ A1 ↔ adds vt = true ∧ removes vt = false.
Proof.
  intros Hvt. pose proof (triple_positive b Ht t vt Hvt) as Hpos.
  assert (t ∈ A1 ↔ t ∈ filter triple_pos A1) as -> by (rewrite list_elem_of_filter; tauto).
  rewrite (cl_additions _ _ _ _ _ (pl_cleared _ _ _ _ _ _ Hp)), list_elem_of_filter.
  rewrite !(proj2 (sort_triples_dedup _)), (co_adds b ops Hc vt t Hvt), (co_removes b ops Hc vt t Hvt).
  rewrite not_true_iff_false. tauto.
Qed.

Lemma elem_of_R1 vt t : sees parent vt t → t ∈ R1 ↔ removes vt = true ∧ adds vt = false.
Proof.
  intros Hs. pose proof (sees_triple b Ht t vt Hs) as Hvt. pose proof (triple_positive b Ht t vt Hvt) as Hpos.
  assert (t ∈ R1 ↔ t ∈ filter triple_pos R1) as -> by (rewrite list_elem_of_filter; tauto).
  rewrite (cl_removals _ _ _ _ _ (pl_cleared _ _ _ _ _ _ Hp)), list_elem_of_filter.
  rewrite !(proj2 (sort_triples_dedup _)), (co_adds b ops Hc vt t Hvt), (co_removes b ops Hc vt t Hvt).
  rewrite not_true_iff_false, beyond_false. pose proof (sees_range b Ht t vt Hs). tauto.
Qed.

Lemma addition_written vt i :
  sees (Some l) vt i → i ∈ cp_additions plan ↔ adds vt = true ∧ removes vt = false.
Proof.
  intros Hs. rewrite (pl_additions _ _ _ _ _ _ Hp), (sort_triples_perm _), list_elem_of_fmap. split.
  - intros (t & -> & Hin). apply (elem_of_A1 vt t); [|done].
    by apply (sees_addition b plan A1 R1 g gp Ht Hp Hrange l Hl Hok).
  - intros Hask. destruct (co_triple b ops Hc vt) as [t Hvt]; [tauto|].
    pose proof (proj2 (elem_of_A1 vt t Hvt) Hask) as Hin. exists t. split; [|done].
    eapply sees_functional; [exact Hs|]. by apply (sees_addition b plan A1 R1 g gp Ht Hp Hrange l Hl Hok).
Qed.

Lemma removal_written vt i :
  sees parent vt i → i ∈ cp_removals plan ↔ removes vt = true ∧ adds vt = false.
Proof. intros Hs. rewrite (pl_removals _ _ _ _ _ _ Hp), (sort_triples_perm _). by apply elem_of_R1. Qed.

(** A triple of the parent is a triple of the layer, under the same ids. *)
Lemma below_sees vt i : sees (Some l) vt i → exists_in st i = true → sees parent vt i.
Proof. intros Hs He. apply (sees_low b plan Ht l Hl); [by apply Hr|done]. Qed.

Lemma exists_top vt i : sees (Some l) vt i → exists_in (top :: st) i = after parent ops vt (exists_in st i).
Proof.
  intros Hs. rewrite exists_in_cons. cbn [fst snd]. unfold after.
  assert (triple_pos i) as Hpos.
  { destruct Hs as (Ks%entry_known_bound & Kp%predicate_known_bound & Ko%entry_known_bound); [|done..]. unfold triple_pos. lia. }
  pose proof (elem_of_effective st false (cp_additions plan) i) as Ha.
  pose proof (elem_of_effective st true (cp_removals plan) i) as Hd.
  rewrite (addition_written vt i Hs) in Ha. destruct (exists_in st i) eqn:He.
  - rewrite (removal_written vt i (below_sees vt i Hs He)) in Hd.
    destruct (adds vt), (removes vt); repeat case_bool_decide; naive_solver.
  - destruct (adds vt), (removes vt); repeat case_bool_decide; naive_solver.
Qed.

Lemma exists_after vt :
  stack_holds l (top :: st) →
  ∃ before, parent_has parent vt = Ok before ∧ value_triple_exists l vt = Ok (after parent ops vt before).
Proof.
  intros Hstl. change (value_triple_exists l vt) with (parent_has (Some l) vt).
  assert (∀ i, ¬ sees (Some l) vt i → ¬ sees parent vt i) as Hkept.
  { intros i Hno Hs. by apply Hno, (sees_kept b plan Ht l Hl). }
  destruct (sees_cases (Some l) vt) as [[i Hs]|Hno].
  - rewrite (parent_has_sees (Some l) (top :: st) vt i Hstl Hs), (exists_top vt i Hs).
    exists (exists_in st i). split; [|done]. destruct (sees_cases parent vt) as [[i' Hs']|Hno].
    + assert (i' = i) as -> by (eapply sees_functional; [by apply (sees_kept b plan Ht l Hl)|done]).
      by apply parent_has_sees.
    + destruct (exists_in st i) eqn:He; [by destruct (Hno i), (below_sees vt i)|]. by apply parent_has_unknown.
  - exists false. rewrite !parent_has_unknown; [|done..|intros i; by apply Hkept]. split; [done|]. f_equal.
    unfold after. destruct (adds vt) eqn:Ha, (removes vt) eqn:Hrm; try done.
    destruct (co_triple b ops Hc vt Ha) as [t Hvt]. destruct (Hno (rename g gp t)).
    apply (sees_addition b plan A1 R1 g gp Ht Hp Hrange l Hl Hok); [|done]. by apply (elem_of_A1 vt t).
Qed.

Lemma counts_grow : nv_count parent ≤ nv_count (Some l) ∧ p_count parent ≤ p_count (Some l).
Proof.
  unfold nv_count at 2, p_count at 2. simpl. unfold node_and_value_count, predicate_count.
  rewrite (nl_nv_count _ _ _ _ _ Hl), (nl_p_count _ _ _ _ _ Hl). lia.
Qed.

Lemma renamed_range t : t ∈ A1 → in_range (nv_count (Some l)) (p_count (Some l)) (rename g gp t).
Proof.
  intros (Hs & Hpr & Ho)%mentions. destruct counts_grow as [Hn Hq].
  assert (∀ id, mentioned A1 id → g id ≤ nv_count (Some l)) as Hg.
  { intros id [[? ->]|(_ & e & _ & Hpl)]%(mentioned_cases b plan A1 R1 g gp Ht Hp Hrange); [lia|].
    apply (place_known _ _ _ _ _ Hl Hpar) in Hpl. by apply (entry_known_bound _ _ _ Hok) in Hpl as [_ ?]. }
  split_and!; [by apply Hg| |by apply Hg]. simpl.
  destruct (mentioned_predicate_cases b plan A1 R1 g gp Ht Hp Hrange _ Hpr) as [[? ->]|(_ & p & k & _ & Hk & ->)]; [lia|].
  apply (place_predicate _ _ _ _ _ Hl Hpar) in Hk. by apply (predicate_known_bound _ _ _ Hok) in Hk as [_ ?].
Qed.

Lemma range_after : stack_in_range (Some l) (top :: st).
Proof.
  intros t. rewrite exists_in_cons. cbn [fst snd]. destruct counts_grow as [Hn Hq].
  intros [Hin%bool_decide_eq_true|[_ He]%andb_true_iff]%orb_true_iff.
  - apply elem_of_effective in Hin as (_ & _ & Hin). rewrite (pl_additions _ _ _ _ _ _ Hp), (sort_triples_perm _) in Hin.
    apply list_elem_of_fmap in Hin as (t' & -> & Hin). by apply renamed_range.
  - eapply in_range_le; [exact Hn|exact Hq|by apply Hr].
Qed.
End commit.

Lemma new_layer_sorted `{BuildLaws} parent l nodes predicates values :
  new_layer parent l nodes predicates values → new_entries parent nodes predicates values →
  all_dicts_sorted parent → all_dicts_sorted (Some l).
Proof.
  intros Hl Hne Hp. simpl. rewrite (nl_chain _ _ _ _ _ Hl). constructor; [|by destruct parent].
  split; [rewrite (nl_nodes _ _ _ _ _ Hl)|rewrite (nl_predicates _ _ _ _ _ Hl)]; apply Hne.
Qed.

(** A layer with its ids, its triples and its dictionaries in order, or none. *)
Record layer_good `{SuccinctLaws} (l : option InternalLayer) (st : list (list IdTriple * list IdTriple)) : Prop := {
  lg_ids : ids_ok l;
  lg_stack : stack_of l st;
  lg_range : stack_in_range l st;
  lg_sorted : all_dicts_sorted l;
}.

Section session.
Context `{BuildLaws}.

(** A builder is made, called and committed. *)
Definition build_session (limit stored : nat) (n : name) (parent : option InternalLayer) (ops : list builder_op)
    : outcome InternalLayer :=
  b ← run_ops (sb_start n parent) ops; sb_commit limit stored b.

Lemma build_session_exact limit stored n parent st ops :
  layer_good parent st → Forall (op_in_range parent) ops →
  ∃ l changes, build_session limit stored n parent ops = Ok l ∧
    layer_name l = n ∧ immediate_parent l = parent ∧ layer_good (Some l) (changes :: st) ∧
    ∀ vt, ∃ before, parent_has parent vt = Ok before ∧ value_triple_exists l vt = Ok (after parent ops vt before).
Proof.
  intros [Hok Hst Hr Hds] Hops. unfold build_session.
  destruct (sb_start_spec n parent Hok) as (Ht0 & Hc0 & Hn0 & Hp0).
  destruct (run_ops_spec ops _ [] Ht0 Hc0) as (b & -> & Ht & [Hn Hpb _ _] & Hcol). cbn [mbind outcome_bind].
  rewrite Hn0 in Hn. rewrite Hp0 in Hpb. simpl in Hcol. subst n. subst parent.
  pose proof (collected_collects b ops Ht Hcol Hops) as Hc.
  destruct (plan_commit_spec b Ht (co_range b ops Hc)) as (plan & A1 & R1 & g & gp & Hplan & Hp).
  destruct (plan_sorted b plan A1 R1 g gp Ht Hp (co_range b ops Hc)) as [Hsa Hsr].
  destruct (write_plan_spec limit stored (sb_name b) (sb_parent b) st plan Hst (pl_entries _ _ _ _ _ _ Hp) Hsa Hsr)
    as (l & Hw & Hl & Hstl & Hln & Hlp).
  exists l, (effective st false (cp_additions plan), effective st true (cp_removals plan)).
  unfold sb_commit. rewrite Hplan. cbn [mbind outcome_bind]. split_and!; [done|done|done| |].
  - split; [exact (new_layer_ids _ _ _ _ _ Hl Hok)|exact Hstl|by eapply range_after|].
    apply (new_layer_sorted _ _ _ _ _ Hl (pl_entries _ _ _ _ _ _ Hp) Hds).
  - intros vt. by eapply exists_after.
Qed.
End session.
