(* ===== verification/CommitHistory.v ===== *)
(** Layers built one on top of another: what a history of commits holds is the set
    that the same additions and removals make of triples of names; and what a
    commit does with ids that no layer has. *)

From S2P Require Import Prelude Names Succinct LayerTypes Order Nested SubjectIterator LayerLookup ObjectIterator TripleBuilder SuccinctBuild IndexBuilder StackMerge IdMap InternalLayer LayerIds LayerQueries NewLayerIds FileBuilder FileBuilderSpec SimpleBuilder SimpleBuilderSpec CommitSteps CommitPlan CommitSpec.

#[export] Instance ValueTriple_countable `{SuccinctOps} : Countable ValueTriple.
Proof.
  refine (inj_countable' (λ t, (vt_subject t, vt_predicate t, vt_object t))
                         (λ '(s, p, o), new_ValueTriple s p o) _).
  by intros [].
Defined.

Section history.
Context `{BuildLaws}.

(** Calls with triples of names. *)
Inductive value_call := Adds (t : ValueTriple) | Removes (t : ValueTriple).
#[export] Instance value_call_eq_dec : EqDecision value_call.
Proof. solve_decision. Defined.

Definition call_op (c : value_call) : builder_op := match c with Adds t => AddValue t | Removes t => RemoveValue t end.

Record session := { se_name : name; se_stored : nat; se_calls : list value_call }.

(** Every session builds on the layer of the one before. *)
Fixpoint run_history (limit : nat) (parent : option InternalLayer) (sessions : list session) : outcome (option InternalLayer) :=
  match sessions with
  | [] => Ok parent
  | s :: sessions =>
      l ← build_session limit (se_stored s) (se_name s) parent (call_op <$> se_calls s);
      run_history limit (Some l) sessions
  end.

(** The same on a set of triples. *)
Definition added (calls : list value_call) : gset ValueTriple :=
  list_to_set (omap (λ c, match c with Adds t => Some t | Removes _ => None end) calls).
Definition removed (calls : list value_call) : gset ValueTriple :=
  list_to_set (omap (λ c, match c with Adds _ => None | Removes t => Some t end) calls).

Definition apply_session (S : gset ValueTriple) (s : session) : gset ValueTriple :=
  (S ∖ (removed (se_calls s) ∖ added (se_calls s))) ∪ (added (se_calls s) ∖ removed (se_calls s)).

(** A layer that has exactly the triples of a set. *)
Definition contents_are (parent : option InternalLayer) (S : gset ValueTriple) : Prop :=
  ∀ vt, parent_has parent vt = Ok (bool_decide (vt ∈ S)).

Lemma elem_of_added calls vt : vt ∈ added calls ↔ Adds vt ∈ calls.
Proof.
  unfold added. rewrite elem_of_list_to_set, list_elem_of_omap. split; [|intros Hin; by exists (Adds vt)].
  by intros ([t|t] & Hin & [= <-]).
Qed.
Lemma elem_of_removed calls vt : vt ∈ removed calls ↔ Removes vt ∈ calls.
Proof.
  unfold removed. rewrite elem_of_list_to_set, list_elem_of_omap. split; [|intros Hin; by exists (Removes vt)].
  by intros ([t|t] & Hin & [= <-]).
Qed.

Lemma asks_calls by_value by_id mk parent calls vt :
  (∀ c, call_op c = by_value vt ↔ c = mk) → (∀ t c, call_op c ≠ by_id t) →
  asks by_value by_id parent (call_op <$> calls) vt = bool_decide (mk ∈ calls).
Proof.
  intros Hval Hid. unfold asks.
  assert (by_value vt ∈ call_op <$> calls ↔ mk ∈ calls) as Hin.
  { rewrite list_elem_of_fmap. split; [by intros (c & Hc & Hin); apply eq_sym, Hval in Hc as ->|].
    intros Hin. exists mk. split; [symmetry; by apply Hval|done]. }
  assert (∀ t, bool_decide (by_id t ∈ call_op <$> calls) = false) as Hno.
  { intros t. apply bool_decide_eq_false. intros (c & Hc & _)%list_elem_of_fmap. by apply (Hid t c). }
  rewrite (bool_decide_ext _ _ Hin).
  destruct parent as [p|]; [destruct (value_triple_to_id p vt) as [[t|]| | |]; rewrite ?Hno|];
    by rewrite orb_false_r.
Qed.

Lemma asks_add_calls parent calls vt : asks_add parent (call_op <$> calls) vt = bool_decide (Adds vt ∈ calls).
Proof. apply asks_calls; [intros [t|t]; simpl; split; congruence|by intros t [?|?]]. Qed.
Lemma asks_remove_calls parent calls vt : asks_remove parent (call_op <$> calls) vt = bool_decide (Removes vt ∈ calls).
Proof. apply asks_calls; [intros [t|t]; simpl; split; congruence|by intros t [?|?]]. Qed.

Lemma after_calls parent S s vt :
  after parent (call_op <$> se_calls s) vt (bool_decide (vt ∈ S)) = bool_decide (vt ∈ apply_session S s).
Proof.
  unfold after, apply_session. rewrite asks_add_calls, asks_remove_calls.
  pose proof (elem_of_added (se_calls s) vt). pose proof (elem_of_removed (se_calls s) vt).
  repeat case_bool_decide; set_solver.
Qed.

Lemma calls_in_range parent calls : Forall (op_in_range parent) (call_op <$> calls).
Proof. apply Forall_fmap, Forall_forall. by intros [t|t] _. Qed.

(** A session makes of a layer with the triples of [S] one with those of the set
    after the session. *)
Lemma session_exact limit parent st S s :
  layer_good parent st → contents_are parent S →
  ∃ l changes, build_session limit (se_stored s) (se_name s) parent (call_op <$> se_calls s) = Ok l ∧
    layer_good (Some l) (changes :: st) ∧ contents_are (Some l) (apply_session S s).
Proof.
  intros Hg Hc. destruct (build_session_exact limit (se_stored s) (se_name s) parent st _ Hg (calls_in_range parent (se_calls s)))
    as (l & changes & Hb & _ & _ & Hg' & Hans).
  exists l, changes. split_and!; [done|done|]. intros vt. destruct (Hans vt) as (before & Hbef & Haft).
  rewrite Hc in Hbef. injection Hbef as <-. rewrite after_calls in Haft. exact Haft.
Qed.

Lemma history_exact limit sessions : ∀ parent st S,
  layer_good parent st → contents_are parent S →
  ∃ l st', run_history limit parent sessions = Ok l ∧ layer_good l st' ∧ length st' = length sessions + length st ∧
    contents_are l (foldl apply_session S sessions).
Proof.
  induction sessions as [|s sessions IH]; intros parent st S Hg Hc; [by exists parent, st|].
  destruct (session_exact limit parent st S s Hg Hc) as (l & changes & Hb & Hg' & Hc').
  destruct (IH (Some l) _ _ Hg' Hc') as (l' & st' & Hr & Hg'' & Hlen & Hc''). exists l', st'.
  simpl. rewrite Hb. split_and!; [done|done| |done]. simpl in Hlen. lia.
Qed.

Lemma nothing_good : layer_good None [] ∧ contents_are None ∅.
Proof. split; [by split|]. intros vt. simpl. by rewrite bool_decide_false by set_solver. Qed.
End history.

(** ** Ids that no layer has *)
Section unknown.
Context `{BuildLaws}.

Lemma mark_used_fine offset marks id : (∃ marks', mark_used offset marks id = Ok marks' ∧ length marks' = length marks) ∨ mark_used offset marks id = Panic.
Proof.
  unfold mark_used, vec_set. repeat case_decide; [left|by right|left]; eexists; (split; [done|]); [apply length_insert|done].
Qed.

Lemma mark_used_unknown offset marks id : offset + length marks < id → mark_used offset marks id = Panic.
Proof. intros Hid. unfold mark_used, vec_set. rewrite decide_True by lia. by rewrite decide_False by lia. Qed.

Lemma mark_triples_unknown nv_offset p_offset ts : ∀ nvs ps,
  (∃ t, t ∈ ts ∧ ¬ in_range (nv_offset + length nvs) (p_offset + length ps) t) →
  mark_triples nv_offset p_offset nvs ps ts = Panic.
Proof.
  induction ts as [|t ts IH]; intros nvs ps (u & Hu & Hout); [by apply not_elem_of_nil in Hu|]. cbn [mark_triples].
  destruct (decide (in_range (nv_offset + length nvs) (p_offset + length ps) t)) as [Hin|Hno].
  - assert (u ∈ ts) as Hu' by (apply elem_of_cons in Hu as [->|?]; done).
    destruct (mark_used_fine nv_offset nvs (subject t)) as [(l1 & -> & L1)| ->]; [cbn [mbind outcome_bind]|done].
    destruct (mark_used_fine p_offset ps (predicate t)) as [(l2 & -> & L2)| ->]; [cbn [mbind outcome_bind]|done].
    destruct (mark_used_fine nv_offset l1 (object t)) as [(l3 & -> & L3)| ->]; [cbn [mbind outcome_bind]|done].
    apply IH. exists u. by rewrite L3, L1, L2.
  - clear Hu Hout. unfold in_range in Hno.
    destruct (mark_used_fine nv_offset nvs (subject t)) as [(l1 & E1 & L1)|E1]; rewrite E1; [cbn [mbind outcome_bind]|done].
    destruct (mark_used_fine p_offset ps (predicate t)) as [(l2 & E2 & L2)|E2]; rewrite E2; [cbn [mbind outcome_bind]|done].
    destruct (mark_used_fine nv_offset l1 (object t)) as [(l3 & E3 & L3)|E3]; rewrite E3; [cbn [mbind outcome_bind]|done].
    exfalso. apply Hno. split_and!; apply Nat.nlt_ge; intros Hlt.
    + by rewrite mark_used_unknown in E1.
    + by rewrite mark_used_unknown in E2.
    + rewrite <- L1 in Hlt. by rewrite mark_used_unknown in E3.
Qed.

(** A commit does not survive an addition of ids that neither the parent nor the
    builder gave out. *)
Lemma unknown_addition_panics b t :
  t ∈ sb_id_additions b → t ∉ sb_id_removals b → triple_pos t → ¬ sb_range b t → plan_commit b = Panic.
Proof.
  intros Ha Hr Hpos Hout. unfold plan_commit.
  change (sb_nv_offset b) with (nv_count (sb_parent b)). change (sb_p_offset b) with (p_count (sb_parent b)).
  pose proof (clear_noops_spec (beyond (nv_count (sb_parent b)) (p_count (sb_parent b))) _ _
    (proj1 (sort_triples_dedup (sb_id_additions b))) (proj1 (sort_triples_dedup (sb_id_removals b)))) as Hc.
  unfold beyond in Hc at 2 3. destruct (clear_noops _ _ _) as [A1 R1]. simpl in Hc.
  rewrite mark_triples_unknown; [done|]. exists t. rewrite !length_replicate. split; [|done].
  apply elem_of_app. left.
  assert (t ∈ filter triple_pos A1) as [_ Hin]%list_elem_of_filter; [|done].
  rewrite (cl_additions _ _ _ _ _ Hc), list_elem_of_filter, !(proj2 (sort_triples_dedup _)). done.
Qed.

Lemma unknown_id_panics limit stored n parent ops b t :
  ids_ok parent → run_ops (sb_start n parent) ops = Ok b →
  AddId t ∈ ops → RemoveId t ∉ ops → triple_pos t → ¬ sb_range b t → sb_commit limit stored b = Panic.
Proof.
  intros Hok Hrun Ha Hr Hpos Hout. destruct (sb_start_spec n parent Hok) as (Ht0 & Hc0 & _ & _).
  destruct (run_ops_spec ops _ [] Ht0 Hc0) as (b' & Hrun' & Ht & _ & (Hadd & Hrem & _)). simpl in Hadd, Hrem.
  assert (b' = b) as -> by congruence. unfold sb_commit. rewrite (unknown_addition_panics b t); [done| | |done|done].
  - apply Hadd. by exists (AddId t).
  - rewrite Hrem. intros ([vt|i|vt|i] & Hop & Hd); simpl in Hd; try done; [|by subst].
    by apply Hout, (sb_triple_range b vt t Ht).
Qed.
End unknown.
