(* ===== verification/IdMapBuild.v ===== *)
(** Id maps of a layer that is merged from several ([src/layer/id_map.rs]): the place
    of an entry in the merged dictionaries against the id it has in the stack. *)

From S2P Require Import Prelude Names Succinct LayerTypes Order SuccinctBuild SuccinctMerge IdMap InternalLayer LayerIds SimpleBuilder.

Section idmap_build.
Context `{BuildOps, !MergeOps}.

(** [enumerate().map(..)]: the entries of one dictionary with their ids in the stack;
    [inner] is the id in the layer of the first. *)
Fixpoint outer_entries {E} (idmap : IdMap) (inner offset : nat) (entries : list E) : outcome (list (nat * E)) :=
  match entries with
  | [] => Ok []
  | e :: entries =>
      outer ← inner_to_outer idmap inner;
      rest ← outer_entries idmap (S inner) offset entries;
      Ok ((outer + offset, e) :: rest)
  end.

(** The loops of [construct_idmaps_from_structures]; [ix] is the index of the layer. *)
Fixpoint node_iters (value_dicts : list TypedDict) (idmaps : list IdMap) (ix offset : nat) (node_dicts : list StringDict)
    : outcome (list (list (nat * string))) :=
  match node_dicts with
  | [] => Ok []
  | dict :: node_dicts =>
      idmap ← vec_get idmaps ix;
      iter ← outer_entries idmap 1 offset (sd_iter dict);
      values ← vec_get value_dicts ix;
      iters ← node_iters value_dicts idmaps (S ix) (offset + sd_num_entries dict + td_num_entries values) node_dicts;
      Ok (iter :: iters)
  end.

Fixpoint value_iters (node_entries_len : list nat) (idmaps : list IdMap) (ix offset : nat) (value_dicts : list TypedDict)
    : outcome (list (list (nat * TypedDictEntry))) :=
  match value_dicts with
  | [] => Ok []
  | dict :: value_dicts =>
      idmap ← vec_get idmaps ix;
      node_count ← vec_get node_entries_len ix;
      iter ← outer_entries idmap (node_count + 1) offset (td_iter dict);
      iters ← value_iters node_entries_len idmaps (S ix) (offset + node_count + td_num_entries dict) value_dicts;
      Ok (iter :: iters)
  end.

Fixpoint predicate_iters (idmaps : list IdMap) (ix offset : nat) (predicate_dicts : list StringDict)
    : outcome (list (list (nat * string))) :=
  match predicate_dicts with
  | [] => Ok []
  | dict :: predicate_dicts =>
      idmap ← vec_get idmaps ix;
      iter ← outer_entries idmap 1 offset (sd_iter dict);
      iters ← predicate_iters idmaps (S ix) (offset + sd_num_entries dict) predicate_dicts;
      Ok (iter :: iters)
  end.

Definition entry_less (x y : nat * string) : bool := bool_decide (string_lt x.2 y.2).
Definition typed_entry_less (x y : nat * TypedDictEntry) : bool := entry_before x.2 y.2.

(** [map(|(id, _)| id - 1)] *)
Fixpoint ids_from_zero (ids : list nat) : outcome (list nat) :=
  match ids with
  | [] => Ok []
  | id :: ids => i ← checked_sub id 1; rest ← ids_from_zero ids; Ok (i :: rest)
  end.

(** The two maps, of nodes and values and of predicates, as they are read back. *)
Definition construct_idmaps_from_structures (node_dicts predicate_dicts : list StringDict) (value_dicts : list TypedDict)
    (node_value_idmaps predicate_idmaps : list IdMap) : outcome (IdMap * IdMap) :=
  nodes ← node_iters value_dicts node_value_idmaps 0 0 node_dicts;
  values ← value_iters (sd_num_entries <$> node_dicts) node_value_idmaps 0 0 value_dicts;
  predicates ← predicate_iters predicate_idmaps 0 0 predicate_dicts;
  node_value_ids ← ids_from_zero ((sorted_iterator (pick_min entry_less) nodes).*1 ++
                                  (sorted_iterator (pick_min typed_entry_less) values).*1);
  predicate_ids ← ids_from_zero (sorted_iterator (pick_min entry_less) predicates).*1;
  Ok (from_parts (Some (wt_from_iter node_value_ids)), from_parts (Some (wt_from_iter predicate_ids))).

Definition construct_idmaps_from_layers (layers : list InternalLayer) : outcome (IdMap * IdMap) :=
  construct_idmaps_from_structures (node_dictionary <$> layers) (predicate_dictionary <$> layers)
    (value_dictionary <$> layers) (node_value_id_map <$> layers) (predicate_id_map <$> layers).

Definition memory_construct_idmaps (input : InternalLayer) : outcome (IdMap * IdMap) :=
  construct_idmaps_from_layers (immediate_layers input).

Definition memory_construct_idmaps_upto (input : InternalLayer) (upto_layer_id : name) : outcome (IdMap * IdMap) :=
  layers ← immediate_layers_upto input upto_layer_id;
  construct_idmaps_from_layers layers.
End idmap_build.
