(* ===== verification/IdMapSpec.v ===== *)
(** What the construction of id maps yields: every new entry of the stack, sorted,
    with the id it has in the stack. *)

From S2P Require Import Prelude Names Succinct LayerTypes Order SuccinctBuild SuccinctMerge IdMap InternalLayer LayerIds NewLayerIds SimpleBuilder IdMapBuild.

Lemma sum_lens_app `{SuccinctOps} len ls1 ls2 : sum_lens len (ls1 ++ ls2) = sum_lens len ls1 + sum_lens len ls2.
Proof. induction ls1 as [|l ls1 IH]; simpl; [done|]. rewrite IH. lia. Qed.

Lemma sum_lens_reverse `{SuccinctOps} len ls : sum_lens len (reverse ls) = sum_lens len ls.
Proof.
  induction ls as [|l ls IH]; [done|]. rewrite reverse_cons, sum_lens_app, IH. simpl. lia.
Qed.

(** ** One layer *)
Section one_layer.
Context `{SuccinctLaws} {A K E : Type}.
Context (len count : InternalLayer → nat) (idmap : InternalLayer → IdMap) (find : InternalLayer → K → option nat) (inj : E → K).
Notation walk := (walk_id count idmap find).

Lemma numbered_app ls1 ls2 : numbered len count idmap (ls1 ++ ls2) → numbered len count idmap ls2.
Proof. induction ls1 as [|l ls1 IH]; [done|]. intros ?%numbered_tail. auto. Qed.

Lemma walk_id_skip above ls x : (∀ l, l ∈ above → find l x = None) → walk x (above ++ ls) = walk x ls.
Proof.
  unfold walk_id. induction above as [|l above IH]; intros Hno; [done|]. cbn [app id_walk].
  rewrite Hno by by left. cbn [mbind outcome_bind]. apply IH. intros l' Hl'. apply Hno. by right.
Qed.

(** The entry of a layer in the middle of a stack. *)
Lemma walk_id_at above l below x i o :
  numbered len count idmap (above ++ l :: below) → distinct find (above ++ l :: below) x →
  find l x = Some i → inner_to_outer (idmap l) i = Ok o → walk x (above ++ l :: below) = Ok (Some (o + sum_lens len below)).
Proof.
  intros Hn Hd Hf Ho. rewrite walk_id_skip.
  - unfold walk_id. cbn [id_walk]. rewrite Hf, Ho. cbn [mbind outcome_bind].
    apply numbered_app, numbered_tail in Hn. by rewrite (numbered_head _ _ _ _ Hn).
  - intros l' Hl'. destruct (find l' x) as [j|] eqn:Hf'; [|done]. apply list_elem_of_lookup in Hl' as [k Hk].
    pose proof (lookup_lt_Some _ _ _ Hk) as Hlt.
    assert (k = length above) as ->; [|lia]. apply (Hd k (length above) l' l).
    + by apply lookup_app_l_Some.
    + by rewrite list_lookup_middle.
    + by rewrite Hf'.
    + by rewrite Hf.
Qed.

Context (Hfind : ∀ l x i, find l x = Some i → i ≠ 0 ∧ i ≤ len l).

Lemma outer_entries_spec m n inner offset (es : list E) :
  idmap_wf m → (∀ t, id_wtree m = Some t → length (wt_seq t) = n) → inner ≠ 0 →
  ∃ its, outer_entries m inner offset es = Ok its ∧ its.*2 = es ∧
    ∀ k p, its !! k = Some p → ∃ o, inner_to_outer m (inner + k) = Ok o ∧ o ≠ 0 ∧ p.1 = o + offset.
Proof.
  intros Hwf Hn. revert inner. induction es as [|e es IH]; intros inner Hi.
  { exists []. split_and!; [done..|]. intros k p. by rewrite lookup_nil. }
  cbn [outer_entries]. destruct (inner_outer_inner m inner n Hwf Hi Hn) as (o & Ho & _ & Ho0 & _). rewrite Ho. cbn [mbind outcome_bind].
  destruct (IH (S inner)) as (its & -> & Hes & Hits); [lia|]. cbn [mbind outcome_bind].
  exists ((o + offset, e) :: its). split_and!; [done|by rewrite fmap_cons, Hes|].
  intros [|k] p Hk; simplify_eq/=.
  - exists o. by rewrite Nat.add_0_r.
  - destruct (Hits _ _ Hk) as (o' & Ho' & ? & ->). exists o'. by rewrite <- Nat.add_succ_comm.
Qed.

(** The entries [es] of the layer [l], numbered in it after [c] others. *)
Lemma outer_layer above l below rest c es :
  numbered len count idmap (above ++ l :: below ++ rest) →
  (∀ x, distinct find (above ++ l :: below ++ rest) x) →
  (∀ k e, es !! k = Some e → find l (inj e) = Some (c + 1 + k)) →
  ∃ its, outer_entries (idmap l) (c + 1) (sum_lens len below) es = Ok its ∧ its.*2 = es ∧
    Forall (λ p, p.1 ≠ 0 ∧ walk (inj p.2) (above ++ l :: below ++ rest) = Ok (Some (p.1 + sum_lens len rest))) its.
Proof.
  intros Hn Hd Hes. pose proof (numbered_app _ _ Hn) as Hnl. destruct Hnl as [[[Hwf Hlen] _]%Forall_cons _].
  destruct (outer_entries_spec (idmap l) (len l) (c + 1) (sum_lens len below) es Hwf Hlen) as (its & He & Hs & Hits); [lia|].
  exists its. split_and!; [done|done|]. apply Forall_lookup. intros k p Hk.
  destruct (Hits _ _ Hk) as (o & Ho & Ho0 & ->). split; [lia|].
  assert (es !! k = Some p.2) as Hek by by rewrite <- Hs, list_lookup_fmap, Hk.
  rewrite (walk_id_at above l (below ++ rest) (inj p.2) _ o Hn (Hd _) (Hes _ _ Hek) Ho).
  do 2 f_equal. rewrite sum_lens_app. lia.
Qed.
End one_layer.

(** ** All layers *)
Section all_layers.
Context `{MergeLaws}.

Notation nv_walk := (walk_id node_and_value_count node_value_id_map find_object).
Notation p_walk := (walk_id predicate_count predicate_id_map find_predicate).

Lemma find_node_entry l k s : sd_entries (node_dictionary l) !! k = Some s → find_object l (Node s) = Some (0 + 1 + k).
Proof. intros Hk. apply sd_find. rewrite sd_num_entries_spec, sd_get_spec. split_and!; [done|by eapply lookup_lt_Some|done]. Qed.

Lemma find_value_entry l k v :
  td_entries (value_dictionary l) !! k = Some v → find_object l (Value v) = Some (node_dict_len l + 1 + k).
Proof.
  intros Hk. simpl. assert (into_option (value_dict_id l v) = Some (S k)) as ->; [|simpl; f_equal; lia].
  apply td_find. rewrite td_num_entries_spec, td_entry_spec. split_and!; [done|by eapply lookup_lt_Some|done].
Qed.

Lemma find_predicate_entry l k p : sd_entries (predicate_dictionary l) !! k = Some p → find_predicate l p = Some (0 + 1 + k).
Proof. intros Hk. apply sd_find. rewrite sd_num_entries_spec, sd_get_spec. split_and!; [done|by eapply lookup_lt_Some|done]. Qed.

(** The layers that are merged, the lowest first, and those below. *)
Context (ls rest : list InternalLayer).
Notation stack := (reverse ls ++ rest).
Context (Hn : numbered node_value_len node_and_value_count node_value_id_map stack)
        (Hp : numbered predicate_dict_len predicate_count predicate_id_map stack)
        (Hdo : ∀ e, distinct find_object stack e) (Hdp : ∀ p, distinct find_predicate stack p).

Lemma stack_split before l after_ : ls = before ++ l :: after_ → stack = reverse after_ ++ l :: reverse before ++ rest.
Proof. intros ->. rewrite reverse_app, reverse_cons, <- !app_assoc. done. Qed.

Lemma vec_get_middle {B} (f : InternalLayer → B) before l after_ :
  ls = before ++ l :: after_ → vec_get (f <$> ls) (length before) = Ok (f l).
Proof. intros ->. unfold vec_get. rewrite list_lookup_fmap, list_lookup_middle by done. done. Qed.

(** Iterators over the entries [entries], with their ids in the stack above the first [below]. *)
Definition iters_hold {E} (walk : E → outcome (option nat)) (below : nat) (entries : InternalLayer → list E)
    (after_ : list InternalLayer) (its : list (list (nat * E))) : Prop :=
  fmap snd <$> its = entries <$> after_ ∧ Forall (λ p, p.1 ≠ 0 ∧ walk p.2 = Ok (Some (p.1 + below))) (concat its).

Lemma iters_hold_cons {E} (walk : E → outcome (option nat)) below entries l after_ it its :
  it.*2 = entries l → Forall (λ p, p.1 ≠ 0 ∧ walk p.2 = Ok (Some (p.1 + below))) it →
  iters_hold walk below entries after_ its → iters_hold walk below entries (l :: after_) (it :: its).
Proof.
  intros Hit Hall [Hs Hw]. split; [by rewrite !fmap_cons, Hit, Hs|]. simpl. apply Forall_app. by split.
Qed.

Lemma node_iters_spec after_ : ∀ before,
  ls = before ++ after_ →
  ∃ its, node_iters (value_dictionary <$> ls) (node_value_id_map <$> ls) (length before) (sum_lens node_value_len before)
           (node_dictionary <$> after_) = Ok its ∧
    iters_hold (λ s, nv_walk (Node s) stack) (sum_lens node_value_len rest) (λ l, sd_entries (node_dictionary l)) after_ its.
Proof.
  induction after_ as [|l after_ IH]; intros before Hls; [exists []; split; [done|split; [done|constructor]]|].
  rewrite fmap_cons. cbn [node_iters]. rewrite !(vec_get_middle _ _ _ _ Hls). cbn [mbind outcome_bind].
  pose proof (stack_split _ _ _ Hls) as Hst. pose proof Hn as Hn'. pose proof Hdo as Hdo'. rewrite Hst in Hn', Hdo'.
  destruct (outer_layer _ _ _ find_object Node (reverse after_) l (reverse before) rest 0 (sd_entries (node_dictionary l)) Hn' Hdo')
    as (it & Hit & Hs & Hall); [intros k e; apply find_node_entry|].
  rewrite sum_lens_reverse in Hit. simpl in Hit. rewrite sd_iter_spec, Hit. cbn [mbind outcome_bind].
  destruct (IH (before ++ [l])) as (its & Hits & Hhold); [by rewrite <- app_assoc|].
  rewrite sum_lens_app, length_app in Hits. cbn [sum_lens length] in Hits.
  replace (sum_lens node_value_len before + (node_value_len l + 0)) with
    (sum_lens node_value_len before + sd_num_entries (node_dictionary l) + td_num_entries (value_dictionary l)) in Hits
    by (unfold node_value_len, node_dict_len, value_dict_len; lia).
  rewrite Nat.add_1_r in Hits. rewrite Hits. cbn [mbind outcome_bind]. eexists. split; [done|].
  apply iters_hold_cons; [done|by rewrite Hst|done].
Qed.

Lemma value_iters_spec after_ : ∀ before,
  ls = before ++ after_ →
  ∃ its, value_iters (sd_num_entries <$> (node_dictionary <$> ls)) (node_value_id_map <$> ls) (length before)
           (sum_lens node_value_len before) (value_dictionary <$> after_) = Ok its ∧
    iters_hold (λ v, nv_walk (Value v) stack) (sum_lens node_value_len rest) (λ l, td_entries (value_dictionary l)) after_ its.
Proof.
  induction after_ as [|l after_ IH]; intros before Hls; [exists []; split; [done|split; [done|constructor]]|].
  rewrite fmap_cons. cbn [value_iters]. rewrite !(vec_get_middle _ _ _ _ Hls). cbn [mbind outcome_bind].
  rewrite <- list_fmap_compose. rewrite !(vec_get_middle _ _ _ _ Hls). cbn [mbind outcome_bind].
  pose proof (stack_split _ _ _ Hls) as Hst. pose proof Hn as Hn'. pose proof Hdo as Hdo'. rewrite Hst in Hn', Hdo'.
  destruct (outer_layer _ _ _ find_object Value (reverse after_) l (reverse before) rest (node_dict_len l)
              (td_entries (value_dictionary l)) Hn' Hdo') as (it & Hit & Hs & Hall); [intros k e; apply find_value_entry|].
  rewrite sum_lens_reverse in Hit. rewrite td_iter_spec. unfold compose. unfold node_dict_len in Hit. rewrite Hit. cbn [mbind outcome_bind].
  destruct (IH (before ++ [l])) as (its & Hits & Hhold); [by rewrite <- app_assoc|].
  rewrite sum_lens_app, length_app in Hits. cbn [sum_lens length] in Hits.
  replace (sum_lens node_value_len before + (node_value_len l + 0)) with
    (sum_lens node_value_len before + sd_num_entries (node_dictionary l) + td_num_entries (value_dictionary l)) in Hits
    by (unfold node_value_len, node_dict_len, value_dict_len; lia).
  rewrite Nat.add_1_r, <- list_fmap_compose in Hits. unfold compose in Hits. rewrite Hits. cbn [mbind outcome_bind]. eexists. split; [done|].
  apply iters_hold_cons; [done|by rewrite Hst|done].
Qed.

Lemma predicate_iters_spec after_ : ∀ before,
  ls = before ++ after_ →
  ∃ its, predicate_iters (predicate_id_map <$> ls) (length before) (sum_lens predicate_dict_len before)
           (predicate_dictionary <$> after_) = Ok its ∧
    iters_hold (λ p, p_walk p stack) (sum_lens predicate_dict_len rest) (λ l, sd_entries (predicate_dictionary l)) after_ its.
Proof.
  induction after_ as [|l after_ IH]; intros before Hls; [exists []; split; [done|split; [done|constructor]]|].
  rewrite fmap_cons. cbn [predicate_iters]. rewrite !(vec_get_middle _ _ _ _ Hls). cbn [mbind outcome_bind].
  pose proof (stack_split _ _ _ Hls) as Hst. pose proof Hp as Hp'. pose proof Hdp as Hdp'. rewrite Hst in Hp', Hdp'.
  destruct (outer_layer _ _ _ find_predicate id (reverse after_) l (reverse before) rest 0 (sd_entries (predicate_dictionary l)) Hp' Hdp')
    as (it & Hit & Hs & Hall); [intros k e; apply find_predicate_entry|].
  rewrite sum_lens_reverse in Hit. simpl in Hit. rewrite sd_iter_spec, Hit. cbn [mbind outcome_bind].
  destruct (IH (before ++ [l])) as (its & Hits & Hhold); [by rewrite <- app_assoc|].
  rewrite sum_lens_app, length_app in Hits. cbn [sum_lens length] in Hits.
  rewrite Nat.add_0_r, Nat.add_1_r in Hits. unfold predicate_dict_len in Hits at 2. rewrite Hits.
  cbn [mbind outcome_bind]. eexists. split; [done|]. apply iters_hold_cons; [done|by rewrite Hst|done].
Qed.
End all_layers.
