(* ===== verification/RollupIds.v ===== *)
(** The ids of a layer that is merged from several: with the merged dictionaries and
    the id maps that are constructed for them, every entry has the id it has in the
    stack, and nothing else has one. *)

From S2P Require Import Prelude Names Succinct LayerTypes Order SuccinctBuild SuccinctMerge IdMap InternalLayer LayerIds NewLayerIds SimpleBuilder IdMapBuild IdMapSpec.

(** ** Merged entries *)
Section entries.
Context `{MergeLaws}.

Lemma stack_entries_NoDup {K E} (find : InternalLayer → K → option nat) (inj : E → K) (entries : InternalLayer → list E) us rest :
  (∀ l, NoDup (entries l)) → (∀ l k e, entries l !! k = Some e → is_Some (find l (inj e))) →
  (∀ e, distinct find (us ++ rest) (inj e)) → NoDup (concat (entries <$> us)).
Proof.
  intros Hnd Hfound. induction us as [|l us IH]; intros Hd; [constructor|]. rewrite fmap_cons. simpl.
  apply NoDup_app. split_and!; [done| |apply IH; intros e; eapply distinct_tail, Hd].
  intros e He Hin. apply list_elem_of_In, in_concat in Hin as (es & Hes & Hin). apply list_elem_of_In in Hes, Hin.
  apply list_elem_of_fmap in Hes as (l' & -> & [j Hj]%list_elem_of_lookup).
  apply list_elem_of_lookup in He as [k1 He], Hin as [k2 Hin].
  specialize (Hd e 0 (S j) l l'). discriminate Hd; [done| |by eapply Hfound..].
  simpl. by apply lookup_app_l_Some.
Qed.

Lemma reverse_entries {B} (f : InternalLayer → list B) ls : concat (f <$> reverse ls) ≡ₚ concat (f <$> ls).
Proof.
  induction ls as [|l ls IH]; [done|]. rewrite reverse_cons, fmap_app, concat_app, IH. simpl.
  rewrite app_nil_r. apply Permutation_app_comm.
Qed.

(** The merge of iterators over the entries of the layers. *)
Lemma merged_iters {E} (less : nat * E → nat * E → bool) (lt : relation E) `{!StrictOrder lt, !Trichotomic lt}
    (walk : E → outcome (option nat)) below (entries : InternalLayer → list E) ls its :
  (∀ x y, less x y = true ↔ lt x.2 y.2) →
  iters_hold walk below entries ls its → Forall (λ l, StronglySorted lt (entries l)) ls → NoDup (concat (entries <$> ls)) →
  StronglySorted lt (sorted_iterator (pick_min less) its).*2 ∧
  (sorted_iterator (pick_min less) its).*2 ≡ₚ concat (entries <$> ls) ∧
  Forall (λ p, p.1 ≠ 0 ∧ walk p.2 = Ok (Some (p.1 + below))) (sorted_iterator (pick_min less) its).
Proof.
  intros Hless [Hs Hw] Hsorted Hnd.
  destruct (sorted_merge_keys less snd lt Hless its (entries <$> ls) Hs) as [Hm Hp]; [by apply Forall_fmap|done|].
  split_and!; [done| |by rewrite Hp]. rewrite Hp. rewrite <- Hs. by rewrite fmap_concat_list.
Qed.

(** Two sorted lists of the same entries. *)
Lemma sorted_unique {E} (lt : relation E) `{!StrictOrder lt} l1 l2 :
  StronglySorted lt l1 → StronglySorted lt l2 → l1 ≡ₚ l2 → l1 = l2.
Proof.
  apply StronglySorted_unique_strong. intros x y _ _ Hxy Hyx. destruct (irreflexivity lt x). by etrans.
Qed.

Lemma ids_from_zero_spec ids : Forall (λ i, i ≠ 0) ids → ids_from_zero ids = Ok (pred <$> ids).
Proof.
  induction 1 as [|i ids Hi Hall IH]; [done|]. simpl. rewrite checked_sub_ok by lia. cbn [mbind outcome_bind].
  rewrite IH. cbn [mbind outcome_bind]. by rewrite Nat.sub_1_r.
Qed.

(** Different numbers from one to the length. *)
Lemma ids_permutation ids n : NoDup ids → Forall (λ i, i ≠ 0 ∧ i ≤ n) ids → length ids = n → pred <$> ids ≡ₚ seq 0 n.
Proof.
  intros Hnd Hall Hlen. rewrite Forall_forall in Hall. apply submseteq_length_Permutation.
  - apply NoDup_submseteq.
    + apply NoDup_fmap_2_strong; [|done]. intros i j [Hi _]%Hall [Hj _]%Hall. lia.
    + intros x (i & -> & [Hi Hle]%Hall)%list_elem_of_fmap. apply elem_of_seq. lia.
  - rewrite length_fmap, length_seq. lia.
Qed.
End entries.

(** ** The map that is built *)
Section built_map.
Context `{MergeLaws} {A K : Type}.
Context (len count : InternalLayer → nat) (idmap : InternalLayer → IdMap) (find : InternalLayer → K → option nat)
  (get : InternalLayer → nat → option A) (inj : K → A) `{!Inj (=) (=) inj}.
Context (Hfind : ∀ l x i, find l x = Some i → i ≠ 0 ∧ i ≤ len l ∧ get l i = Some (inj x)).
Notation walk := (walk_id count idmap find).

(** The numbers of the entries of a stack, above those of [rest]. *)
Context (stack rest : list InternalLayer) (n : nat) (pairs : list (nat * K)).
Context (Hn : numbered len count idmap stack) (Hsum : sum_lens len stack = n + sum_lens len rest).
Context (Hnd : NoDup pairs.*2) (Hlen : length pairs = n).
Context (Hall : Forall (λ p, p.1 ≠ 0 ∧ walk p.2 stack = Ok (Some (p.1 + sum_lens len rest))) pairs).

Lemma numbers_NoDup : NoDup pairs.*1.
Proof.
  rewrite Forall_forall in Hall. apply NoDup_fmap_2_strong; [|by eapply NoDup_fmap_1].
  intros [i x] [j y] [_ Hx]%Hall [_ Hy]%Hall. simpl in *. intros ->. f_equal.
  apply (walk_id_get _ _ _ _ _ _ Hfind) in Hx as (_ & _ & Hx), Hy as (_ & _ & Hy); [|done..].
  rewrite Hx in Hy. injection Hy as Hy. by apply Inj0 in Hy.
Qed.

Lemma built_map_spec (m := from_parts (Some (wt_from_iter (pred <$> pairs.*1)))) :
  idmap_wf m ∧ (∀ t, id_wtree m = Some t → length (wt_seq t) = n) ∧
  ∀ k p, pairs !! k = Some p → inner_to_outer m (S k) = Ok p.1.
Proof.
  pose proof Hall as Hall'. rewrite Forall_forall in Hall'.
  assert (pred <$> pairs.*1 ≡ₚ seq 0 n) as Hperm.
  { apply ids_permutation; [apply numbers_NoDup| |by rewrite length_fmap].
    apply Forall_fmap, Forall_forall. intros p Hp. destruct (Hall' p Hp) as [Hp0 Hw]. simpl.
    apply (walk_id_get _ _ _ _ _ _ Hfind) in Hw as (_ & Hle & _); [|done]. split; [done|lia]. }
  assert (length (pred <$> pairs.*1) = n) as Hl by by rewrite !length_fmap.
  split_and!.
  - unfold idmap_wf, m. simpl. rewrite wt_from_iter_spec. by rewrite Hl.
  - intros t [= <-]. by rewrite wt_from_iter_spec.
  - intros k p Hk. unfold inner_to_outer, m. cbn [id_wtree]. rewrite wt_len_spec, wt_from_iter_spec, Hl.
    pose proof (lookup_lt_Some _ _ _ Hk). rewrite decide_False, checked_sub_ok by lia. cbn [mbind outcome_bind].
    destruct (Hall' p) as [Hp0 _]; [by eapply list_elem_of_lookup_2|].
    rewrite (wt_decode_one_spec _ _ (pred p.1)); [cbn [mbind outcome_bind]; f_equal; lia|].
    rewrite wt_from_iter_spec, !list_lookup_fmap. replace (S k - 1) with k by lia. by rewrite Hk.
Qed.
End built_map.

(** ** The merged layer on top of the layers below

    [pairs] are the entries of the layers [ls], in the order of the merged layer [r],
    with their numbers. *)
Section rolled.
Context `{MergeLaws} {A K : Type}.
Context (len count : InternalLayer → nat) (idmap : InternalLayer → IdMap) (find : InternalLayer → K → option nat)
  (get : InternalLayer → nat → option A) (inj : K → A) `{!Inj (=) (=) inj}.
Context (Hfind : ∀ l x i, find l x = Some i → i ≠ 0 ∧ i ≤ len l ∧ get l i = Some (inj x)).
Notation walk := (walk_id count idmap find).

Record rolled_numbers (ls rest : list InternalLayer) (r : InternalLayer) (pairs : list (nat * K)) : Prop := {
  rn_numbered : numbered len count idmap (reverse ls ++ rest);
  rn_distinct x : distinct find (reverse ls ++ rest) x;
  rn_NoDup : NoDup pairs.*2;
  rn_length : length pairs = sum_lens len ls;
  rn_numbers : Forall (λ p, p.1 ≠ 0 ∧ walk p.2 (reverse ls ++ rest) = Ok (Some (p.1 + sum_lens len rest))) pairs;
  rn_members x : x ∈ pairs.*2 ↔ ∃ l, l ∈ ls ∧ is_Some (find l x);
  rn_found k p : pairs !! k = Some p → find r p.2 = Some (S k);
  rn_entries x i : find r x = Some i → x ∈ pairs.*2;
  rn_len : len r = length pairs;
  rn_map : idmap r = from_parts (Some (wt_from_iter (pred <$> pairs.*1)));
  rn_count : count r = len r + sum_lens len rest;
}.

Context (ls rest : list InternalLayer) (r : InternalLayer) (pairs : list (nat * K)).
Context (Hr : rolled_numbers ls rest r pairs).

Lemma rolled_map_wf :
  idmap_ok len idmap r ∧ ∀ k p, pairs !! k = Some p → inner_to_outer (idmap r) (S k) = Ok p.1.
Proof.
  destruct (built_map_spec len count idmap find get inj Hfind (reverse ls ++ rest) rest (sum_lens len ls) pairs)
    as (Hwf & Hlen & Hout); [apply Hr|by rewrite sum_lens_app, sum_lens_reverse|apply Hr..|].
  rewrite (rn_map _ _ _ _ Hr). split; [|done]. split; rewrite (rn_map _ _ _ _ Hr); [done|].
  intros t Ht. rewrite (rn_len _ _ _ _ Hr), (rn_length _ _ _ _ Hr). by apply Hlen.
Qed.

Lemma rolled_numbered : numbered len count idmap (r :: rest).
Proof.
  destruct (numbered_app _ _ _ _ _ (rn_numbered _ _ _ _ Hr)) as [Hall Hc]. split.
  - constructor; [apply rolled_map_wf|done].
  - intros [|i] l Hi; simplify_eq/=; [apply Hr|by apply Hc].
Qed.

Lemma rolled_distinct x : distinct find (r :: rest) x.
Proof.
  apply distinct_push.
  - intros [i Hi] l Hl. apply (rn_entries _ _ _ _ Hr), (rn_members _ _ _ _ Hr) in Hi as (l' & Hl' & Hf').
    destruct (find l x) as [j|] eqn:Hf; [|done]. rewrite <- elem_of_reverse in Hl'. apply list_elem_of_lookup in Hl' as [i' Hi'].
    apply list_elem_of_lookup in Hl as [j' Hj']. pose proof (lookup_lt_Some _ _ _ Hi') as Hlt.
    assert (i' = length (reverse ls) + j'); [|lia]. eapply (rn_distinct _ _ _ _ Hr x); [by apply lookup_app_l_Some| |done|by rewrite Hf].
    rewrite lookup_app_r by lia. rewrite <- Hj'. f_equal. lia.
  - pose proof (rn_distinct _ _ _ _ Hr x) as Hd. generalize (reverse ls), Hd. clear. intros us.
    induction us as [|u us IH]; [done|]. intros Hd. by apply IH, (distinct_tail _ u).
Qed.

(** An entry has the same id in the merged layer and in the stack. *)
Lemma rolled_walk x : walk x (r :: rest) = walk x (reverse ls ++ rest).
Proof.
  pose proof (rn_numbers _ _ _ _ Hr) as Hall. rewrite Forall_forall in Hall.
  destruct (find r x) as [i|] eqn:Hi.
  - pose proof (rn_entries _ _ _ _ Hr _ _ Hi) as Hx. apply list_elem_of_fmap in Hx as (p & -> & Hp).
    destruct (Hall p Hp) as [_ ->]. apply list_elem_of_lookup in Hp as [k Hk].
    unfold walk_id. cbn [id_walk]. rewrite (rn_found _ _ _ _ Hr _ _ Hk), (proj2 rolled_map_wf _ _ Hk). cbn [mbind outcome_bind].
    by rewrite (numbered_head _ _ _ _ (numbered_tail _ _ _ _ _ rolled_numbered)).
  - rewrite (walk_id_skip _ _ _ (reverse ls)); [unfold walk_id; cbn [id_walk]; by rewrite Hi|].
    intros l Hl. rewrite elem_of_reverse in Hl. destruct (find l x) as [j|] eqn:Hj; [|done].
    assert (x ∈ pairs.*2) as Hx by (apply (rn_members _ _ _ _ Hr); exists l; by rewrite Hj).
    apply list_elem_of_fmap in Hx as (p & -> & [k Hk]%list_elem_of_lookup).
    by rewrite (rn_found _ _ _ _ Hr _ _ Hk) in Hi.
Qed.
End rolled.
