(* ===== verification/RollupLayer.v ===== *)
(** A layer that is rolled up from several: its dictionaries are the merged ones of the
    layers, its id maps those that are constructed for them. Its ids are those of the
    stack it was made of. *)

From S2P Require Import Prelude Names Succinct LayerTypes Order SuccinctBuild SuccinctMerge IdMap InternalLayer LayerIds NewLayerIds SimpleBuilder IdMapBuild IdMapSpec RollupIds.

Section construct.
Context `{BuildLaws, !MergeOps, !MergeLaws}.

Notation nv_walk := (walk_id node_and_value_count node_value_id_map find_object).
Notation p_walk := (walk_id predicate_count predicate_id_map find_predicate).

Definition merged_nodes (ls : list InternalLayer) : StringDict := merge_string_dictionaries (node_dictionary <$> ls).
Definition merged_predicates (ls : list InternalLayer) : StringDict := merge_string_dictionaries (predicate_dictionary <$> ls).
Definition merged_values (ls : list InternalLayer) : TypedDict := merge_typed_dictionaries (value_dictionary <$> ls).

Definition numbered_as {E} (walk : E → outcome (option nat)) (below : nat) (pairs : list (nat * E)) : Prop :=
  Forall (λ p, p.1 ≠ 0 ∧ walk p.2 = Ok (Some (p.1 + below))) pairs.

(** What [construct_idmaps_from_layers] does: the entries of the merged dictionaries,
    in order, with their numbers. *)
Record constructed (ls rest : list InternalLayer) (nps : list (nat * string)) (vps : list (nat * TypedDictEntry))
    (pps : list (nat * string)) : Prop := {
  cn_run : construct_idmaps_from_layers ls =
    Ok (from_parts (Some (wt_from_iter (pred <$> (nps.*1 ++ vps.*1)))), from_parts (Some (wt_from_iter (pred <$> pps.*1))));
  cn_nodes : nps.*2 = sd_entries (merged_nodes ls);
  cn_values : vps.*2 = td_entries (merged_values ls);
  cn_predicates : pps.*2 = sd_entries (merged_predicates ls);
  cn_node_numbers : numbered_as (λ s, nv_walk (Node s) (reverse ls ++ rest)) (sum_lens node_value_len rest) nps;
  cn_value_numbers : numbered_as (λ v, nv_walk (Value v) (reverse ls ++ rest)) (sum_lens node_value_len rest) vps;
  cn_predicate_numbers : numbered_as (λ p, p_walk p (reverse ls ++ rest)) (sum_lens predicate_dict_len rest) pps;
}.

Context (ls rest : list InternalLayer).
Notation stack := (reverse ls ++ rest).
Context (Hn : numbered node_value_len node_and_value_count node_value_id_map stack)
        (Hp : numbered predicate_dict_len predicate_count predicate_id_map stack)
        (Hdo : ∀ e, distinct find_object stack e) (Hdp : ∀ p, distinct find_predicate stack p)
        (Hs : Forall dicts_sorted ls).

Lemma merged_string_dict (dict : InternalLayer → StringDict) :
  Forall (λ l, StronglySorted string_lt (sd_entries (dict l))) ls → NoDup (concat ((λ l, sd_entries (dict l)) <$> ls)) →
  StronglySorted string_lt (sd_entries (merge_string_dictionaries (dict <$> ls))) ∧
  sd_entries (merge_string_dictionaries (dict <$> ls)) ≡ₚ concat ((λ l, sd_entries (dict l)) <$> ls).
Proof.
  intros Hsorted Hnd. destruct (merge_string_spec (dict <$> ls)) as [Hm Hperm].
  - by apply Forall_fmap.
  - by rewrite <- list_fmap_compose.
  - by rewrite <- list_fmap_compose in Hperm.
Qed.

Lemma entries_NoDup :
  NoDup (concat ((λ l, sd_entries (node_dictionary l)) <$> ls)) ∧
  NoDup (concat ((λ l, td_entries (value_dictionary l)) <$> ls)) ∧
  NoDup (concat ((λ l, sd_entries (predicate_dictionary l)) <$> ls)).
Proof.
  split_and!; rewrite <- reverse_entries.
  - apply (stack_entries_NoDup find_object Node _ _ rest); [intros; apply sd_entries_nodup| |intros; apply Hdo].
    intros l k e ->%find_node_entry. eauto.
  - apply (stack_entries_NoDup find_object Value _ _ rest); [| |intros; apply Hdo].
    + intros l. pose proof te_lt_order as [? ?]. apply (StronglySorted_NoDup te_lt), td_entries_sorted.
    + intros l k e ->%find_value_entry. eauto.
  - apply (stack_entries_NoDup find_predicate id _ _ rest); [intros; apply sd_entries_nodup| |intros; apply Hdp].
    intros l k e Hk. eexists. by apply find_predicate_entry.
Qed.

Lemma entry_less_spec x y : entry_less x y = true ↔ string_lt x.2 y.2.
Proof. apply bool_decide_eq_true. Qed.
Lemma typed_entry_less_spec x y : typed_entry_less x y = true ↔ te_lt x.2 y.2.
Proof. apply entry_before_spec. Qed.

#[local] Instance te_lt_trichotomic : Trichotomic te_lt := te_lt_total.
#[local] Instance te_lt_strict : StrictOrder te_lt := te_lt_order.

Lemma construct_spec : ∃ nps vps pps, constructed ls rest nps vps pps.
Proof.
  destruct entries_NoDup as (Hnn & Hvn & Hpn).
  assert (Forall (λ l, StronglySorted string_lt (sd_entries (node_dictionary l))) ls ∧
          Forall (λ l, StronglySorted string_lt (sd_entries (predicate_dictionary l))) ls) as [Hns Hps].
  { split; (eapply Forall_impl; [exact Hs|]); by intros l [? ?]. }
  assert (Forall (λ l, StronglySorted te_lt (td_entries (value_dictionary l))) ls) as Hvs.
  { apply Forall_forall. intros l _. apply td_entries_sorted. }
  destruct (node_iters_spec ls rest Hn Hp Hdo Hdp ls []) as (nits & Hnits & Hnh); [done|].
  destruct (value_iters_spec ls rest Hn Hp Hdo Hdp ls []) as (vits & Hvits & Hvh); [done|].
  destruct (predicate_iters_spec ls rest Hn Hp Hdo Hdp ls []) as (pits & Hpits & Hph); [done|].
  destruct (merged_iters entry_less string_lt _ _ _ _ _ entry_less_spec Hnh Hns Hnn) as (Hn1 & Hn2 & Hn3).
  destruct (merged_iters typed_entry_less te_lt _ _ _ _ _ typed_entry_less_spec Hvh Hvs Hvn) as (Hv1 & Hv2 & Hv3).
  destruct (merged_iters entry_less string_lt _ _ _ _ _ entry_less_spec Hph Hps Hpn) as (Hp1 & Hp2 & Hp3).
  destruct (merged_string_dict node_dictionary Hns Hnn) as [Hnd1 Hnd2].
  destruct (merged_string_dict predicate_dictionary Hps Hpn) as [Hpd1 Hpd2].
  pose proof (merge_typed_spec (value_dictionary <$> ls)) as Hvd. rewrite <- list_fmap_compose in Hvd. specialize (Hvd Hvn).
  eexists _, _, _. split; [|..|exact Hn3|exact Hv3|exact Hp3].
  - unfold construct_idmaps_from_layers, construct_idmaps_from_structures.
    simpl in Hnits, Hvits, Hpits. rewrite Hnits. cbn [mbind outcome_bind]. rewrite Hvits. cbn [mbind outcome_bind].
    rewrite Hpits. cbn [mbind outcome_bind]. rewrite !ids_from_zero_spec; [done|..].
    + apply Forall_app. split; apply Forall_fmap; [eapply Forall_impl; [exact Hn3|]|eapply Forall_impl; [exact Hv3|]]; by intros p [? _].
    + apply Forall_fmap. eapply Forall_impl; [exact Hp3|]. by intros p [? _].
  - apply (sorted_unique string_lt); [done|done|]. by rewrite Hn2, Hnd2.
  - apply (sorted_unique te_lt); [done|apply td_entries_sorted|]. unfold merged_values. by rewrite Hv2, Hvd.
  - apply (sorted_unique string_lt); [done|done|]. by rewrite Hp2, Hpd2.
Qed.

(** The merged entries are those of the layers. *)
Lemma merged_members :
  (∀ s, s ∈ sd_entries (merged_nodes ls) ↔ ∃ l, l ∈ ls ∧ s ∈ sd_entries (node_dictionary l)) ∧
  (∀ v, v ∈ td_entries (merged_values ls) ↔ ∃ l, l ∈ ls ∧ v ∈ td_entries (value_dictionary l)) ∧
  (∀ p, p ∈ sd_entries (merged_predicates ls) ↔ ∃ l, l ∈ ls ∧ p ∈ sd_entries (predicate_dictionary l)).
Proof.
  destruct entries_NoDup as (Hnn & Hvn & Hpn).
  assert (Forall (λ l, StronglySorted string_lt (sd_entries (node_dictionary l))) ls ∧
          Forall (λ l, StronglySorted string_lt (sd_entries (predicate_dictionary l))) ls) as [Hns Hps].
  { split; (eapply Forall_impl; [exact Hs|]); by intros l [? ?]. }
  assert (∀ {B} (f : InternalLayer → list B) x, x ∈ concat (f <$> ls) ↔ ∃ l, l ∈ ls ∧ x ∈ f l) as Hin.
  { intros B f x. rewrite list_elem_of_In, in_concat. split.
    - intros (es & (l & -> & Hl)%list_elem_of_In%list_elem_of_fmap & Hx%list_elem_of_In). by exists l.
    - intros (l & Hl & Hx). exists (f l). split; apply list_elem_of_In; [by apply list_elem_of_fmap_2|done]. }
  split_and!; intros x; rewrite <- Hin.
  - unfold merged_nodes. by rewrite (proj2 (merged_string_dict node_dictionary Hns Hnn)).
  - unfold merged_values. rewrite merge_typed_spec; by rewrite <- list_fmap_compose.
  - unfold merged_predicates. by rewrite (proj2 (merged_string_dict predicate_dictionary Hps Hpn)).
Qed.
End construct.

(** ** Lookup in one layer is membership in its dictionaries *)
Section members.
Context `{SuccinctLaws}.

Definition in_layer (l : InternalLayer) (e : ObjectType) : Prop :=
  match e with Node s => s ∈ sd_entries (node_dictionary l) | Value v => v ∈ td_entries (value_dictionary l) end.

Lemma find_object_member l e : is_Some (find_object l e) ↔ in_layer l e.
Proof.
  destruct e as [s|v]; simpl.
  - split.
    + intros [i (Hi & _ & Hg)%sd_find]. destruct i as [|i]; [done|]. rewrite sd_get_spec in Hg. by eapply list_elem_of_lookup_2.
    + intros [k Hk]%list_elem_of_lookup. exists (S k). apply sd_find. rewrite sd_num_entries_spec, sd_get_spec.
      split_and!; [done|by eapply lookup_lt_Some|done].
  - rewrite fmap_is_Some. split.
    + intros [i (Hi & _ & Hg)%td_find]. destruct i as [|i]; [done|]. rewrite td_entry_spec in Hg. by eapply list_elem_of_lookup_2.
    + intros [k Hk]%list_elem_of_lookup. exists (S k). apply td_find. rewrite td_num_entries_spec, td_entry_spec.
      split_and!; [done|by eapply lookup_lt_Some|done].
Qed.

Lemma find_predicate_member l p : is_Some (find_predicate l p) ↔ p ∈ sd_entries (predicate_dictionary l).
Proof.
  split.
  - intros [i (Hi & _ & Hg)%sd_find]. destruct i as [|i]; [done|]. rewrite sd_get_spec in Hg. by eapply list_elem_of_lookup_2.
  - intros [k Hk]%list_elem_of_lookup. exists (S k). apply sd_find. rewrite sd_num_entries_spec, sd_get_spec.
    split_and!; [done|by eapply lookup_lt_Some|done].
Qed.

Lemma length_concat_lens {B} (f : InternalLayer → list B) ls : length (concat (f <$> ls)) = sum_lens (λ l, length (f l)) ls.
Proof. induction ls as [|l ls IH]; [done|]. rewrite fmap_cons. cbn [concat sum_lens]. by rewrite length_app, IH. Qed.

Lemma sum_lens_ext (f g : InternalLayer → nat) ls : (∀ l, f l = g l) → sum_lens f ls = sum_lens g ls.
Proof. intros He. induction ls as [|l ls IH]; simpl; [done|]. by rewrite He, IH. Qed.

Lemma sum_lens_add (f g : InternalLayer → nat) ls : sum_lens (λ l, f l + g l) ls = sum_lens f ls + sum_lens g ls.
Proof. induction ls as [|l ls IH]; simpl; [done|]. rewrite IH. lia. Qed.
End members.

(** ** The merged layer *)
Section rolled_layer.
Context `{BuildLaws, !MergeOps, !MergeLaws}.

Record rolled_layer (ls rest : list InternalLayer) (r : InternalLayer) : Prop := {
  rl_chain : chain r = r :: rest;
  rl_nodes : node_dictionary r = merged_nodes ls;
  rl_predicates : predicate_dictionary r = merged_predicates ls;
  rl_values : value_dictionary r = merged_values ls;
  rl_maps : construct_idmaps_from_layers ls = Ok (node_value_id_map r, predicate_id_map r);
  rl_nv_count : parent_node_value_count r = sum_lens node_value_len rest;
  rl_p_count : parent_predicate_count r = sum_lens predicate_dict_len rest;
}.

Context (ls rest : list InternalLayer) (r : InternalLayer).
Notation stack := (reverse ls ++ rest).
Context (Hn : numbered node_value_len node_and_value_count node_value_id_map stack)
        (Hp : numbered predicate_dict_len predicate_count predicate_id_map stack)
        (Hdo : ∀ e, distinct find_object stack e) (Hdp : ∀ p, distinct find_predicate stack p)
        (Hs : Forall dicts_sorted ls) (Hr : rolled_layer ls rest r).

Lemma in_rolled e : in_layer r e ↔ ∃ l, l ∈ ls ∧ in_layer l e.
Proof.
  destruct (merged_members ls rest Hdo Hdp Hs) as (Hmn & Hmv & _).
  destruct e as [s|v]; simpl; [rewrite (rl_nodes _ _ _ Hr)|rewrite (rl_values _ _ _ Hr)]; auto.
Qed.

Lemma rolled_predicates : ∃ pairs, rolled_numbers predicate_dict_len predicate_count predicate_id_map find_predicate ls rest r pairs.
Proof.
  destruct (construct_spec ls rest Hn Hp Hdo Hdp Hs) as (nps & vps & pps & Hc). exists pps.
  destruct (merged_members ls rest Hdo Hdp Hs) as (_ & _ & Hmp).
  assert (pps.*2 = sd_entries (predicate_dictionary r)) as He by by rewrite (rl_predicates _ _ _ Hr), (cn_predicates _ _ _ _ _ Hc).
  assert (predicate_dict_len r = length pps) as Hlen.
  { unfold predicate_dict_len. by rewrite sd_num_entries_spec, <- He, length_fmap. }
  split; [done|done| | |by apply Hc|..|].
  - rewrite He. apply sd_entries_nodup.
  - rewrite <- (length_fmap snd pps), He, (rl_predicates _ _ _ Hr). unfold merged_predicates.
    destruct (entries_NoDup ls rest Hdo Hdp) as (_ & _ & Hnd).
    rewrite (proj2 (merged_string_dict ls predicate_dictionary (Forall_impl _ _ _ Hs (λ l H, proj2 H)) Hnd)).
    rewrite length_concat_lens. apply sum_lens_ext. intros l. unfold predicate_dict_len. by rewrite sd_num_entries_spec.
  - intros x. rewrite (cn_predicates _ _ _ _ _ Hc), Hmp. by setoid_rewrite find_predicate_member.
  - intros k p Hk. apply (find_predicate_entry r k). by rewrite <- He, list_lookup_fmap, Hk.
  - intros x i Hf. rewrite He. apply find_predicate_member. by rewrite Hf.
  - done.
  - pose proof (rl_maps _ _ _ Hr) as Hm. rewrite (cn_run _ _ _ _ _ Hc) in Hm. by injection Hm as _ <-.
  - unfold predicate_count. rewrite (rl_p_count _ _ _ Hr). unfold predicate_dict_len. lia.
Qed.

Lemma rolled_entries : ∃ pairs, rolled_numbers node_value_len node_and_value_count node_value_id_map find_object ls rest r pairs.
Proof.
  destruct (construct_spec ls rest Hn Hp Hdo Hdp Hs) as (nps & vps & pps & Hc).
  set (pairs := (prod_map id Node <$> nps) ++ (prod_map id Value <$> vps)). exists pairs.
  assert (pairs.*2 = (Node <$> nps.*2) ++ (Value <$> vps.*2)) as Hsnd by by (unfold pairs; rewrite fmap_app, <- !list_fmap_compose).
  assert (pairs.*1 = nps.*1 ++ vps.*1) as Hfst by by (unfold pairs; rewrite fmap_app, <- !list_fmap_compose).
  assert (nps.*2 = sd_entries (node_dictionary r)) as Hne by by rewrite (rl_nodes _ _ _ Hr), (cn_nodes _ _ _ _ _ Hc).
  assert (vps.*2 = td_entries (value_dictionary r)) as Hve by by rewrite (rl_values _ _ _ Hr), (cn_values _ _ _ _ _ Hc).
  assert (length nps = node_dict_len r ∧ length vps = value_dict_len r) as [Hnl Hvl].
  { unfold node_dict_len, value_dict_len. rewrite sd_num_entries_spec, td_num_entries_spec, <- Hne, <- Hve, !length_fmap. done. }
  assert (∀ e, e ∈ pairs.*2 ↔ in_layer r e) as Hin.
  { intros e. rewrite Hsnd, elem_of_app, !list_elem_of_fmap, Hne, Hve. destruct e; simpl; naive_solver. }
  split; [done|done|..].
  - rewrite Hsnd. apply NoDup_app. split_and!.
    + apply NoDup_fmap; [by intros ?? [=]|]. rewrite Hne. apply sd_entries_nodup.
    + intros e (s & -> & _)%list_elem_of_fmap (v & [=] & _)%list_elem_of_fmap.
    + apply NoDup_fmap; [by intros ?? [=]|]. rewrite Hve. pose proof te_lt_order as [? ?].
      apply (StronglySorted_NoDup te_lt), td_entries_sorted.
  - unfold pairs. rewrite length_app, !length_fmap.
    rewrite <- (length_fmap snd nps), <- (length_fmap snd vps), (cn_nodes _ _ _ _ _ Hc), (cn_values _ _ _ _ _ Hc).
    destruct (entries_NoDup ls rest Hdo Hdp) as (Hnd & Hvd & _). unfold merged_nodes, merged_values.
    rewrite (proj2 (merged_string_dict ls node_dictionary (Forall_impl _ _ _ Hs (λ l H, proj1 H)) Hnd)).
    rewrite merge_typed_spec by by rewrite <- list_fmap_compose. rewrite <- list_fmap_compose. unfold compose.
    rewrite !length_concat_lens, <- sum_lens_add. apply sum_lens_ext. intros l.
    unfold node_value_len, node_dict_len, value_dict_len. by rewrite sd_num_entries_spec, td_num_entries_spec.
  - unfold pairs. apply Forall_app. split; apply Forall_fmap; [exact (cn_node_numbers _ _ _ _ _ Hc)|exact (cn_value_numbers _ _ _ _ _ Hc)].
  - intros e. rewrite Hin, in_rolled. by setoid_rewrite find_object_member.
  - intros k p [Hk|[Hle Hk]]%lookup_app_Some.
    + apply list_lookup_fmap_Some in Hk as ([i s] & -> & Hk). apply (find_node_entry r k). by rewrite <- Hne, list_lookup_fmap, Hk.
    + apply list_lookup_fmap_Some in Hk as ([i v] & -> & Hk). rewrite length_fmap in Hle, Hk. simpl.
      change (find_object r (Value v) = Some (S k)). rewrite (find_value_entry r (k - length nps)); [f_equal; lia|].
      by rewrite <- Hve, list_lookup_fmap, Hk.
  - intros e i Hf. apply Hin, find_object_member. by rewrite Hf.
  - unfold node_value_len, pairs. rewrite length_app, !length_fmap. lia.
  - pose proof (rl_maps _ _ _ Hr) as Hm. rewrite (cn_run _ _ _ _ _ Hc) in Hm. injection Hm as <- _. by rewrite Hfst.
  - unfold node_and_value_count. rewrite (rl_nv_count _ _ _ Hr). unfold node_value_len, node_dict_len, value_dict_len. lia.
Qed.
End rolled_layer.

(** ** The ids of the merged layer *)
Section rolled_ids.
Context `{BuildLaws, !MergeOps, !MergeLaws}.
Context (l : InternalLayer) (ls rest : list InternalLayer) (r : InternalLayer).
Context (Hok : ids_ok (Some l)) (Hchain : chain l = reverse ls ++ rest) (Hs : Forall dicts_sorted ls) (Hr : rolled_layer ls rest r).

Let Hn : numbered node_value_len node_and_value_count node_value_id_map (reverse ls ++ rest).
Proof. rewrite <- Hchain. apply Hok. Qed.
Let Hp : numbered predicate_dict_len predicate_count predicate_id_map (reverse ls ++ rest).
Proof. rewrite <- Hchain. apply Hok. Qed.
Let Hdo e : distinct find_object (reverse ls ++ rest) e.
Proof. rewrite <- Hchain. apply Hok. Qed.
Let Hdp p : distinct find_predicate (reverse ls ++ rest) p.
Proof. rewrite <- Hchain. apply Hok. Qed.
Let Hentries := rolled_entries ls rest r Hn Hp Hdo Hdp Hs Hr.
Let Hpredicates := rolled_predicates ls rest r Hn Hp Hdo Hdp Hs Hr.

Lemma rolled_ids : ids_ok (Some r).
Proof.
  destruct Hentries as [pairs He], Hpredicates as [ppairs Hq].
  split; split; rewrite (rl_chain _ _ _ Hr).
  - eapply (rolled_numbered _ _ _ _ get_object Datatypes.id find_object_spec); exact He.
  - eapply (rolled_numbered _ _ _ _ predicate_dict_get Datatypes.id find_predicate_spec); exact Hq.
  - intros e. eapply rolled_distinct; exact He.
  - intros p. eapply rolled_distinct; exact Hq.
Qed.

Lemma rolled_entry_known e : entry_known (Some r) e = entry_known (Some l) e.
Proof.
  destruct Hentries as [pairs He]. simpl. rewrite !layer_object_id_walk, (rl_chain _ _ _ Hr), Hchain.
  eapply (rolled_walk _ _ _ _ get_object Datatypes.id find_object_spec); exact He.
Qed.

Lemma rolled_predicate_known p : predicate_known (Some r) p = predicate_known (Some l) p.
Proof.
  destruct Hpredicates as [pairs He].
  change (walk_id predicate_count predicate_id_map find_predicate p (chain r) = walk_id predicate_count predicate_id_map find_predicate p (chain l)).
  rewrite (rl_chain _ _ _ Hr), Hchain.
  eapply (rolled_walk _ _ _ _ predicate_dict_get Datatypes.id find_predicate_spec); exact He.
Qed.

Lemma rolled_counts : nv_count (Some r) = nv_count (Some l) ∧ p_count (Some r) = p_count (Some l).
Proof.
  destruct Hentries as [pairs He], Hpredicates as [ppairs Hq], Hok as [[Hnl Hpl] _].
  unfold nv_count, p_count. simpl. split.
  - rewrite (numbered_total _ _ _ l Hnl), Hchain, sum_lens_app, sum_lens_reverse, (rn_count _ _ _ _ _ _ _ _ He).
    by rewrite (rn_len _ _ _ _ _ _ _ _ He), (rn_length _ _ _ _ _ _ _ _ He).
  - rewrite (numbered_total _ _ _ l Hpl), Hchain, sum_lens_app, sum_lens_reverse, (rn_count _ _ _ _ _ _ _ _ Hq).
    by rewrite (rn_len _ _ _ _ _ _ _ _ Hq), (rn_length _ _ _ _ _ _ _ _ Hq).
Qed.
End rolled_ids.
