(* ===== verification/LayerMaps.v ===== *)
(** Loading a layer from its files: the contents of the files ([BaseLayerMaps]
    and [ChildLayerMaps] of [src/storage/file.rs]), and [BaseLayer::load] and
    [ChildLayer::load] of [src/layer/internal], which parse them. *)

From S2P Require Import Prelude Names Text LabelSpec Consts LayerFiles LayerFileSpec Succinct LayerTypes IdMap InternalLayer LayerIds.

(** ** Contents of files *)

Record DictionaryMaps := { dm_blocks : string; dm_offsets : string }.
Record TypedDictionaryMaps := {
  tdm_types_present : string; tdm_type_offsets : string; tdm_offsets : string; tdm_blocks : string }.
Record BitIndexMaps := { bim_bits : string; bim_blocks : string; bim_sblocks : string }.
Record AdjacencyListMaps := { alm_bitindex : BitIndexMaps; alm_nums : string }.
Record IdMapMaps := { imm_node_value : option BitIndexMaps; imm_predicate : option BitIndexMaps }.

Record BaseLayerMaps := {
  blm_node_dictionary : DictionaryMaps;
  blm_predicate_dictionary : DictionaryMaps;
  blm_value_dictionary : TypedDictionaryMaps;
  blm_id_map : IdMapMaps;
  blm_subjects : option string;
  blm_objects : option string;
  blm_s_p_adjacency_list : AdjacencyListMaps;
  blm_sp_o_adjacency_list : AdjacencyListMaps;
  blm_o_ps_adjacency_list : AdjacencyListMaps;
  blm_predicate_wavelet_tree : BitIndexMaps;
}.

Record ChildLayerMaps := {
  clm_node_dictionary : DictionaryMaps;
  clm_predicate_dictionary : DictionaryMaps;
  clm_value_dictionary : TypedDictionaryMaps;
  clm_id_map : IdMapMaps;
  clm_pos_subjects : string;
  clm_pos_objects : string;
  clm_neg_subjects : string;
  clm_neg_objects : string;
  clm_pos_s_p_adjacency_list : AdjacencyListMaps;
  clm_pos_sp_o_adjacency_list : AdjacencyListMaps;
  clm_pos_o_ps_adjacency_list : AdjacencyListMaps;
  clm_neg_s_p_adjacency_list : AdjacencyListMaps;
  clm_neg_sp_o_adjacency_list : AdjacencyListMaps;
  clm_neg_o_ps_adjacency_list : AdjacencyListMaps;
  clm_pos_predicate_wavelet_tree : BitIndexMaps;
  clm_neg_predicate_wavelet_tree : BitIndexMaps;
}.

(** ** Sizes *)

Definition bit_index_maps_byte_size (m : BitIndexMaps) : nat :=
  String.length (bim_bits m) + String.length (bim_blocks m) + String.length (bim_sblocks m).
Definition dictionary_maps_byte_size (m : DictionaryMaps) : nat :=
  String.length (dm_blocks m) + String.length (dm_offsets m).
Definition typed_dictionary_maps_byte_size (m : TypedDictionaryMaps) : nat :=
  String.length (tdm_types_present m) + String.length (tdm_type_offsets m)
  + String.length (tdm_offsets m) + String.length (tdm_blocks m).
Definition adjacency_list_maps_byte_size (m : AdjacencyListMaps) : nat :=
  bit_index_maps_byte_size (alm_bitindex m) + String.length (alm_nums m).
(** [map_or(0, ...)] *)
Definition or_zero {A} (f : A → nat) (o : option A) : nat :=
  match o with Some a => f a | None => 0 end.
Definition id_map_byte_size (m : IdMapMaps) : nat :=
  let nv := or_zero bit_index_maps_byte_size (imm_node_value m) in
  let p := or_zero bit_index_maps_byte_size (imm_predicate m) in
  nv + p.

Definition base_byte_size (m : BaseLayerMaps) : nat :=
  dictionary_maps_byte_size (blm_node_dictionary m)
  + dictionary_maps_byte_size (blm_predicate_dictionary m)
  + typed_dictionary_maps_byte_size (blm_value_dictionary m)
  + id_map_byte_size (blm_id_map m)
  + or_zero String.length (blm_subjects m)
  + or_zero String.length (blm_objects m)
  + adjacency_list_maps_byte_size (blm_s_p_adjacency_list m)
  + adjacency_list_maps_byte_size (blm_sp_o_adjacency_list m)
  + adjacency_list_maps_byte_size (blm_o_ps_adjacency_list m)
  + bit_index_maps_byte_size (blm_predicate_wavelet_tree m).

Definition child_byte_size (m : ChildLayerMaps) : nat :=
  dictionary_maps_byte_size (clm_node_dictionary m)
  + dictionary_maps_byte_size (clm_predicate_dictionary m)
  + typed_dictionary_maps_byte_size (clm_value_dictionary m)
  + id_map_byte_size (clm_id_map m)
  + String.length (clm_pos_subjects m)
  + String.length (clm_pos_objects m)
  + String.length (clm_neg_subjects m)
  + String.length (clm_neg_objects m)
  + adjacency_list_maps_byte_size (clm_pos_s_p_adjacency_list m)
  + adjacency_list_maps_byte_size (clm_pos_sp_o_adjacency_list m)
  + adjacency_list_maps_byte_size (clm_pos_o_ps_adjacency_list m)
  + adjacency_list_maps_byte_size (clm_neg_s_p_adjacency_list m)
  + adjacency_list_maps_byte_size (clm_neg_sp_o_adjacency_list m)
  + adjacency_list_maps_byte_size (clm_neg_o_ps_adjacency_list m)
  + bit_index_maps_byte_size (clm_pos_predicate_wavelet_tree m)
  + bit_index_maps_byte_size (clm_neg_predicate_wavelet_tree m).

(** ** Parsing

    The parsers of [tdb_succinct] are parameters, as its structures are. *)
Class SuccinctParse `{SuccinctOps} := {
  sd_parse : string → string → outcome StringDict;
  td_from_parts : string → string → string → string → outcome TypedDict;
  LogArray : Type;
  la_parse : string → option LogArray;
  ml_from_logarray : LogArray → MonotonicLogArray;
  aj_parse : string → string → string → string → outcome AdjacencyList;
  aj_nums_width : AdjacencyList → nat;
  BitIndex : Type;
  bi_from_maps : string → string → string → outcome BitIndex;
  wt_from_parts : BitIndex → nat → outcome WaveletTree;
  calculate_width : nat → nat;
}.

Section load.
Context `{SuccinctParse}.

(** [IdMap::from_maps] *)
Definition idmap_from_maps (maps : BitIndexMaps) (width : nat) : outcome IdMap :=
  bitindex ← bi_from_maps (bim_bits maps) (bim_blocks maps) (bim_sblocks maps);
  id_wtree ← wt_from_parts bitindex width;
  Ok (from_parts (Some id_wtree)).

Definition load_idmap (maps : option BitIndexMaps) (entries : nat) : outcome IdMap :=
  match maps with
  | None => Ok (from_parts None)
  | Some maps => idmap_from_maps maps (calculate_width entries)
  end.

Definition load_string_dict (m : DictionaryMaps) : outcome StringDict :=
  sd_parse (dm_offsets m) (dm_blocks m).
Definition load_typed_dict (m : TypedDictionaryMaps) : outcome TypedDict :=
  td_from_parts (tdm_types_present m) (tdm_type_offsets m) (tdm_offsets m) (tdm_blocks m).
Definition load_log_array (m : string) : outcome MonotonicLogArray :=
  a ← unwrap (la_parse m); Ok (ml_from_logarray a).
Definition load_optional_log_array (m : option string) : outcome (option MonotonicLogArray) :=
  match m with None => Ok None | Some m => a ← load_log_array m; Ok (Some a) end.
Definition load_adjacency_list (m : AdjacencyListMaps) : outcome AdjacencyList :=
  aj_parse (alm_nums m) (bim_bits (alm_bitindex m)) (bim_blocks (alm_bitindex m)) (bim_sblocks (alm_bitindex m)).
Definition load_wavelet_tree (m : BitIndexMaps) (width : nat) : outcome WaveletTree :=
  bits ← bi_from_maps (bim_bits m) (bim_blocks m) (bim_sblocks m); wt_from_parts bits width.

(** [BaseLayer::load] *)
Definition base_load (n : name) (maps : BaseLayerMaps) : outcome InternalLayer :=
  let stored := base_byte_size maps in
  nd ← load_string_dict (blm_node_dictionary maps);
  pd ← load_string_dict (blm_predicate_dictionary maps);
  vd ← load_typed_dict (blm_value_dictionary maps);
  nvm ← load_idmap (imm_node_value (blm_id_map maps)) (sd_num_entries nd + td_num_entries vd);
  pm ← load_idmap (imm_predicate (blm_id_map maps)) (sd_num_entries pd);
  subjects ← load_optional_log_array (blm_subjects maps);
  objects ← load_optional_log_array (blm_objects maps);
  s_p ← load_adjacency_list (blm_s_p_adjacency_list maps);
  sp_o ← load_adjacency_list (blm_sp_o_adjacency_list maps);
  o_ps ← load_adjacency_list (blm_o_ps_adjacency_list maps);
  wt ← load_wavelet_tree (blm_predicate_wavelet_tree maps) (aj_nums_width s_p);
  Ok (Base {|
    bl_name := n;
    bl_node_dictionary := nd; bl_predicate_dictionary := pd; bl_value_dictionary := vd;
    bl_node_value_idmap := nvm; bl_predicate_idmap := pm;
    bl_subjects := subjects; bl_objects := objects;
    bl_s_p_adjacency_list := s_p; bl_sp_o_adjacency_list := sp_o; bl_o_ps_adjacency_list := o_ps;
    bl_predicate_wavelet_tree := wt;
    bl_stored_size := stored |}).

(** [ChildLayer::load] *)
Definition child_load (n : name) (parent : InternalLayer) (maps : ChildLayerMaps) : outcome InternalLayer :=
  let stored := child_byte_size maps in
  nd ← load_string_dict (clm_node_dictionary maps);
  pd ← load_string_dict (clm_predicate_dictionary maps);
  vd ← load_typed_dict (clm_value_dictionary maps);
  let parent_node_values := node_and_value_count parent in
  let parent_predicates := predicate_count parent in
  nvm ← load_idmap (imm_node_value (clm_id_map maps)) (sd_num_entries nd + td_num_entries vd);
  pm ← load_idmap (imm_predicate (clm_id_map maps)) (sd_num_entries pd);
  ps ← load_log_array (clm_pos_subjects maps);
  po ← load_log_array (clm_pos_objects maps);
  ns ← load_log_array (clm_neg_subjects maps);
  no ← load_log_array (clm_neg_objects maps);
  ps_p ← load_adjacency_list (clm_pos_s_p_adjacency_list maps);
  psp_o ← load_adjacency_list (clm_pos_sp_o_adjacency_list maps);
  po_ps ← load_adjacency_list (clm_pos_o_ps_adjacency_list maps);
  ns_p ← load_adjacency_list (clm_neg_s_p_adjacency_list maps);
  nsp_o ← load_adjacency_list (clm_neg_sp_o_adjacency_list maps);
  no_ps ← load_adjacency_list (clm_neg_o_ps_adjacency_list maps);
  pwt ← load_wavelet_tree (clm_pos_predicate_wavelet_tree maps) (aj_nums_width ps_p);
  nwt ← load_wavelet_tree (clm_neg_predicate_wavelet_tree maps) (aj_nums_width ns_p);
  Ok (Child parent {|
    cl_name := n;
    cl_node_dictionary := nd; cl_predicate_dictionary := pd; cl_value_dictionary := vd;
    cl_node_value_idmap := nvm; cl_predicate_idmap := pm;
    cl_parent_node_value_count := parent_node_values; cl_parent_predicate_count := parent_predicates;
    cl_pos_subjects := ps; cl_pos_objects := po;
    cl_pos_s_p_adjacency_list := ps_p; cl_pos_sp_o_adjacency_list := psp_o; cl_pos_o_ps_adjacency_list := po_ps;
    cl_neg_subjects := ns; cl_neg_objects := no;
    cl_neg_s_p_adjacency_list := ns_p; cl_neg_sp_o_adjacency_list := nsp_o; cl_neg_o_ps_adjacency_list := no_ps;
    cl_pos_predicate_wavelet_tree := pwt; cl_neg_predicate_wavelet_tree := nwt;
    cl_stored_size := stored |}).
End load.

Lemma base_load_shape `{SuccinctParse} n maps l :
  base_load n maps = Ok l → ∃ b, l = Base b ∧ bl_name b = n.
Proof. unfold base_load. intros Hl. split_ok. injection Hl as <-. by eexists. Qed.

Lemma child_load_shape `{SuccinctParse} n parent maps l :
  child_load n parent maps = Ok l →
  ∃ c, l = Child parent c ∧ cl_name c = n ∧
    cl_parent_node_value_count c = node_and_value_count parent ∧
    cl_parent_predicate_count c = predicate_count parent.
Proof. unfold child_load. intros Hl. split_ok. injection Hl as <-. by eexists. Qed.

(** ** Reading the files of a layer

    [FileLoad] and the groups of files are types of [tdb_succinct]; reading them
    is a parameter, with the promise that each file's contents are read. *)
Class FileMaps (S : Type) := {
  map_file : layer_file → io S string;
  map_if_exists : layer_file → io S (option string);
  map_dictionary : DictionaryFiles → io S DictionaryMaps;
  map_typed_dictionary : TypedDictionaryFiles → io S TypedDictionaryMaps;
  map_bit_index : BitIndexFiles → io S BitIndexMaps;
  map_bit_index_if_exists : BitIndexFiles → io S (option BitIndexMaps);
  map_adjacency_list : AdjacencyListFiles → io S AdjacencyListMaps;
}.

Section map_all.
Context {S : Type} `{FileMaps S}.

Definition map_id_map (f : IdMapFiles) : io S IdMapMaps :=
  node_value_idmap_maps ← map_bit_index_if_exists (imf_node_value f);
  predicate_idmap_maps ← map_bit_index_if_exists (imf_predicate f);
  mret {| imm_node_value := node_value_idmap_maps; imm_predicate := predicate_idmap_maps |}.

Definition base_map_all (f : BaseLayerFiles) : io S BaseLayerMaps :=
  nd ← map_dictionary (blf_node_dictionary f);
  pd ← map_dictionary (blf_predicate_dictionary f);
  vd ← map_typed_dictionary (blf_value_dictionary f);
  im ← map_id_map (blf_id_map f);
  subjects_map ← map_if_exists (blf_subjects f);
  objects_map ← map_if_exists (blf_objects f);
  s_p ← map_adjacency_list (blf_s_p_adjacency_list f);
  sp_o ← map_adjacency_list (blf_sp_o_adjacency_list f);
  o_ps ← map_adjacency_list (blf_o_ps_adjacency_list f);
  wt ← map_bit_index (blf_predicate_wavelet_tree f);
  mret {| blm_node_dictionary := nd; blm_predicate_dictionary := pd; blm_value_dictionary := vd;
          blm_id_map := im; blm_subjects := subjects_map; blm_objects := objects_map;
          blm_s_p_adjacency_list := s_p; blm_sp_o_adjacency_list := sp_o;
          blm_o_ps_adjacency_list := o_ps; blm_predicate_wavelet_tree := wt |}.

Definition child_map_all (f : ChildLayerFiles) : io S ChildLayerMaps :=
  nd ← map_dictionary (clf_node_dictionary f);
  pd ← map_dictionary (clf_predicate_dictionary f);
  vd ← map_typed_dictionary (clf_value_dictionary f);
  im ← map_id_map (clf_id_map f);
  ps ← map_file (clf_pos_subjects f);
  ns ← map_file (clf_neg_subjects f);
  po ← map_file (clf_pos_objects f);
  no ← map_file (clf_neg_objects f);
  ps_p ← map_adjacency_list (clf_pos_s_p_adjacency_list f);
  psp_o ← map_adjacency_list (clf_pos_sp_o_adjacency_list f);
  po_ps ← map_adjacency_list (clf_pos_o_ps_adjacency_list f);
  ns_p ← map_adjacency_list (clf_neg_s_p_adjacency_list f);
  nsp_o ← map_adjacency_list (clf_neg_sp_o_adjacency_list f);
  no_ps ← map_adjacency_list (clf_neg_o_ps_adjacency_list f);
  pwt ← map_bit_index (clf_pos_predicate_wavelet_tree f);
  nwt ← map_bit_index (clf_neg_predicate_wavelet_tree f);
  mret {| clm_node_dictionary := nd; clm_predicate_dictionary := pd; clm_value_dictionary := vd;
          clm_id_map := im;
          clm_pos_subjects := ps; clm_pos_objects := po; clm_neg_subjects := ns; clm_neg_objects := no;
          clm_pos_s_p_adjacency_list := ps_p; clm_pos_sp_o_adjacency_list := psp_o;
          clm_pos_o_ps_adjacency_list := po_ps; clm_neg_s_p_adjacency_list := ns_p;
          clm_neg_sp_o_adjacency_list := nsp_o; clm_neg_o_ps_adjacency_list := no_ps;
          clm_pos_predicate_wavelet_tree := pwt; clm_neg_predicate_wavelet_tree := nwt |}.

(** [BaseLayer::load_from_files] and [ChildLayer::load_from_files] *)
Definition base_load_from_files `{SuccinctParse} (n : name) (f : BaseLayerFiles) : io S InternalLayer :=
  maps ← base_map_all f; lift (base_load n maps).
Definition child_load_from_files `{SuccinctParse} (n : name) (parent : InternalLayer) (f : ChildLayerFiles)
    : io S InternalLayer :=
  maps ← child_map_all f; lift (child_load n parent maps).
End map_all.

(** *** What the files of a store hold *)

Definition file_in (m : store_map) (f : layer_file) : option string := m !! lf_dir f ≫= (.!! lf_name f).

Definition dictionary_in (m : store_map) (f : DictionaryFiles) : option DictionaryMaps :=
  b ← file_in m (df_blocks f); o ← file_in m (df_offsets f); Some {| dm_blocks := b; dm_offsets := o |}.
Definition typed_dictionary_in (m : store_map) (f : TypedDictionaryFiles) : option TypedDictionaryMaps :=
  p ← file_in m (tdf_types_present f); t ← file_in m (tdf_type_offsets f);
  o ← file_in m (tdf_offsets f); b ← file_in m (tdf_blocks f);
  Some {| tdm_types_present := p; tdm_type_offsets := t; tdm_offsets := o; tdm_blocks := b |}.
Definition bit_index_in (m : store_map) (f : BitIndexFiles) : option BitIndexMaps :=
  b ← file_in m (bif_bits f); k ← file_in m (bif_blocks f); s ← file_in m (bif_sblocks f);
  Some {| bim_bits := b; bim_blocks := k; bim_sblocks := s |}.
(** No bits: no index. *)
Definition optional_bit_index_in (m : store_map) (f : BitIndexFiles) : option (option BitIndexMaps) :=
  match file_in m (bif_bits f) with None => Some None | Some _ => i ← bit_index_in m f; Some (Some i) end.
Definition adjacency_list_in (m : store_map) (f : AdjacencyListFiles) : option AdjacencyListMaps :=
  i ← bit_index_in m (alf_bitindex f); n ← file_in m (alf_nums f);
  Some {| alm_bitindex := i; alm_nums := n |}.

(** Files of one layer of the store. *)
Definition layer_of (m : store_map) (d : name) : Prop := name_wf d ∧ is_Some (m !! d).
Definition in_dir (d : name) (files : list layer_file) : Prop :=
  Forall (λ f, lf_dir f = d ∧ known (lf_name f) = true) files.

Definition bit_index_files (f : BitIndexFiles) : list layer_file := [bif_bits f; bif_blocks f; bif_sblocks f].

Class FileMapsLaws (S : Type) `{PersistentReadLaws S, !FileMaps S} := {
  map_file_spec m d f c : layer_of m d → in_dir d [f] →
    file_in m f = Some c → runs m (map_file f) c m;
  map_if_exists_spec m d f : layer_of m d → in_dir d [f] → runs m (map_if_exists f) (file_in m f) m;
  map_dictionary_spec m d f c : layer_of m d → in_dir d [df_blocks f; df_offsets f] →
    dictionary_in m f = Some c → runs m (map_dictionary f) c m;
  map_typed_dictionary_spec m d f c : layer_of m d →
    in_dir d [tdf_types_present f; tdf_type_offsets f; tdf_offsets f; tdf_blocks f] →
    typed_dictionary_in m f = Some c → runs m (map_typed_dictionary f) c m;
  map_bit_index_spec m d f c : layer_of m d → in_dir d (bit_index_files f) →
    bit_index_in m f = Some c → runs m (map_bit_index f) c m;
  map_bit_index_if_exists_spec m d f c : layer_of m d → in_dir d (bit_index_files f) →
    optional_bit_index_in m f = Some c → runs m (map_bit_index_if_exists f) c m;
  map_adjacency_list_spec m d f c : layer_of m d → in_dir d (alf_nums f :: bit_index_files (alf_bitindex f)) →
    adjacency_list_in m f = Some c → runs m (map_adjacency_list f) c m;
}.

(** The files mapped one after the other, as the crate does, with the method that
    maps one of them. *)
Section read_maps.
Context {S : Type} `{PersistentLayerStore S} (map_one : layer_file → io S string).

Definition one_if_exists (f : layer_file) : io S (option string) :=
  e ← f_exists f; if e : bool then c ← map_one f; mret (Some c) else mret None.
Definition one_bit_index (f : BitIndexFiles) : io S BitIndexMaps :=
  b ← map_one (bif_bits f); k ← map_one (bif_blocks f); s ← map_one (bif_sblocks f);
  mret {| bim_bits := b; bim_blocks := k; bim_sblocks := s |}.

Definition maps_by : FileMaps S := {|
  map_file := map_one;
  map_if_exists := one_if_exists;
  map_dictionary f :=
    b ← map_one (df_blocks f); o ← map_one (df_offsets f); mret {| dm_blocks := b; dm_offsets := o |};
  map_typed_dictionary f :=
    p ← map_one (tdf_types_present f); t ← map_one (tdf_type_offsets f);
    o ← map_one (tdf_offsets f); b ← map_one (tdf_blocks f);
    mret {| tdm_types_present := p; tdm_type_offsets := t; tdm_offsets := o; tdm_blocks := b |};
  map_bit_index := one_bit_index;
  map_bit_index_if_exists f :=
    e ← f_exists (bif_bits f); if e : bool then i ← one_bit_index f; mret (Some i) else mret None;
  map_adjacency_list f :=
    i ← one_bit_index (alf_bitindex f); n ← map_one (alf_nums f); mret {| alm_bitindex := i; alm_nums := n |};
|}.
End read_maps.

#[export] Instance read_maps {S : Type} `{PersistentLayerStore S} : FileMaps S := maps_by f_read.

Section read_maps_laws.
Context {S : Type} `{PersistentReadLaws S} (map_one : layer_file → io S string).
Context (Hone : ∀ m d f c, layer_of m d → lf_dir f = d ∧ known (lf_name f) = true → file_in m f = Some c →
  runs m (map_one f) c m).

Lemma runs_one_bit_index m d f c :
  layer_of m d → in_dir d (bit_index_files f) → bit_index_in m f = Some c → runs m (one_bit_index map_one f) c m.
Proof.
  intros Hd Hf Hc. unfold bit_index_in in Hc. unfold in_dir, bit_index_files in Hf. rewrite !Forall_cons in Hf. destruct Hf as (?&?&?&_).
  simplify_option_eq. repeat (eapply runs_bind; [eapply Hone; [eassumption|done..]|]). apply runs_ret.
Qed.

Lemma runs_exists m d f : layer_of m d → lf_dir f = d ∧ known (lf_name f) = true → runs m (f_exists f) (bool_decide (is_Some (file_in m f))) m.
Proof.
  intros [Hd [fs Hfs]] [Hf Hk]. destruct f as [d' n]. cbn in Hf, Hk. subst d'.
  eapply returns_eq; [by apply (f_exists_spec m d n fs)|]. unfold file_in. cbn. by rewrite Hfs.
Qed.

Lemma maps_by_laws : FileMapsLaws S (FileMaps0 := maps_by map_one).
Proof.
  split; unfold in_dir.
  - intros m d f c Hd Hf Hc. rewrite Forall_singleton in Hf. eapply Hone; [eassumption|done..].
  - intros m d f Hd Hf. rewrite Forall_singleton in Hf. eapply runs_bind; [eapply runs_exists; [eassumption|done..]|].
    destruct (file_in m f) as [c|] eqn:Hc.
    + rewrite bool_decide_eq_true_2 by eauto. eapply runs_bind; [eapply Hone; [eassumption|done..]|apply runs_ret].
    + rewrite bool_decide_eq_false_2 by by intros [? [=]]. apply runs_ret.
  - intros m d f c Hd Hf Hc. unfold dictionary_in in Hc. rewrite !Forall_cons in Hf. destruct Hf as (?&?&_).
    simplify_option_eq. repeat (eapply runs_bind; [eapply Hone; [eassumption|done..]|]). apply runs_ret.
  - intros m d f c Hd Hf Hc. unfold typed_dictionary_in in Hc. rewrite !Forall_cons in Hf. destruct Hf as (?&?&?&?&_).
    simplify_option_eq. repeat (eapply runs_bind; [eapply Hone; [eassumption|done..]|]). apply runs_ret.
  - intros m d f c Hd Hf Hc. eapply runs_one_bit_index; [eassumption|done..].
  - intros m d f c Hd Hf Hc. unfold optional_bit_index_in in Hc.
    assert (lf_dir (bif_bits f) = d ∧ known (lf_name (bif_bits f)) = true) as Hb.
    { unfold bit_index_files in Hf. rewrite !Forall_cons in Hf. naive_solver. }
    eapply runs_bind; [eapply runs_exists; [eassumption|done..]|]. destruct (file_in m (bif_bits f)) as [b|] eqn:Hbits.
    + rewrite bool_decide_eq_true_2 by eauto. destruct (bit_index_in m f) as [i|] eqn:Hi; simplify_eq/=.
      eapply runs_bind; [eapply runs_one_bit_index; [eassumption|done..]|apply runs_ret].
    + rewrite bool_decide_eq_false_2 by by intros [? [=]]. simplify_eq. apply runs_ret.
  - intros m d f c Hd Hf Hc. unfold adjacency_list_in in Hc. rewrite Forall_cons in Hf. destruct Hf as [Hn Hb].
    destruct (bit_index_in m (alf_bitindex f)) as [i|] eqn:Hi; simplify_option_eq.
    eapply runs_bind; [eapply runs_one_bit_index; [eassumption|done..]|]. eapply runs_bind; [eapply Hone; [eassumption|done..]|]. apply runs_ret.
Qed.
End read_maps_laws.

Lemma runs_read_file {S : Type} `{PersistentReadLaws S} m d f c :
  layer_of m d → lf_dir f = d ∧ known (lf_name f) = true → file_in m f = Some c → runs m (f_read f) c m.
Proof.
  intros [Hd [fs Hfs]] [Hf Hk] Hc. destruct f as [d' n]. cbn in Hf, Hk. subst d'. unfold file_in in Hc. cbn in Hc.
  rewrite Hfs in Hc. by eapply runs_f_read.
Qed.

#[export] Instance read_maps_laws {S : Type} `{PersistentReadLaws S} : FileMapsLaws S := maps_by_laws f_read runs_read_file.

(** *** Whole layers *)

Definition id_map_in (m : store_map) (f : IdMapFiles) : option IdMapMaps :=
  n ← optional_bit_index_in m (imf_node_value f); p ← optional_bit_index_in m (imf_predicate f);
  Some {| imm_node_value := n; imm_predicate := p |}.

Definition base_maps_in (m : store_map) (f : BaseLayerFiles) : option BaseLayerMaps :=
  nd ← dictionary_in m (blf_node_dictionary f);
  pd ← dictionary_in m (blf_predicate_dictionary f);
  vd ← typed_dictionary_in m (blf_value_dictionary f);
  im ← id_map_in m (blf_id_map f);
  s_p ← adjacency_list_in m (blf_s_p_adjacency_list f);
  sp_o ← adjacency_list_in m (blf_sp_o_adjacency_list f);
  o_ps ← adjacency_list_in m (blf_o_ps_adjacency_list f);
  wt ← bit_index_in m (blf_predicate_wavelet_tree f);
  Some {| blm_node_dictionary := nd; blm_predicate_dictionary := pd; blm_value_dictionary := vd;
          blm_id_map := im; blm_subjects := file_in m (blf_subjects f); blm_objects := file_in m (blf_objects f);
          blm_s_p_adjacency_list := s_p; blm_sp_o_adjacency_list := sp_o;
          blm_o_ps_adjacency_list := o_ps; blm_predicate_wavelet_tree := wt |}.

Definition child_maps_in (m : store_map) (f : ChildLayerFiles) : option ChildLayerMaps :=
  nd ← dictionary_in m (clf_node_dictionary f);
  pd ← dictionary_in m (clf_predicate_dictionary f);
  vd ← typed_dictionary_in m (clf_value_dictionary f);
  im ← id_map_in m (clf_id_map f);
  ps ← file_in m (clf_pos_subjects f);
  ns ← file_in m (clf_neg_subjects f);
  po ← file_in m (clf_pos_objects f);
  no ← file_in m (clf_neg_objects f);
  ps_p ← adjacency_list_in m (clf_pos_s_p_adjacency_list f);
  psp_o ← adjacency_list_in m (clf_pos_sp_o_adjacency_list f);
  po_ps ← adjacency_list_in m (clf_pos_o_ps_adjacency_list f);
  ns_p ← adjacency_list_in m (clf_neg_s_p_adjacency_list f);
  nsp_o ← adjacency_list_in m (clf_neg_sp_o_adjacency_list f);
  no_ps ← adjacency_list_in m (clf_neg_o_ps_adjacency_list f);
  pwt ← bit_index_in m (clf_pos_predicate_wavelet_tree f);
  nwt ← bit_index_in m (clf_neg_predicate_wavelet_tree f);
  Some {| clm_node_dictionary := nd; clm_predicate_dictionary := pd; clm_value_dictionary := vd;
          clm_id_map := im;
          clm_pos_subjects := ps; clm_pos_objects := po; clm_neg_subjects := ns; clm_neg_objects := no;
          clm_pos_s_p_adjacency_list := ps_p; clm_pos_sp_o_adjacency_list := psp_o;
          clm_pos_o_ps_adjacency_list := po_ps; clm_neg_s_p_adjacency_list := ns_p;
          clm_neg_sp_o_adjacency_list := nsp_o; clm_neg_o_ps_adjacency_list := no_ps;
          clm_pos_predicate_wavelet_tree := pwt; clm_neg_predicate_wavelet_tree := nwt |}.

Section runs_map_all.
Context {S : Type} `{FileMapsLaws S}.
Context (m : store_map) (d : name) (Hd : layer_of m d).

Ltac in_directory := unfold in_dir, bit_index_files; repeat (apply Forall_cons; split; [split; reflexivity|]); apply Forall_nil_2.

Lemma runs_map_id_map f maps :
  in_dir d (bit_index_files (imf_node_value f)) → in_dir d (bit_index_files (imf_predicate f)) →
  id_map_in m f = Some maps → runs m (map_id_map f) maps m.
Proof.
  intros Hn Hp Hm. unfold id_map_in in Hm.
  destruct (optional_bit_index_in m (imf_node_value f)) as [n|] eqn:En; [|done]. simpl in Hm.
  destruct (optional_bit_index_in m (imf_predicate f)) as [p|] eqn:Ep; [|done]. simpl in Hm. injection Hm as <-.
  unfold map_id_map.
  eapply runs_bind; [by eapply map_bit_index_if_exists_spec|].
  eapply runs_bind; [by eapply map_bit_index_if_exists_spec|]. apply runs_ret.
Qed.

(** Take an optional sequence of lookups apart. *)
Ltac lookups H :=
  repeat match type of H with
  | mbind _ ?o = Some _ =>
      let E := fresh "E" in let x := fresh "x" in apply bind_Some in H as (x & E & H)
  end.

Ltac run_map :=
  first
    [ apply runs_ret
    | eapply runs_bind;
      [ first
        [ eapply (map_dictionary_spec m d) | eapply (map_typed_dictionary_spec m d)
        | eapply (map_bit_index_spec m d) | eapply (map_adjacency_list_spec m d)
        | eapply (map_if_exists_spec m d) | eapply (map_file_spec m d) | eapply runs_map_id_map ];
        first [exact Hd | eassumption | in_directory]
      | ] ].

Lemma runs_base_map_all f maps :
  base_files_of (LayerFile d <$> base_filenames) = Ok f → base_maps_in m f = Some maps →
  runs m (base_map_all f) maps m.
Proof.
  intros Hf Hm. injection Hf as <-. unfold base_maps_in in Hm. lookups Hm. injection Hm as <-.
  unfold base_map_all. repeat run_map.
Qed.

Lemma runs_child_map_all f maps :
  child_files_of (LayerFile d <$> child_filenames) = Ok f → child_maps_in m f = Some maps →
  runs m (child_map_all f) maps m.
Proof.
  intros Hf Hm. injection Hf as <-. unfold child_maps_in in Hm. lookups Hm. injection Hm as <-.
  unfold child_map_all. repeat run_map.
Qed.
End runs_map_all.
