(* ===== verification/LayerLoad.v ===== *)
(** Loading a layer with its ancestors: [get_layer_with_cache] of
    [src/storage/layer.rs]. Parents are followed up to a layer in the cache or to
    a base layer, with the rollups found on the way taken in place of the layers
    they replace; then the layers are loaded from there on. *)

From S2P Require Import Prelude Names Text LabelSpec Consts LayerFiles LayerFileSpec Succinct LayerTypes IdMap InternalLayer LayerIds LayerCache LayerMaps.

(** A layer to load: its id and, if there is one, the rollup to load in its
    place together with the parent of the original. *)
Notation load_entry := (name * option (name * option name))%type.

Section load.
Context `{SuccinctParse} {S C : Type} `{!PersistentLayerStore S, !FileMaps S, !LayerCache C}.

Definition on_store {A} (p : io S A) : io (S * C) A := λ sc, let '(o, s') := p sc.1 in (o, (s', sc.2)).
Definition on_cache {A} (p : io C A) : io (S * C) A := λ sc, let '(o, c') := p sc.2 in (o, (sc.1, c')).

Definition current (e : load_entry) : name :=
  match e.2 with Some (rollup, _) => rollup | None => e.1 end.

(** The first loop; [layers_to_load] is a stack, [top] its top. *)
Fixpoint find_ancestor (fuel : nat) (top : load_entry) (below : list load_entry)
    : io (S * C) (option InternalLayer * list load_entry) :=
  match fuel with
  | O => lift NoFuel
  | Datatypes.S fuel =>
      let '(original_layer, rollup_option) := top in
      let current_layer := current top in
      cached ← on_cache (get_layer_from_cache current_layer);
      match cached with
      | Some layer =>
          match rollup_option with
          | Some (_, original_parent) =>
              match immediate_parent layer with
              | Some _ =>
                  p ← lift (unwrap original_parent);
                  mret (Some (Rollup layer original_layer (Some p)), below)
              | None => mret (Some (Rollup layer original_layer original_parent), below)
              end
          | None => mret (Some layer, below)
          end
      | None =>
          has_rollup ← on_store (layer_has_rollup current_layer);
          if has_rollup : bool then
            rollup ← on_store (read_rollup_file current_layer);
            if decide (rollup = current_layer) then lift Panic
            else
              has_parent ← on_store (layer_has_parent current_layer);
              original_parent ← (if has_parent : bool
                                 then p ← on_store (read_parent_file current_layer); mret (Some p)
                                 else mret None);
              find_ancestor fuel (current_layer, Some (rollup, original_parent)) below
          else
            has_parent ← on_store (layer_has_parent current_layer);
            if has_parent : bool then
              parent ← on_store (read_parent_file current_layer);
              find_ancestor fuel (parent, None) (top :: below)
            else mret (None, top :: below)
      end
  end.

Definition load_base_entry (e : load_entry) : io (S * C) InternalLayer :=
  let '(base_id, rollup) := e in
  layer ← match rollup with
          | None =>
              files ← on_store (base_layer_files base_id);
              on_store (base_load_from_files base_id files)
          | Some (rollup_id, original_parent_id_option) =>
              files ← on_store (base_layer_files rollup_id);
              base_layer ← on_store (base_load_from_files rollup_id files);
              _ ← on_cache (cache_layer base_layer);
              mret (Rollup base_layer base_id original_parent_id_option)
          end;
  _ ← on_cache (cache_layer layer);
  mret layer.

Definition load_child_entry (e : load_entry) (ancestor : InternalLayer) : io (S * C) InternalLayer :=
  let '(layer_id, rollup) := e in
  layer ← match rollup with
          | None =>
              files ← on_store (child_layer_files layer_id);
              on_store (child_load_from_files layer_id ancestor files)
          | Some (rollup_id, original_parent_id_option) =>
              original_parent_id ← lift (unwrap original_parent_id_option);
              files ← on_store (child_layer_files rollup_id);
              child_layer ← on_store (child_load_from_files rollup_id ancestor files);
              _ ← on_cache (cache_layer child_layer);
              mret (Rollup child_layer layer_id (Some original_parent_id))
          end;
  _ ← on_cache (cache_layer layer);
  mret layer.

(** The last loop. *)
Fixpoint load_children (layers_to_load : list load_entry) (ancestor : InternalLayer)
    : io (S * C) InternalLayer :=
  match layers_to_load with
  | [] => mret ancestor
  | e :: layers_to_load => layer ← load_child_entry e ancestor; load_children layers_to_load layer
  end.

Definition get_layer_with_cache (fuel : nat) (n : name) : io (S * C) (option InternalLayer) :=
  cached ← on_cache (get_layer_from_cache n);
  match cached with
  | Some layer => mret (Some layer)
  | None =>
      exists_ ← on_store (directory_exists n);
      if negb exists_ then mret None
      else
        found ← find_ancestor fuel (n, None) [];
        let '(ancestor, layers_to_load) := found in
        start ← match ancestor with
                | Some ancestor => mret (ancestor, layers_to_load)
                | None =>
                    match layers_to_load with
                    | [] => lift Panic
                    | e :: layers_to_load => layer ← load_base_entry e; mret (layer, layers_to_load)
                    end
                end;
        let '(ancestor, layers_to_load) := start in
        ancestor ← load_children layers_to_load ancestor;
        if decide (n = layer_name ancestor) then mret (Some ancestor) else lift Panic
  end.
End load.

(** ** The layer that the files of a store describe *)

(** The rollup file of [d] names [r]. *)
Definition rollup_in (m : store_map) (d r : name) : Prop :=
  name_wf r ∧ ∃ fs c, m !! d = Some fs ∧ fs !! fn_rollup FILENAMES = Some c ∧ rollup_named c r.
Definition no_rollup (m : store_map) (d : name) : Prop :=
  ∃ fs, m !! d = Some fs ∧ fs !! fn_rollup FILENAMES = None.
Definition no_parent (m : store_map) (d : name) : Prop :=
  ∃ fs, m !! d = Some fs ∧ fs !! fn_parent FILENAMES = None.
Definition opt_parent_in (m : store_map) (d : name) (o : option name) : Prop :=
  match o with Some p => parent_in m d p | None => no_parent m d end.

(** [loads m k d l]: the files in [m] make [d] the layer [l], found by reading
    the files of [k] layers. A layer with a rollup is loaded from the rollup,
    which has no rollup of its own, and takes the name and parent of the
    original. *)
Inductive loads `{SuccinctParse} (m : store_map) : nat → name → InternalLayer → Prop :=
  | loads_base d f maps l :
      name_wf d → no_rollup m d → no_parent m d →
      base_files_of (LayerFile d <$> base_filenames) = Ok f → base_maps_in m f = Some maps →
      base_load d maps = Ok l → loads m 1 d l
  | loads_child k d p parent f maps l :
      name_wf d → no_rollup m d → parent_in m d p → loads m k p parent →
      child_files_of (LayerFile d <$> child_filenames) = Ok f → child_maps_in m f = Some maps →
      child_load d parent maps = Ok l → loads m (Datatypes.S k) d l
  | loads_rollup k d r o l :
      name_wf d → rollup_in m d r → r ≠ d → no_rollup m r → opt_parent_in m d o → loads m k r l →
      (is_Some (immediate_parent l) → is_Some o) → loads m (Datatypes.S k) d (Rollup l d o).

Section loads.
Context `{SuccinctParse} (m : store_map).

Lemma rollup_in_functional d r1 r2 : rollup_in m d r1 → rollup_in m d r2 → r1 = r2.
Proof.
  intros (Hw1 & fs1 & c1 & Hd1 & H1 & Hc1) (Hw2 & fs2 & c2 & Hd2 & H2 & Hc2).
  apply (rollup_named_functional c1); [done..|]. congruence.
Qed.

Lemma loads_name k d l : loads m k d l → layer_name l = d.
Proof.
  intros Hl. destruct Hl as [d f maps l _ _ _ _ _ Hb|k d p parent f maps l _ _ _ _ _ _ Hc|]; [..|done].
  - by apply base_load_shape in Hb as (b & -> & <-).
  - by apply child_load_shape in Hc as (c & -> & <- & _).
Qed.

Lemma no_rollup_in d r : no_rollup m d → rollup_in m d r → False.
Proof. intros (fs & Hd & Hf) (_ & fs' & c & Hd' & Hf' & _). congruence. Qed.

Lemma no_parent_in d p : no_parent m d → parent_in m d p → False.
Proof. intros (fs & Hd & Hf) (_ & fs' & Hd' & Hf'). congruence. Qed.

Lemma opt_parent_functional d o1 o2 : opt_parent_in m d o1 → opt_parent_in m d o2 → o1 = o2.
Proof.
  destruct o1 as [p1|], o2 as [p2|]; simpl; intros H1 H2; [|by edestruct no_parent_in..|done].
  f_equal. by eapply parent_in_functional.
Qed.

(** The files determine the layer. *)
Lemma loads_functional k1 k2 d l1 l2 : loads m k1 d l1 → loads m k2 d l2 → l1 = l2.
Proof.
  intros H1. revert k2 l2.
  induction H1 as [d f maps l Hw Hr Hp Hf Hm Hl|k d p parent f maps l Hw Hr Hp Hpl IH Hf Hm Hl
                  |k d r o l Hw Hr Hne Hr' Ho Hl IH Hsome];
    intros k2 l2 H2; inversion H2; subst;
    try (exfalso; solve [eauto using no_rollup_in, no_parent_in]).
  - congruence.
  - assert (p0 = p) as -> by (by eapply parent_in_functional).
    assert (parent0 = parent) as -> by (symmetry; by eapply IH). congruence.
  - assert (r0 = r) as -> by by eapply rollup_in_functional.
    assert (o0 = o) as -> by by eapply opt_parent_functional.
    f_equal. by eapply IH.
Qed.
End loads.

(** ** [get_layer_with_cache] loads that layer *)

Section load_specs.
Context `{SuccinctParse} {S C : Type} `{FileMapsLaws S, !LayerCache C, !LayerCacheLaws C}.
Context (m : store_map).

(** Layers that the cache may hold. *)
Definition loaded (l : InternalLayer) : Prop := ∃ k, loads m k (layer_name l) l.

(** [p] returns a result that satisfies [Q], from a store that holds [m] and a
    cache of layers loaded from it, and leaves such a store and cache. *)
Definition does {A} (p : io (S * C) A) (Q : A → Prop) : Prop :=
  ∀ s c, pl_rep s m → lc_inv loaded c →
    ∃ a s' c', p (s, c) = (Ok a, (s', c')) ∧ pl_rep s' m ∧ lc_inv loaded c' ∧ Q a.

Lemma does_ret {A} (a : A) (Q : A → Prop) : Q a → does (mret a) Q.
Proof. intros Hq s c Hs Hc. by exists a, s, c. Qed.

Lemma does_bind {A B} (p : io (S * C) A) (k : A → io (S * C) B) (R : A → Prop) Q :
  does p R → (∀ a, R a → does (k a) Q) → does (p ≫= k) Q.
Proof.
  intros Hp Hk s c Hs Hc. destruct (Hp s c Hs Hc) as (a & s1 & c1 & Hp1 & Hs1 & Hc1 & Ha).
  destruct (Hk a Ha s1 c1 Hs1 Hc1) as (b & s2 & c2 & Hk2 & Hs2 & Hc2 & Hb). exists b, s2, c2.
  by rewrite (io_bind_Ok _ _ _ _ _ Hp1).
Qed.

Lemma does_store_bind {A B} (p : io S A) a (k : A → io (S * C) B) Q :
  runs m p a m → does (k a) Q → does (on_store p ≫= k) Q.
Proof.
  intros Hp Hk. apply (does_bind _ _ (λ x, x = a)); [|by intros ? ->].
  intros s c Hs Hc. destruct (Hp s Hs) as (s' & Heq & Hs'). exists a, s', c.
  unfold on_store. simpl. by rewrite Heq.
Qed.

Lemma does_get_bind {B} n (k : option InternalLayer → io (S * C) B) Q :
  (∀ l, loaded l → layer_name l = n → does (k (Some l)) Q) → does (k None) Q →
  does (on_cache (get_layer_from_cache n) ≫= k) Q.
Proof.
  intros Hsome Hnone.
  apply (does_bind _ _ (λ o, ∀ l, o = Some l → loaded l ∧ layer_name l = n)).
  - intros s c Hs Hc. destruct (get_layer_from_cache_spec loaded c n Hc) as (o & c' & Hg & Hc' & Ho).
    exists o, s, c'. unfold on_cache. simpl. by rewrite Hg.
  - intros [l|] Ho; [|done]. destruct (Ho l eq_refl). by apply Hsome.
Qed.

Lemma does_cache_bind {B} l (k : unit → io (S * C) B) Q :
  loaded l → does (k tt) Q → does (on_cache (cache_layer l) ≫= k) Q.
Proof.
  intros Hl Hk. apply (does_bind _ _ (λ _, True)); [|by intros []].
  intros s c Hs Hc. destruct (cache_layer_spec loaded c l Hc Hl) as (c' & Hg & Hc').
  exists tt, s, c'. unfold on_cache. simpl. by rewrite Hg.
Qed.

Lemma loads_loaded k d l : loads m k d l → loaded l.
Proof. intros Hl. exists k. by rewrite (loads_name _ _ _ _ Hl). Qed.

Lemma loads_wf k d l : loads m k d l → layer_of m d.
Proof.
  destruct 1 as [d f maps l Hw (fs & Hfs & _)|k d p parent f maps l Hw (fs & Hfs & _)
                |k d r o l Hw (_ & fs & c & Hfs & _)]; (split; [done|by eexists]).
Qed.

(** What the first loop has found at an entry: the layer of the entry itself. *)
Definition wrap (e : load_entry) (l : InternalLayer) : InternalLayer :=
  match e.2 with Some (_, o) => Rollup l e.1 o | None => l end.

(** The entry [e] stands for the layer [wrap e l], where [l] is the layer of the
    current id. *)
Definition entry_ok (e : load_entry) (l : InternalLayer) : Prop :=
  (∃ k, loads m k (current e) l) ∧ (∃ k, loads m k e.1 (wrap e l)) ∧
  match e.2 with Some (_, o) => is_Some (immediate_parent l) → is_Some o | None => True end.

(** An entry for a base layer; an entry for a layer with the given parent. *)
Definition base_entry (e : load_entry) (l : InternalLayer) : Prop :=
  entry_ok e l ∧ ∃ f maps, base_files_of (LayerFile (current e) <$> base_filenames) = Ok f ∧
    base_maps_in m f = Some maps ∧ base_load (current e) maps = Ok l.
Definition child_entry (e : load_entry) (parent l : InternalLayer) : Prop :=
  entry_ok e l ∧ ∃ f maps, child_files_of (LayerFile (current e) <$> child_filenames) = Ok f ∧
    child_maps_in m f = Some maps ∧ child_load (current e) parent maps = Ok l.

(** Loading the entries from an ancestor on ends in the given layer. *)
Inductive leads : InternalLayer → list load_entry → InternalLayer → Prop :=
  | leads_nil l : leads l [] l
  | leads_cons parent e l es final : child_entry e parent l → leads (wrap e l) es final → leads parent (e :: es) final.

Definition found_ok (final : InternalLayer) (r : option InternalLayer * list load_entry) : Prop :=
  match r.1 with
  | Some a => leads a r.2 final
  | None => ∃ e es l, r.2 = e :: es ∧ base_entry e l ∧ leads (wrap e l) es final
  end.

Lemma runs_has_rollup d : layer_of m d → no_rollup m d → runs m (layer_has_rollup d) false m.
Proof.
  intros [Hd _] (fs & Hfs & Hf). pose proof (runs_layer_has_rollup m d fs Hd Hfs) as Hr.
  rewrite Hf in Hr. exact Hr.
Qed.

Lemma runs_has_no_parent d : layer_of m d → no_parent m d → runs m (layer_has_parent d) false m.
Proof.
  intros [Hd _] (fs & Hfs & Hf). pose proof (runs_layer_has_parent m d fs Hd Hfs) as Hr.
  rewrite Hf in Hr. exact Hr.
Qed.

Lemma runs_has_parent d p : layer_of m d → parent_in m d p →
  runs m (layer_has_parent d) true m ∧ runs m (read_parent_file d) p m.
Proof.
  intros [Hd _] (Hp & fs & Hfs & Hf). split.
  - pose proof (runs_layer_has_parent m d fs Hd Hfs) as Hr. rewrite Hf in Hr. exact Hr.
  - by apply (runs_read_parent m d fs).
Qed.

Lemma runs_rollup d r : layer_of m d → rollup_in m d r →
  runs m (layer_has_rollup d) true m ∧ runs m (read_rollup_file d) r m.
Proof.
  intros [Hd _] (Hp & fs & c & Hfs & Hf & Hc). split.
  - pose proof (runs_layer_has_rollup m d fs Hd Hfs) as Hr. rewrite Hf in Hr. exact Hr.
  - by apply (runs_read_rollup m d fs Hd Hfs r c).
Qed.

Lemma does_opt_parent_bind {B} d o (k : option name → io (S * C) B) Q :
  layer_of m d → opt_parent_in m d o → does (k o) Q →
  does (has_parent ← on_store (layer_has_parent d);
        original_parent ← (if has_parent : bool
                           then p ← on_store (read_parent_file d); mret (Some p)
                           else mret None);
        k original_parent) Q.
Proof.
  intros Hd Ho Hk. destruct o as [p|]; simpl in Ho.
  - destruct (runs_has_parent d p Hd Ho) as [Hhas Hread]. eapply does_store_bind; [exact Hhas|].
    eapply (does_bind _ _ (λ x, x = Some p)); [|by intros ? ->].
    eapply does_store_bind; [exact Hread|]. by apply does_ret.
  - eapply does_store_bind; [by apply runs_has_no_parent|].
    eapply (does_bind _ _ (λ x, x = None)); [|by intros ? ->]. by apply does_ret.
Qed.

Lemma find_hit e below final l :
  entry_ok e l → leads (wrap e l) below final →
  does (match e.2 with
        | Some (_, original_parent) =>
            match immediate_parent l with
            | Some _ =>
                p ← lift (unwrap original_parent);
                mret (Some (Rollup l e.1 (Some p)), below)
            | None => mret (Some (Rollup l e.1 original_parent), below)
            end
        | None => mret (Some l, below)
        end) (found_ok final).
Proof.
  intros (_ & _ & Ho) Hl. destruct e as [d [[r o]|]]; cbn in Ho, Hl |- *; [|by apply does_ret].
  destruct (immediate_parent l) as [q|]; [|by apply does_ret].
  destruct Ho as [p ->]; [by eexists|]. exact (does_ret (Some (Rollup l d (Some p)), below) _ Hl).
Qed.

Lemma find_ancestor_ok kk d l :
  loads m kk d l → ∀ e below final fuel,
  current e = d → (is_Some e.2 → no_rollup m d) → entry_ok e l → leads (wrap e l) below final → kk ≤ fuel →
  does (find_ancestor fuel e below) (found_ok final).
Proof.
  intros Hl. pose proof (loads_wf _ _ _ Hl) as Hd.
  induction Hl as [d f maps l Hw Hr Hp Hf Hm Hl|k d p parent f maps l Hw Hr Hp Hpl IH Hf Hm Hl
                  |k d r o l Hw Hr Hne Hr' Ho Hl IH Hsome];
    intros e below final [|fuel] He Her Hok Hlead Hfuel; try lia;
    (destruct e as [d0 ro]; cbn [find_ancestor]; rewrite He; apply does_get_bind;
     [intros l' [k' Hl'] Hn; rewrite Hn in Hl'; destruct Hok as ([k0 Hk0] & Hok); rewrite He in Hk0;
      rewrite (loads_functional _ _ _ _ _ _ Hl' Hk0);
      apply (find_hit (d0, ro) below final);
      [split; [exists k0; by rewrite He|done]|done]|]).
  - eapply does_store_bind; [by apply runs_has_rollup|].
    eapply does_store_bind; [by apply runs_has_no_parent|]. apply does_ret.
    exists (d0, ro), below, l. split; [done|]. split; [|done]. split; [done|]. rewrite He. by exists f, maps.
  - eapply does_store_bind; [by apply runs_has_rollup|]. destruct (runs_has_parent d p Hd Hp) as [Hhas Hread].
    eapply does_store_bind; [exact Hhas|]. eapply does_store_bind; [exact Hread|].
    apply IH; [by eapply loads_wf|done|by intros [? [=]]| | |lia].
    + split; [|split; [|done]]; by exists k.
    + apply leads_cons with l; [|done]. split; [done|]. rewrite He. by exists f, maps.
  - destruct ro as [ro|].
    { exfalso. eapply no_rollup_in; [|exact Hr]. apply Her. by eexists. }
    unfold current in He. cbn in He. subst d0.
    destruct (runs_rollup d r Hd Hr) as [Hhas Hread].
    eapply does_store_bind; [exact Hhas|]. eapply does_store_bind; [exact Hread|].
    rewrite decide_False by done. apply does_opt_parent_bind with o; [done|done|].
    apply IH; [by eapply loads_wf|done|done| |exact Hlead|lia].
    split; [by exists k|]. split; [|done]. exists (Datatypes.S k). by eapply loads_rollup.
Qed.

Lemma runs_base_load d f maps l :
  layer_of m d → base_files_of (LayerFile d <$> base_filenames) = Ok f →
  base_maps_in m f = Some maps → base_load d maps = Ok l →
  runs m (base_layer_files d) f m ∧ runs m (base_load_from_files d f) l m.
Proof.
  intros Hd Hf Hm Hl. pose proof Hd as [Hw [fs Hfs]]. split.
  - eapply runs_bind; [by apply (runs_get_files m d fs)|]. by apply runs_lift.
  - eapply runs_bind; [by apply (runs_base_map_all m d)|]. by apply runs_lift.
Qed.

Lemma runs_child_load d f maps parent l :
  layer_of m d → child_files_of (LayerFile d <$> child_filenames) = Ok f →
  child_maps_in m f = Some maps → child_load d parent maps = Ok l →
  runs m (child_layer_files d) f m ∧ runs m (child_load_from_files d parent f) l m.
Proof.
  intros Hd Hf Hm Hl. pose proof Hd as [Hw [fs Hfs]]. split.
  - eapply runs_bind; [by apply (runs_get_files m d fs)|]. by apply runs_lift.
  - eapply runs_bind; [by apply (runs_child_map_all m d)|]. by apply runs_lift.
Qed.

Lemma load_base_entry_ok e l : base_entry e l → does (load_base_entry e) (λ x, x = wrap e l).
Proof.
  intros (([k Hk] & [k' Hk'] & _) & f & maps & Hf & Hm & Hl).
  destruct (runs_base_load _ _ _ _ (loads_wf _ _ _ Hk) Hf Hm Hl) as [Hfiles Hload].
  pose proof (loads_loaded _ _ _ Hk) as Hc. pose proof (loads_loaded _ _ _ Hk') as Hc'.
  destruct e as [d [[r o]|]]; unfold current, wrap in *; cbn in *; unfold load_base_entry.
  - eapply (does_bind _ _ (λ x, x = Rollup l d o)).
    + eapply does_store_bind; [exact Hfiles|]. eapply does_store_bind; [exact Hload|].
      apply does_cache_bind; [done|]. by apply does_ret.
    + intros ? ->. apply does_cache_bind; [done|]. by apply does_ret.
  - eapply (does_bind _ _ (λ x, x = l)).
    + eapply does_store_bind; [exact Hfiles|].
      intros s c Hs Hcache. destruct (Hload s Hs) as (s' & Heq & Hs'). exists l, s', c.
      unfold on_store. cbn. by rewrite Heq.
    + intros ? ->. apply does_cache_bind; [done|]. by apply does_ret.
Qed.

Lemma load_child_entry_ok e parent l :
  child_entry e parent l → does (load_child_entry e parent) (λ x, x = wrap e l).
Proof.
  intros (([k Hk] & [k' Hk'] & Ho) & f & maps & Hf & Hm & Hl).
  destruct (runs_child_load _ _ _ _ _ (loads_wf _ _ _ Hk) Hf Hm Hl) as [Hfiles Hload].
  pose proof (loads_loaded _ _ _ Hk) as Hc. pose proof (loads_loaded _ _ _ Hk') as Hc'.
  destruct e as [d [[r o]|]]; unfold current, wrap in *; cbn in *; unfold load_child_entry.
  - apply child_load_shape in Hl as (cl & -> & _). destruct Ho as [p ->]; [by eexists|].
    eapply (does_bind _ _ (λ x, x = Rollup (Child parent cl) d (Some p))).
    + apply (does_bind _ _ (λ x, x = p)); [intros s c Hs Hcache; by exists p, s, c|]. intros ? ->.
      eapply does_store_bind; [exact Hfiles|]. eapply does_store_bind; [exact Hload|].
      apply does_cache_bind; [done|]. by apply does_ret.
    + intros ? ->. apply does_cache_bind; [done|]. by apply does_ret.
  - eapply (does_bind _ _ (λ x, x = l)).
    + eapply does_store_bind; [exact Hfiles|].
      intros s c Hs Hcache. destruct (Hload s Hs) as (s' & Heq & Hs'). exists l, s', c.
      unfold on_store. cbn. by rewrite Heq.
    + intros ? ->. apply does_cache_bind; [done|]. by apply does_ret.
Qed.

Lemma load_children_ok a es final : leads a es final → does (load_children es a) (λ x, x = final).
Proof.
  induction 1 as [l|parent e l es final He Hl IH]; [by apply does_ret|]. cbn [load_children].
  eapply does_bind; [by eapply load_child_entry_ok|]. by intros ? ->.
Qed.

(** Whatever is in the cache, a layer that the files describe is loaded. *)
Lemma get_layer_with_cache_ok fuel k d l :
  loads m k d l → k ≤ fuel → does (get_layer_with_cache fuel d) (λ r, r = Some l).
Proof.
  intros Hl Hk. pose proof (loads_wf _ _ _ Hl) as [Hw [fs Hfs]]. pose proof (loads_name _ _ _ _ Hl) as Hname.
  unfold get_layer_with_cache. apply does_get_bind.
  { intros l' [k' Hl'] Hn. rewrite Hn in Hl'. rewrite (loads_functional _ _ _ _ _ _ Hl' Hl). by apply does_ret. }
  eapply does_store_bind; [by eapply runs_directory_exists|]. cbn [negb].
  eapply does_bind.
  { apply (find_ancestor_ok k d l Hl (d, None) [] l); [done|by intros [? [=]]| |constructor|done].
    split; [by exists k|]. split; [by exists k|done]. }
  intros [o es] Hfound. apply (does_bind _ _ (λ ae, leads ae.1 ae.2 l)).
  - destruct o as [a|]; [by apply does_ret|]. destruct Hfound as (e & es' & b & Hes & Hb & Hlead). cbn in Hes. subst es.
    eapply does_bind; [by apply load_base_entry_ok|]. intros ? ->. by apply does_ret.
  - intros [a es'] Hlead. eapply does_bind; [by apply load_children_ok|].
    intros ? ->. rewrite Hname, decide_True by done. by apply does_ret.
Qed.

(** A layer that the store does not have is reported as such. *)
Lemma get_layer_with_cache_missing fuel d :
  name_wf d → m !! d = None → does (get_layer_with_cache fuel d) (λ r, r = None).
Proof.
  intros Hw Hd. unfold get_layer_with_cache. apply does_get_bind.
  { intros l [k Hl] Hn. rewrite Hn in Hl. destruct (loads_wf _ _ _ Hl) as [_ [fs Hfs]]. congruence. }
  apply (does_store_bind _ false); [by apply runs_no_directory|by apply does_ret].
Qed.
End load_specs.
