(* ===== verification/StoreQueries.v ===== *)
(** The [LayerStore] trait of a persistent layer store, as far as it reads layers
    straight from their files ([src/storage/layer.rs]): dictionaries, counts and
    id maps, the triples that one layer adds and removes, and the names and
    changes of a stack of layers. *)

From S2P Require Import Prelude Names Text LabelSpec Consts LayerFiles LayerFileSpec Succinct LayerTypes SubjectIterator LayerLookup ObjectIterator PredicateIterator StackMerge ChangeMerge IdMap InternalLayer LayerIds LayerMaps.

(** ** The interface

    The methods of the trait that a store with a cache answers from the cache, and
    those they are built from, over the state [W] of the store. An iterator that
    is consumed by its user ([take_while]) is given as the triples it yields,
    [fuel] of them at most; the fuel of the methods on stacks bounds the number
    of layers in the stack. *)
Class LayerQueries `{SuccinctOps} (W : Type) := {
  get_layer_parent_name : name → io W (option name);
  get_node_dictionary : name → io W (option StringDict);
  get_predicate_dictionary : name → io W (option StringDict);
  get_value_dictionary : name → io W (option TypedDict);
  get_node_count : name → io W (option nat);
  get_predicate_count : name → io W (option nat);
  get_value_count : name → io W (option nat);
  get_node_value_idmap : name → io W (option IdMap);
  get_predicate_idmap : name → io W (option IdMap);
  triple_addition_exists : name → nat → nat → nat → io W bool;
  triple_removal_exists : name → nat → nat → nat → io W bool;
  triple_additions : name → io W (option InternalLayerTripleSubjectIterator);
  triple_removals : name → io W (option InternalLayerTripleSubjectIterator);
  triple_additions_s : nat → name → nat → io W (list IdTriple);
  triple_removals_s : nat → name → nat → io W (list IdTriple);
  triple_additions_sp : nat → name → nat → nat → io W (list IdTriple);
  triple_removals_sp : nat → name → nat → nat → io W (list IdTriple);
  triple_additions_p : name → nat → io W (option InternalLayerTriplePredicateIterator);
  triple_removals_p : name → nat → io W (option InternalLayerTriplePredicateIterator);
  triple_additions_o : nat → name → nat → io W (list IdTriple);
  triple_removals_o : nat → name → nat → io W (list IdTriple);
  triple_layer_addition_count : name → io W nat;
  triple_layer_removal_count : name → io W nat;
  retrieve_layer_stack_names : nat → name → io W (list name);
  retrieve_layer_stack_names_upto : nat → name → name → io W (list name);
  register_rollup : nat → name → name → io W unit;
}.

#[export] Hint Mode LayerQueries - ! : typeclass_instances.

(** Counters of [tdb_succinct] that read only the end of a file. *)
Class CountFiles (S : Type) := {
  dict_file_get_count : layer_file → io S nat;
  logarray_file_get_length_and_width : layer_file → io S (nat * nat);
  bitarray_len_from_file : layer_file → io S nat;
}.

Section files.
Context `{SuccinctParse} {S : Type} `{!PersistentLayerStore S, !FileMaps S, !CountFiles S}.

(** [map_if_exists] and [LogArray::parse(l).unwrap().into()] *)
Definition map_optional_array (f : layer_file) : io S (option MonotonicLogArray) :=
  map ← map_if_exists f; lift (load_optional_log_array map).

Definition file_triple_exists (subjects_file : layer_file) (s_p_files sp_o_files : AdjacencyListFiles)
    (subject predicate object : nat) : io S bool :=
  s_p_maps ← map_adjacency_list s_p_files;
  sp_o_maps ← map_adjacency_list sp_o_files;
  subjects ← map_optional_array subjects_file;
  s_p_aj ← lift (load_adjacency_list s_p_maps);
  sp_o_aj ← lift (load_adjacency_list sp_o_maps);
  lift (layer_triple_exists subjects s_p_aj sp_o_aj subject predicate object).

Definition file_triple_iterator (subjects_file : layer_file) (s_p_files sp_o_files : AdjacencyListFiles)
    : io S InternalLayerTripleSubjectIterator :=
  s_p_maps ← map_adjacency_list s_p_files;
  sp_o_maps ← map_adjacency_list sp_o_files;
  subjects ← map_optional_array subjects_file;
  s_p_aj ← lift (load_adjacency_list s_p_maps);
  sp_o_aj ← lift (load_adjacency_list sp_o_maps);
  mret (si_new subjects s_p_aj sp_o_aj).

Definition file_triple_iterator_by_predicate (subjects_file : layer_file)
    (s_p_files sp_o_files : AdjacencyListFiles) (predicate_wavelet_files : BitIndexFiles) (predicate : nat)
    : io S (option InternalLayerTriplePredicateIterator) :=
  s_p_maps ← map_adjacency_list s_p_files;
  sp_o_maps ← map_adjacency_list sp_o_files;
  predicate_wavelet_maps ← map_bit_index predicate_wavelet_files;
  subjects ← map_optional_array subjects_file;
  s_p_aj ← lift (load_adjacency_list s_p_maps);
  sp_o_aj ← lift (load_adjacency_list sp_o_maps);
  let width := aj_nums_width s_p_aj in
  wtree ← lift (load_wavelet_tree predicate_wavelet_maps width);
  mret (match wt_lookup wtree predicate with
        | Some lookup => Some (pi_new lookup subjects s_p_aj sp_o_aj)
        | None => None
        end).

Definition file_triple_iterator_by_object (subjects_file objects_file : layer_file)
    (o_ps_files s_p_files : AdjacencyListFiles) (object : nat)
    : io S InternalLayerTripleObjectIterator :=
  subjects ← map_optional_array subjects_file;
  objects ← map_optional_array objects_file;
  o_ps_maps ← map_adjacency_list o_ps_files;
  s_p_maps ← map_adjacency_list s_p_files;
  o_ps_aj ← lift (load_adjacency_list o_ps_maps);
  s_p_aj ← lift (load_adjacency_list s_p_maps);
  lift (seek_object_ref (oi_new subjects objects o_ps_aj s_p_aj true) object).

Definition file_triple_layer_count (s_p_nums_file sp_o_bits_file : layer_file)
    (predicate_wavelet_files : BitIndexFiles) : io S nat :=
  lw ← logarray_file_get_length_and_width s_p_nums_file;
  bits_len ← bitarray_len_from_file sp_o_bits_file;
  predicate_wavelet_maps ← map_bit_index predicate_wavelet_files;
  wtree ← lift (load_wavelet_tree predicate_wavelet_maps lw.2);
  lift (checked_sub bits_len (lookup_len wtree 0)).

(** ** Dictionaries and id maps *)

(** The shape of the getters: [None] for a layer that does not exist. *)
Definition if_exists {A} (n : name) (body : io S A) : io S (option A) :=
  exists_ ← directory_exists n;
  if exists_ : bool then a ← body; mret (Some a) else mret None.

Definition file_get_node_dictionary (n : name) : io S (option StringDict) :=
  if_exists n (files ← node_dictionary_files n; maps ← map_dictionary files; lift (load_string_dict maps)).
Definition file_get_predicate_dictionary (n : name) : io S (option StringDict) :=
  if_exists n (files ← predicate_dictionary_files n; maps ← map_dictionary files; lift (load_string_dict maps)).
Definition file_get_value_dictionary (n : name) : io S (option TypedDict) :=
  if_exists n (files ← value_dictionary_files n; maps ← map_typed_dictionary files; lift (load_typed_dict maps)).

Definition file_get_node_count (n : name) : io S (option nat) :=
  if_exists n (files ← node_dictionary_files n; dict_file_get_count (df_blocks files)).
Definition file_get_predicate_count (n : name) : io S (option nat) :=
  if_exists n (files ← predicate_dictionary_files n; dict_file_get_count (df_blocks files)).
Definition file_get_value_count (n : name) : io S (option nat) :=
  if_exists n (files ← value_dictionary_files n; dict_file_get_count (tdf_blocks files)).

Definition idmap_of (maps : option BitIndexMaps) (width : nat) : outcome IdMap :=
  match maps with
  | None => Ok (from_parts None)
  | Some m => wtree ← load_wavelet_tree m width; Ok (from_parts (Some wtree))
  end.

Definition file_get_node_value_idmap (n : name) : io S (option IdMap) :=
  if_exists n (
    node_count ← file_get_node_count n; node_count ← lift (unwrap node_count);
    value_count ← file_get_value_count n; value_count ← lift (unwrap value_count);
    let size := node_count + value_count in
    files ← node_value_idmap_files n;
    maps ← map_bit_index_if_exists files;
    lift (idmap_of maps (calculate_width size))).

Definition file_get_predicate_idmap (n : name) : io S (option IdMap) :=
  if_exists n (
    size ← file_get_predicate_count n; size ← lift (unwrap size);
    files ← predicate_idmap_files n;
    maps ← map_bit_index_if_exists files;
    lift (idmap_of maps (calculate_width size))).

(** ** Triples of a layer *)

Definition file_triple_addition_exists (layer : name) (subject predicate object : nat) : io S bool :=
  '(subjects_file, s_p_aj_files, sp_o_aj_files) ← triple_addition_files layer;
  file_triple_exists subjects_file s_p_aj_files sp_o_aj_files subject predicate object.

Definition file_triple_removal_exists (layer : name) (subject predicate object : nat) : io S bool :=
  files ← triple_removal_files layer;
  match files with
  | Some (subjects_file, s_p_aj_files, sp_o_aj_files) =>
      file_triple_exists subjects_file s_p_aj_files sp_o_aj_files subject predicate object
  | None => mret false
  end.

Definition file_triple_additions (layer : name) : io S (option InternalLayerTripleSubjectIterator) :=
  '(subjects_file, s_p_aj_files, sp_o_aj_files) ← triple_addition_files layer;
  it ← file_triple_iterator subjects_file s_p_aj_files sp_o_aj_files; mret (Some it).

Definition file_triple_removals (layer : name) : io S (option InternalLayerTripleSubjectIterator) :=
  files ← triple_removal_files layer;
  match files with
  | Some (subjects_file, s_p_aj_files, sp_o_aj_files) =>
      it ← file_triple_iterator subjects_file s_p_aj_files sp_o_aj_files; mret (Some it)
  | None => mret None
  end.

(** [seek(..).take_while(..)], consumed. *)
Definition seek_take_while (seek : InternalLayerTripleSubjectIterator → outcome InternalLayerTripleSubjectIterator)
    (p : IdTriple → bool) (fuel : nat) (it : InternalLayerTripleSubjectIterator) : outcome (list IdTriple) :=
  it ← seek it; collect_while si_next p fuel it.

Definition file_triple_additions_s (fuel : nat) (layer : name) (subject' : nat) : io S (list IdTriple) :=
  '(subjects_file, s_p_aj_files, sp_o_aj_files) ← triple_addition_files layer;
  it ← file_triple_iterator subjects_file s_p_aj_files sp_o_aj_files;
  lift (seek_take_while (λ i, seek_subject_ref i subject') (λ t, bool_decide (subject t = subject')) fuel it).

Definition file_triple_removals_s (fuel : nat) (layer : name) (subject' : nat) : io S (list IdTriple) :=
  files ← triple_removal_files layer;
  match files with
  | Some (subjects_file, s_p_aj_files, sp_o_aj_files) =>
      it ← file_triple_iterator subjects_file s_p_aj_files sp_o_aj_files;
      lift (seek_take_while (λ i, seek_subject_ref i subject') (λ t, bool_decide (subject t = subject')) fuel it)
  | None => mret []
  end.

Definition file_triple_additions_sp (fuel : nat) (layer : name) (subject' predicate' : nat) : io S (list IdTriple) :=
  '(subjects_file, s_p_aj_files, sp_o_aj_files) ← triple_addition_files layer;
  it ← file_triple_iterator subjects_file s_p_aj_files sp_o_aj_files;
  lift (seek_take_while (λ i, seek_subject_predicate_ref i subject' predicate')
          (λ t, bool_decide (predicate t = predicate' ∧ subject t = subject')) fuel it).

Definition file_triple_removals_sp (fuel : nat) (layer : name) (subject' predicate' : nat) : io S (list IdTriple) :=
  files ← triple_removal_files layer;
  match files with
  | Some (subjects_file, s_p_aj_files, sp_o_aj_files) =>
      it ← file_triple_iterator subjects_file s_p_aj_files sp_o_aj_files;
      lift (seek_take_while (λ i, seek_subject_predicate_ref i subject' predicate')
              (λ t, bool_decide (predicate t = predicate' ∧ subject t = subject')) fuel it)
  | None => mret []
  end.

Definition file_triple_additions_p (layer : name) (predicate : nat)
    : io S (option InternalLayerTriplePredicateIterator) :=
  '(subjects_file, s_p_aj_files, sp_o_aj_files) ← triple_addition_files layer;
  predicate_wavelet_files ← predicate_wavelet_addition_files layer;
  file_triple_iterator_by_predicate subjects_file s_p_aj_files sp_o_aj_files predicate_wavelet_files predicate.

Definition file_triple_removals_p (layer : name) (predicate : nat)
    : io S (option InternalLayerTriplePredicateIterator) :=
  files ← triple_removal_files layer;
  wavelet_files ← predicate_wavelet_removal_files layer;
  match files, wavelet_files with
  | Some (subjects_file, s_p_aj_files, sp_o_aj_files), Some predicate_wavelet_files =>
      file_triple_iterator_by_predicate subjects_file s_p_aj_files sp_o_aj_files predicate_wavelet_files predicate
  | _, _ => mret None
  end.

Definition file_triple_additions_o (fuel : nat) (layer : name) (object' : nat) : io S (list IdTriple) :=
  '(subjects_file, objects_file, o_ps_aj_files, s_p_aj_files) ← triple_addition_files_by_object layer;
  it ← file_triple_iterator_by_object subjects_file objects_file o_ps_aj_files s_p_aj_files object';
  lift (collect_while oi_next (λ t, bool_decide (object t = object')) fuel it).

Definition file_triple_removals_o (fuel : nat) (layer : name) (object' : nat) : io S (list IdTriple) :=
  files ← triple_removal_files_by_object layer;
  match files with
  | Some (subjects_file, objects_file, o_ps_aj_files, s_p_aj_files) =>
      it ← file_triple_iterator_by_object subjects_file objects_file o_ps_aj_files s_p_aj_files object';
      lift (collect_while oi_next (λ t, bool_decide (object t = object')) fuel it)
  | None => mret []
  end.

Definition file_triple_layer_addition_count (layer : name) : io S nat :=
  '(s_p_nums_file, sp_o_bits_file, predicate_wavelet_files) ← triple_layer_addition_count_files layer;
  file_triple_layer_count s_p_nums_file sp_o_bits_file predicate_wavelet_files.

Definition file_triple_layer_removal_count (layer : name) : io S nat :=
  files ← triple_layer_removal_count_files layer;
  match files with
  | Some (s_p_nums_file, sp_o_bits_file, predicate_wavelet_files) =>
      file_triple_layer_count s_p_nums_file sp_o_bits_file predicate_wavelet_files
  | None => mret 0
  end.

(** ** Stacks of layers *)

(** [result], topmost layer last; the loop looks at its last element. *)
Fixpoint stack_names (fuel : nat) (result : list name) (last_ : name) : io S (list name) :=
  match fuel with
  | O => lift NoFuel
  | Datatypes.S fuel =>
      has_parent ← layer_has_parent last_;
      if has_parent : bool then
        parent ← read_parent_file last_;
        stack_names fuel (result ++ [parent]) parent
      else mret (reverse result)
  end.
Definition file_retrieve_layer_stack_names (fuel : nat) (n : name) : io S (list name) :=
  stack_names fuel [n] n.

Fixpoint stack_names_upto (fuel : nat) (upto : name) (result : list name) (last_ : name) : io S (list name) :=
  match fuel with
  | O => lift NoFuel
  | Datatypes.S fuel =>
      has_parent ← layer_has_parent last_;
      if has_parent : bool then
        parent ← read_parent_file last_;
        if decide (parent = upto) then mret (reverse result)
        else stack_names_upto fuel upto (result ++ [parent]) parent
      else throw NotFound
  end.
Definition file_retrieve_layer_stack_names_upto (fuel : nat) (n upto : name) : io S (list name) :=
  stack_names_upto fuel upto [n] n.

Definition file_register_rollup (_ : nat) (layer rollup : name) : io S unit :=
  if decide (layer = rollup) then mret tt else write_rollup_file layer rollup.

#[export] Instance file_layer_queries : LayerQueries S := {|
  get_layer_parent_name := layer_parent;
  get_node_dictionary := file_get_node_dictionary;
  get_predicate_dictionary := file_get_predicate_dictionary;
  get_value_dictionary := file_get_value_dictionary;
  get_node_count := file_get_node_count;
  get_predicate_count := file_get_predicate_count;
  get_value_count := file_get_value_count;
  get_node_value_idmap := file_get_node_value_idmap;
  get_predicate_idmap := file_get_predicate_idmap;
  triple_addition_exists := file_triple_addition_exists;
  triple_removal_exists := file_triple_removal_exists;
  triple_additions := file_triple_additions;
  triple_removals := file_triple_removals;
  triple_additions_s := file_triple_additions_s;
  triple_removals_s := file_triple_removals_s;
  triple_additions_sp := file_triple_additions_sp;
  triple_removals_sp := file_triple_removals_sp;
  triple_additions_p := file_triple_additions_p;
  triple_removals_p := file_triple_removals_p;
  triple_additions_o := file_triple_additions_o;
  triple_removals_o := file_triple_removals_o;
  triple_layer_addition_count := file_triple_layer_addition_count;
  triple_layer_removal_count := file_triple_layer_removal_count;
  retrieve_layer_stack_names := file_retrieve_layer_stack_names;
  retrieve_layer_stack_names_upto := file_retrieve_layer_stack_names_upto;
  register_rollup := file_register_rollup;
|}.
End files.

(** ** Changes of a stack of layers

    The default methods of the trait. *)
Section changes.
Context `{SuccinctOps} {W : Type} `{!LayerQueries W}.
Notation iterators := (list (option InternalLayerTripleSubjectIterator)).

(** [walk_backwards_from_disk!]; every round reads the layer [n], not [current]. *)
Fixpoint changes_walk (fuel : nat) (n : name) (positives negatives : iterators) (current : name)
    : io W (iterators * iterators) :=
  match fuel with
  | O => lift NoFuel
  | S fuel =>
      added ← triple_additions n;
      removed ← triple_removals n;
      let positives := positives ++ [added] in
      let negatives := negatives ++ [removed] in
      parent ← get_layer_parent_name current;
      match parent with
      | Some parent => changes_walk fuel n positives negatives parent
      | None => mret (positives, negatives)
      end
  end.

Definition layer_changes (fuel : nat) (n : name) : io W (TripleStack (option InternalLayerTripleSubjectIterator)) :=
  '(positives, negatives) ← changes_walk fuel n [] [] n;
  mret (ChangeMerge.from_parts (reverse positives) (reverse negatives)).

(** [walk_backwards_from_disk_upto!] *)
Fixpoint changes_walk_upto (fuel : nat) (upto : name) (positives negatives : iterators) (current : name)
    : io W (iterators * iterators) :=
  match fuel with
  | O => lift NoFuel
  | S fuel =>
      if decide (current = upto) then mret (positives, negatives)
      else
        added ← triple_additions current;
        removed ← triple_removals current;
        let positives := positives ++ [added] in
        let negatives := negatives ++ [removed] in
        parent ← get_layer_parent_name current;
        match parent with
        | Some parent => changes_walk_upto fuel upto positives negatives parent
        | None => throw NotFound
        end
  end.

Definition layer_changes_upto (fuel : nat) (n upto : name)
    : io W (TripleStack (option InternalLayerTripleSubjectIterator)) :=
  '(positives, negatives) ← changes_walk_upto fuel upto [] [] n;
  mret (ChangeMerge.from_parts (reverse positives) (reverse negatives)).
End changes.
