(* ===== verification/StoreQuerySpec.v ===== *)
(** What the queries of a persistent layer store answer: for each layer, what the
    layer loaded from its own files answers, whether or not the layer has a
    rollup. The answers are stated as laws, [LayerQueriesLaws], that a store with
    a cache in front keeps. *)

From S2P Require Import Prelude Names Text LabelSpec Consts LayerFiles LayerFileSpec Succinct LayerTypes Nested SubjectIterator LayerLookup ObjectIterator PredicateIterator StackMerge ChangeMerge IdMap InternalLayer LayerIds LayerMaps LayerLoad StoreQueries.

(** ** The layer that a directory describes by itself

    Its rollup file is not looked at, and of the parent only the name and counts
    matter. *)
Inductive own `{SuccinctParse} (m : store_map) (d : name) : InternalLayer → Prop :=
  | own_base f maps l :
      name_wf d → no_parent m d →
      base_files_of (LayerFile d <$> base_filenames) = Ok f → base_maps_in m f = Some maps →
      base_load d maps = Ok l → own m d l
  | own_child parent f maps l :
      name_wf d → parent_in m d (layer_name parent) →
      child_files_of (LayerFile d <$> child_filenames) = Ok f → child_maps_in m f = Some maps →
      child_load d parent maps = Ok l → own m d l.

(** A layer and its ancestors, the layer first. *)
Inductive parents (m : store_map) : name → list name → Prop :=
  | parents_base d : name_wf d → no_parent m d → parents m d [d]
  | parents_child d p ns : name_wf d → parent_in m d p → parents m p ns → parents m d (d :: ns).

(** The names up to [upto], which is not among them. *)
Fixpoint names_before (upto : name) (ns : list name) : option (list name) :=
  match ns with
  | [] => None
  | n :: ns => if decide (n = upto) then Some [] else cons n <$> names_before upto ns
  end.

(** ** Answers

    [answers rep m p o]: from a store that holds [m], [p] gives the outcome [o] and
    leaves a store that holds [m]. *)
Definition answers {W A} (rep : W → store_map → Prop) (m : store_map) (p : io W A) (o : outcome A) : Prop :=
  ∀ w, rep w m → ∃ w', p w = (o, w') ∧ rep w' m.

Lemma answers_rep_bind {W A B} rep m (p : io W A) (k : A → io W B) a o :
  answers rep m p (Ok a) → answers rep m (k a) o → answers rep m (p ≫= k) o.
Proof.
  intros Hp Hk w Hw. destruct (Hp w Hw) as (w1 & Hp1 & Hw1). destruct (Hk w1 Hw1) as (w2 & Hk2 & Hw2).
  exists w2. split; [|done]. by rewrite (io_bind_Ok _ _ _ _ _ Hp1).
Qed.

Lemma answers_rep_lift {W A} rep m (o : outcome A) : answers (W := W) rep m (lift o) o.
Proof. intros w Hw. by exists w. Qed.

(** What a store promises about the layer that the directory [d] describes. *)
Record answers_for `{SuccinctOps} {W} `{!LayerQueries W} (rep : W → store_map → Prop) (m : store_map)
    (d : name) (l : InternalLayer) : Prop := {
  af_parent : answers rep m (get_layer_parent_name d) (Ok (parent_name l));
  af_node_dictionary : answers rep m (get_node_dictionary d) (Ok (Some (node_dictionary l)));
  af_predicate_dictionary : answers rep m (get_predicate_dictionary d) (Ok (Some (predicate_dictionary l)));
  af_value_dictionary : answers rep m (get_value_dictionary d) (Ok (Some (value_dictionary l)));
  af_node_count : answers rep m (get_node_count d) (Ok (Some (node_dict_len l)));
  af_value_count : answers rep m (get_value_count d) (Ok (Some (value_dict_len l)));
  af_node_value_idmap : answers rep m (get_node_value_idmap d) (Ok (Some (node_value_id_map l)));
  af_predicate_idmap : answers rep m (get_predicate_idmap d) (Ok (Some (predicate_id_map l)));
  af_addition_exists s p o :
    answers rep m (triple_addition_exists d s p o) (internal_triple_addition_exists l s p o);
  af_removal_exists s p o :
    answers rep m (triple_removal_exists d s p o) (internal_triple_removal_exists l s p o);
  af_additions : answers rep m (triple_additions d) (Ok (internal_triple_additions l));
  af_removals : answers rep m (triple_removals d) (Ok (internal_triple_removals l));
  af_additions_s fuel s :
    answers rep m (triple_additions_s (S fuel) d s) (internal_triple_additions_s (S fuel) l s);
  af_removals_s fuel s :
    answers rep m (triple_removals_s (S fuel) d s) (internal_triple_removals_s (S fuel) l s);
  af_additions_sp fuel s p :
    answers rep m (triple_additions_sp (S fuel) d s p) (internal_triple_additions_sp (S fuel) l s p);
  af_removals_sp fuel s p :
    answers rep m (triple_removals_sp (S fuel) d s p) (internal_triple_removals_sp (S fuel) l s p);
  af_additions_p p : answers rep m (triple_additions_p d p) (Ok (internal_triple_additions_p l p));
  af_removals_p p : answers rep m (triple_removals_p d p) (Ok (internal_triple_removals_p l p));
  af_additions_o fuel o ts : Forall (λ t, object t = o) ts →
    internal_triple_additions_o (S fuel) l o = Ok ts → answers rep m (triple_additions_o (S fuel) d o) (Ok ts);
  af_removals_o fuel o ts : Forall (λ t, object t = o) ts →
    internal_triple_removals_o (S fuel) l o = Ok ts → answers rep m (triple_removals_o (S fuel) d o) (Ok ts);
  af_addition_count : answers rep m (triple_layer_addition_count d) (internal_triple_layer_addition_count l);
  af_removal_count : answers rep m (triple_layer_removal_count d) (internal_triple_layer_removal_count l);
}.

(** The errors for a layer that the store does not have. *)
Record answers_missing `{SuccinctOps} {W} `{!LayerQueries W} (rep : W → store_map → Prop) (m : store_map)
    (d : name) : Prop := {
  am_parent : answers rep m (get_layer_parent_name d) (Err NotFound);
  am_node_dictionary : answers rep m (get_node_dictionary d) (Ok None);
  am_predicate_dictionary : answers rep m (get_predicate_dictionary d) (Ok None);
  am_value_dictionary : answers rep m (get_value_dictionary d) (Ok None);
  am_node_count : answers rep m (get_node_count d) (Ok None);
  am_predicate_count : answers rep m (get_predicate_count d) (Ok None);
  am_value_count : answers rep m (get_value_count d) (Ok None);
  am_node_value_idmap : answers rep m (get_node_value_idmap d) (Ok None);
  am_predicate_idmap : answers rep m (get_predicate_idmap d) (Ok None);
  am_addition_exists s p o : answers rep m (triple_addition_exists d s p o) (Err NotFound);
  am_removal_exists s p o : answers rep m (triple_removal_exists d s p o) (Err NotFound);
  am_additions : answers rep m (triple_additions d) (Err NotFound);
  am_removals : answers rep m (triple_removals d) (Err NotFound);
  am_addition_count : answers rep m (triple_layer_addition_count d) (Err NotFound);
  am_removal_count : answers rep m (triple_layer_removal_count d) (Err NotFound);
}.

(** The store after a rollup has been registered: a layer is never its own. *)
Definition rolled_up (m : store_map) (layer rollup : name) (fs : layer_contents) (c : string) : store_map :=
  if decide (layer = rollup) then m else <[layer := <[fn_rollup FILENAMES := c]> fs]> m.

Class LayerQueriesLaws (W : Type) `{SuccinctParse} `{!LayerQueries W} := {
  lq_rep : W → store_map → Prop;
  own_answers m d l : own m d l → answers_for lq_rep m d l;
  missing_answers m d : name_wf d → m !! d = None → answers_missing lq_rep m d;
  stack_names_answers m d ns fuel : parents m d ns → length ns ≤ fuel →
    answers lq_rep m (retrieve_layer_stack_names fuel d) (Ok (reverse ns));
  stack_names_upto_answers m d ns upto fuel : parents m d ns → length ns ≤ fuel →
    answers lq_rep m (retrieve_layer_stack_names_upto fuel d upto)
      (match names_before upto (tail ns) with Some ms => Ok (reverse (d :: ms)) | None => Err NotFound end);
  register_rollup_spec m layer rollup fs ns fuel w : lq_rep w m → name_wf rollup → m !! layer = Some fs →
    parents m layer ns → length ns ≤ fuel →
    ∃ c w', register_rollup fuel layer rollup w = (Ok tt, w') ∧ rollup_named c rollup ∧
      lq_rep w' (rolled_up m layer rollup fs c);
}.

(** The counters read what parsing the whole file would give. *)
Class CountFilesLaws (S : Type) `{PersistentReadLaws S} `{SuccinctParse} `{!CountFiles S} := {
  dict_file_get_count_spec m d f maps dict : layer_of m d → in_dir d [df_blocks f; df_offsets f] →
    dictionary_in m f = Some maps → load_string_dict maps = Ok dict →
    runs m (dict_file_get_count (df_blocks f)) (sd_num_entries dict) m;
  typed_dict_file_get_count_spec m d f maps dict : layer_of m d →
    in_dir d [tdf_types_present f; tdf_type_offsets f; tdf_offsets f; tdf_blocks f] →
    typed_dictionary_in m f = Some maps → load_typed_dict maps = Ok dict →
    runs m (dict_file_get_count (tdf_blocks f)) (td_num_entries dict) m;
  logarray_width_spec m d f maps aj : layer_of m d → in_dir d (alf_nums f :: bit_index_files (alf_bitindex f)) →
    adjacency_list_in m f = Some maps → load_adjacency_list maps = Ok aj →
    ∃ len, runs m (logarray_file_get_length_and_width (alf_nums f)) (len, aj_nums_width aj) m;
  bitarray_len_spec m d f maps aj : layer_of m d → in_dir d (alf_nums f :: bit_index_files (alf_bitindex f)) →
    adjacency_list_in m f = Some maps → load_adjacency_list maps = Ok aj →
    runs m (bitarray_len_from_file (bif_bits (alf_bitindex f))) (aj_right_count aj) m;
}.

(** ** The parts of a layer, read from their files *)

Section parts.
Context `{SuccinctParse} {S : Type} `{FileMapsLaws S, !CountFiles S, !CountFilesLaws S}.
Context (m : store_map).

(** The contents of a file, or of a group of files, parse to the given part. *)
Definition reads_array (f : layer_file) (a : option MonotonicLogArray) : Prop :=
  ∃ c, runs m (map_if_exists f) c m ∧ load_optional_log_array c = Ok a.
Definition reads_adjacency_list (f : AdjacencyListFiles) (a : AdjacencyList) : Prop :=
  ∃ maps, runs m (map_adjacency_list f) maps m ∧ load_adjacency_list maps = Ok a.
Definition reads_wavelet_tree (f : BitIndexFiles) (width : nat) (t : WaveletTree) : Prop :=
  ∃ maps, runs m (map_bit_index f) maps m ∧ load_wavelet_tree maps width = Ok t.
Definition reads_string_dict (f : DictionaryFiles) (dict : StringDict) : Prop :=
  (∃ maps, runs m (map_dictionary f) maps m ∧ load_string_dict maps = Ok dict) ∧
  runs m (dict_file_get_count (df_blocks f)) (sd_num_entries dict) m.
Definition reads_typed_dict (f : TypedDictionaryFiles) (dict : TypedDict) : Prop :=
  (∃ maps, runs m (map_typed_dictionary f) maps m ∧ load_typed_dict maps = Ok dict) ∧
  runs m (dict_file_get_count (tdf_blocks f)) (td_num_entries dict) m.
Definition reads_idmap (f : BitIndexFiles) (entries : nat) (i : IdMap) : Prop :=
  ∃ maps, runs m (map_bit_index_if_exists f) maps m ∧ load_idmap maps entries = Ok i.
Definition reads_counts (nums bits : layer_file) (s_p sp_o : AdjacencyList) : Prop :=
  (∃ len, runs m (logarray_file_get_length_and_width nums) (len, aj_nums_width s_p) m) ∧
  runs m (bitarray_len_from_file bits) (aj_right_count sp_o) m.

(** The additions, or the removals, of a layer: subjects, objects, the three
    adjacency lists and the wavelet tree. *)
Record triple_parts := {
  tp_subjects : option MonotonicLogArray;
  tp_objects : option MonotonicLogArray;
  tp_s_p : AdjacencyList;
  tp_sp_o : AdjacencyList;
  tp_o_ps : AdjacencyList;
  tp_wavelet_tree : WaveletTree;
}.
Definition additions_of (l : InternalLayer) : triple_parts :=
  {| tp_subjects := pos_subjects l; tp_objects := pos_objects l;
     tp_s_p := pos_s_p_adjacency_list l; tp_sp_o := pos_sp_o_adjacency_list l;
     tp_o_ps := pos_o_ps_adjacency_list l; tp_wavelet_tree := pos_predicate_wavelet_tree l |}.

(** The files that hold them. *)
Record triple_files := {
  tf_subjects : layer_file;
  tf_objects : layer_file;
  tf_s_p : AdjacencyListFiles;
  tf_sp_o : AdjacencyListFiles;
  tf_o_ps : AdjacencyListFiles;
  tf_wavelet_tree : BitIndexFiles;
}.
Definition subject_files (t : triple_files) := (tf_subjects t, tf_s_p t, tf_sp_o t).
Definition object_files (t : triple_files) := (tf_subjects t, tf_objects t, tf_o_ps t, tf_s_p t).
Definition count_files (t : triple_files) := (alf_nums (tf_s_p t), bif_bits (alf_bitindex (tf_sp_o t)), tf_wavelet_tree t).

Record reads_triples (f : triple_files) (t : triple_parts) : Prop := {
  rt_subjects : reads_array (tf_subjects f) (tp_subjects t);
  rt_objects : reads_array (tf_objects f) (tp_objects t);
  rt_s_p : reads_adjacency_list (tf_s_p f) (tp_s_p t);
  rt_sp_o : reads_adjacency_list (tf_sp_o f) (tp_sp_o t);
  rt_o_ps : reads_adjacency_list (tf_o_ps f) (tp_o_ps t);
  rt_wavelet_tree : reads_wavelet_tree (tf_wavelet_tree f) (aj_nums_width (tp_s_p t)) (tp_wavelet_tree t);
  rt_counts : reads_counts (alf_nums (tf_s_p f)) (bif_bits (alf_bitindex (tf_sp_o f))) (tp_s_p t) (tp_sp_o t);
}.

(** The removals of a layer, absent together in a base layer. *)
Record removals_are (l : InternalLayer) (t : triple_parts) : Prop := {
  ra_subjects : neg_subjects l = tp_subjects t;
  ra_objects : neg_objects l = tp_objects t;
  ra_s_p : neg_s_p_adjacency_list l = Some (tp_s_p t);
  ra_sp_o : neg_sp_o_adjacency_list l = Some (tp_sp_o t);
  ra_o_ps : neg_o_ps_adjacency_list l = Some (tp_o_ps t);
  ra_wavelet_tree : neg_predicate_wavelet_tree l = Some (tp_wavelet_tree t);
}.
Record no_removals (l : InternalLayer) : Prop := {
  nr_s_p : neg_s_p_adjacency_list l = None;
  nr_sp_o : neg_sp_o_adjacency_list l = None;
  nr_o_ps : neg_o_ps_adjacency_list l = None;
  nr_wavelet_tree : neg_predicate_wavelet_tree l = None;
}.

(** The accessors hand out the files of the parts of [l]. *)
Record layer_parts (d : name) (l : InternalLayer) : Prop := {
  lp_layer : layer_of m d;
  lp_parent : runs m (layer_parent d) (parent_name l) m;
  lp_nodes : ∃ f, runs m (node_dictionary_files d) f m ∧ reads_string_dict f (node_dictionary l);
  lp_predicates : ∃ f, runs m (predicate_dictionary_files d) f m ∧ reads_string_dict f (predicate_dictionary l);
  lp_values : ∃ f, runs m (value_dictionary_files d) f m ∧ reads_typed_dict f (value_dictionary l);
  lp_node_value_idmap : ∃ f, runs m (node_value_idmap_files d) f m ∧
    reads_idmap f (node_dict_len l + value_dict_len l) (node_value_id_map l);
  lp_predicate_idmap : ∃ f, runs m (predicate_idmap_files d) f m ∧
    reads_idmap f (predicate_dict_len l) (predicate_id_map l);
  lp_additions : ∃ f, reads_triples f (additions_of l) ∧
    runs m (triple_addition_files d) (subject_files f) m ∧
    runs m (triple_addition_files_by_object d) (object_files f) m ∧
    runs m (predicate_wavelet_addition_files d) (tf_wavelet_tree f) m ∧
    runs m (triple_layer_addition_count_files d) (count_files f) m;
  lp_removals : ∃ fo,
    match fo with Some f => ∃ t, reads_triples f t ∧ removals_are l t | None => no_removals l end ∧
    runs m (triple_removal_files d) (subject_files <$> fo) m ∧
    runs m (triple_removal_files_by_object d) (object_files <$> fo) m ∧
    runs m (predicate_wavelet_removal_files d) (tf_wavelet_tree <$> fo) m ∧
    runs m (triple_layer_removal_count_files d) (count_files <$> fo) m;
}.

Ltac lookups H :=
  repeat match type of H with
  | mbind _ ?o = Some _ =>
      let E := fresh "E" in let x := fresh "x" in apply bind_Some in H as (x & E & H)
  end.
Ltac in_directory := unfold in_dir, bit_index_files; repeat (apply Forall_cons; split; [split; reflexivity|]); apply Forall_nil_2.

Section of_directory.
Context (d : name) (Hd : layer_of m d).

Lemma reads_array_in f a :
  in_dir d [f] → load_optional_log_array (file_in m f) = Ok a → reads_array f a.
Proof. intros Hf Ha. exists (file_in m f). split; [|done]. by apply (map_if_exists_spec m d). Qed.

Lemma reads_mandatory_array_in f c a :
  in_dir d [f] → file_in m f = Some c → load_log_array c = Ok a → reads_array f (Some a).
Proof. intros Hf Hc Ha. apply reads_array_in; [done|]. by rewrite Hc; simpl; rewrite Ha. Qed.

Lemma reads_adjacency_list_in f maps a :
  in_dir d (alf_nums f :: bit_index_files (alf_bitindex f)) →
  adjacency_list_in m f = Some maps → load_adjacency_list maps = Ok a → reads_adjacency_list f a.
Proof. intros Hf Hm Ha. exists maps. split; [|done]. by apply (map_adjacency_list_spec m d). Qed.

Lemma reads_wavelet_tree_in f maps w t :
  in_dir d (bit_index_files f) → bit_index_in m f = Some maps → load_wavelet_tree maps w = Ok t →
  reads_wavelet_tree f w t.
Proof. intros Hf Hm Ht. exists maps. split; [|done]. by apply (map_bit_index_spec m d). Qed.

Lemma reads_string_dict_in f maps dict :
  in_dir d [df_blocks f; df_offsets f] → dictionary_in m f = Some maps → load_string_dict maps = Ok dict →
  reads_string_dict f dict.
Proof.
  intros Hf Hm Hdict. split; [|by apply (dict_file_get_count_spec m d f maps)].
  exists maps. split; [|done]. by apply (map_dictionary_spec m d).
Qed.

Lemma reads_typed_dict_in f maps dict :
  in_dir d [tdf_types_present f; tdf_type_offsets f; tdf_offsets f; tdf_blocks f] →
  typed_dictionary_in m f = Some maps → load_typed_dict maps = Ok dict → reads_typed_dict f dict.
Proof.
  intros Hf Hm Hdict. split; [|by apply (typed_dict_file_get_count_spec m d f maps)].
  exists maps. split; [|done]. by apply (map_typed_dictionary_spec m d).
Qed.

Lemma reads_idmap_in f maps entries i :
  in_dir d (bit_index_files f) → optional_bit_index_in m f = Some maps → load_idmap maps entries = Ok i →
  reads_idmap f entries i.
Proof. intros Hf Hm Hi. exists maps. split; [|done]. by apply (map_bit_index_if_exists_spec m d). Qed.

Lemma reads_counts_in fs fo ms mo s_p sp_o :
  in_dir d (alf_nums fs :: bit_index_files (alf_bitindex fs)) →
  in_dir d (alf_nums fo :: bit_index_files (alf_bitindex fo)) →
  adjacency_list_in m fs = Some ms → load_adjacency_list ms = Ok s_p →
  adjacency_list_in m fo = Some mo → load_adjacency_list mo = Ok sp_o →
  reads_counts (alf_nums fs) (bif_bits (alf_bitindex fo)) s_p sp_o.
Proof.
  intros. split; [by eapply (logarray_width_spec m d fs ms)|by apply (bitarray_len_spec m d fo mo)].
Qed.
End of_directory.

(** Each part of a loaded layer is what one of these lemmas needs. *)
Ltac read_part d Hd :=
  first
    [ apply (reads_array_in d Hd); [in_directory|eassumption]
    | eapply (reads_mandatory_array_in d Hd); [in_directory|eassumption..]
    | eapply (reads_adjacency_list_in d Hd); [in_directory|eassumption..]
    | eapply (reads_wavelet_tree_in d Hd); [in_directory|eassumption..]
    | eapply (reads_string_dict_in d Hd); [in_directory|eassumption..]
    | eapply (reads_typed_dict_in d Hd); [in_directory|eassumption..]
    | eapply (reads_idmap_in d Hd); [in_directory|eassumption..]
    | eapply (reads_counts_in d Hd); [in_directory|in_directory|eassumption..] ].

Lemma layer_of_parent d p : name_wf d → parent_in m d p → layer_of m d.
Proof. intros Hw (_ & fs & Hfs & _). split; [done|by eexists]. Qed.

Lemma runs_layer_parent d o : layer_of m d → opt_parent_in m d o → runs m (layer_parent d) o m.
Proof.
  intros Hd Ho. pose proof Hd as [Hw [fs Hfs]]. eapply runs_bind; [by apply (runs_directory_exists m d fs)|]. cbn.
  destruct o as [p|]; simpl in Ho.
  - destruct Ho as (Hp & fs' & Hfs' & Hf). assert (fs' = fs) as -> by congruence.
    eapply runs_bind; [by apply (runs_layer_has_parent m d fs)|]. rewrite Hf. cbn.
    eapply runs_bind; [exact (runs_read_parent m d fs Hw Hfs p Hp Hf)|apply runs_ret].
  - destruct Ho as (fs' & Hfs' & Hf). assert (fs' = fs) as -> by congruence.
    eapply runs_bind; [by apply (runs_layer_has_parent m d fs)|]. rewrite Hf. apply runs_ret.
Qed.

Lemma base_parts d f maps l :
  name_wf d → no_parent m d → base_files_of (LayerFile d <$> base_filenames) = Ok f →
  base_maps_in m f = Some maps → base_load d maps = Ok l → layer_parts d l.
Proof.
  intros Hw (fs & Hfs & Hp) Hf Hm Hl. assert (layer_of m d) as Hd by (split; [done|by eexists]).
  destruct (runs_base_parts m d fs Hw Hfs Hp) as (B & _ & HB & Hnd & Hpd & Hvd & Hnv & Hpi & Ha & Hr & Hwa & Hwr & Hoa & Hor & Hca & Hcr).
  rewrite Hf in HB. injection HB as <-. injection Hf as <-. unfold base_maps_in in Hm. lookups Hm. injection Hm as <-.
  unfold id_map_in in E2. lookups E2. injection E2 as <-.
  unfold base_load in Hl. split_ok. injection Hl as <-. simpl in *.
  split; simpl.
  - done.
  - apply (runs_layer_parent d None); [done|by exists fs].
  - eexists. split; [exact Hnd|read_part d Hd].
  - eexists. split; [exact Hpd|read_part d Hd].
  - eexists. split; [exact Hvd|read_part d Hd].
  - eexists. split; [exact Hnv|read_part d Hd].
  - eexists. split; [exact Hpi|read_part d Hd].
  - refine (ex_intro _ (Build_triple_files _ _ _ _ _ _) _).
    split; [|split; [exact Ha|split; [exact Hoa|split; [exact Hwa|exact Hca]]]].
    split; cbn [tf_subjects tf_objects tf_s_p tf_sp_o tf_o_ps tf_wavelet_tree]; read_part d Hd.
  - exists None. split; [by constructor|done].
Qed.

Lemma child_parts d parent f maps l :
  name_wf d → parent_in m d (layer_name parent) → child_files_of (LayerFile d <$> child_filenames) = Ok f →
  child_maps_in m f = Some maps → child_load d parent maps = Ok l → layer_parts d l.
Proof.
  intros Hw Hpar Hf Hm Hl. pose proof (layer_of_parent _ _ Hw Hpar) as Hd.
  pose proof Hpar as (Hwp & fs & Hfs & Hp).
  destruct (runs_child_parts m d fs Hw Hfs _ Hp) as (C & _ & HC & Hnd & Hpd & Hvd & Hnv & Hpi & Ha & Hr & Hwa & Hwr & Hoa & Hor & Hca & Hcr).
  rewrite Hf in HC. injection HC as <-. injection Hf as <-. unfold child_maps_in in Hm. lookups Hm. injection Hm as <-.
  unfold id_map_in in E2. lookups E2. injection E2 as <-.
  unfold child_load in Hl. split_ok. injection Hl as <-. simpl in *.
  split; simpl.
  - done.
  - by apply (runs_layer_parent d (Some _)).
  - eexists. split; [exact Hnd|read_part d Hd].
  - eexists. split; [exact Hpd|read_part d Hd].
  - eexists. split; [exact Hvd|read_part d Hd].
  - eexists. split; [exact Hnv|read_part d Hd].
  - eexists. split; [exact Hpi|read_part d Hd].
  - refine (ex_intro _ (Build_triple_files _ _ _ _ _ _) _).
    split; [|split; [exact Ha|split; [exact Hoa|split; [exact Hwa|exact Hca]]]].
    split; cbn [tf_subjects tf_objects tf_s_p tf_sp_o tf_o_ps tf_wavelet_tree]; read_part d Hd.
  - refine (ex_intro _ (Some (Build_triple_files _ _ _ _ _ _)) _).
    split; [refine (ex_intro _ (Build_triple_parts _ _ _ _ _ _) _); split; [|by constructor]|split; [exact Hr|split; [exact Hor|split; [exact Hwr|exact Hcr]]]].
    split; cbn [tf_subjects tf_objects tf_s_p tf_sp_o tf_o_ps tf_wavelet_tree]; read_part d Hd.
Qed.

Lemma own_parts d l : own m d l → layer_parts d l.
Proof. destruct 1; [by eapply base_parts|by eapply child_parts]. Qed.
End parts.

(** ** Consuming iterators

    A missing iterator is empty, a present one is wrapped, and a second condition
    that all triples satisfy changes nothing. *)
Section consume.
Context `{SuccinctOps} {I : Type} `{!TripleIter I}.

Lemma collect_while_Some p fuel (it : I) : collect_while opt_next p fuel (Some it) = collect_while it_next p fuel it.
Proof.
  revert it. induction fuel as [|fuel IH]; intros it; [done|]. simpl.
  destruct (it_next it) as [[[t|] it']|e| |]; simpl; try done. by rewrite IH.
Qed.

Lemma collect_while_None p fuel : collect_while (opt_next (I := I)) p (S fuel) None = Ok [].
Proof. done. Qed.

Lemma collect_Some fuel (it : I) : collect opt_next fuel (Some it) = collect it_next fuel it.
Proof.
  revert it. induction fuel as [|fuel IH]; intros it; [done|]. simpl.
  destruct (it_next it) as [[[t|] it']|e| |]; simpl; try done. by rewrite IH.
Qed.

Lemma collect_while_all p fuel (it : I) ts :
  Forall (λ t, p t = true) ts → collect it_next fuel it = Ok ts → collect_while it_next p fuel it = Ok ts.
Proof.
  intros Hp. revert it ts Hp. induction fuel as [|fuel IH]; intros it ts Hp Hc; [done|]. simpl in *.
  destruct (it_next it) as [[[t|] it']|e| |]; simpl in *; try done.
  destruct (collect it_next fuel it') as [l|e| |] eqn:Hl; simpl in *; simplify_eq.
  apply Forall_cons in Hp as [-> Hp]. by rewrite (IH it' l).
Qed.

(** The flag is read by [next] only. *)
Lemma seek_object_ref_stop (it : InternalLayerTripleObjectIterator) stop object :
  seek_object_ref (stop_at_boundary_ref it stop) object =
  (i ← seek_object_ref it object; Ok (stop_at_boundary_ref i stop)).
Proof.
  unfold seek_object_ref. simpl. case_decide; [done|]. case_decide; [done|].
  by destruct (aj_offset_for _ _).
Qed.
End consume.

Lemma bind_Ok_eta {A} (o : outcome A) : (a ← o; Ok a) = o.
Proof. by destruct o. Qed.

Lemma bind_assoc_outcome {A B C} (o : outcome A) (f : A → outcome B) (g : B → outcome C) :
  (b ← (a ← o; f a); g b) = (a ← o; b ← f a; g b).
Proof. by destruct o. Qed.

(** ** The queries of a persistent store *)

Section answer.
Context `{SuccinctParse} {S : Type} `{FileMapsLaws S, !CountFiles S, !CountFilesLaws S}.
Context (m : store_map).

Notation reads := (answers pl_rep m).

Lemma answers_bind {A B} (p : io S A) (k : A → io S B) a o :
  runs m p a m → reads (k a) o → reads (p ≫= k) o.
Proof. apply answers_rep_bind. Qed.

Lemma answers_lift {A} (o : outcome A) : reads (lift o) o.
Proof. apply answers_rep_lift. Qed.

Lemma answers_lift_bind {A B} (o : outcome A) (k : A → io S B) a r :
  o = Ok a → reads (k a) r → reads (lift o ≫= k) r.
Proof. intros -> Hk s Hs. exact (Hk s Hs). Qed.

Lemma runs_answers {A} (p : io S A) a : reads p (Ok a) → runs m p a m.
Proof. done. Qed.

Lemma answers_then {A B} (p : io S A) (k : A → outcome B) o :
  reads p o → reads (a ← p; lift (k a)) (a ← o; k a).
Proof.
  intros Hp s Hs. destruct (Hp s Hs) as (s' & Heq & Hs'). exists s'. split; [|done].
  unfold mbind at 1, io_bind. rewrite Heq. by destruct o.
Qed.

Lemma answers_ret_bind {A B} (p : io S A) (f : A → B) o :
  reads p o → reads (a ← p; mret (f a)) (f <$> o).
Proof.
  intros Hp s Hs. destruct (Hp s Hs) as (s' & Heq & Hs'). exists s'. split; [|done].
  unfold mbind, io_bind. rewrite Heq. by destruct o.
Qed.

Lemma reads_map_array f a : reads_array m f a → runs m (map_optional_array f) a m.
Proof. intros (c & Hc & Ha). eapply runs_bind; [exact Hc|]. by apply runs_lift. Qed.

(** Reading the next part of a layer. *)
Ltac read :=
  repeat first
    [ eapply answers_bind; [by eassumption|]
    | eapply answers_bind; [by apply reads_map_array|]
    | eapply answers_lift_bind; [by eassumption|] ]; simpl.

Section triples.
Context (f : triple_files) (t : triple_parts) (Ht : reads_triples m f t).

Lemma file_triple_exists_answers s p o :
  reads (file_triple_exists (tf_subjects f) (tf_s_p f) (tf_sp_o f) s p o)
    (layer_triple_exists (tp_subjects t) (tp_s_p t) (tp_sp_o t) s p o).
Proof.
  destruct Ht as [Hs _ (? & ? & ?) (? & ? & ?) _ _ _]. unfold file_triple_exists. read. apply answers_lift.
Qed.

Lemma file_triple_iterator_runs :
  runs m (file_triple_iterator (tf_subjects f) (tf_s_p f) (tf_sp_o f))
    (si_new (tp_subjects t) (tp_s_p t) (tp_sp_o t)) m.
Proof.
  destruct Ht as [Hs _ (? & ? & ?) (? & ? & ?) _ _ _]. unfold file_triple_iterator.
  apply runs_answers. read. apply answers_lift.
Qed.

Lemma file_triple_iterator_by_predicate_answers p :
  reads (file_triple_iterator_by_predicate (tf_subjects f) (tf_s_p f) (tf_sp_o f) (tf_wavelet_tree f) p)
    (Ok (match wt_lookup (tp_wavelet_tree t) p with
         | Some lookup => Some (pi_new lookup (tp_subjects t) (tp_s_p t) (tp_sp_o t))
         | None => None
         end)).
Proof.
  destruct Ht as [Hs _ (? & ? & ?) (? & ? & ?) _ (? & ? & ?) _]. unfold file_triple_iterator_by_predicate.
  read. apply answers_lift.
Qed.

Lemma file_triple_iterator_by_object_answers object :
  reads (file_triple_iterator_by_object (tf_subjects f) (tf_objects f) (tf_o_ps f) (tf_s_p f) object)
    (seek_object_ref (oi_new (tp_subjects t) (tp_objects t) (tp_o_ps t) (tp_s_p t) true) object).
Proof.
  destruct Ht as [Hs Ho (? & ? & ?) _ (? & ? & ?) _ _]. unfold file_triple_iterator_by_object.
  read. apply answers_lift.
Qed.

Lemma file_triple_layer_count_answers :
  reads (file_triple_layer_count (alf_nums (tf_s_p f)) (bif_bits (alf_bitindex (tf_sp_o f))) (tf_wavelet_tree f))
    (checked_sub (aj_right_count (tp_sp_o t)) (lookup_len (tp_wavelet_tree t) 0)).
Proof.
  destruct Ht as [_ _ _ _ _ (? & ? & ?) [[len ?] ?]]. unfold file_triple_layer_count. read. apply answers_lift.
Qed.
End triples.

(** A layer whose files the accessors hand out. *)
Section layer.
Context (d : name) (l : InternalLayer) (Hl : layer_parts m d l).

Lemma runs_exists_layer : runs m (directory_exists d) true m.
Proof. destruct (lp_layer _ _ _ Hl) as [Hw [fs Hfs]]. by apply (runs_directory_exists m d fs). Qed.

Lemma if_exists_answers {A} (body : io S A) a : reads body (Ok a) → reads (if_exists d body) (Ok (Some a)).
Proof.
  intros Hb. eapply answers_bind; [apply runs_exists_layer|]. cbn. eapply answers_bind; [exact Hb|apply answers_lift].
Qed.

Lemma node_dictionary_answers : reads (file_get_node_dictionary d) (Ok (Some (node_dictionary l))).
Proof.
  destruct (lp_nodes _ _ _ Hl) as (f & Hf & (maps & Hm & Hok) & _). apply if_exists_answers.
  rewrite <- Hok. read. apply answers_lift.
Qed.
Lemma predicate_dictionary_answers : reads (file_get_predicate_dictionary d) (Ok (Some (predicate_dictionary l))).
Proof.
  destruct (lp_predicates _ _ _ Hl) as (f & Hf & (maps & Hm & Hok) & _). apply if_exists_answers.
  rewrite <- Hok. read. apply answers_lift.
Qed.
Lemma value_dictionary_answers : reads (file_get_value_dictionary d) (Ok (Some (value_dictionary l))).
Proof.
  destruct (lp_values _ _ _ Hl) as (f & Hf & (maps & Hm & Hok) & _). apply if_exists_answers.
  rewrite <- Hok. read. apply answers_lift.
Qed.

Lemma node_count_answers : runs m (file_get_node_count d) (Some (node_dict_len l)) m.
Proof.
  destruct (lp_nodes _ _ _ Hl) as (f & Hf & _ & Hc). apply if_exists_answers. read. exact Hc.
Qed.
Lemma predicate_count_answers : runs m (file_get_predicate_count d) (Some (predicate_dict_len l)) m.
Proof.
  destruct (lp_predicates _ _ _ Hl) as (f & Hf & _ & Hc). apply if_exists_answers. read. exact Hc.
Qed.
Lemma value_count_answers : runs m (file_get_value_count d) (Some (value_dict_len l)) m.
Proof.
  destruct (lp_values _ _ _ Hl) as (f & Hf & _ & Hc). apply if_exists_answers. read. exact Hc.
Qed.

Lemma node_value_idmap_answers : reads (file_get_node_value_idmap d) (Ok (Some (node_value_id_map l))).
Proof.
  destruct (lp_node_value_idmap _ _ _ Hl) as (f & Hf & maps & Hm & Hi).
  apply if_exists_answers.
  eapply answers_bind; [apply node_count_answers|]. eapply answers_lift_bind; [reflexivity|].
  eapply answers_bind; [apply value_count_answers|]. eapply answers_lift_bind; [reflexivity|].
  read. rewrite <- Hi. destruct maps; simpl; [|apply answers_lift].
  unfold idmap_from_maps, load_wavelet_tree. rewrite bind_assoc_outcome. apply answers_lift.
Qed.
Lemma predicate_idmap_answers : reads (file_get_predicate_idmap d) (Ok (Some (predicate_id_map l))).
Proof.
  destruct (lp_predicate_idmap _ _ _ Hl) as (f & Hf & maps & Hm & Hi).
  apply if_exists_answers.
  eapply answers_bind; [apply predicate_count_answers|]. eapply answers_lift_bind; [reflexivity|].
  read. rewrite <- Hi. destruct maps; simpl; [|apply answers_lift].
  unfold idmap_from_maps, load_wavelet_tree. rewrite bind_assoc_outcome. apply answers_lift.
Qed.

Lemma addition_exists_answers s p o :
  reads (file_triple_addition_exists d s p o) (internal_triple_addition_exists l s p o).
Proof.
  destruct (lp_additions _ _ _ Hl) as (f & Ht & Hf & _). eapply answers_bind; [exact Hf|].
  exact (file_triple_exists_answers f _ Ht s p o).
Qed.

Lemma additions_answers : reads (file_triple_additions d) (Ok (internal_triple_additions l)).
Proof.
  destruct (lp_additions _ _ _ Hl) as (f & Ht & Hf & _). eapply answers_bind; [exact Hf|].
  eapply answers_bind; [exact (file_triple_iterator_runs f _ Ht)|]. apply answers_lift.
Qed.

Lemma additions_p_answers p : reads (file_triple_additions_p d p) (Ok (internal_triple_additions_p l p)).
Proof.
  destruct (lp_additions _ _ _ Hl) as (f & Ht & Hf & _ & Hw & _). eapply answers_bind; [exact Hf|].
  eapply answers_bind; [exact Hw|]. exact (file_triple_iterator_by_predicate_answers f _ Ht p).
Qed.

Lemma addition_count_answers :
  reads (file_triple_layer_addition_count d) (internal_triple_layer_addition_count l).
Proof.
  destruct (lp_additions _ _ _ Hl) as (f & Ht & _ & _ & _ & Hf). eapply answers_bind; [exact Hf|].
  exact (file_triple_layer_count_answers f _ Ht).
Qed.

(** Seeking and taking triples while a condition holds. *)
Lemma seek_take_while_answers f t seek p fuel :
  reads_triples m f t →
  reads (it ← file_triple_iterator (tf_subjects f) (tf_s_p f) (tf_sp_o f); lift (seek_take_while seek p fuel it))
    (it ← opt_seek seek (Some (si_new (tp_subjects t) (tp_s_p t) (tp_sp_o t))); collect_while opt_next p fuel it).
Proof.
  intros Ht. eapply answers_bind; [exact (file_triple_iterator_runs f t Ht)|]. unfold seek_take_while, opt_seek.
  destruct (seek _) as [it|e| |]; simpl; [rewrite collect_while_Some|..]; apply answers_lift.
Qed.

Lemma additions_s_answers fuel s : reads (file_triple_additions_s fuel d s) (internal_triple_additions_s fuel l s).
Proof.
  destruct (lp_additions _ _ _ Hl) as (f & Ht & Hf & _). eapply answers_bind; [exact Hf|].
  exact (seek_take_while_answers f _ (λ i, seek_subject_ref i s) _ fuel Ht).
Qed.

Lemma additions_sp_answers fuel s p :
  reads (file_triple_additions_sp fuel d s p) (internal_triple_additions_sp fuel l s p).
Proof.
  destruct (lp_additions _ _ _ Hl) as (f & Ht & Hf & _). eapply answers_bind; [exact Hf|].
  exact (seek_take_while_answers f _ (λ i, seek_subject_predicate_ref i s p) _ fuel Ht).
Qed.

(** The object iterator from the files stops at the end of the object it was
    moved to, where the one of a loaded layer is told to stop after the move. *)
Lemma by_object_answers f t fuel o ts :
  reads_triples m f t → Forall (λ t, object t = o) ts →
  (it ← opt_seek (λ i, seek_object_ref i o)
     (Some (oi_new (tp_subjects t) (tp_objects t) (tp_o_ps t) (tp_s_p t) false));
   collect opt_next fuel (option_map (λ i, stop_at_boundary_ref i true) it)) = Ok ts →
  reads (it ← file_triple_iterator_by_object (tf_subjects f) (tf_objects f) (tf_o_ps f) (tf_s_p f) o;
         lift (collect_while oi_next (λ t, bool_decide (object t = o)) fuel it)) (Ok ts).
Proof.
  intros Ht Hts Hc. split_ok. pose proof (file_triple_iterator_by_object_answers f t Ht o) as Hr.
  apply (answers_then _ (collect_while oi_next (λ t, bool_decide (object t = o)) fuel)) in Hr.
  unfold opt_seek in Ha. split_ok. injection Ha as <-. simpl in Hc. rewrite collect_Some in Hc.
  pose proof (seek_object_ref_stop (oi_new (tp_subjects t) (tp_objects t) (tp_o_ps t) (tp_s_p t) false) true o) as Hs.
  rewrite Ha0 in Hs. simpl in Hs. change (stop_at_boundary_ref _ true) with
    (oi_new (tp_subjects t) (tp_objects t) (tp_o_ps t) (tp_s_p t) true) in Hs at 1.
  rewrite Hs in Hr. simpl in Hr.
  assert (Forall (λ t, bool_decide (object t = o) = true) ts) as Hall.
  { eapply Forall_impl; [exact Hts|]. intros t' Ht'. by apply bool_decide_eq_true_2. }
  pose proof (collect_while_all _ _ _ _ Hall Hc) as Hw. unfold it_next in Hw. simpl in Hw. by rewrite Hw in Hr.
Qed.

Lemma additions_o_answers fuel o ts :
  Forall (λ t, object t = o) ts → internal_triple_additions_o fuel l o = Ok ts →
  reads (file_triple_additions_o fuel d o) (Ok ts).
Proof.
  intros Hts Hi. destruct (lp_additions _ _ _ Hl) as (f & Ht & _ & Hf & _). eapply answers_bind; [exact Hf|].
  exact (by_object_answers f _ fuel o ts Ht Hts Hi).
Qed.

(** The same for the removals, which a base layer does not have. *)
Lemma removal_exists_answers s p o :
  reads (file_triple_removal_exists d s p o) (internal_triple_removal_exists l s p o).
Proof.
  destruct (lp_removals _ _ _ Hl) as (fo & Hfo & Hf & _). eapply answers_bind; [exact Hf|].
  unfold internal_triple_removal_exists. destruct fo as [f|].
  - destruct Hfo as (t & Ht & [-> _ -> -> _ _]). exact (file_triple_exists_answers f _ Ht s p o).
  - destruct Hfo as [-> _ _ _]. apply answers_lift.
Qed.

Lemma removals_answers : reads (file_triple_removals d) (Ok (internal_triple_removals l)).
Proof.
  destruct (lp_removals _ _ _ Hl) as (fo & Hfo & Hf & _). eapply answers_bind; [exact Hf|].
  unfold internal_triple_removals. destruct fo as [f|].
  - destruct Hfo as (t & Ht & [-> _ -> -> _ _]).
    eapply answers_bind; [exact (file_triple_iterator_runs f _ Ht)|]. apply answers_lift.
  - destruct Hfo as [-> _ _ _]. apply answers_lift.
Qed.

Lemma removals_p_answers p : reads (file_triple_removals_p d p) (Ok (internal_triple_removals_p l p)).
Proof.
  destruct (lp_removals _ _ _ Hl) as (fo & Hfo & Hf & _ & Hw & _). eapply answers_bind; [exact Hf|].
  eapply answers_bind; [exact Hw|]. unfold internal_triple_removals_p. destruct fo as [f|].
  - destruct Hfo as (t & Ht & [-> _ -> -> _ ->]). simpl.
    pose proof (file_triple_iterator_by_predicate_answers f _ Ht p) as Hp. by destruct (wt_lookup _ p).
  - destruct Hfo as [_ _ _ ->]. apply answers_lift.
Qed.

Lemma removal_count_answers :
  reads (file_triple_layer_removal_count d) (internal_triple_layer_removal_count l).
Proof.
  destruct (lp_removals _ _ _ Hl) as (fo & Hfo & _ & _ & _ & Hf). eapply answers_bind; [exact Hf|].
  unfold internal_triple_layer_removal_count. destruct fo as [f|].
  - destruct Hfo as (t & Ht & [_ _ _ -> _ ->]). exact (file_triple_layer_count_answers f _ Ht).
  - destruct Hfo as [_ -> _ _]. apply answers_lift.
Qed.

Lemma removals_s_answers fuel s :
  reads (file_triple_removals_s (Datatypes.S fuel) d s) (internal_triple_removals_s (Datatypes.S fuel) l s).
Proof.
  destruct (lp_removals _ _ _ Hl) as (fo & Hfo & Hf & _). eapply answers_bind; [exact Hf|].
  unfold internal_triple_removals_s, internal_triple_removals. destruct fo as [f|].
  - destruct Hfo as (t & Ht & [-> _ -> -> _ _]).
    exact (seek_take_while_answers f _ (λ i, seek_subject_ref i s) _ _ Ht).
  - destruct Hfo as [-> _ _ _]. apply answers_lift.
Qed.

Lemma removals_sp_answers fuel s p :
  reads (file_triple_removals_sp (Datatypes.S fuel) d s p) (internal_triple_removals_sp (Datatypes.S fuel) l s p).
Proof.
  destruct (lp_removals _ _ _ Hl) as (fo & Hfo & Hf & _). eapply answers_bind; [exact Hf|].
  unfold internal_triple_removals_sp, internal_triple_removals. destruct fo as [f|].
  - destruct Hfo as (t & Ht & [-> _ -> -> _ _]).
    exact (seek_take_while_answers f _ (λ i, seek_subject_predicate_ref i s p) _ _ Ht).
  - destruct Hfo as [-> _ _ _]. apply answers_lift.
Qed.

Lemma removals_o_answers fuel o ts :
  Forall (λ t, object t = o) ts → internal_triple_removals_o (Datatypes.S fuel) l o = Ok ts →
  reads (file_triple_removals_o (Datatypes.S fuel) d o) (Ok ts).
Proof.
  intros Hts Hi. destruct (lp_removals _ _ _ Hl) as (fo & Hfo & _ & Hf & _). eapply answers_bind; [exact Hf|].
  unfold internal_triple_removals_o, internal_triple_removals_by_object in Hi. destruct fo as [f|].
  - destruct Hfo as (t & Ht & [Es Eo Esp _ Eops _]). rewrite Eops, Esp, Es, Eo in Hi.
    exact (by_object_answers f _ _ o ts Ht Hts Hi).
  - destruct Hfo as [_ _ Eops _]. rewrite Eops in Hi. simpl in Hi. injection Hi as <-. apply answers_lift.
Qed.

Lemma file_answers_for : answers_for pl_rep m d l.
Proof.
  split; intros.
  - apply Hl.
  - apply node_dictionary_answers.
  - apply predicate_dictionary_answers.
  - apply value_dictionary_answers.
  - apply node_count_answers.
  - apply value_count_answers.
  - apply node_value_idmap_answers.
  - apply predicate_idmap_answers.
  - apply addition_exists_answers.
  - apply removal_exists_answers.
  - apply additions_answers.
  - apply removals_answers.
  - apply additions_s_answers.
  - apply removals_s_answers.
  - apply additions_sp_answers.
  - apply removals_sp_answers.
  - apply additions_p_answers.
  - apply removals_p_answers.
  - by apply additions_o_answers.
  - by apply removals_o_answers.
  - apply addition_count_answers.
  - apply removal_count_answers.
Qed.
End layer.

(** ** Layers that do not exist, and stacks *)

Lemma fails_directory {A} d (k : bool → io S A) o :
  name_wf d → m !! d = None → reads (k false) o → reads (e ← directory_exists d; k e) o.
Proof.
  intros Hw Hd Hk. eapply answers_bind; [by apply runs_no_directory|exact Hk].
Qed.

Lemma answers_throw {A} e : reads (throw (A := A) e) (Err e).
Proof. intros s Hs. by exists s. Qed.

Lemma answers_err_bind {A B} (p : io S A) (k : A → io S B) e : reads p (Err e) → reads (p ≫= k) (Err e).
Proof.
  intros Hp s Hs. destruct (Hp s Hs) as (s' & Heq & Hs'). exists s'. split; [|done].
  by rewrite (io_bind_Err _ _ _ _ _ Heq).
Qed.

Lemma file_answers_missing d : name_wf d → m !! d = None → answers_missing pl_rep m d.
Proof.
  intros Hw Hd.
  split; intros; first
    [ apply fails_directory; [done|done|]; first [apply answers_lift|apply answers_throw]
    | apply answers_err_bind, fails_directory; [done|done|]; apply answers_throw ].
Qed.

Lemma parents_layer d ns : parents m d ns → layer_of m d.
Proof. destruct 1 as [d Hw (fs & Hfs & _)|d p ns Hw (_ & fs & Hfs & _)]; (split; [done|by eexists]). Qed.

Lemma runs_stack_names d ns result fuel :
  parents m d ns → length ns ≤ fuel → runs m (stack_names fuel result d) (reverse (result ++ tail ns)) m.
Proof.
  intros Hp. revert result fuel.
  induction Hp as [d Hw Hno|d p ns Hw Hpar Hp IH]; intros result [|fuel] Hfuel; simpl in Hfuel; try lia;
    cbn [stack_names].
  - eapply runs_bind; [apply runs_has_no_parent; [|done]|].
    { destruct Hno as (fs & Hfs & _). split; [done|by eexists]. }
    cbn. rewrite app_nil_r. apply runs_ret.
  - destruct (runs_has_parent m d p (layer_of_parent _ _ _ Hw Hpar) Hpar) as [Hhas Hread].
    eapply runs_bind; [exact Hhas|]. cbn. eapply runs_bind; [exact Hread|].
    replace (result ++ ns) with ((result ++ [p]) ++ tail ns); [apply IH; lia|].
    rewrite <- app_assoc. by inversion Hp.
Qed.

Lemma stack_names_upto_reads d ns upto result fuel :
  parents m d ns → length ns ≤ fuel →
  reads (stack_names_upto fuel upto result d)
    (match names_before upto (tail ns) with Some ms => Ok (reverse (result ++ ms)) | None => Err NotFound end).
Proof.
  intros Hp. revert result fuel.
  induction Hp as [d Hw Hno|d p ns Hw Hpar Hp IH]; intros result [|fuel] Hfuel; simpl in Hfuel; try lia;
    cbn [stack_names_upto].
  - eapply answers_bind; [apply runs_has_no_parent; [|done]|apply answers_throw].
    destruct Hno as (fs & Hfs & _). split; [done|by eexists].
  - destruct (runs_has_parent m d p (layer_of_parent _ _ _ Hw Hpar) Hpar) as [Hhas Hread].
    eapply answers_bind; [exact Hhas|]. cbn. eapply answers_bind; [exact Hread|].
    assert (ns = p :: tail ns) as Hns by by inversion Hp. rewrite Hns. cbn [names_before].
    destruct (decide (p = upto)) as [->|Hne].
    + rewrite app_nil_r. apply answers_lift.
    + specialize (IH (result ++ [p]) fuel ltac:(lia)).
      destruct (names_before upto (tail ns)) as [ms|]; simpl; [|exact IH]. by rewrite <- app_assoc in IH.
Qed.
End answer.

#[export] Instance file_layer_queries_laws `{SuccinctParse} {S : Type}
  `{FileMapsLaws S, !RollupLaws S, !CountFiles S, !CountFilesLaws S} : LayerQueriesLaws S.
Proof.
  split with pl_rep.
  - intros m d l Hl. apply file_answers_for. by apply own_parts.
  - intros m d. apply file_answers_missing.
  - intros m d ns fuel Hp Hf. pose proof (runs_stack_names m d ns [d] fuel Hp Hf) as Hr.
    assert (ns = d :: tail ns) as -> by by inversion Hp. exact Hr.
  - intros m d ns upto fuel Hp Hf. exact (stack_names_upto_reads m d ns upto [d] fuel Hp Hf).
  - intros m layer rollup fs ns fuel s Hs Hr Hfs Hp _. unfold register_rollup, rolled_up. simpl. unfold file_register_rollup.
    case_decide; [exists (rollup_contents rollup), s; split; [done|]; split; [apply rollup_contents_named|done]|].
    destruct (parents_layer _ _ _ Hp) as [Hw _]. by apply write_rollup_spec.
Defined.

Lemma own_parent_in `{SuccinctParse} m d l : own m d l → opt_parent_in m d (parent_name l).
Proof.
  destruct 1 as [f maps l Hw Hno Hf Hm Hl|parent f maps l Hw Hpar Hf Hm Hl].
  - by apply base_load_shape in Hl as (b & -> & _).
  - by apply child_load_shape in Hl as (c & -> & _).
Qed.

(** A layer without rollup that is loaded from the store answers for itself. *)
Lemma loads_own `{SuccinctParse} m k d l : loads m k d l → is_rollup l = false → own m d l.
Proof.
  intros Hl Hr. destruct Hl as [d f maps l Hw _ Hp Hf Hm Hl|k d p parent f maps l Hw _ Hp Hpl Hf Hm Hl|]; [..|done].
  - by eapply own_base.
  - apply loads_name in Hpl. subst p. by eapply own_child.
Qed.

(** ** Registering a rollup changes no answer *)

Lemma file_in_rolled_up m layer rollup fs c f :
  m !! layer = Some fs → lf_name f ≠ fn_rollup FILENAMES → file_in (rolled_up m layer rollup fs c) f = file_in m f.
Proof.
  intros Hm Hf. unfold rolled_up. case_decide as Hl; [done|]. unfold file_in.
  destruct (decide (lf_dir f = layer)) as [->|Hd].
  - rewrite lookup_insert_eq, Hm. simpl. by rewrite lookup_insert_ne.
  - by rewrite lookup_insert_ne.
Qed.

Lemma parent_file_rolled_up m layer rollup fs c d fs' :
  m !! layer = Some fs → m !! d = Some fs' →
  ∃ fs'', rolled_up m layer rollup fs c !! d = Some fs'' ∧ fs'' !! fn_parent FILENAMES = fs' !! fn_parent FILENAMES.
Proof.
  intros Hm Hd. unfold rolled_up. case_decide; [by exists fs'|].
  destruct (decide (layer = d)) as [->|Hne].
  - rewrite lookup_insert_eq. eexists. split; [done|]. rewrite lookup_insert_ne by done. congruence.
  - rewrite lookup_insert_ne by done. by exists fs'.
Qed.

Lemma parent_in_rolled_up m layer rollup fs c d p :
  m !! layer = Some fs → parent_in m d p → parent_in (rolled_up m layer rollup fs c) d p.
Proof.
  intros Hm (Hp & fs' & Hd & Hf). split; [done|].
  destruct (parent_file_rolled_up m layer rollup fs c d fs' Hm Hd) as (fs'' & Hd' & Hf'). exists fs''. by rewrite Hf'.
Qed.

Lemma no_parent_rolled_up m layer rollup fs c d :
  m !! layer = Some fs → no_parent m d → no_parent (rolled_up m layer rollup fs c) d.
Proof.
  intros Hm (fs' & Hd & Hf).
  destruct (parent_file_rolled_up m layer rollup fs c d fs' Hm Hd) as (fs'' & Hd' & Hf'). exists fs''. by rewrite Hf'.
Qed.

Lemma base_maps_in_rolled_up m layer rollup fs c d f :
  m !! layer = Some fs → base_files_of (LayerFile d <$> base_filenames) = Ok f →
  base_maps_in (rolled_up m layer rollup fs c) f = base_maps_in m f.
Proof.
  intros Hm Hf. injection Hf as <-.
  unfold base_maps_in, dictionary_in, typed_dictionary_in, id_map_in, optional_bit_index_in, adjacency_list_in, bit_index_in.
  cbn [blf_node_dictionary blf_predicate_dictionary blf_value_dictionary blf_id_map blf_subjects blf_objects
       blf_s_p_adjacency_list blf_sp_o_adjacency_list blf_o_ps_adjacency_list blf_predicate_wavelet_tree
       df_blocks df_offsets tdf_types_present tdf_type_offsets tdf_offsets tdf_blocks imf_node_value imf_predicate
       bif_bits bif_blocks bif_sblocks alf_bitindex alf_nums].
  by rewrite !file_in_rolled_up by done.
Qed.

Lemma child_maps_in_rolled_up m layer rollup fs c d f :
  m !! layer = Some fs → child_files_of (LayerFile d <$> child_filenames) = Ok f →
  child_maps_in (rolled_up m layer rollup fs c) f = child_maps_in m f.
Proof.
  intros Hm Hf. injection Hf as <-.
  unfold child_maps_in, dictionary_in, typed_dictionary_in, id_map_in, optional_bit_index_in, adjacency_list_in, bit_index_in.
  cbn [clf_node_dictionary clf_predicate_dictionary clf_value_dictionary clf_id_map
       clf_pos_subjects clf_pos_objects clf_neg_subjects clf_neg_objects
       clf_pos_s_p_adjacency_list clf_pos_sp_o_adjacency_list clf_pos_o_ps_adjacency_list
       clf_neg_s_p_adjacency_list clf_neg_sp_o_adjacency_list clf_neg_o_ps_adjacency_list
       clf_pos_predicate_wavelet_tree clf_neg_predicate_wavelet_tree
       df_blocks df_offsets tdf_types_present tdf_type_offsets tdf_offsets tdf_blocks imf_node_value imf_predicate
       bif_bits bif_blocks bif_sblocks alf_bitindex alf_nums].
  by rewrite !file_in_rolled_up by done.
Qed.

Lemma own_rolled_up `{SuccinctParse} m layer rollup fs c d l :
  m !! layer = Some fs → own m d l → own (rolled_up m layer rollup fs c) d l.
Proof.
  intros Hm Hl. destruct Hl as [f maps l Hw Hp Hf Hmaps Hl|parent f maps l Hw Hp Hf Hmaps Hl].
  - eapply own_base; [done|by apply no_parent_rolled_up|done| |done].
    by rewrite (base_maps_in_rolled_up _ _ _ _ _ d).
  - eapply own_child; [done|by apply parent_in_rolled_up|done| |done].
    by rewrite (child_maps_in_rolled_up _ _ _ _ _ d).
Qed.
