(* ===== verification/StoreChanges.v ===== *)
(** The changes that the layers of a store make, read from their files
    ([layer_changes_upto]), are the changes between the triples that exist in the
    layer and those that exist in the layer further down. *)

From S2P Require Import Prelude Names Text LabelSpec Consts LayerFiles LayerFileSpec Succinct LayerTypes Nested SubjectIterator LayerLookup ObjectIterator PredicateIterator StackMerge ChangeMerge IdMap InternalLayer LayerQueries LayerIds LayerMaps LayerLoad StoreQueries StoreQuerySpec.

(** The files of [d] and its ancestors [ns] hold the layers [ls], which add and
    remove the triples [st]. *)
Record disk_stack `{SuccinctLaws} `{!SuccinctParse} (m : store_map) (d : name) (ns : list name)
    (ls : list InternalLayer) (st : list (list IdTriple * list IdTriple)) : Prop := {
  ds_parents : parents m d ns;
  ds_own : Forall2 (own m) ns ls;
  ds_holds : Forall2 layer_holds ls st;
  ds_wf : stack_wf st.*1 st.*2;
}.

Section walk.
Context `{SuccinctParse} {W : Type} `{!LayerQueries W, !LayerQueriesLaws W}.

Lemma own_parent m d l ns : own m d l → parents m d ns → parent_name l = head (tail ns).
Proof.
  intros Hl Hp. destruct Hl as [f maps l Hw Hno Hf Hm Hl|parent f maps l Hw Hpar Hf Hm Hl].
  - apply base_load_shape in Hl as (b & -> & _). inversion Hp as [|? p ? ? Hpar]; subst; [done|].
    by destruct (no_parent_in _ _ _ Hno Hpar).
  - apply child_load_shape in Hl as (c & -> & _). simpl.
    inversion Hp as [? ? Hno|? p ? ? Hpar' Hps]; subst; [by destruct (no_parent_in _ _ _ Hno Hpar)|].
    rewrite (parent_in_functional _ _ _ _ Hpar Hpar'). by inversion Hps.
Qed.

Lemma changes_walk_upto_answers m d ns ls upto pos neg fuel :
  parents m d ns → Forall2 (own m) ns ls → length ns ≤ fuel →
  answers lq_rep m (changes_walk_upto fuel upto pos neg d)
    (match names_before upto ns with
     | Some above => Ok (pos ++ (internal_triple_additions <$> take (length above) ls),
                         neg ++ (internal_triple_removals <$> take (length above) ls))
     | None => Err NotFound
     end).
Proof.
  intros Hp. revert ls pos neg fuel.
  induction Hp as [d Hw Hno|d p ns Hw Hpar Hp IH]; intros ls pos neg [|fuel] Hls Hfuel; simpl in Hfuel; try lia;
    destruct ls as [|l ls]; try by inversion Hls.
  - apply Forall2_cons in Hls as [Hl Hls]. cbn [changes_walk_upto names_before].
    case_decide as Hd; simpl; [rewrite !app_nil_r; apply answers_rep_lift|].
    destruct (own_answers m d l Hl). eapply answers_rep_bind; [done|]. eapply answers_rep_bind; [done|].
    eapply answers_rep_bind; [done|]. rewrite (own_parent m d l [d]) by (done || by constructor).
    apply answers_rep_lift.
  - apply Forall2_cons in Hls as [Hl Hls]. cbn [changes_walk_upto names_before].
    case_decide as Hd; simpl; [rewrite !app_nil_r; apply answers_rep_lift|].
    destruct (own_answers m d l Hl). eapply answers_rep_bind; [done|]. eapply answers_rep_bind; [done|].
    eapply answers_rep_bind; [done|]. rewrite (own_parent m d l (d :: ns)) by (done || by econstructor).
    assert (ns = p :: tail ns) as Hns by by inversion Hp. rewrite Hns. cbn [tail head]. rewrite <- Hns.
    specialize (IH ls (pos ++ [internal_triple_additions l]) (neg ++ [internal_triple_removals l]) fuel Hls ltac:(lia)).
    destruct (names_before upto ns) as [above|]; simpl; [|exact IH]. by rewrite <- !app_assoc in IH.
Qed.

(** The walk of [layer_changes] reads the same layer in every round. *)
Lemma changes_walk_answers m n l d ns ls pos neg fuel :
  own m n l → parents m d ns → Forall2 (own m) ns ls → length ns ≤ fuel →
  answers lq_rep m (changes_walk fuel n pos neg d)
    (Ok (pos ++ replicate (length ns) (internal_triple_additions l),
         neg ++ replicate (length ns) (internal_triple_removals l))).
Proof.
  intros Hn Hp. revert ls pos neg fuel. destruct (own_answers m n l Hn).
  induction Hp as [d Hw Hno|d p ns Hw Hpar Hp IH]; intros ls pos neg [|fuel] Hls Hfuel; simpl in Hfuel; try lia;
    destruct ls as [|l' ls]; try (by inversion Hls); apply Forall2_cons in Hls as [Hl Hls]; cbn [changes_walk].
  - eapply answers_rep_bind; [done|]. eapply answers_rep_bind; [done|].
    eapply answers_rep_bind; [apply (own_answers m d l' Hl)|].
    rewrite (own_parent m d l' [d]) by (done || by constructor). apply answers_rep_lift.
  - eapply answers_rep_bind; [done|]. eapply answers_rep_bind; [done|].
    eapply answers_rep_bind; [apply (own_answers m d l' Hl)|].
    rewrite (own_parent m d l' (d :: ns)) by (done || by econstructor).
    assert (ns = p :: tail ns) as Hns by by inversion Hp. rewrite Hns. cbn [tail head]. rewrite <- Hns.
    specialize (IH ls (pos ++ [internal_triple_additions l]) (neg ++ [internal_triple_removals l]) fuel Hls ltac:(lia)).
    by rewrite <- !app_assoc in IH.
Qed.

Lemma layer_changes_answers m d l ns ls fuel :
  own m d l → parents m d ns → Forall2 (own m) ns ls → length ns ≤ fuel →
  answers lq_rep m (layer_changes fuel d)
    (Ok (ChangeMerge.from_parts (replicate (length ns) (internal_triple_additions l))
                                (replicate (length ns) (internal_triple_removals l)))).
Proof.
  intros Hl Hp Hls Hfuel.
  eapply answers_rep_bind; [exact (changes_walk_answers m d l d ns ls [] [] fuel Hl Hp Hls Hfuel)|].
  rewrite !app_nil_l, !reverse_replicate. apply answers_rep_lift.
Qed.
End walk.

(** The order of the layers does not matter for their changes. *)
Lemma occurrences_reverse Ls t : occurrences (reverse Ls) t = occurrences Ls t.
Proof. unfold occurrences. by rewrite reverse_Permutation. Qed.

Lemma total_reverse Ls : total (reverse Ls) = total Ls.
Proof. unfold total. by rewrite reverse_Permutation. Qed.

Lemma total_take k Ls : total (take k Ls) ≤ total Ls.
Proof. rewrite <- (take_drop k Ls) at 2. unfold total. rewrite concat_app, length_app. lia. Qed.

Lemma change_inv_reverse Ps Ns : change_inv Ps Ns → change_inv (reverse Ps) (reverse Ns).
Proof.
  intros [Hp Hn Hd]. split; [by apply Forall_reverse..|]. intros t. by rewrite !occurrences_reverse.
Qed.

Lemma changed_reverse Ps Ns c : changed (reverse Ps) (reverse Ns) c ↔ changed Ps Ns c.
Proof. unfold changed. by rewrite !occurrences_reverse. Qed.

Section disk_changes.
Context `{SuccinctLaws} `{!SuccinctParse} {W : Type} `{!LayerQueries W, !LayerQueriesLaws W}.

Lemma layer_changes_upto_query m d ns ls st upto above fuel :
  disk_stack m d ns ls st → names_before upto ns = Some above → length ns ≤ fuel → stack_size st < fuel →
  ∃ changes, answers lq_rep m (layer_changes_upto fuel d upto) (Ok changes) ∧
  ∃ cs, collect (change_next fuel) fuel changes = Ok cs ∧ triples_sorted spo cs.*2 ∧
    ∀ c t, (c, t) ∈ cs ↔
      (exists_in st t, exists_in (drop (length above) st) t) =
      match c with Addition => (true, false) | Removal => (false, true) end.
Proof.
  intros [Hp Hls Hst Hwf] Hup Hfuel Hsize.
  pose proof (changes_walk_upto_answers m d ns ls upto [] [] fuel Hp Hls Hfuel) as Hwalk. rewrite Hup in Hwalk.
  eexists. split; [eapply answers_rep_bind; [exact Hwalk|]; apply answers_rep_lift|]. cbn [app].
  set (k := length above). destruct (layers_sorted _ _ Hst) as [Hs1 Hs2].
  destruct (stack_changes (take k st.*1) (drop k st.*1) (take k st.*2) (drop k st.*2)) as [Hci Hch];
    [by rewrite !length_take, !length_fmap|by rewrite !take_drop|by apply Forall_take..|].
  rewrite !take_drop in Hch. pose proof (Forall2_take _ _ _ k Hst) as Htop.
  destruct (change_collect fuel fuel (reverse (take k st.*1)) (reverse (take k st.*2))
    {| positives := reverse (internal_triple_additions <$> take k ls);
       negatives := reverse (internal_triple_removals <$> take k ls) |}) as (cs & Hcs & Hsort & Hel).
  - split; simpl positives; simpl negatives; apply Forall2_reverse;
      [rewrite <- (fmap_take fst)|rewrite <- (fmap_take snd)];
      apply (iter_yields_fmap _ _ (take k ls)); try done; [apply additions_yield|apply removals_yield].
  - by apply change_inv_reverse.
  - unfold stack_size in Hsize. rewrite !total_reverse. pose proof (total_take k st.*1). pose proof (total_take k st.*2). lia.
  - unfold stack_size in Hsize. rewrite !total_reverse. pose proof (total_take k st.*1). pose proof (total_take k st.*2). lia.
  - exists cs. split_and!; [exact Hcs|done|]. intros c t. rewrite Hel, changed_reverse, Hch.
    unfold exists_in. by rewrite !fmap_drop.
Qed.

(** A name that is not among the ancestors is reported. *)
Lemma layer_changes_upto_missing m d ns ls upto fuel :
  parents m d ns → Forall2 (own m) ns ls → names_before upto ns = None → length ns ≤ fuel →
  answers lq_rep m (layer_changes_upto fuel d upto) (Err NotFound).
Proof.
  intros Hp Hls Hup Hfuel. pose proof (changes_walk_upto_answers m d ns ls upto [] [] fuel Hp Hls Hfuel) as Hwalk.
  rewrite Hup in Hwalk. intros w Hw. destruct (Hwalk w Hw) as (w' & Heq & Hw'). exists w'. split; [|done].
  unfold layer_changes_upto. by rewrite (io_bind_Err _ _ _ _ _ Heq).
Qed.
End disk_changes.
