(* ===== verification/Delta.v ===== *)
(** Rollups ([src/storage/delta.rs]): a layer that stands for a whole stack of layers, or
    for the part of it above another layer. The dictionaries are merged, the id maps are
    constructed, and the triples are those that exist, or the changes. As in
    [FileBuilder], what is written is represented by the layer that is read back. *)

From S2P Require Import Prelude Names Text LabelSpec Consts LayerFiles LayerFileSpec Succinct LayerTypes Order Nested SubjectIterator LayerLookup ObjectIterator TripleBuilder SuccinctBuild SuccinctMerge IndexBuilder StackMerge ChangeMerge IdMap InternalLayer LayerIds FileBuilder IdMapBuild LayerMaps StoreQueries.

Section delta.
Context `{BuildOps, !MergeOps}.

(** ** Dictionaries and id maps *)

Record RolledDictionaries := {
  rd_dictionaries : Dictionaries;
  rd_node_value_idmap : IdMap;
  rd_predicate_idmap : IdMap;
}.

Definition merge_dictionaries (node_dicts predicate_dicts : list StringDict) (value_dicts : list TypedDict) : Dictionaries := {|
  d_nodes := merge_string_dictionaries node_dicts;
  d_predicates := merge_string_dictionaries predicate_dicts;
  d_values := merge_typed_dictionaries value_dicts |}.

Definition dictionary_rollup (layer : InternalLayer) : outcome RolledDictionaries :=
  let layers := immediate_layers layer in
  let d := merge_dictionaries (node_dictionary <$> layers) (predicate_dictionary <$> layers) (value_dictionary <$> layers) in
  '(node_value_idmap, predicate_idmap) ← memory_construct_idmaps layer;
  Ok {| rd_dictionaries := d; rd_node_value_idmap := node_value_idmap; rd_predicate_idmap := predicate_idmap |}.

Definition memory_dictionary_rollup_upto (layer : InternalLayer) (upto : name) : outcome RolledDictionaries :=
  layers ← immediate_layers_upto layer upto;
  let d := merge_dictionaries (node_dictionary <$> layers) (predicate_dictionary <$> layers) (value_dictionary <$> layers) in
  '(node_value_idmap, predicate_idmap) ← memory_construct_idmaps_upto layer upto;
  Ok {| rd_dictionaries := d; rd_node_value_idmap := node_value_idmap; rd_predicate_idmap := predicate_idmap |}.

(** ** A rollup of everything *)

(** [limit] and [stored] are those of [base_finalize]; [fuel] is that of [triples]. *)
Definition delta_rollup (fuel limit : nat) (n : name) (stored : nat) (layer : InternalLayer) : outcome InternalLayer :=
  rd ← dictionary_rollup layer;
  ts ← triples fuel layer;
  builder ← add_id_triples (tb_new false) ts;
  let '(subjects, s_p, sp_o) := tb_finalize builder in
  '(o_ps, objects, wt) ← build_indexes limit s_p sp_o false;
  let d := rd_dictionaries rd in
  Ok (Base {|
    bl_name := n;
    bl_node_dictionary := d_nodes d; bl_predicate_dictionary := d_predicates d; bl_value_dictionary := d_values d;
    bl_node_value_idmap := rd_node_value_idmap rd; bl_predicate_idmap := rd_predicate_idmap rd;
    bl_subjects := subjects; bl_objects := objects;
    bl_s_p_adjacency_list := s_p; bl_sp_o_adjacency_list := sp_o; bl_o_ps_adjacency_list := o_ps;
    bl_predicate_wavelet_tree := wt;
    bl_stored_size := stored |}).

(** ** A rollup down to a layer *)

(** [filter(|(sort, _)| *sort == ..).map(|(_, t)| t)] *)
Definition of_sort (sort : TripleChange) (changes : list (TripleChange * IdTriple)) : list IdTriple :=
  snd <$> filter (λ c, c.1 = sort) changes.

(** The second half of the two functions below: the additions and the removals, and
    their indexes. The layer is read back as a child of [parent]. *)
Definition write_changes (limit : nat) (n : name) (stored : nat) (parent : InternalLayer) (rd : RolledDictionaries)
    (additions removals : list IdTriple) : outcome InternalLayer :=
  pos_builder ← add_id_triples (tb_new true) additions;
  neg_builder ← add_id_triples (tb_new true) removals;
  let '(pos_subjects, pos_s_p, pos_sp_o) := tb_finalize pos_builder in
  let '(neg_subjects, neg_s_p, neg_sp_o) := tb_finalize neg_builder in
  '(pos_o_ps, pos_objects, pos_wt) ← build_indexes limit pos_s_p pos_sp_o true;
  '(neg_o_ps, neg_objects, neg_wt) ← build_indexes limit neg_s_p neg_sp_o true;
  ps ← unwrap pos_subjects; po ← unwrap pos_objects;
  ns ← unwrap neg_subjects; no ← unwrap neg_objects;
  let d := rd_dictionaries rd in
  Ok (Child parent {|
    cl_name := n;
    cl_node_dictionary := d_nodes d; cl_predicate_dictionary := d_predicates d; cl_value_dictionary := d_values d;
    cl_node_value_idmap := rd_node_value_idmap rd; cl_predicate_idmap := rd_predicate_idmap rd;
    cl_parent_node_value_count := node_and_value_count parent;
    cl_parent_predicate_count := predicate_count parent;
    cl_pos_subjects := ps; cl_pos_objects := po;
    cl_pos_s_p_adjacency_list := pos_s_p; cl_pos_sp_o_adjacency_list := pos_sp_o; cl_pos_o_ps_adjacency_list := pos_o_ps;
    cl_neg_subjects := ns; cl_neg_objects := no;
    cl_neg_s_p_adjacency_list := neg_s_p; cl_neg_sp_o_adjacency_list := neg_sp_o; cl_neg_o_ps_adjacency_list := neg_o_ps;
    cl_pos_predicate_wavelet_tree := pos_wt; cl_neg_predicate_wavelet_tree := neg_wt;
    cl_stored_size := stored |}).

(** From a layer in memory down to [bound]; the changes are read twice. *)
Definition memory_delta_rollup_upto (fuel limit : nat) (n : name) (stored : nat) (parent layer : InternalLayer) (bound : name)
    : outcome InternalLayer :=
  rd ← memory_dictionary_rollup_upto layer bound;
  it ← unwrap (change_stack_from_layer layer bound);
  changes ← collect (change_next fuel) fuel it;
  write_changes limit n stored parent rd (of_sort Addition changes) (of_sort Removal changes).

(** The parents of [l] in memory, as long as they are among [disk_layer_names]. *)
Fixpoint bound_walk (disk_layer_names : list name) (upto : name) (l : InternalLayer) (parents : list InternalLayer) : name :=
  match parents with
  | [] => layer_name l
  | parent :: parents =>
      if decide (layer_name parent = upto) then upto
      else
        match list_find (λ n, n = layer_name parent) disk_layer_names with
        | Some (ix, _) => bound_walk (take ix disk_layer_names) upto parent parents
        | None => layer_name l
        end
  end.

Section store.
Context {W : Type} `{!LayerQueries W}.

Definition safe_upto_bound (fuel : nat) (layer : InternalLayer) (upto : name) : io W name :=
  if decide (layer_name layer = upto) then mret upto
  else
    disk_layer_names ← retrieve_layer_stack_names_upto fuel (layer_name layer) upto;
    mret (bound_walk disk_layer_names upto layer (tail (chain layer))).

Definition imprecise_delta_rollup_upto (fuel limit : nat) (n : name) (stored : nat) (parent layer : InternalLayer) (upto : name)
    : io W InternalLayer :=
  bound ← safe_upto_bound fuel layer upto;
  lift (memory_delta_rollup_upto fuel limit n stored parent layer bound).

(** [walk_backwards_from_disk_upto!] with a getter whose result must be there; the
    result is reversed at the end. *)
Fixpoint from_disk_upto {A} (get : name → io W (option A)) (fuel : nat) (upto : name) (result : list A) (current : name)
    : io W (list A) :=
  match fuel with
  | O => lift NoFuel
  | Datatypes.S fuel =>
      if decide (current = upto) then mret (reverse result)
      else
        a ← get current; a ← lift (unwrap a);
        parent ← get_layer_parent_name current;
        match parent with
        | Some parent => from_disk_upto get fuel upto (result ++ [a]) parent
        | None => throw NotFound
        end
  end.

Definition get_node_dicts_from_disk (fuel : nat) (n upto : name) := from_disk_upto get_node_dictionary fuel upto [] n.
Definition get_predicate_dicts_from_disk (fuel : nat) (n upto : name) := from_disk_upto get_predicate_dictionary fuel upto [] n.
Definition get_value_dicts_from_disk (fuel : nat) (n upto : name) := from_disk_upto get_value_dictionary fuel upto [] n.
Definition get_node_value_idmaps_from_disk (fuel : nat) (n upto : name) := from_disk_upto get_node_value_idmap fuel upto [] n.
Definition get_predicate_idmaps_from_disk (fuel : nat) (n upto : name) := from_disk_upto get_predicate_idmap fuel upto [] n.

(** The maps of the predicates of the layers in memory are taken from
    [node_value_id_map], as the program does. *)
Definition dictionary_rollup_upto (fuel : nat) (layer : InternalLayer) (memory_upto upto : name) : io W RolledDictionaries :=
  disk_node_dicts ← get_node_dicts_from_disk fuel memory_upto upto;
  disk_predicate_dicts ← get_predicate_dicts_from_disk fuel memory_upto upto;
  disk_value_dicts ← get_value_dicts_from_disk fuel memory_upto upto;
  disk_node_value_idmaps ← get_node_value_idmaps_from_disk fuel memory_upto upto;
  disk_predicate_idmaps ← get_predicate_idmaps_from_disk fuel memory_upto upto;
  layers ← lift (immediate_layers_upto layer memory_upto);
  let node_dicts := disk_node_dicts ++ (node_dictionary <$> layers) in
  let predicate_dicts := disk_predicate_dicts ++ (predicate_dictionary <$> layers) in
  let value_dicts := disk_value_dicts ++ (value_dictionary <$> layers) in
  let node_value_idmaps := disk_node_value_idmaps ++ (node_value_id_map <$> layers) in
  let predicate_idmaps := disk_predicate_idmaps ++ (node_value_id_map <$> layers) in
  let d := merge_dictionaries node_dicts predicate_dicts value_dicts in
  '(node_value_idmap, predicate_idmap) ←
    lift (construct_idmaps_from_structures node_dicts predicate_dicts value_dicts node_value_idmaps predicate_idmaps);
  mret {| rd_dictionaries := d; rd_node_value_idmap := node_value_idmap; rd_predicate_idmap := predicate_idmap |}.

Definition delta_rollup_upto (fuel limit : nat) (n : name) (stored : nat) (parent layer : InternalLayer) (upto : name)
    : io W InternalLayer :=
  bound ← safe_upto_bound fuel layer upto;
  rd ← dictionary_rollup_upto fuel layer bound upto;
  disk_changes ← layer_changes_upto fuel bound upto;
  memory_changes ← lift (unwrap (change_stack_from_layer layer bound));
  let changes := merge_stacks [disk_changes; memory_changes] in
  cs ← lift (collect (change_next fuel) fuel changes);
  lift (write_changes limit n stored parent rd (of_sort Addition cs) (of_sort Removal cs)).
End store.
End delta.
