(* ===== verification/DeltaSpec.v ===== *)
(** What a rollup is: a layer that stands for the layer it was made of. It knows the same
    entries by the same ids, the same triples exist, and it can be built upon. *)

From S2P Require Import Prelude Names Text LabelSpec Consts LayerFiles LayerFileSpec Succinct LayerTypes Order Nested SubjectIterator LayerLookup ObjectIterator PredicateIterator TripleBuilder SuccinctBuild SuccinctMerge IndexBuilder StackMerge ChangeMerge IdMap InternalLayer LayerIds LayerQueries NewLayerIds FileBuilder FileBuilderSpec SimpleBuilder SimpleBuilderSpec CommitSteps CommitPlan CommitSpec IdMapBuild IdMapSpec RollupIds RollupLayer LayerMaps StoreQueries Delta.

(** ** Standing for a layer *)

Notation changes_stack := (list (list IdTriple * list IdTriple)).

Record stands_for `{SuccinctLaws} (l x : InternalLayer) (st st' : changes_stack) : Prop := {
  sf_good : layer_good (Some x) st';
  sf_entries e : entry_known (Some x) e = entry_known (Some l) e;
  sf_predicates p : predicate_known (Some x) p = predicate_known (Some l) p;
  sf_counts : nv_count (Some x) = nv_count (Some l) ∧ p_count (Some x) = p_count (Some l);
  sf_exists t : exists_in st' t = exists_in st t;
}.

Section answers.
Context `{SuccinctLaws} (l x : InternalLayer) (st st' : changes_stack).
Context (Hl : layer_good (Some l) st) (Hx : stands_for l x st st').

Lemma stands_for_value_triple t : value_triple_exists x t = value_triple_exists l t.
Proof.
  change (parent_has (Some x) t = parent_has (Some l) t).
  assert (∀ i, sees (Some x) t i ↔ sees (Some l) t i) as Hs.
  { intros i. unfold sees. by rewrite !(sf_entries _ _ _ _ Hx), (sf_predicates _ _ _ _ Hx). }
  pose proof (sf_good _ _ _ _ Hx) as Hgx.
  destruct (sees_cases (Some l) t) as [[i Hi]|Hno].
  - rewrite (parent_has_sees (Some l) st t i (lg_stack _ _ Hl) Hi).
    rewrite (parent_has_sees (Some x) st' t i (lg_stack _ _ Hgx)) by by apply Hs. by rewrite (sf_exists _ _ _ _ Hx).
  - rewrite !parent_has_unknown; [done|apply Hl|done|apply Hgx|]. intros i Hi%Hs. by destruct (Hno i).
Qed.

Lemma stands_for_ids t : value_triple_to_id x t = value_triple_to_id l t.
Proof.
  destruct (lg_ids _ _ Hl) as [Hwl Hdl], (lg_ids _ _ (sf_good _ _ _ _ Hx)) as [Hwx Hdx].
  assert (∀ i, value_triple_to_id x t = Ok (Some i) ↔ value_triple_to_id l t = Ok (Some i)) as Hi.
  { intros i. by rewrite !value_triple_known, !(sf_entries _ _ _ _ Hx), (sf_predicates _ _ _ _ Hx). }
  assert ((∃ i, value_triple_to_id l t = Ok (Some i)) ∨ ∀ i, value_triple_to_id l t ≠ Ok (Some i)) as [[i Hli]|Hli].
  { destruct (value_triple_to_id l t) as [[i|]| | |]; [left; by exists i|by right..]. }
  - rewrite Hli. by apply Hi.
  - rewrite !value_triple_unknown; [done|done|done|done|done|done|]. intros i Hri%Hi. by destruct (Hli i).
Qed.

Lemma stands_for_id_triple t : id_triple_exists x t = id_triple_exists l t.
Proof.
  unfold id_triple_exists. simpl.
  rewrite (layer_exists_query x st' t (lg_stack _ _ (sf_good _ _ _ _ Hx))), (layer_exists_query l st t (lg_stack _ _ Hl)).
  by rewrite (sf_exists _ _ _ _ Hx).
Qed.

Lemma stands_for_triples fuel : stack_size st < fuel → stack_size st' < fuel → triples fuel x = triples fuel l.
Proof.
  intros Hf Hf'. destruct (layer_triples_query x st' fuel) as (ts' & -> & Hs' & Hts'); [apply (sf_good _ _ _ _ Hx)|done|].
  destruct (layer_triples_query l st fuel) as (ts & -> & Hs & Hts); [apply Hl|done|]. f_equal.
  apply (triples_sorted_unique spo); [done|done|]. intros t. by rewrite Hts, Hts', (sf_exists _ _ _ _ Hx).
Qed.

Lemma stands_for_object id o : layer_id_object x id = Ok (Some o) ↔ layer_id_object l id = Ok (Some o).
Proof.
  pose proof (sf_good _ _ _ _ Hx) as Hgx. destruct (lg_ids _ _ Hl) as [Hwl Hdl], (lg_ids _ _ Hgx) as [Hwx Hdx].
  pose proof (sf_entries _ _ _ _ Hx o) as He. simpl in He. split; intros Hid.
  - apply id_object_found in Hid; [|done..]. rewrite He in Hid. by apply object_id_resolves in Hid as (_ & _ & ?).
  - apply id_object_found in Hid; [|done..]. rewrite <- He in Hid. by apply object_id_resolves in Hid as (_ & _ & ?).
Qed.
End answers.

Lemma list_filter_all {A} (P : A → Prop) `{∀ x, Decision (P x)} l : Forall P l → filter P l = l.
Proof. induction 1 as [|x l Hx Hl IH]; [done|]. by rewrite filter_cons_True, IH. Qed.

(** ** Any layer with the merged dictionaries and the same triples *)
Section stands.
Context `{BuildLaws, !MergeOps, !MergeLaws}.

Lemma merged_dicts_sorted ls rest x l :
  ids_ok (Some l) → chain l = reverse ls ++ rest → Forall dicts_sorted ls → rolled_layer ls rest x → dicts_sorted x.
Proof.
  intros [[Hn Hp] [Hdo Hdp]] Hchain Hs Hx. rewrite Hchain in *.
  destruct (entries_NoDup ls rest Hdo Hdp) as (Hnn & _ & Hpn). unfold dicts_sorted.
  rewrite (rl_nodes _ _ _ Hx), (rl_predicates _ _ _ Hx). unfold merged_nodes, merged_predicates.
  split; apply (merged_string_dict ls); try done; (eapply Forall_impl; [exact Hs|]); by intros ? [? ?].
Qed.

Lemma rolled_stands_for l st ls rest x st' :
  layer_good (Some l) st → chain l = reverse ls ++ rest → rolled_layer ls rest x →
  stack_holds x st' → (∀ t, exists_in st' t = exists_in st t) → stands_for l x st st'.
Proof.
  intros [Hok Hst Hr Hds] Hchain Hx Hst' Hex. simpl in Hds. rewrite Hchain in Hds. apply Forall_app in Hds as [Hls Hrest].
  rewrite Forall_reverse in Hls. destruct (rolled_counts l ls rest x Hok Hchain Hls Hx) as [Hcn Hcp].
  split; [|by eapply rolled_entry_known|by eapply rolled_predicate_known|done|done].
  split; [by eapply rolled_ids|done| |].
  - intros t Ht. rewrite Hcn, Hcp. apply Hr. by rewrite <- Hex.
  - simpl. rewrite (rl_chain _ _ _ Hx). constructor; [by eapply merged_dicts_sorted|done].
Qed.

Lemma immediate_layers_reverse l : chain l = reverse (immediate_layers l) ++ [].
Proof. unfold immediate_layers. by rewrite reverse_involutive, app_nil_r. Qed.

(** A layer, and the layer that is used in place of another. *)
Definition layer_or_rollup (r x : InternalLayer) : Prop := x = r ∨ ∃ original parent, x = Rollup r original parent.

Lemma delta_rollup_spec fuel limit n stored l st :
  layer_good (Some l) st → stack_size st < fuel →
  ∃ r ts, delta_rollup fuel limit n stored l = Ok r ∧ layer_name r = n ∧ immediate_parent r = None ∧
    triples fuel l = Ok ts ∧ ∀ x, layer_or_rollup r x → stands_for l x st [(ts, [])].
Proof.
  intros Hl Hf. pose proof Hl as [Hok Hst _ Hds]. pose proof (immediate_layers_reverse l) as Hchain.
  pose proof Hok as [[Hn Hp] [Hdo Hdp]]. pose proof Hds as Hs. simpl in Hs. rewrite Hchain in Hn, Hp, Hdo, Hdp, Hs.
  rewrite app_nil_r, Forall_reverse in Hs.
  destruct (construct_spec (immediate_layers l) [] Hn Hp Hdo Hdp Hs) as (nps & vps & pps & Hc).
  destruct (layer_triples_query l st fuel Hst Hf) as (ts & Hts & Hsorted & Hmem).
  assert (Forall triple_pos ts) as Hpos.
  { apply Forall_forall. intros t Ht%Hmem. by apply (exists_in_pos _ _ _ (sh_layers _ _ Hst)). }
  destruct (part_built limit false ts) as (b & subjects & s_p & sp_o & o_ps & objects & wt & Hb & Hfin & Hix & Hpart & _).
  { by apply sorted_filter. }
  rewrite (list_filter_all _ ts Hpos) in Hpart.
  unfold delta_rollup, dictionary_rollup, memory_construct_idmaps. rewrite (cn_run _ _ _ _ _ Hc). cbn [mbind outcome_bind].
  rewrite Hts. cbn [mbind outcome_bind]. rewrite Hb. cbn [mbind outcome_bind]. rewrite Hfin, Hix. cbn [mbind outcome_bind].
  eexists _, ts. split_and!; [reflexivity|done|done|done|].
  assert (∀ t, exists_in [(ts, [])] t = exists_in st t) as Hex.
  { intros t. rewrite exists_in_cons. cbn [fst snd]. specialize (Hmem t).
    destruct (exists_in st t).
    - by rewrite bool_decide_true by by apply Hmem.
    - by rewrite (bool_decide_false (t ∈ ts)) by by (intros Hin; apply Hmem in Hin). }
  intros x Hx. apply (rolled_stands_for l st (immediate_layers l) []); [done|done| | |exact Hex].
  - destruct Hx as [->|(o & p & ->)]; (split; [done|done|done|done|exact (cn_run _ _ _ _ _ Hc)|done|done]).
  - split.
    + destruct Hx as [->|(o & p & ->)]; (constructor; [|constructor]); (split; [exact Hpart|done]).
    + apply stack_wf_cons; [done|done|]. by intros t ?%not_elem_of_nil.
Qed.
End stands.

(** ** Chains *)
Section chains.
Context `{SuccinctOps}.

Lemma chain_tail l : tail (chain l) = match immediate_parent l with Some p => chain p | None => [] end.
Proof. induction l as [b|p IH c|i IH o op]; [done|done|]. simpl. exact IH. Qed.

Lemma chain_suffix l above b below : chain l = above ++ b :: below → chain b = b :: below.
Proof.
  revert l. induction above as [|a above IH]; intros l Hc; destruct (chain_head l) as [ls Hl].
  - rewrite Hc in Hl. simpl in Hl. injection Hl as <- _. done.
  - pose proof (chain_tail l) as Ht. rewrite Hc in Ht. simpl in Ht.
    destruct (immediate_parent l) as [p|]; [by apply (IH p)|by destruct above].
Qed.

Lemma layers_before_app upto above boundary below :
  layer_name boundary = upto → Forall (λ a, layer_name a ≠ upto) above →
  layers_before upto (above ++ boundary :: below) = Some above.
Proof.
  intros Hb. induction 1 as [|a above Ha Hall IH]; simpl; [by rewrite decide_True|]. by rewrite decide_False, IH.
Qed.
End chains.

(** ** Changes *)
Lemma stack_wf_drop k : ∀ Ps Ns, stack_wf Ps Ns → stack_wf (drop k Ps) (drop k Ns).
Proof.
  induction k as [|k IH]; [done|]. intros [|P Ps] [|N Ns] Hwf; simpl; [done|by intros t|by intros t; destruct (drop k Ps)|].
  apply IH. intros t. specialize (Hwf t). simpl in Hwf. by apply andb_true_iff in Hwf as [_ ?].
Qed.

Section changes.
Context `{BuildLaws, !MergeOps, !MergeLaws}.

Lemma elem_of_sort c cs t : t ∈ of_sort c cs ↔ (c, t) ∈ cs.
Proof.
  unfold of_sort. rewrite list_elem_of_fmap. split.
  - intros ([c' t'] & -> & [<- Hin]%list_elem_of_filter). done.
  - intros Hin. exists (c, t). split; [done|]. by apply list_elem_of_filter.
Qed.

Lemma of_sort_sorted c cs : triples_sorted spo cs.*2 → triples_sorted spo (of_sort c cs).
Proof.
  induction cs as [|[c' t] cs IH]; simpl; [done|]. intros [Hs Hall]%StronglySorted_inv. unfold of_sort.
  rewrite filter_cons. case_decide; [|by apply IH]. constructor; [by apply IH|].
  apply Forall_forall. intros t' Ht'%elem_of_sort. rewrite Forall_forall in Hall. apply Hall.
  by apply (list_elem_of_fmap_2 snd cs (c, t')).
Qed.

(** The changes from one set of triples to another. *)
Definition changes_between (st1 st2 : changes_stack) (cs : list (TripleChange * IdTriple)) : Prop :=
  triples_sorted spo cs.*2 ∧
  ∀ c t, (c, t) ∈ cs ↔ (exists_in st1 t, exists_in st2 t) = match c with Addition => (true, false) | Removal => (false, true) end.

Lemma changes_applied st1 st2 cs t :
  changes_between st1 st2 cs → exists_in ((of_sort Addition cs, of_sort Removal cs) :: st2) t = exists_in st1 t.
Proof.
  intros [_ Hcs]. rewrite exists_in_cons. cbn [fst snd].
  pose proof (Hcs Addition t) as Ha. pose proof (Hcs Removal t) as Hr. rewrite <- elem_of_sort in Ha, Hr.
  destruct (exists_in st1 t), (exists_in st2 t); repeat case_bool_decide; naive_solver.
Qed.

Lemma write_changes_spec limit n stored parent rd st st2 cs :
  stack_holds parent st2 → changes_between st st2 cs → (∀ t, exists_in st t = true → triple_pos t) →
  ∃ r, write_changes limit n stored parent rd (of_sort Addition cs) (of_sort Removal cs) = Ok r ∧
    layer_name r = n ∧ immediate_parent r = Some parent ∧
    (∀ x, layer_or_rollup r x → chain x = x :: chain parent ∧
       node_dictionary x = d_nodes (rd_dictionaries rd) ∧ predicate_dictionary x = d_predicates (rd_dictionaries rd) ∧
       value_dictionary x = d_values (rd_dictionaries rd) ∧
       node_value_id_map x = rd_node_value_idmap rd ∧ predicate_id_map x = rd_predicate_idmap rd ∧
       parent_node_value_count x = node_and_value_count parent ∧ parent_predicate_count x = predicate_count parent ∧
       stack_holds x ((of_sort Addition cs, of_sort Removal cs) :: st2)).
Proof.
  intros [Hall Hwf] [Hs Hcs] Hpos.
  assert (∀ c, Forall triple_pos (of_sort c cs)) as Hp.
  { intros c. apply Forall_forall. intros t Ht%elem_of_sort%Hcs. destruct c; injection Ht as Ht1 Ht2; [by apply Hpos|].
    by apply (exists_in_pos _ _ _ Hall). }
  assert (∀ c, triples_sorted spo (filter triple_pos (of_sort c cs))) as Hsc by (intros c; by apply sorted_filter, of_sort_sorted).
  destruct (part_built limit true _ (Hsc Addition)) as (pb & ps & ps_p & psp_o & po_ps & po & pwt & Hpa & Hpf & Hpi & Hph & Hps & Hpo).
  destruct (part_built limit true _ (Hsc Removal)) as (nb & ns & ns_p & nsp_o & no_ps & no & nwt & Hna & Hnf & Hni & Hnh & Hns & Hno).
  rewrite (list_filter_all _ _ (Hp Addition)) in Hph. rewrite (list_filter_all _ _ (Hp Removal)) in Hnh.
  unfold write_changes. rewrite Hpa. cbn [mbind outcome_bind]. rewrite Hna. cbn [mbind outcome_bind].
  rewrite Hpf, Hnf, Hpi. cbn [mbind outcome_bind]. rewrite Hni. cbn [mbind outcome_bind].
  destruct (proj2 Hps eq_refl) as [ps' ->], (proj2 Hpo eq_refl) as [po' ->],
    (proj2 Hns eq_refl) as [ns' ->], (proj2 Hno eq_refl) as [no' ->].
  cbn [unwrap mbind outcome_bind]. eexists. split_and!; [reflexivity|done|done|].
  intros x Hx. split_and!; try (by destruct Hx as [->|(o & p & ->)]).
  split; [destruct Hx as [->|(o & p & ->)]; by (constructor; [split; [exact Hph|exact Hnh]|exact Hall])|].
  apply stack_wf_cons; [done| |]; intros t Ht%elem_of_sort%Hcs; by injection Ht.
Qed.

Lemma memory_rollup_spec fuel limit n stored l st above boundary below :
  layer_good (Some l) st → stack_size st < fuel → chain l = above ++ boundary :: below → above ≠ [] →
  Forall (λ a, layer_name a ≠ layer_name boundary) above →
  ∃ r changes, memory_delta_rollup_upto fuel limit n stored boundary l (layer_name boundary) = Ok r ∧
    layer_name r = n ∧ immediate_parent r = Some boundary ∧ stack_holds boundary (drop (length above) st) ∧
    ∀ x, layer_or_rollup r x → stands_for l x st (changes :: drop (length above) st).
Proof.
  intros Hl Hf Hchain Hne Hnames. pose proof Hl as [Hok [Hall Hwf] Hrange Hds].
  pose proof (chain_suffix _ _ _ _ Hchain) as Hcb.
  destruct above as [|l' above]; [done|]. assert (l' = l) as -> by (destruct (chain_head l) as [? Hh]; rewrite Hchain in Hh; by injection Hh).
  pose proof (layers_before_app _ _ boundary below eq_refl Hnames) as Hbefore.
  apply Forall_cons in Hnames as Hnames'. destruct Hnames' as [Hnl Hnames'].
  assert (change_stack_from_layer l (layer_name boundary) =
    Some {| positives := internal_triple_additions <$> l :: above; negatives := internal_triple_removals <$> l :: above |}) as Hit.
  { unfold change_stack_from_layer. rewrite Hchain. simpl. by rewrite (layers_before_app _ _ boundary below eq_refl Hnames'). }
  set (up := l :: above) in *. set (ls := reverse up).
  assert (immediate_layers_upto l (layer_name boundary) = Ok ls) as Hup.
  { unfold immediate_layers_upto. rewrite decide_False by done. by rewrite Hchain, Hbefore. }
  assert (chain l = reverse ls ++ chain boundary) as Hchain'.
  { unfold ls. by rewrite reverse_involutive, Hcb. }
  pose proof Hok as [[Hn Hp] [Hdo Hdp]]. pose proof Hds as Hs. simpl in Hs. rewrite Hchain' in Hn, Hp, Hdo, Hdp, Hs, Hall.
  apply Forall_app in Hs as [Hs _]. rewrite Forall_reverse in Hs.
  destruct (construct_spec ls (chain boundary) Hn Hp Hdo Hdp Hs) as (nps & vps & pps & Hc).
  assert (length (reverse ls) = length up) as Hlen by (unfold ls; by rewrite reverse_involutive).
  destruct (layers_above_changes (reverse ls) (chain boundary) st fuel Hall Hwf Hf) as (cs & Hcs & Hcb1 & Hcb2).
  rewrite Hlen in Hcb2. assert (reverse ls = up) as Hrev by (unfold ls; by rewrite reverse_involutive). rewrite Hrev in Hcs.
  unfold memory_delta_rollup_upto, memory_dictionary_rollup_upto, memory_construct_idmaps_upto.
  rewrite Hup. cbn [mbind outcome_bind]. rewrite (cn_run _ _ _ _ _ Hc). cbn [mbind outcome_bind].
  rewrite Hit. cbn [unwrap mbind outcome_bind]. rewrite Hcs. cbn [mbind outcome_bind].
  assert (stack_holds boundary (drop (length up) st)) as Hstb.
  { split.
    - rewrite <- Hlen. apply Forall2_app_inv_l in Hall as (s1 & s2 & H1' & H2' & ->).
      rewrite (Forall2_length _ _ _ H1'). by rewrite drop_app_length.
    - rewrite !fmap_drop. by apply stack_wf_drop. }
  match goal with |- context [write_changes _ _ _ _ ?rd _ _] => set (rd' := rd) end.
  destruct (write_changes_spec limit n stored boundary rd' st (drop (length up) st) cs Hstb) as (r & Hr & Hrn & Hrp & Hrx);
    [by split|by intros t; apply (exists_in_pos _ _ _ Hall)|].
  exists r, (of_sort Addition cs, of_sort Removal cs). split_and!; [done|done|done|done|]. intros x Hx.
  destruct (Hrx x Hx) as (Hxc & Hxn & Hxp & Hxv & Hxm & Hxq & Hxnc & Hxpc & Hxs).
  apply (rolled_stands_for l st ls (chain boundary)); [done|done| |done|].
  - split; [done|done|done|done| | |].
    + rewrite Hxm, Hxq. exact (cn_run _ _ _ _ _ Hc).
    + rewrite Hxnc. apply (numbered_total _ _ node_value_id_map). by apply numbered_app in Hn.
    + rewrite Hxpc. apply (numbered_total _ _ predicate_id_map). by apply numbered_app in Hp.
  - intros t. apply changes_applied. by split.
Qed.
End changes.
