(* ===== verification/RollupHistory.v ===== *)
(** Histories with rollups: between sessions the layer may be replaced by a rollup of all
    of it, or of the part above one of the layers below, as loading it does once the
    rollup is registered. What it holds stays what the sessions made. *)

From S2P Require Import Prelude Names Text LabelSpec Consts LayerFiles LayerFileSpec Succinct LayerTypes Order Nested SubjectIterator LayerLookup ObjectIterator PredicateIterator TripleBuilder SuccinctBuild SuccinctMerge IndexBuilder StackMerge ChangeMerge IdMap InternalLayer LayerIds LayerQueries NewLayerIds FileBuilder FileBuilderSpec SimpleBuilder SimpleBuilderSpec CommitSteps CommitPlan CommitSpec CommitHistory IdMapBuild RollupIds RollupLayer Delta DeltaSpec.

Section rollup_history.
Context `{BuildLaws, !MergeOps, !MergeLaws}.

Inductive event :=
  | Session (s : session)
  | RollUp (rollup : name) (stored : nat)
  | RollUpTo (rollup : name) (stored : nat) (upto : name).

(** Enough for the iterators over a layer: its additions and removals, and one. *)
Definition rollup_fuel (l : InternalLayer) : outcome nat :=
  a ← layer_triple_addition_count l; r ← layer_triple_removal_count l; Ok (S (a + r)).

Definition as_rollup (l r : InternalLayer) : InternalLayer := Rollup r (layer_name l) (parent_name l).

Definition roll_up (limit : nat) (n : name) (stored : nat) (l : InternalLayer) : outcome InternalLayer :=
  fuel ← rollup_fuel l; r ← delta_rollup fuel limit n stored l; Ok (as_rollup l r).

(** The layer with a name, below [l]. *)
Definition below (upto : name) (l : InternalLayer) : option InternalLayer :=
  if decide (layer_name l = upto) then None else snd <$> list_find (λ b, layer_name b = upto) (chain l).

Definition roll_up_to (limit : nat) (n : name) (stored : nat) (upto : name) (l : InternalLayer) : outcome InternalLayer :=
  match below upto l with
  | None => Ok l
  | Some boundary =>
      fuel ← rollup_fuel l;
      r ← memory_delta_rollup_upto fuel limit n stored boundary l upto;
      Ok (as_rollup l r)
  end.

Definition run_event (limit : nat) (parent : option InternalLayer) (e : event) : outcome (option InternalLayer) :=
  match e, parent with
  | Session s, _ => l ← build_session limit (se_stored s) (se_name s) parent (call_op <$> se_calls s); Ok (Some l)
  | _, None => Ok None
  | RollUp n stored, Some l => l ← roll_up limit n stored l; Ok (Some l)
  | RollUpTo n stored upto, Some l => l ← roll_up_to limit n stored upto l; Ok (Some l)
  end.

Fixpoint run_events (limit : nat) (parent : option InternalLayer) (events : list event) : outcome (option InternalLayer) :=
  match events with
  | [] => Ok parent
  | e :: events => l ← run_event limit parent e; run_events limit l events
  end.

Definition apply_event (S : gset ValueTriple) (e : event) : gset ValueTriple :=
  match e with Session s => apply_session S s | _ => S end.

Lemma rollup_fuel_spec l st : stack_holds l st → ∃ fuel, rollup_fuel l = Ok fuel ∧ stack_size st < fuel.
Proof.
  intros Hst. destruct (layer_counts_query l st Hst) as [Ha Hr]. unfold rollup_fuel. rewrite Ha. cbn [mbind outcome_bind].
  rewrite Hr. cbn [mbind outcome_bind]. eexists. split; [done|]. unfold stack_size. lia.
Qed.

Lemma stands_for_contents l x st st' S :
  layer_good (Some l) st → stands_for l x st st' → contents_are (Some l) S → contents_are (Some x) S.
Proof.
  intros Hl Hx Hc vt. rewrite <- Hc. exact (stands_for_value_triple l x st st' Hl Hx vt).
Qed.

Lemma roll_up_spec limit n stored l st :
  layer_good (Some l) st → ∃ x st', roll_up limit n stored l = Ok x ∧ stands_for l x st st'.
Proof.
  intros Hl. destruct (rollup_fuel_spec l st (lg_stack _ _ Hl)) as (fuel & Hf & Hlt). unfold roll_up. rewrite Hf.
  cbn [mbind outcome_bind]. destruct (delta_rollup_spec fuel limit n stored l st Hl Hlt) as (r & ts & -> & _ & _ & _ & Hx).
  cbn [mbind outcome_bind]. eexists _, _. split; [done|]. apply Hx. right. eauto.
Qed.

Lemma below_spec upto l b : below upto l = Some b →
  ∃ above ls, chain l = above ++ b :: ls ∧ above ≠ [] ∧ layer_name b = upto ∧ Forall (λ a, layer_name a ≠ upto) above.
Proof.
  unfold below. case_decide as Hne; [done|]. intros ([i b'] & (Hi & Hb & Hbefore)%list_find_Some & ->)%fmap_Some. simpl.
  exists (take i (chain l)), (drop (S i) (chain l)). split_and!; [by rewrite take_drop_middle| |done|].
  - destruct (chain_head l) as [ls Hl]. rewrite Hl in Hi |- *. destruct i as [|i]; [by simplify_eq/=|done].
  - apply Forall_forall. intros a [j Hj]%list_elem_of_lookup. apply lookup_take_Some in Hj as [Hj Hlt]. by eapply Hbefore.
Qed.

Lemma roll_up_to_spec limit n stored upto l st :
  layer_good (Some l) st → ∃ x st', roll_up_to limit n stored upto l = Ok x ∧ layer_good (Some x) st' ∧
    ∀ S, contents_are (Some l) S → contents_are (Some x) S.
Proof.
  intros Hl. unfold roll_up_to. destruct (below upto l) as [b|] eqn:Hb; [|by exists l, st].
  destruct (below_spec _ _ _ Hb) as (above & ls & Hc & Hne & <- & Hnames).
  destruct (rollup_fuel_spec l st (lg_stack _ _ Hl)) as (fuel & -> & Hlt). cbn [mbind outcome_bind].
  destruct (memory_rollup_spec fuel limit n stored l st above b ls Hl Hlt Hc Hne Hnames) as (r & changes & -> & _ & _ & _ & Hx).
  cbn [mbind outcome_bind]. assert (stands_for l (as_rollup l r) st (changes :: drop (length above) st)) as Hs by (apply Hx; right; eauto).
  eexists _, _. split_and!; [done|apply Hs|]. intros S. by eapply stands_for_contents.
Qed.

Lemma run_event_spec limit parent st S e :
  layer_good parent st → contents_are parent S →
  ∃ l st', run_event limit parent e = Ok l ∧ layer_good l st' ∧ contents_are l (apply_event S e).
Proof.
  intros Hg Hc. destruct e as [s|n stored|n stored upto]; simpl.
  - destruct (session_exact limit parent st S s Hg Hc) as (l & changes & -> & Hg' & Hc'). by eexists _, _.
  - destruct parent as [l|]; [|by eexists _, _].
    destruct (roll_up_spec limit n stored l st Hg) as (x & st' & -> & Hx). eexists _, _. split; [done|].
    split; [apply Hx|by eapply stands_for_contents].
  - destruct parent as [l|]; [|by eexists _, _].
    destruct (roll_up_to_spec limit n stored upto l st Hg) as (x & st' & -> & Hx & Hcx). eexists _, _. split; [done|].
    split; [exact Hx|by apply Hcx].
Qed.

Lemma run_events_spec limit events : ∀ parent st S,
  layer_good parent st → contents_are parent S →
  ∃ l st', run_events limit parent events = Ok l ∧ layer_good l st' ∧ contents_are l (foldl apply_event S events).
Proof.
  induction events as [|e events IH]; intros parent st S Hg Hc; [by exists parent, st|].
  destruct (run_event_spec limit parent st S e Hg Hc) as (l & st' & Hr & Hg' & Hc').
  destruct (IH l st' _ Hg' Hc') as (l' & st'' & Hr' & Hg'' & Hc''). exists l', st''. simpl. by rewrite Hr.
Qed.
End rollup_history.
