(* ===== verification/CachedStore.v ===== *)
(** [CachedLayerStore] of [src/storage/cache.rs]: a layer store whose queries are
    answered from the cache of loaded layers where they can be. It keeps the laws
    of the store it wraps. *)

From S2P Require Import Prelude Names Text LabelSpec Consts LayerFiles LayerFileSpec Succinct LayerTypes Nested SubjectIterator LayerLookup ObjectIterator PredicateIterator StackMerge ChangeMerge IdMap InternalLayer LayerCache LayerIds LayerMaps LayerLoad StoreQueries StoreQuerySpec.

Section cached.
Context `{SuccinctOps} {W C : Type} `{!LayerQueries W, !LayerCache C}.

(** [if let Some(cached) = self.cache.get_layer_from_cache(..)], then, unless it
    is a rollup, the answer of the cached layer, and else that of [inner]. *)
Definition from_cache {A} (n : name) (answer : InternalLayer → outcome A) (inner : io W A) : io (W * C) A :=
  cached ← on_cache (get_layer_from_cache n);
  match cached with
  | Some layer => if is_rollup layer then on_store inner else lift (answer layer)
  | None => on_store inner
  end.

Definition cached_get_layer_parent_name (n : name) : io (W * C) (option name) :=
  cached ← on_cache (get_layer_from_cache n);
  match cached with
  | Some layer => mret (parent_name layer)
  | None => on_store (get_layer_parent_name n)
  end.

Definition cached_get_node_dictionary (n : name) : io (W * C) (option StringDict) :=
  from_cache n (λ l, Ok (Some (node_dictionary l))) (get_node_dictionary n).
Definition cached_get_predicate_dictionary (n : name) : io (W * C) (option StringDict) :=
  from_cache n (λ l, Ok (Some (predicate_dictionary l))) (get_predicate_dictionary n).
Definition cached_get_value_dictionary (n : name) : io (W * C) (option TypedDict) :=
  from_cache n (λ l, Ok (Some (value_dictionary l))) (get_value_dictionary n).

Definition cached_get_node_count (n : name) : io (W * C) (option nat) :=
  from_cache n (λ l, Ok (Some (sd_num_entries (node_dictionary l)))) (get_node_count n).
(** The count of values stands in for the count of predicates. *)
Definition cached_get_predicate_count (n : name) : io (W * C) (option nat) :=
  from_cache n (λ l, Ok (Some (sd_num_entries (predicate_dictionary l)))) (get_value_count n).
Definition cached_get_value_count (n : name) : io (W * C) (option nat) :=
  from_cache n (λ l, Ok (Some (td_num_entries (value_dictionary l)))) (get_value_count n).

Definition cached_get_node_value_idmap (n : name) : io (W * C) (option IdMap) :=
  from_cache n (λ l, Ok (Some (node_value_id_map l))) (get_node_value_idmap n).
Definition cached_get_predicate_idmap (n : name) : io (W * C) (option IdMap) :=
  from_cache n (λ l, Ok (Some (predicate_id_map l))) (get_predicate_idmap n).

Definition cached_triple_addition_exists (n : name) (s p o : nat) : io (W * C) bool :=
  from_cache n (λ l, internal_triple_addition_exists l s p o) (triple_addition_exists n s p o).
Definition cached_triple_removal_exists (n : name) (s p o : nat) : io (W * C) bool :=
  from_cache n (λ l, internal_triple_removal_exists l s p o) (triple_removal_exists n s p o).

Definition cached_triple_additions (n : name) : io (W * C) (option InternalLayerTripleSubjectIterator) :=
  from_cache n (λ l, Ok (internal_triple_additions l)) (triple_additions n).
Definition cached_triple_removals (n : name) : io (W * C) (option InternalLayerTripleSubjectIterator) :=
  from_cache n (λ l, Ok (internal_triple_removals l)) (triple_removals n).

Definition cached_triple_additions_s (fuel : nat) (n : name) (s : nat) : io (W * C) (list IdTriple) :=
  from_cache n (λ l, internal_triple_additions_s fuel l s) (triple_additions_s fuel n s).
Definition cached_triple_removals_s (fuel : nat) (n : name) (s : nat) : io (W * C) (list IdTriple) :=
  from_cache n (λ l, internal_triple_removals_s fuel l s) (triple_removals_s fuel n s).
Definition cached_triple_additions_sp (fuel : nat) (n : name) (s p : nat) : io (W * C) (list IdTriple) :=
  from_cache n (λ l, internal_triple_additions_sp fuel l s p) (triple_additions_sp fuel n s p).
Definition cached_triple_removals_sp (fuel : nat) (n : name) (s p : nat) : io (W * C) (list IdTriple) :=
  from_cache n (λ l, internal_triple_removals_sp fuel l s p) (triple_removals_sp fuel n s p).
Definition cached_triple_additions_p (n : name) (p : nat) : io (W * C) (option InternalLayerTriplePredicateIterator) :=
  from_cache n (λ l, Ok (internal_triple_additions_p l p)) (triple_additions_p n p).
Definition cached_triple_removals_p (n : name) (p : nat) : io (W * C) (option InternalLayerTriplePredicateIterator) :=
  from_cache n (λ l, Ok (internal_triple_removals_p l p)) (triple_removals_p n p).
Definition cached_triple_additions_o (fuel : nat) (n : name) (o : nat) : io (W * C) (list IdTriple) :=
  from_cache n (λ l, internal_triple_additions_o fuel l o) (triple_additions_o fuel n o).
Definition cached_triple_removals_o (fuel : nat) (n : name) (o : nat) : io (W * C) (list IdTriple) :=
  from_cache n (λ l, internal_triple_removals_o fuel l o) (triple_removals_o fuel n o).

Definition cached_triple_layer_addition_count (n : name) : io (W * C) nat :=
  from_cache n internal_triple_layer_addition_count (triple_layer_addition_count n).
Definition cached_triple_layer_removal_count (n : name) : io (W * C) nat :=
  from_cache n internal_triple_layer_removal_count (triple_layer_removal_count n).

(** The whole parent chain leaves the cache. *)
Fixpoint invalidate_all (ns : list name) : io (W * C) unit :=
  match ns with
  | [] => mret tt
  | n :: ns => _ ← on_cache (invalidate n); invalidate_all ns
  end.

Definition cached_register_rollup (fuel : nat) (layer rollup : name) : io (W * C) unit :=
  layer_stack ← on_store (retrieve_layer_stack_names fuel layer);
  _ ← on_store (register_rollup fuel layer rollup);
  invalidate_all layer_stack.

#[export] Instance cached_layer_queries : LayerQueries (W * C) := {|
  get_layer_parent_name := cached_get_layer_parent_name;
  get_node_dictionary := cached_get_node_dictionary;
  get_predicate_dictionary := cached_get_predicate_dictionary;
  get_value_dictionary := cached_get_value_dictionary;
  get_node_count := cached_get_node_count;
  get_predicate_count := cached_get_predicate_count;
  get_value_count := cached_get_value_count;
  get_node_value_idmap := cached_get_node_value_idmap;
  get_predicate_idmap := cached_get_predicate_idmap;
  triple_addition_exists := cached_triple_addition_exists;
  triple_removal_exists := cached_triple_removal_exists;
  triple_additions := cached_triple_additions;
  triple_removals := cached_triple_removals;
  triple_additions_s := cached_triple_additions_s;
  triple_removals_s := cached_triple_removals_s;
  triple_additions_sp := cached_triple_additions_sp;
  triple_removals_sp := cached_triple_removals_sp;
  triple_additions_p := cached_triple_additions_p;
  triple_removals_p := cached_triple_removals_p;
  triple_additions_o := cached_triple_additions_o;
  triple_removals_o := cached_triple_removals_o;
  triple_layer_addition_count := cached_triple_layer_addition_count;
  triple_layer_removal_count := cached_triple_layer_removal_count;
  retrieve_layer_stack_names fuel n := on_store (retrieve_layer_stack_names fuel n);
  retrieve_layer_stack_names_upto fuel n upto := on_store (retrieve_layer_stack_names_upto fuel n upto);
  register_rollup := cached_register_rollup;
|}.
End cached.

(** ** Layers that describe the same directory

    They may differ in the parent and in what was counted in it. *)
Inductive same_layer `{SuccinctOps} : InternalLayer → InternalLayer → Prop :=
  | same_base b : same_layer (Base b) (Base b)
  | same_child parent parent' c nv p :
      same_layer (Child parent c)
        (Child parent' {|
           cl_name := cl_name c;
           cl_node_dictionary := cl_node_dictionary c; cl_predicate_dictionary := cl_predicate_dictionary c;
           cl_value_dictionary := cl_value_dictionary c;
           cl_node_value_idmap := cl_node_value_idmap c; cl_predicate_idmap := cl_predicate_idmap c;
           cl_parent_node_value_count := nv; cl_parent_predicate_count := p;
           cl_pos_subjects := cl_pos_subjects c; cl_pos_objects := cl_pos_objects c;
           cl_pos_s_p_adjacency_list := cl_pos_s_p_adjacency_list c;
           cl_pos_sp_o_adjacency_list := cl_pos_sp_o_adjacency_list c;
           cl_pos_o_ps_adjacency_list := cl_pos_o_ps_adjacency_list c;
           cl_neg_subjects := cl_neg_subjects c; cl_neg_objects := cl_neg_objects c;
           cl_neg_s_p_adjacency_list := cl_neg_s_p_adjacency_list c;
           cl_neg_sp_o_adjacency_list := cl_neg_sp_o_adjacency_list c;
           cl_neg_o_ps_adjacency_list := cl_neg_o_ps_adjacency_list c;
           cl_pos_predicate_wavelet_tree := cl_pos_predicate_wavelet_tree c;
           cl_neg_predicate_wavelet_tree := cl_neg_predicate_wavelet_tree c;
           cl_stored_size := cl_stored_size c |}).

(** Two results of the same call are the same. *)
Ltac same_ok :=
  repeat match goal with
  | H1 : ?o = Ok ?x, H2 : ?o = Ok ?y |- _ => rewrite H1 in H2; injection H2 as <-
  end.

Lemma own_same `{SuccinctParse} m d l l' : own m d l → own m d l' → same_layer l l'.
Proof.
  intros Hl Hl'.
  destruct Hl as [f maps l Hw Hno Hf Hm Hl|parent f maps l Hw Hpar Hf Hm Hl];
    destruct Hl' as [f' maps' l' _ Hno' Hf' Hm' Hl'|parent' f' maps' l' _ Hpar' Hf' Hm' Hl'];
    try (exfalso; solve [eauto using no_parent_in]).
  - assert (l' = l) as -> by congruence. apply base_load_shape in Hl as (b & -> & _). constructor.
  - assert (maps' = maps) as -> by congruence. clear - Hl Hl'.
    unfold child_load in Hl, Hl'. split_ok. same_ok. injection Hl as <-. injection Hl' as <-. match goal with |- same_layer (Child ?p ?c) _ => exact (same_child p parent' c _ _) end.
Qed.

(** ** The cached store keeps the laws *)

Section laws.
Context `{SuccinctParse} {W C : Type} `{!LayerQueries W, !LayerQueriesLaws W, !LayerCache C, !LayerCacheLaws C}.

(** What a layer in the cache must agree with: a rollup only with the parent of
    the layer it replaces, any other layer with its own files. *)
Definition cache_ok (m : store_map) (l : InternalLayer) : Prop :=
  match l with
  | Rollup _ original original_parent => layer_of m original ∧ opt_parent_in m original original_parent
  | _ => own m (layer_name l) l
  end.

Definition cached_rep (wc : W * C) (m : store_map) : Prop := lq_rep wc.1 m ∧ lc_inv (cache_ok m) wc.2.

Notation reads m := (answers cached_rep m).

Lemma cache_ok_loaded m l : loaded m l → cache_ok m l.
Proof.
  intros [k Hl]. destruct l as [b|parent c|l n o]; [by eapply loads_own..|]. simpl in *.
  inversion Hl as [? ? ? ? ? ? ? ? ? Hb|? ? ? ? ? ? ? ? ? ? ? ? ? Hb|? ? ? ? ? Hw (? & fs & c & Hfs & _)]; subst.
  - by apply base_load_shape in Hb as (? & [=] & _).
  - by apply child_load_shape in Hb as (? & [=] & _).
  - split; [split; [done|by exists fs]|done].
Qed.

Lemma on_inner_answers {A} m (p : io W A) o : answers lq_rep m p o → reads m (on_store p) o.
Proof.
  intros Hp [w c] [Hw Hc]. destruct (Hp w Hw) as (w' & Heq & Hw'). exists (w', c).
  unfold on_store. simpl. by rewrite Heq.
Qed.

Lemma from_cache_answers {A} m d (answer : InternalLayer → outcome A) inner o :
  (∀ l, own m d l → is_rollup l = false → answer l = o) → answers lq_rep m inner o →
  reads m (from_cache d answer inner) o.
Proof.
  intros Hl Hi [w c] [Hw Hc]. unfold from_cache.
  destruct (get_layer_from_cache_spec (cache_ok m) c d Hc) as (r & c' & Hg & Hc' & Hr).
  rewrite (io_bind_Ok _ _ _ r (w, c')) by (unfold on_cache; simpl; by rewrite Hg).
  assert (∃ w', on_store inner (w, c') = (o, w') ∧ cached_rep w' m) as Hinner by by apply on_inner_answers.
  destruct r as [l|]; [|done]. destruct (is_rollup l) eqn:Hroll; [done|].
  destruct (Hr l eq_refl) as [Hok Hn]. exists (w, c'). split; [|done]. unfold lift. f_equal. apply Hl; [|done].
  by destruct l; simpl in *; subst.
Qed.

Lemma same_answers {A} m d l (f : InternalLayer → A) :
  own m d l → (∀ l1 l2, same_layer l1 l2 → f l1 = f l2) → ∀ l', own m d l' → is_rollup l' = false → f l' = f l.
Proof. intros Hl Hf l' Hl' _. apply Hf. by eapply own_same. Qed.

Lemma parent_answers m d l : own m d l → reads m (cached_get_layer_parent_name d) (Ok (parent_name l)).
Proof.
  intros Hl [w c] [Hw Hc]. unfold cached_get_layer_parent_name.
  destruct (get_layer_from_cache_spec (cache_ok m) c d Hc) as (r & c' & Hg & Hc' & Hr).
  rewrite (io_bind_Ok _ _ _ r (w, c')) by (unfold on_cache; simpl; by rewrite Hg).
  destruct r as [l'|]; [|by apply on_inner_answers; [apply own_answers|]].
  destruct (Hr l' eq_refl) as [Hok Hn]. exists (w, c'). split; [|done].
  assert (parent_name l' = parent_name l) as ->; [|done].
  pose proof (own_parent_in m d l Hl) as Hp.
  destruct l' as [b|parent' ch|l' n o]; simpl in Hok, Hn; subst.
  - apply own_parent_in in Hok. by eapply opt_parent_functional.
  - apply own_parent_in in Hok. by eapply opt_parent_functional.
  - by eapply opt_parent_functional; [apply Hok|].
Qed.

(** Every answer depends only on what layers of one directory share. *)
Lemma cached_answers_for m d l : own m d l → answers_for cached_rep m d l.
Proof.
  intros Hl. destruct (own_answers m d l Hl) as [].
  split; intros; try exact (parent_answers m d l Hl);
    (apply from_cache_answers;
     [|first [done|match goal with H : _ |- _ => by apply H end]]).
  all: try (eapply (same_answers m d l); [done|]; by destruct 1).
  - match goal with H : internal_triple_additions_o _ _ _ = _ |- _ => rewrite <- H end.
    eapply (same_answers m d l (λ l, internal_triple_additions_o _ l _)); [done|]. by destruct 1.
  - match goal with H : internal_triple_removals_o _ _ _ = _ |- _ => rewrite <- H end.
    eapply (same_answers m d l (λ l, internal_triple_removals_o _ l _)); [done|]. by destruct 1.
Qed.

Lemma own_layer m d l : own m d l → layer_of m d.
Proof.
  destruct 1 as [f maps l Hw (fs & Hfs & _)|parent f maps l Hw (_ & fs & Hfs & _)]; (split; [done|by exists fs]).
Qed.

Lemma cache_ok_layer m l : cache_ok m l → layer_of m (layer_name l).
Proof. destruct l; simpl; [by apply own_layer..|by intros [? _]]. Qed.

Lemma cached_answers_missing m d : name_wf d → m !! d = None → answers_missing cached_rep m d.
Proof.
  intros Hw Hd. assert (∀ l, own m d l → False) as Hno.
  { intros l Hl. destruct (own_layer _ _ _ Hl) as [_ [fs Hfs]]. congruence. }
  destruct (missing_answers m d Hw Hd) as [].
  split; intros; try (apply from_cache_answers; [by intros l Hl; destruct (Hno l Hl)|done]).
  intros [w c] [Hrep Hc]. destruct (get_layer_from_cache_spec (cache_ok m) c d Hc) as (r & c' & Hg & Hc' & Hr).
  unfold get_layer_parent_name. simpl. unfold cached_get_layer_parent_name.
  rewrite (io_bind_Ok _ _ _ r (w, c')) by (unfold on_cache; simpl; by rewrite Hg).
  destruct r as [l|]; [|by apply on_inner_answers].
  destruct (Hr l eq_refl) as [Hok Hn]. apply cache_ok_layer in Hok as [_ [fs Hfs]]. congruence.
Qed.

(** Registering a rollup leaves all other answers as they are, and nothing of the
    stack in the cache. *)
Lemma cache_ok_rolled_up m layer rollup fs contents l :
  m !! layer = Some fs → cache_ok m l → cache_ok (rolled_up m layer rollup fs contents) l.
Proof.
  intros Hm. destruct l as [b|parent c|l n o]; simpl; [by apply own_rolled_up..|].
  intros [[Hw [fs' Hfs]] Ho].
  destruct (parent_file_rolled_up m layer rollup fs contents n fs' Hm Hfs) as (fs'' & Hfs'' & _).
  split; [split; [done|by exists fs'']|].
  destruct o; [by apply parent_in_rolled_up|by apply no_parent_rolled_up].
Qed.

Lemma invalidate_all_spec P (w : W) (c : C) ns :
  lc_inv P c → ∃ c', invalidate_all ns (w, c) = (Ok tt, (w, c')) ∧ lc_inv (λ l, P l ∧ layer_name l ∉ ns) c'.
Proof.
  revert P c. induction ns as [|n ns IH]; intros P c Hc; cbn [invalidate_all].
  - exists c. split; [done|]. eapply lc_inv_mono; [|exact Hc]. intros l Hl. split; [done|]. apply not_elem_of_nil.
  - destruct (invalidate_spec P c n Hc) as (c1 & Hi & Hc1). destruct (IH _ _ Hc1) as (c2 & Hall & Hc2).
    exists c2. rewrite (io_bind_Ok _ _ _ tt (w, c1)) by (unfold on_cache; simpl; by rewrite Hi).
    split; [done|]. eapply lc_inv_mono; [|exact Hc2]. intros l [[Hl Hn] Hns]. split; [done|].
    by rewrite not_elem_of_cons.
Qed.

Lemma cached_register_rollup_spec m layer rollup fs ns fuel w c :
  cached_rep (w, c) m → name_wf rollup → m !! layer = Some fs → parents m layer ns → length ns ≤ fuel →
  ∃ contents w' c', cached_register_rollup fuel layer rollup (w, c) = (Ok tt, (w', c')) ∧
    rollup_named contents rollup ∧
    lq_rep w' (rolled_up m layer rollup fs contents) ∧
    lc_inv (λ l, cache_ok (rolled_up m layer rollup fs contents) l ∧ layer_name l ∉ ns) c'.
Proof.
  intros [Hw Hc] Hroll Hfs Hp Hfuel. simpl in Hw, Hc. unfold cached_register_rollup.
  destruct (stack_names_answers m layer ns fuel Hp Hfuel w Hw) as (w1 & Hn & Hw1).
  rewrite (io_bind_Ok _ _ _ (reverse ns) (w1, c)) by (unfold on_store; simpl; by rewrite Hn).
  destruct (register_rollup_spec m layer rollup fs ns fuel w1 Hw1 Hroll Hfs Hp Hfuel) as (contents & w2 & Hr & Hcon & Hw2).
  rewrite (io_bind_Ok _ _ _ tt (w2, c)) by (unfold on_store; simpl; by rewrite Hr).
  destruct (invalidate_all_spec (cache_ok m) w2 c (reverse ns) Hc) as (c' & Hi & Hc').
  exists contents, w2, c'. split; [done|]. split; [done|]. split; [done|]. eapply lc_inv_mono; [|exact Hc'].
  intros l [Hl Hns]. split; [by apply cache_ok_rolled_up|]. by rewrite elem_of_reverse in Hns.
Qed.

#[export] Instance cached_layer_queries_laws : LayerQueriesLaws (W * C).
Proof.
  split with cached_rep.
  - apply cached_answers_for.
  - apply cached_answers_missing.
  - intros. by apply on_inner_answers, stack_names_answers.
  - intros. by apply on_inner_answers, stack_names_upto_answers.
  - intros m layer rollup fs ns fuel [w c] Hrep Hroll Hfs Hp Hfuel.
    destruct (cached_register_rollup_spec m layer rollup fs ns fuel w c Hrep Hroll Hfs Hp Hfuel)
      as (contents & w' & c' & Hr & Hcon & Hw' & Hc').
    exists contents, (w', c'). split; [done|]. split; [done|]. split; [done|].
    eapply lc_inv_mono; [|exact Hc']. by intros l [? _].
Defined.
End laws.
