(* ===== verification/Archive.v ===== *)
(** The format of an archive, one file that holds the files of a layer
    ([src/storage/archive.rs]): [ArchiveFilePresenceHeader], a bit for each kind of
    file, [ArchiveHeader], which adds the offsets of the ends of the files, and
    [Archive], which adds the data. What [finalize] writes is parsed back. *)

From S2P Require Import Prelude Names Text Files Consts.

(** ** Big endian words of 64 bits *)

Fixpoint be_bytes (n : nat) (v : N) : string :=
  match n with
  | O => EmptyString
  | S n => String (Ascii.ascii_of_N ((v / 256 ^ N.of_nat n) mod 256)%N) (be_bytes n v)
  end.

Fixpoint be_value (acc : N) (n : nat) (s : string) : option (N * string) :=
  match n with
  | O => Some (acc, s)
  | S n =>
      match s with
      | EmptyString => None
      | String c s => be_value (acc * 256 + Ascii.N_of_ascii c)%N n s
      end
  end.

(** [BufMut::put_u64] and [Buf::get_u64], which panics at the end of the buffer. *)
Definition put_u64 (v : N) : string := be_bytes 8 v.
Definition get_u64 (s : string) : outcome (N * string) := unwrap (be_value 0 8 s).

(** [AsyncReadExt::read_u64] and [read_exact]: a reader is what is left to read. *)
Definition read_u64 (s : string) : outcome (N * string) :=
  match be_value 0 8 s with Some r => Ok r | None => Err UnexpectedEof end.
Definition read_exact (n : nat) (s : string) : outcome (string * string) :=
  if decide (String.length s < n) then Err UnexpectedEof else Ok (str_take n s, str_drop n s).

(** [Bytes::slice] *)
Definition slice (s : string) (from to_ : nat) : outcome string :=
  if decide (from ≤ to_ ∧ to_ ≤ String.length s) then Ok (String.substring from (to_ - from) s) else Panic.

(** ** Parts of [tdb_succinct]

    Bit arrays of 64 bits, and arrays of offsets that are written with their
    header first. *)
Class ArchiveOps := {
  SmallBitArray : Type;
  sba_new : N → SmallBitArray;
  sba_inner : SmallBitArray → N;
  sba_get : SmallBitArray → nat → bool;
  sba_rank1 : SmallBitArray → nat → nat;
  OffsetsBuilder : Type;
  ob_new : OffsetsBuilder;
  ob_push : OffsetsBuilder → nat → OffsetsBuilder;
  ob_finalize_header_first : OffsetsBuilder → string;
  Offsets : Type;
  off_parse_header_first : string → option (Offsets * string);
  off_entry : Offsets → nat → outcome nat;
  off_len : Offsets → nat;
  logarray_length_from_control_word : string → nat;
}.

(** The offsets of the files of a layer. *)
Definition offsets_ok (offsets : list nat) : Prop :=
  length offsets ≤ 64 ∧ Forall (λ x, (N.of_nat x < 2 ^ 64)%N) offsets.

(** Bit 0 is the most significant one, ranks include the bit itself; an array of
    offsets is a word that tells the length of the rest, and the rest. *)
Class ArchiveLaws `{ArchiveOps} := {
  sba_inner_spec v : (v < 2 ^ 64)%N → sba_inner (sba_new v) = v;
  sba_get_spec v i : (v < 2 ^ 64)%N → i < 64 → sba_get (sba_new v) i = N.testbit v (N.of_nat (63 - i));
  sba_rank1_spec v i : (v < 2 ^ 64)%N → i < 64 →
    sba_rank1 (sba_new v) i = length (List.filter (λ j, N.testbit v (N.of_nat (63 - j))) (seq 0 (S i)));
  ob_list : OffsetsBuilder → list nat;
  ob_new_spec : ob_list ob_new = [];
  ob_push_spec b x : ob_list (ob_push b x) = ob_list b ++ [x];
  off_parse_spec b rest : offsets_ok (ob_list b) → ∃ a, off_parse_header_first (ob_finalize_header_first b +:+ rest) = Some (a, rest) ∧
    off_len a = length (ob_list b) ∧ ∀ i x, ob_list b !! i = Some x → off_entry a i = Ok x;
  control_word_spec b : offsets_ok (ob_list b) → ∃ control body, ob_finalize_header_first b = control +:+ body ∧
    String.length control = 8 ∧ logarray_length_from_control_word control = String.length body;
}.

(** ** [ArchiveFilePresenceHeader] *)

#[export] Instance LayerFileEnum_countable : Countable LayerFileEnum.
Proof. apply (inj_countable file_number layer_file_of_number). exact file_number_spec. Defined.

Section header.
Context `{ArchiveOps}.

Record ArchiveFilePresenceHeader := { present_files : SmallBitArray }.

Definition presence_new (val : N) : ArchiveFilePresenceHeader := {| present_files := sba_new val |}.

Definition presence_bits (files : list LayerFileEnum) : N :=
  foldl (λ val file, N.lor val (N.shiftl 1 (N.of_nat (64 - file_number file - 1)))) 0%N files.

Definition from_present (files : list LayerFileEnum) : ArchiveFilePresenceHeader :=
  presence_new (presence_bits files).

Definition is_present (h : ArchiveFilePresenceHeader) (file : LayerFileEnum) : bool :=
  sba_get (present_files h) (file_number file).

Definition presence_inner (h : ArchiveFilePresenceHeader) : N := sba_inner (present_files h).

Definition file_index (h : ArchiveFilePresenceHeader) (file : LayerFileEnum) : outcome (option nat) :=
  if is_present h file then i ← checked_sub (sba_rank1 (present_files h) (file_number file)) 1; Ok (Some i)
  else Ok None.

(** ** [ArchiveHeader] *)

Record ArchiveHeader := { file_presence : ArchiveFilePresenceHeader; file_offsets : Offsets }.

Definition header_parse (bytes : string) : outcome (ArchiveHeader * string) :=
  '(val, bytes) ← get_u64 bytes;
  '(offsets, remainder) ← unwrap (off_parse_header_first bytes);
  Ok ({| file_presence := presence_new val; file_offsets := offsets |}, remainder).

(** [parse_from_reader], with what is left of the reader. *)
Definition header_parse_from_reader (reader : string) : outcome (ArchiveHeader * string) :=
  '(val, reader) ← read_u64 reader;
  '(control, reader) ← read_exact 8 reader;
  let len := logarray_length_from_control_word control in
  '(rest, reader) ← read_exact len reader;
  '(offsets, _) ← unwrap (off_parse_header_first (control +:+ rest));
  Ok ({| file_presence := presence_new val; file_offsets := offsets |}, reader).

(** [None] or the start and the end of the file. *)
Definition range_for (h : ArchiveHeader) (file : LayerFileEnum) : outcome (option (nat * nat)) :=
  index ← file_index (file_presence h) file;
  match index with
  | Some index =>
      start ← (if decide (index = 0) then Ok 0 else off_entry (file_offsets h) (index - 1));
      end_ ← off_entry (file_offsets h) index;
      Ok (Some (start, end_))
  | None => Ok None
  end.

Definition header_size_of (h : ArchiveHeader) (file : LayerFileEnum) : outcome (option nat) :=
  range ← range_for h file;
  match range with
  | Some (start, end_) => n ← checked_sub end_ start; Ok (Some n)
  | None => Ok None
  end.

(** ** [Archive] *)

Record Archive := { ar_header : ArchiveHeader; ar_data : string }.

Definition archive_parse (bytes : string) : outcome Archive :=
  '(header, data) ← header_parse bytes; Ok {| ar_header := header; ar_data := data |}.

Definition archive_parse_from_reader (reader : string) : outcome Archive :=
  '(header, reader) ← header_parse_from_reader reader;
  last_ ← checked_sub (off_len (file_offsets header)) 1;
  data_len ← off_entry (file_offsets header) last_;
  '(data, _) ← read_exact data_len reader;
  Ok {| ar_header := header; ar_data := data |}.

Definition slice_for (a : Archive) (file : LayerFileEnum) : outcome (option string) :=
  range ← range_for (ar_header a) file;
  match range with
  | Some (start, end_) => s ← slice (ar_data a) start end_; Ok (Some s)
  | None => Ok None
  end.

Definition archive_size_of (a : Archive) (file : LayerFileEnum) : outcome (option nat) :=
  header_size_of (ar_header a) file.

(** ** The bytes that [finalize] writes for a list of files in order *)

(** The loop over the files; [tally] is the end of the last one. *)
Fixpoint push_offsets (offsets : OffsetsBuilder) (tally : nat) (files : list (LayerFileEnum * string)) : OffsetsBuilder :=
  match files with
  | [] => offsets
  | (_, data) :: files =>
      let tally := tally + String.length data in
      push_offsets (ob_push offsets tally) tally files
  end.

Fixpoint concat_data (files : list (LayerFileEnum * string)) : string :=
  match files with [] => EmptyString | (_, data) :: files => data +:+ concat_data files end.

Definition archive_bytes (files : list (LayerFileEnum * string)) : string :=
  let presence_header := from_present files.*1 in
  let offsets := push_offsets ob_new 0 files in
  let offsets_buf := ob_finalize_header_first offsets in
  put_u64 (presence_inner presence_header) +:+ offsets_buf +:+ concat_data files.

(** [files.sort()] of the pairs of a [HashMap]: the kinds are distinct, so that
    the pairs are in the order of the kinds. *)
Definition file_le (a b : LayerFileEnum * string) : Prop := file_number a.1 ≤ file_number b.1.
#[export] Instance file_le_dec : RelDecision file_le := λ a b, decide (file_number a.1 ≤ file_number b.1).

Definition sorted_files (fs : gmap LayerFileEnum string) : list (LayerFileEnum * string) :=
  merge_sort file_le (map_to_list fs).

Definition layer_archive (fs : gmap LayerFileEnum string) : string := archive_bytes (sorted_files fs).
End header.

(** ** Words *)

Lemma byte_split n v :
  (v mod 256 ^ N.of_nat (S n) =
   (v / 256 ^ N.of_nat n) mod 256 * 256 ^ N.of_nat n + v mod 256 ^ N.of_nat n)%N.
Proof.
  rewrite Nat2N.inj_succ, N.pow_succ_r', (N.mul_comm 256).
  rewrite N.Div0.mod_mul_r. lia.
Qed.

Lemma be_value_bytes n v acc rest :
  be_value acc n (be_bytes n v +:+ rest) = Some (acc * 256 ^ N.of_nat n + v mod 256 ^ N.of_nat n, rest)%N.
Proof.
  revert acc. induction n as [|n IH]; intros acc.
  - simpl. rewrite N.mod_1_r. do 2 f_equal. lia.
  - rewrite byte_split. cbn [be_bytes be_value String.append].
    rewrite Ascii.N_ascii_embedding by (apply N.mod_lt; done). rewrite IH.
    rewrite Nat2N.inj_succ, N.pow_succ_r'. do 2 f_equal. lia.
Qed.

Lemma be_bytes_length n v : String.length (be_bytes n v) = n.
Proof. induction n; simpl; congruence. Qed.

Lemma u64_round_trip v rest : (v < 2 ^ 64)%N → be_value 0 8 (put_u64 v +:+ rest) = Some (v, rest).
Proof. intros Hv. unfold put_u64. rewrite be_value_bytes, N.mod_small by exact Hv. done. Qed.

Lemma get_put_u64 v rest : (v < 2 ^ 64)%N → get_u64 (put_u64 v +:+ rest) = Ok (v, rest).
Proof. intros Hv. unfold get_u64. by rewrite u64_round_trip. Qed.

Lemma read_put_u64 v rest : (v < 2 ^ 64)%N → read_u64 (put_u64 v +:+ rest) = Ok (v, rest).
Proof. intros Hv. unfold read_u64. by rewrite u64_round_trip. Qed.

Lemma str_drop_app s1 s2 : str_drop (String.length s1) (s1 +:+ s2) = s2.
Proof.
  unfold str_drop. rewrite string_length_app, Nat.add_sub'.
  pose proof (substring_middle s1 s2 EmptyString) as Hm. by rewrite !string_app_empty in Hm.
Qed.

Lemma str_take_drop n s : str_take n s +:+ str_drop n s = s.
Proof.
  revert n. induction s as [|c s IH]; intros [|n]; [done|done| |].
  - by rewrite str_take_0, str_drop_0.
  - change (String c (str_take n s +:+ str_drop n s) = String c s). by rewrite IH.
Qed.

Lemma str_take_length n s : n ≤ String.length s → String.length (str_take n s) = n.
Proof.
  revert n. induction s as [|c s IH]; intros [|n]; simpl; intros Hn; [done|lia|done|].
  change (S (String.length (str_take n s)) = S n). rewrite IH; lia.
Qed.

(** The rest of a part of a string from a position on. *)
Lemma str_drop_middle s1 s2 s3 n :
  n ≤ String.length s2 →
  str_take (String.length s2 - n) (str_drop (String.length s1 + n) (s1 +:+ (s2 +:+ s3))) = str_drop n s2.
Proof.
  intros Hn. pose proof (str_take_length n s2 Hn) as Hl. pose proof (str_take_drop n s2) as Hs.
  set (a := str_take n s2) in *. set (b := str_drop n s2) in *. clearbody a b. subst s2 n.
  rewrite <- string_length_app, !string_app_assoc, <- (string_app_assoc s1 a), str_drop_app.
  rewrite string_length_app, Nat.add_sub'. apply str_take_app.
Qed.

Lemma read_exact_app s rest : read_exact (String.length s) (s +:+ rest) = Ok (s, rest).
Proof.
  unfold read_exact. rewrite decide_False by (rewrite string_length_app; lia).
  by rewrite str_take_app, str_drop_app.
Qed.

Lemma slice_middle s1 s2 s3 :
  slice (s1 +:+ (s2 +:+ s3)) (String.length s1) (String.length s1 + String.length s2) = Ok s2.
Proof.
  unfold slice. rewrite decide_True by (rewrite !string_length_app; lia).
  by rewrite Nat.add_sub', substring_middle.
Qed.

(** ** The bits of the presence header *)

Lemma presence_bits_acc files acc i :
  N.testbit (foldl (λ val file, N.lor val (N.shiftl 1 (N.of_nat (64 - file_number file - 1)))) acc files) i =
    N.testbit acc i || existsb (λ f, N.of_nat (63 - file_number f) =? i)%N files.
Proof.
  revert acc. induction files as [|f files IH]; intros acc; cbn [foldl existsb]; [by rewrite orb_false_r|].
  rewrite IH, N.lor_spec, <- orb_assoc. do 2 f_equal.
  pose proof (file_number_bound f) as Hf. replace (64 - file_number f - 1) with (63 - file_number f) by lia.
  rewrite N.shiftl_1_l. apply N.pow2_bits_eqb.
Qed.

Lemma existsb_elem {A} (p : A → bool) l : existsb p l = true ↔ ∃ x, x ∈ l ∧ p x = true.
Proof. rewrite List.existsb_exists. by setoid_rewrite list_elem_of_In. Qed.

Lemma presence_bit files j :
  j < 64 → N.testbit (presence_bits files) (N.of_nat (63 - j)) = bool_decide (j ∈ file_number <$> files).
Proof.
  intros Hj. unfold presence_bits. rewrite presence_bits_acc, N.bits_0. simpl.
  apply eq_true_iff_eq. rewrite existsb_elem, bool_decide_eq_true, list_elem_of_fmap.
  split; intros (g & H1 & H2); exists g; pose proof (file_number_bound g).
  - apply N.eqb_eq in H2. split; [lia|done].
  - split; [done|]. apply N.eqb_eq. by subst j.
Qed.

Lemma presence_bits_bound files : (presence_bits files < 2 ^ 64)%N.
Proof.
  destruct (decide (presence_bits files = 0%N)) as [->|Hnz]; [done|].
  apply N.log2_lt_pow2; [lia|]. apply N.nle_gt. intros Hle.
  pose proof (N.bit_log2 _ Hnz) as Hb. unfold presence_bits in Hb at 1.
  rewrite presence_bits_acc, N.bits_0 in Hb. simpl in Hb.
  apply existsb_elem in Hb as (f & _ & He%N.eqb_eq). lia.
Qed.

(** ** The offsets *)

Fixpoint ends (tally : nat) (files : list (LayerFileEnum * string)) : list nat :=
  match files with
  | [] => []
  | (_, data) :: files => (tally + String.length data) :: ends (tally + String.length data) files
  end.

Lemma concat_data_app f1 f2 : concat_data (f1 ++ f2) = concat_data f1 +:+ concat_data f2.
Proof. induction f1 as [|[g d] f1 IH]; simpl; [done|]. by rewrite IH, string_app_assoc. Qed.

Lemma ends_length tally files : length (ends tally files) = length files.
Proof. revert tally. induction files as [|[g d] files IH]; intros tally; simpl; auto. Qed.

Lemma ends_lookup tally files k :
  k < length files → ends tally files !! k = Some (tally + String.length (concat_data (take (S k) files))).
Proof.
  revert tally k. induction files as [|[g d] files IH]; intros tally [|k] Hk; simpl in *; try lia.
  - f_equal. rewrite string_app_empty. lia.
  - rewrite IH by lia. f_equal. rewrite string_length_app. lia.
Qed.

(** The data of a file is between the end of the file before it and its own. *)
Lemma concat_data_slice files k f d :
  files !! k = Some (f, d) →
  ∃ before after, concat_data files = before +:+ (d +:+ after) ∧
    String.length (concat_data (take k files)) = String.length before ∧
    String.length (concat_data (take (S k) files)) = String.length before + String.length d.
Proof.
  intros Hk. exists (concat_data (take k files)), (concat_data (drop (S k) files)).
  assert (concat_data (take (S k) files) = concat_data (take k files) +:+ d) as Ht.
  { by rewrite (take_S_r _ _ _ Hk), concat_data_app; simpl; rewrite string_app_empty. }
  split_and!; [|done|by rewrite Ht, string_length_app].
  by rewrite <- (take_drop (S k) files) at 1; rewrite concat_data_app, Ht, string_app_assoc.
Qed.

(** ** Sorted lists of files *)

Definition in_file_order (files : list (LayerFileEnum * string)) : Prop :=
  StronglySorted lt (file_number <$> files.*1).

Lemma in_file_order_nodup files : in_file_order files → NoDup files.*1.
Proof.
  intros Hs. eapply (NoDup_fmap_1 file_number). eapply StronglySorted_NoDup; [|exact Hs]. intros x. unfold complement. lia.
Qed.

(** The rank of a file in the header is its position in the list. *)
Lemma rank_of_file ns k i :
  StronglySorted lt ns → ns !! k = Some i →
  length (List.filter (λ j, bool_decide (j ∈ ns)) (seq 0 (S i))) = S k.
Proof.
  intros Hs Hk. assert (bool_decide (i ∈ ns) = true) as Hi.
  { apply bool_decide_eq_true. by eapply list_elem_of_lookup_2. }
  rewrite seq_S, List.filter_app, length_app. simpl. rewrite Hi. simpl.
  rewrite Nat.add_1_r, <- (sorted_filter_lt ns k i) by done. f_equal.
  apply Permutation_length, NoDup_Permutation.
  - apply NoDup_ListNoDup, List.NoDup_filter, List.seq_NoDup.
  - apply NoDup_filter. eapply StronglySorted_NoDup; [|exact Hs]. intros x. unfold complement. lia.
  - intros j. rewrite list_elem_of_In, List.filter_In, <- list_elem_of_In, elem_of_seq, bool_decide_eq_true.
    rewrite list_elem_of_filter. split; intros []; (split; [lia|done]) || (split; [done|lia]).
Qed.

Lemma sorted_files_perm fs : sorted_files fs ≡ₚ map_to_list fs.
Proof. apply merge_sort_Permutation. Qed.

Lemma sorted_files_order fs : in_file_order (sorted_files fs).
Proof.
  unfold in_file_order.
  assert (NoDup (file_number <$> (sorted_files fs).*1)) as Hnd.
  { apply NoDup_fmap_2; [intros f1 f2; apply file_number_inj|].
    rewrite sorted_files_perm. apply NoDup_fst_map_to_list. }
  assert (StronglySorted file_le (sorted_files fs)) as Hs.
  { apply StronglySorted_merge_sort; [intros a b c; unfold file_le; lia|intros a b; unfold file_le; lia]. }
  revert Hnd. induction Hs as [|a l Hs IH Hall]; csimpl; intros Hnd; [constructor|].
  apply NoDup_cons in Hnd as [Ha Hnd]. constructor; [by apply IH|].
  rewrite !Forall_fmap. rewrite Forall_forall in Hall |- *.
  intros b Hb. specialize (Hall b Hb). simpl. unfold file_le in Hall.
  assert (file_number a.1 ≠ file_number b.1); [|lia]. intros He. apply Ha. rewrite He.
  by apply list_elem_of_fmap_2, list_elem_of_fmap_2.
Qed.

Lemma sorted_files_elem fs f d : (f, d) ∈ sorted_files fs ↔ fs !! f = Some d.
Proof. rewrite sorted_files_perm. apply elem_of_map_to_list. Qed.

Lemma sorted_files_keys fs f : f ∈ (sorted_files fs).*1 ↔ is_Some (fs !! f).
Proof.
  rewrite list_elem_of_fmap. split.
  - intros ([g d] & -> & Hd%sorted_files_elem). eauto.
  - intros [d Hd]. exists (f, d). split; [done|]. by apply sorted_files_elem.
Qed.

(** ** Sizes

    The offsets of the files of a layer fit words of 64 bits. *)
Definition small (files : list (LayerFileEnum * string)) : Prop :=
  length files ≤ 64 ∧ (N.of_nat (String.length (concat_data files)) < 2 ^ 64)%N.

Definition fits (fs : gmap LayerFileEnum string) : Prop :=
  (N.of_nat (String.length (concat_data (sorted_files fs))) < 2 ^ 64)%N.

Lemma fits_small fs : fits fs → small (sorted_files fs).
Proof.
  intros Hf. split; [|exact Hf].
  rewrite <- (length_fmap fst), <- (length_fmap file_number), <- (length_seq 64 0).
  apply submseteq_length, NoDup_submseteq.
  - eapply StronglySorted_NoDup; [|apply sorted_files_order]. intros x. unfold complement. lia.
  - intros x (f & -> & _)%list_elem_of_fmap. apply elem_of_seq. pose proof (file_number_bound f). lia.
Qed.

Lemma small_offsets files : small files → offsets_ok (ends 0 files).
Proof.
  intros [Hl Hs]. split; [by rewrite ends_length|]. apply Forall_forall. intros x [k Hk]%list_elem_of_lookup.
  pose proof (lookup_lt_Some _ _ _ Hk) as Hlt. rewrite ends_length in Hlt. rewrite ends_lookup in Hk by done.
  simplify_eq. eapply N.le_lt_trans; [|exact Hs]. simpl.
  rewrite <- (take_drop (S k) files) at 2. rewrite concat_data_app, string_length_app. lia.
Qed.

(** ** Parsing what was written *)

Section laws.
Context `{ArchiveLaws}.

Lemma is_present_from files f : is_present (from_present files) f = bool_decide (f ∈ files).
Proof.
  unfold is_present, from_present, presence_new. simpl.
  rewrite sba_get_spec, presence_bit by (apply presence_bits_bound || apply file_number_bound).
  apply bool_decide_ext. split; [|apply list_elem_of_fmap_2].
  intros (g & Hg%file_number_inj & Hin)%list_elem_of_fmap. by subst.
Qed.

Lemma presence_inner_from files : presence_inner (from_present files) = presence_bits files.
Proof. apply sba_inner_spec, presence_bits_bound. Qed.

Lemma file_index_absent files f : f ∉ files → file_index (from_present files) f = Ok None.
Proof. intros Hf. unfold file_index. by rewrite is_present_from, bool_decide_eq_false_2. Qed.

Lemma file_index_at files k f :
  StronglySorted lt (file_number <$> files) → files !! k = Some f → file_index (from_present files) f = Ok (Some k).
Proof.
  intros Hs Hk. unfold file_index.
  rewrite is_present_from, bool_decide_eq_true_2 by (by eapply list_elem_of_lookup_2).
  unfold from_present, presence_new. simpl.
  rewrite sba_rank1_spec by (apply presence_bits_bound || apply file_number_bound).
  rewrite (List.filter_ext_in _ (λ j, bool_decide (j ∈ file_number <$> files))).
  - rewrite (rank_of_file _ k) by (done || by rewrite list_lookup_fmap, Hk).
    rewrite checked_sub_ok by lia. simpl. do 3 f_equal. lia.
  - intros j Hj%List.in_seq. apply presence_bit. pose proof (file_number_bound f). lia.
Qed.

Lemma push_offsets_spec files b tally :
  ob_list (push_offsets b tally files) = ob_list b ++ ends tally files.
Proof.
  revert b tally. induction files as [|[g d] files IH]; intros b tally; simpl; [by rewrite app_nil_r|].
  by rewrite IH, ob_push_spec, <- app_assoc.
Qed.

(** The header that both parsers find for the files. *)
Definition header_for (files : list (LayerFileEnum * string)) (h : ArchiveHeader) : Prop :=
  file_presence h = from_present files.*1 ∧ off_len (file_offsets h) = length files ∧
  ∀ k, k < length files → off_entry (file_offsets h) k = Ok (String.length (concat_data (take (S k) files))).

Lemma offsets_for files rest :
  small files → ∃ a, off_parse_header_first (ob_finalize_header_first (push_offsets ob_new 0 files) +:+ rest) = Some (a, rest) ∧
    header_for files {| file_presence := from_present files.*1; file_offsets := a |}.
Proof.
  intros Hs. pose proof (push_offsets_spec files ob_new 0) as Hb. rewrite ob_new_spec in Hb. simpl in Hb.
  destruct (off_parse_spec (push_offsets ob_new 0 files) rest) as (a & Ha & Hl & He); [rewrite Hb; by apply small_offsets|].
  exists a. split; [done|]. rewrite Hb in Hl, He.
  split_and!; [done|simpl; by rewrite Hl, ends_length|]. intros k Hk. simpl. apply He. by rewrite ends_lookup.
Qed.

Lemma header_parse_bytes files rest :
  small files → ∃ h, header_parse (archive_bytes files +:+ rest) = Ok (h, concat_data files +:+ rest) ∧ header_for files h.
Proof.
  intros Hs. unfold header_parse, archive_bytes. rewrite presence_inner_from, string_app_assoc.
  rewrite get_put_u64 by apply presence_bits_bound. simpl. rewrite string_app_assoc.
  destruct (offsets_for files (concat_data files +:+ rest) Hs) as (a & -> & Hh). eexists. by split.
Qed.

Lemma header_parse_reader files rest :
  small files → ∃ h, header_parse_from_reader (archive_bytes files +:+ rest) = Ok (h, concat_data files +:+ rest) ∧
    header_for files h.
Proof.
  intros Hs. unfold header_parse_from_reader, archive_bytes. rewrite presence_inner_from, string_app_assoc.
  rewrite read_put_u64 by apply presence_bits_bound. cbn [mbind outcome_bind]. rewrite string_app_assoc.
  destruct (control_word_spec (push_offsets ob_new 0 files)) as (control & body & Hb & Hc & Hlen).
  { rewrite push_offsets_spec, ob_new_spec. by apply small_offsets. }
  destruct (offsets_for files EmptyString Hs) as (a & Ha & Hh). rewrite string_app_empty, Hb in Ha. rewrite Hb.
  rewrite string_app_assoc. pose proof (read_exact_app control (body +:+ (concat_data files +:+ rest))) as Hr.
  rewrite Hc in Hr. rewrite Hr. cbn [mbind outcome_bind].
  rewrite Hlen, read_exact_app. cbn [mbind outcome_bind]. rewrite Ha. eexists. by split.
Qed.

Lemma range_for_file files h k f d :
  in_file_order files → header_for files h → files !! k = Some (f, d) →
  range_for h f = Ok (Some (String.length (concat_data (take k files)), String.length (concat_data (take (S k) files)))).
Proof.
  intros Ho (Hp & _ & He) Hk. unfold range_for. pose proof (lookup_lt_Some _ _ _ Hk).
  rewrite Hp, (file_index_at _ k) by (done || by rewrite list_lookup_fmap, Hk). cbn [mbind outcome_bind].
  case_decide as Hz; [subst k|]; [by rewrite He by lia|].
  rewrite !He by lia. cbn [mbind outcome_bind]. by replace (S (k - 1)) with k by lia.
Qed.

Lemma range_for_absent files h f : header_for files h → f ∉ files.*1 → range_for h f = Ok None.
Proof. intros (Hp & _) Hf. unfold range_for. by rewrite Hp, file_index_absent. Qed.

(** What the header says of the files of a layer. *)
Section layer.
Context (fs : gmap LayerFileEnum string) (h : ArchiveHeader) (Hh : header_for (sorted_files fs) h).

Lemma layer_is_present f : is_present (file_presence h) f = bool_decide (is_Some (fs !! f)).
Proof.
  destruct Hh as (-> & _). rewrite is_present_from. apply bool_decide_ext. apply sorted_files_keys.
Qed.

Lemma layer_range_absent f : fs !! f = None → range_for h f = Ok None.
Proof.
  intros Hf. apply (range_for_absent (sorted_files fs)); [done|]. rewrite sorted_files_keys, Hf. by intros [].
Qed.

Lemma layer_range f d :
  fs !! f = Some d →
  ∃ before after, range_for h f = Ok (Some (String.length before, String.length before + String.length d)) ∧
    concat_data (sorted_files fs) = before +:+ (d +:+ after).
Proof.
  intros Hf. apply sorted_files_elem, list_elem_of_lookup in Hf as [k Hk].
  destruct (concat_data_slice _ _ _ _ Hk) as (before & after & Hd & H1 & H2).
  exists before, after. split; [|done]. rewrite <- H1 at 1. rewrite <- H2.
  eapply range_for_file; [apply sorted_files_order|done|exact Hk].
Qed.

Lemma layer_size_of f : header_size_of h f = Ok (String.length <$> fs !! f).
Proof.
  unfold header_size_of. destruct (fs !! f) as [d|] eqn:Hf.
  - destruct (layer_range f d Hf) as (before & after & -> & _). cbn [mbind outcome_bind].
    rewrite checked_sub_ok by lia. cbn [mbind outcome_bind]. by rewrite Nat.add_sub'.
  - by rewrite layer_range_absent.
Qed.

Lemma layer_slice_for f rest : slice_for {| ar_header := h; ar_data := concat_data (sorted_files fs) +:+ rest |} f = Ok (fs !! f).
Proof.
  unfold slice_for. simpl. destruct (fs !! f) as [d|] eqn:Hf.
  - destruct (layer_range f d Hf) as (before & after & -> & ->). cbn [mbind outcome_bind].
    by rewrite !string_app_assoc, slice_middle.
  - by rewrite layer_range_absent.
Qed.
End layer.

(** The archive of a layer has the files of the layer. *)
Lemma layer_archive_parse fs :
  fits fs → ∃ h, archive_parse (layer_archive fs) = Ok {| ar_header := h; ar_data := concat_data (sorted_files fs) |} ∧
    header_for (sorted_files fs) h.
Proof.
  intros Hf%fits_small. destruct (header_parse_bytes (sorted_files fs) EmptyString Hf) as (h & Hp & Hh). exists h. split; [|done].
  unfold archive_parse, layer_archive. rewrite !string_app_empty in Hp. by rewrite Hp.
Qed.

Lemma layer_archive_header fs :
  fits fs → ∃ h, header_parse (layer_archive fs) = Ok (h, concat_data (sorted_files fs)) ∧ header_for (sorted_files fs) h.
Proof.
  intros Hf%fits_small. destruct (header_parse_bytes (sorted_files fs) EmptyString Hf) as (h & Hp & Hh). exists h. split; [|done].
  by rewrite !string_app_empty in Hp.
Qed.

Lemma layer_archive_header_reader fs :
  fits fs → ∃ h, header_parse_from_reader (layer_archive fs) = Ok (h, concat_data (sorted_files fs)) ∧
    header_for (sorted_files fs) h.
Proof.
  intros Hf%fits_small. destruct (header_parse_reader (sorted_files fs) EmptyString Hf) as (h & Hp & Hh). exists h. split; [|done].
  by rewrite !string_app_empty in Hp.
Qed.

Lemma read_presence fs : ∃ rest, read_u64 (layer_archive fs) = Ok (presence_bits (sorted_files fs).*1, rest).
Proof.
  unfold layer_archive, archive_bytes. rewrite presence_inner_from, read_put_u64 by apply presence_bits_bound. eauto.
Qed.

Lemma get_presence fs : ∃ rest, get_u64 (layer_archive fs) = Ok (presence_bits (sorted_files fs).*1, rest).
Proof.
  unfold layer_archive, archive_bytes. rewrite presence_inner_from, get_put_u64 by apply presence_bits_bound. eauto.
Qed.

Lemma last_offset files h :
  header_for files h → files ≠ [] →
  (last_ ← checked_sub (off_len (file_offsets h)) 1; off_entry (file_offsets h) last_) =
    Ok (String.length (concat_data files)).
Proof.
  intros (_ & Hl & He) Hne. rewrite Hl. destruct files as [|x files]; [done|].
  rewrite checked_sub_ok by (simpl; lia). cbn [mbind outcome_bind]. rewrite He by (simpl; lia).
  by rewrite firstn_all2 by (simpl; lia).
Qed.

(** [parse_from_reader] stops at the end of the data, and a layer without files panics. *)
Lemma layer_archive_parse_reader fs rest :
  fits fs → ∃ h, header_for (sorted_files fs) h ∧
    archive_parse_from_reader (layer_archive fs +:+ rest) =
      (if decide (fs = ∅) then Panic else Ok {| ar_header := h; ar_data := concat_data (sorted_files fs) |}).
Proof.
  intros Hf%fits_small. destruct (header_parse_reader (sorted_files fs) rest Hf) as (h & Hp & Hh). exists h. split; [done|].
  unfold archive_parse_from_reader, layer_archive. rewrite Hp. cbn [mbind outcome_bind]. case_decide as Hfs.
  - destruct Hh as (_ & -> & _). subst fs. unfold sorted_files. by rewrite map_to_list_empty.
  - assert (sorted_files fs ≠ []) as Hne.
    { intros He. apply Hfs, map_to_list_empty_iff, Permutation_nil_r. by rewrite <- sorted_files_perm, He. }
    pose proof (last_offset _ _ Hh Hne) as Hl. destruct (checked_sub _ _) as [i| | |]; [|done..].
    cbn [mbind outcome_bind] in *. rewrite Hl. cbn [mbind outcome_bind]. by rewrite read_exact_app.
Qed.

(** Two headers of the same files have the same ranges. *)
Lemma header_for_range fs h h' f :
  header_for (sorted_files fs) h → header_for (sorted_files fs) h' → range_for h f = range_for h' f.
Proof.
  intros Hh Hh'. destruct (decide (f ∈ (sorted_files fs).*1)) as [Hin|Hno].
  - apply list_elem_of_fmap in Hin as ([g d] & -> & [k Hk]%list_elem_of_lookup).
    by rewrite !(range_for_file (sorted_files fs) _ k g d) by (done || apply sorted_files_order).
  - by rewrite !(range_for_absent (sorted_files fs)).
Qed.
End laws.
