(* ===== verification/ArchiveBackend.v ===== *)
(** Where archives are kept ([src/storage/archive.rs]): the traits
    [ArchiveBackend] and [ArchiveMetadataBackend], what a back end promises, and
    [DirectoryArchiveBackend], that keeps an archive per layer in a directory,
    with the proof that it keeps the promise. *)

From S2P Require Import Prelude Names Text Files Consts LayerFiles LayerFileSpec LayerStores Archive.

(** ** The traits

    Both are implemented by values that share their state; a reader is what can be
    read from it until its end. *)
Class ArchiveBackend (B : Type) := {
  get_layer_bytes : name → io B string;
  get_layer_structure_bytes : name → LayerFileEnum → io B (option string);
  store_layer_file : name → string → io B unit;
  read_layer_structure_bytes_from : name → LayerFileEnum → nat → io B string;
}.

Class ArchiveMetadataBackend (B : Type) := {
  amb_get_layer_names : io B (list name);
  amb_layer_exists : name → io B bool;
  amb_layer_size : name → io B nat;
  amb_layer_file_exists : name → LayerFileEnum → io B bool;
  amb_get_layer_structure_size : name → LayerFileEnum → io B nat;
  amb_get_rollup : name → io B (option name);
  amb_set_rollup : name → name → io B unit;
  amb_get_parent : name → io B (option name);
}.

(** [Result::unwrap] *)
Definition unwrap_ok {A} (o : outcome A) : outcome A := match o with Err _ => Panic | _ => o end.

Definition is_utf8 (s : string) : bool := bool_decide (from_utf8_lossy s = s).

(** The end of both implementations of [get_parent]. *)
Definition parent_of_bytes (parent_bytes : string) : outcome name :=
  parent_bytes ← slice parent_bytes 0 40;
  if is_utf8 parent_bytes then unwrap_ok (string_to_name parent_bytes) else Panic.

(** ** [DirectoryArchiveBackend], with paths relative to its own *)

Definition path_for_layer (n : name) : list string :=
  let name_str := name_to_string n in
  [str_take PREFIX_DIR_SIZE name_str; name_str +:+ ".larch"].

Definition path_for_rollup (n : name) : list string :=
  let name_str := name_to_string n in
  [str_take PREFIX_DIR_SIZE name_str; name_str +:+ ".rollup.hex"].

(** Opening a file for reading, with what is in it. *)
Definition open_read (path : list string) : io tree string :=
  λ t, (match t !! path with
        | Some (FileEntry c) => Ok c
        | Some DirEntry => Err Other
        | None => Err NotFound
        end, t).

Section directory.
Context `{ArchiveOps}.

Definition dab_get_layer_bytes (id : name) : io tree string := open_read (path_for_layer id).

Definition dab_get_layer_structure_bytes (id : name) (file_type : LayerFileEnum) : io tree (option string) :=
  file ← open_read (path_for_layer id);
  '(header, file) ← lift (header_parse_from_reader file);
  range ← lift (range_for header file_type);
  match range with
  | Some (start, end_) =>
      '(data, _) ← lift (read_exact (end_ - start) (str_drop start file));
      mret (Some data)
  | None => mret None
  end.

(** The file is opened with [create] and without [truncate]: the bytes replace the
    front of what is there. *)
Definition dab_store_layer_file (id : name) (bytes : string) : io tree unit :=
  let path := path_for_layer id in
  _ ← create_dir_all [] (removelast path);
  t ← read_state;
  match t !! path with
  | Some (FileEntry c) => write_state (<[path := FileEntry (overwrite c 0 bytes)]> t)
  | Some DirEntry => throw Other
  | None => write_state (<[path := FileEntry bytes]> t)
  end.

Definition dab_read_layer_structure_bytes_from (id : name) (file_type : LayerFileEnum) (read_from : nat) : io tree string :=
  file ← open_read (path_for_layer id);
  '(header, file) ← lift (header_parse_from_reader file);
  range ← lift (range_for header file_type);
  match range with
  | Some (start, end_) =>
      remaining ← lift (checked_sub (end_ - start) read_from);
      mret (str_take remaining (str_drop (start + read_from) file))
  | None => throw NotFound
  end.

(** [read_dir] gives the entries of the directory itself. *)
Fixpoint archives_of_entries (entries : list (list string * entry)) : outcome (list name) :=
  match entries with
  | ([n], e) :: entries =>
      if is_utf8 n then
        if ends_with ".larch" n && (match e with FileEntry _ => true | DirEntry => false end) then
          id ← string_to_name (str_take (String.length n - 6) n);
          ids ← archives_of_entries entries;
          Ok (id :: ids)
        else archives_of_entries entries
      else Err InvalidData
  | _ :: entries => archives_of_entries entries
  | [] => Ok []
  end.

Definition dab_get_layer_names : io tree (list name) := λ t, (archives_of_entries (map_to_list t), t).

Definition dab_layer_exists (id : name) : io tree bool := λ t, (Ok (bool_decide (is_Some (t !! path_for_layer id))), t).

(** A directory in the place of an archive has no size here. *)
Definition dab_layer_size (id : name) : io tree nat := c ← open_read (path_for_layer id); mret (String.length c).

Definition dab_layer_file_exists (id : name) (file_type : LayerFileEnum) : io tree bool :=
  exists_ ← dab_layer_exists id;
  if exists_ : bool then
    file ← open_read (path_for_layer id);
    '(val, _) ← lift (read_u64 file);
    mret (is_present (presence_new val) file_type)
  else mret false.

Definition dab_get_layer_structure_size (id : name) (file_type : LayerFileEnum) : io tree nat :=
  file ← open_read (path_for_layer id);
  '(header, _) ← lift (header_parse_from_reader file);
  size ← lift (header_size_of header file_type);
  match size with Some size => mret size | None => throw NotFound end.

(** The lock on the layer is held to the end. *)
Definition dab_get_rollup (id : name) : io tree (option name) :=
  λ t, match (open_read (path_for_layer id) t).1 with
       | Err NotFound => (Ok None, t)
       | Ok _ =>
           match (open_read (path_for_rollup id) t).1 with
           | Err NotFound => (Ok None, t)
           | Ok data =>
               (if is_utf8 data then
                  name ← unwrap (lines data !! 1); name ← string_to_name name; Ok (Some name)
                else Err InvalidData, t)
           | Err e => (Err e, t)
           | Panic => (Panic, t)
           | NoFuel => (NoFuel, t)
           end
       | _ => (Panic, t)
       end.

Definition dab_set_rollup (id rollup : name) : io tree unit :=
  _ ← open_read (path_for_layer id);
  t ← read_state;
  match t !! path_for_rollup id with
  | Some DirEntry => throw Other
  | _ => write_state (<[path_for_rollup id := FileEntry (rollup_contents rollup)]> t)
  end.

Definition dab_get_parent (id : name) : io tree (option name) :=
  parent_bytes ← dab_get_layer_structure_bytes id Parent;
  match parent_bytes with
  | Some parent_bytes => parent ← lift (parent_of_bytes parent_bytes); mret (Some parent)
  | None => mret None
  end.

#[export] Instance directory_archive_backend : ArchiveBackend tree := {|
  get_layer_bytes := dab_get_layer_bytes;
  get_layer_structure_bytes := dab_get_layer_structure_bytes;
  store_layer_file := dab_store_layer_file;
  read_layer_structure_bytes_from := dab_read_layer_structure_bytes_from;
|}.

#[export] Instance directory_archive_metadata : ArchiveMetadataBackend tree := {|
  amb_get_layer_names := dab_get_layer_names;
  amb_layer_exists := dab_layer_exists;
  amb_layer_size := dab_layer_size;
  amb_layer_file_exists := dab_layer_file_exists;
  amb_get_layer_structure_size := dab_get_layer_structure_size;
  amb_get_rollup := dab_get_rollup;
  amb_set_rollup := dab_set_rollup;
  amb_get_parent := dab_get_parent;
|}.
End directory.

(** ** What a back end promises

    It holds the files of layers, and a rollup for some of them. *)
Notation layer_files := (gmap LayerFileEnum string).
Record archives := Archives { a_layers : gmap name layer_files; a_rollups : gmap name name }.

Definition add_layer (a : archives) (d : name) (fs : layer_files) : archives :=
  Archives (<[d := fs]> (a_layers a)) (a_rollups a).
Definition add_rollup (a : archives) (d r : name) : archives :=
  Archives (a_layers a) (<[d := r]> (a_rollups a)).

(** The result of an operation on the files of the layer [d]. *)
Definition of_layer {A} (a : archives) (d : name) (f : layer_files → outcome A) : outcome A :=
  match a_layers a !! d with Some fs => f fs | None => Err NotFound end.

Definition file_from (fs : layer_files) (f : LayerFileEnum) (read_from : nat) : outcome string :=
  match fs !! f with
  | Some c => if decide (read_from ≤ String.length c) then Ok (str_drop read_from c) else Panic
  | None => Err NotFound
  end.

Definition size_in (fs : layer_files) (f : LayerFileEnum) : outcome nat :=
  match fs !! f with Some c => Ok (String.length c) | None => Err NotFound end.

Definition archive_parent (fs : layer_files) : outcome (option name) :=
  match fs !! Parent with Some c => p ← parent_of_bytes c; Ok (Some p) | None => Ok None end.

Class ArchiveBackendLaws (B : Type) `{ArchiveOps, !ArchiveBackend B, !ArchiveMetadataBackend B} := {
  ab_rep : B → archives → Prop;
  ab_rep_wf s a d : ab_rep s a → is_Some (a_layers a !! d) → name_wf d;
  ab_rep_fits s a d fs : ab_rep s a → a_layers a !! d = Some fs → fits fs;
  get_layer_bytes_spec a d : name_wf d →
    returns ab_rep a (get_layer_bytes d) (of_layer a d (λ fs, Ok (layer_archive fs))) a;
  get_layer_structure_bytes_spec a d f : name_wf d →
    returns ab_rep a (get_layer_structure_bytes d f) (of_layer a d (λ fs, Ok (fs !! f))) a;
  read_layer_structure_bytes_from_spec a d f n : name_wf d →
    returns ab_rep a (read_layer_structure_bytes_from d f n) (of_layer a d (λ fs, file_from fs f n)) a;
  store_layer_file_spec a d fs : name_wf d → fits fs → a_layers a !! d = None →
    returns ab_rep a (store_layer_file d (layer_archive fs)) (Ok tt) (add_layer a d fs);
  layer_exists_spec a d : name_wf d →
    returns ab_rep a (amb_layer_exists d) (Ok (bool_decide (is_Some (a_layers a !! d)))) a;
  layer_size_spec a d : name_wf d →
    returns ab_rep a (amb_layer_size d) (of_layer a d (λ fs, Ok (String.length (layer_archive fs)))) a;
  layer_file_exists_spec a d f : name_wf d →
    returns ab_rep a (amb_layer_file_exists d f) (Ok (bool_decide (is_Some (a_layers a !! d ≫= (.!! f))))) a;
  get_layer_structure_size_spec a d f : name_wf d →
    returns ab_rep a (amb_get_layer_structure_size d f) (of_layer a d (λ fs, size_in fs f)) a;
  get_rollup_spec a d : name_wf d →
    returns ab_rep a (amb_get_rollup d) (Ok (a_layers a !! d ≫= λ _, a_rollups a !! d)) a;
  set_rollup_spec a d r : name_wf d → name_wf r → is_Some (a_layers a !! d) →
    returns ab_rep a (amb_set_rollup d r) (Ok tt) (add_rollup a d r);
  get_parent_spec a d : name_wf d →
    returns ab_rep a (amb_get_parent d) (of_layer a d archive_parent) a;
}.

(** ** The promise of [DirectoryArchiveBackend] *)

Lemma string_app_inj_r s1 s2 s : String.length s1 = String.length s2 → s1 +:+ s = s2 +:+ s → s1 = s2.
Proof. intros Hl He. by rewrite <- (str_take_app s1 s), He, Hl, str_take_app. Qed.

Lemma path_for_layer_inj d1 d2 : name_wf d1 → name_wf d2 → path_for_layer d1 = path_for_layer d2 → d1 = d2.
Proof.
  intros H1 H2 He%(f_equal (λ p, nth 1 p EmptyString)). apply name_to_string_inj; [done..|].
  eapply string_app_inj_r; [|exact He]. by rewrite !name_to_string_length.
Qed.

Lemma path_for_rollup_inj d1 d2 : name_wf d1 → name_wf d2 → path_for_rollup d1 = path_for_rollup d2 → d1 = d2.
Proof.
  intros H1 H2 He%(f_equal (λ p, nth 1 p EmptyString)). apply name_to_string_inj; [done..|].
  eapply string_app_inj_r; [|exact He]. by rewrite !name_to_string_length.
Qed.

Lemma layer_rollup_paths d1 d2 : path_for_layer d1 ≠ path_for_rollup d2.
Proof.
  intros He%(f_equal (λ p, String.length (nth 1 p EmptyString))). revert He. unfold path_for_layer, path_for_rollup. cbn [nth].
  rewrite !string_length_app, !name_to_string_length. done.
Qed.

Lemma rollup_contents_ascii r : all_ascii (rollup_contents r).
Proof.
  unfold rollup_contents. rewrite all_ascii_app. split; [done|]. split; [done|]. rewrite all_ascii_app.
  split; [apply name_to_string_ascii|done].
Qed.

Lemma is_utf8_ascii s : all_ascii s → is_utf8 s = true.
Proof. intros Hs. apply bool_decide_eq_true. by apply utf8_lossy_ascii. Qed.

Lemma rollup_contents_lines r : lines (rollup_contents r) !! 1 = Some (name_to_string r).
Proof.
  destruct (rollup_contents_named r) as [v Hv]. rewrite utf8_lossy_ascii in Hv by apply rollup_contents_ascii.
  by rewrite Hv.
Qed.

Section directory_laws.
Context `{ArchiveLaws}.

Record dab_rep (t : tree) (a : archives) : Prop := {
  dr_layer d : name_wf d → t !! path_for_layer d = (FileEntry ∘ layer_archive) <$> a_layers a !! d;
  dr_rollup d : name_wf d → t !! path_for_rollup d = (FileEntry ∘ rollup_contents) <$> a_rollups a !! d;
  dr_rollup_wf d r : a_rollups a !! d = Some r → name_wf r;
  dr_prefix d c : t !! take 1 (path_for_layer d) ≠ Some (FileEntry c);
  dr_names d : is_Some (a_layers a !! d) → name_wf d;
  dr_fits d fs : a_layers a !! d = Some fs → fits fs;
}.

Section layer.
Context (t : tree) (a : archives) (d : name) (Hr : dab_rep t a) (Hd : name_wf d).

Lemma dab_open_layer :
  open_read (path_for_layer d) t = (of_layer a d (λ fs, Ok (layer_archive fs)), t).
Proof. unfold open_read, of_layer. rewrite (dr_layer _ _ Hr d Hd). by destruct (a_layers a !! d). Qed.

Lemma dab_structure_bytes f :
  dab_get_layer_structure_bytes d f t = (of_layer a d (λ fs, Ok (fs !! f)), t).
Proof.
  unfold dab_get_layer_structure_bytes. eval_io. rewrite dab_open_layer. unfold of_layer.
  destruct (a_layers a !! d) as [fs|] eqn:Hfs; [|done].
  destruct (layer_archive_header_reader fs (dr_fits _ _ Hr _ _ Hfs)) as (h & -> & Hh). destruct (fs !! f) as [c|] eqn:Hf.
  - destruct (layer_range fs h Hh f c Hf) as (before & after & -> & ->).
    by rewrite Nat.add_sub', str_drop_app, read_exact_app.
  - by rewrite (layer_range_absent fs).
Qed.

Lemma dab_read_from f n :
  dab_read_layer_structure_bytes_from d f n t = (of_layer a d (λ fs, file_from fs f n), t).
Proof.
  unfold dab_read_layer_structure_bytes_from. eval_io. rewrite dab_open_layer. unfold of_layer, file_from.
  destruct (a_layers a !! d) as [fs|] eqn:Hfs; [|done].
  destruct (layer_archive_header_reader fs (dr_fits _ _ Hr _ _ Hfs)) as (h & -> & Hh). destruct (fs !! f) as [c|] eqn:Hf.
  - destruct (layer_range fs h Hh f c Hf) as (before & after & -> & ->).
    rewrite Nat.add_sub'. unfold checked_sub. case_decide as Hn; [|done].
    by rewrite (str_drop_middle before c after).
  - by rewrite (layer_range_absent fs).
Qed.

Lemma dab_size_of f :
  dab_get_layer_structure_size d f t = (of_layer a d (λ fs, size_in fs f), t).
Proof.
  unfold dab_get_layer_structure_size. eval_io. rewrite dab_open_layer. unfold of_layer, size_in.
  destruct (a_layers a !! d) as [fs|] eqn:Hfs; [|done].
  destruct (layer_archive_header_reader fs (dr_fits _ _ Hr _ _ Hfs)) as (h & -> & Hh). rewrite (layer_size_of fs) by done.
  by destruct (fs !! f).
Qed.

Lemma dab_file_exists f :
  dab_layer_file_exists d f t = (Ok (bool_decide (is_Some (a_layers a !! d ≫= (.!! f)))), t).
Proof.
  unfold dab_layer_file_exists, dab_layer_exists. pose proof (dr_layer _ _ Hr d Hd) as Hl. eval_io. rewrite Hl.
  destruct (a_layers a !! d) as [fs|]; [|done]. simpl in *. unfold open_read. rewrite Hl.
  destruct (read_presence fs) as (rest & ->). simpl.
  fold (from_present (sorted_files fs).*1). rewrite is_present_from. do 2 f_equal. apply bool_decide_ext, sorted_files_keys.
Qed.

Lemma dab_rollup_of : dab_get_rollup d t = (Ok (a_layers a !! d ≫= λ _, a_rollups a !! d), t).
Proof.
  unfold dab_get_rollup. rewrite dab_open_layer. unfold of_layer.
  destruct (a_layers a !! d) as [fs|]; [|reflexivity]. cbn [fst]. unfold open_read. rewrite (dr_rollup _ _ Hr d Hd).
  destruct (a_rollups a !! d) as [r|] eqn:Hro; [|reflexivity]. cbn [fst fmap option_fmap option_map compose].
  rewrite is_utf8_ascii by apply rollup_contents_ascii. rewrite rollup_contents_lines. cbn [unwrap mbind outcome_bind].
  rewrite string_to_name_to_string by (by eapply dr_rollup_wf). reflexivity.
Qed.

Lemma dab_parent_of : dab_get_parent d t = (of_layer a d archive_parent, t).
Proof.
  unfold dab_get_parent. eval_io. rewrite dab_structure_bytes. unfold of_layer, archive_parent.
  destruct (a_layers a !! d) as [fs|]; [|done]. destruct (fs !! Parent) as [c|]; [|done].
  by destruct (parent_of_bytes c).
Qed.

Lemma dab_rep_store fs p :
  fits fs → (p = t ∨ p = <[take 1 (path_for_layer d) := DirEntry]> t) →
  dab_rep (<[path_for_layer d := FileEntry (layer_archive fs)]> p) (add_layer a d fs).
Proof.
  intros Hfit Hpt. destruct Hr as [Hl Hro Hrw Hp Hn Hf].
  assert (∀ q, length q ≠ 1 → p !! q = t !! q) as Hpq.
  { intros q Hq. destruct Hpt as [->| ->]; [done|]. apply lookup_insert_ne. by intros <-. }
  split; simpl.
  - intros d' Hd'. destruct (decide (d = d')) as [<-|Hne]; [by rewrite !lookup_insert_eq|].
    rewrite !lookup_insert_ne, Hpq; [by apply Hl|done|done|]. by intros ?%path_for_layer_inj.
  - intros d' Hd'. rewrite lookup_insert_ne by apply layer_rollup_paths. rewrite Hpq by done. by apply Hro.
  - done.
  - intros d' c. rewrite lookup_insert_ne by done. destruct Hpt as [->| ->]; [apply Hp|].
    intros [[_ ?]|[_ Hc]]%lookup_insert_Some; [done|]. by apply Hp in Hc.
  - intros d' [fs' [[<- _]|[_ ?]]%lookup_insert_Some]; [done|]. apply Hn. eauto.
  - intros d' fs' [[_ <-]|[_ Hd']]%lookup_insert_Some; [done|by eapply Hf].
Qed.

Lemma dab_rep_rollup r :
  name_wf r → dab_rep (<[path_for_rollup d := FileEntry (rollup_contents r)]> t) (add_rollup a d r).
Proof.
  intros Hwf. destruct Hr as [Hl Hro Hrw Hp Hn Hf]. split; simpl.
  - intros d' Hd'. rewrite lookup_insert_ne by (intros He; by destruct (layer_rollup_paths d' d)). by apply Hl.
  - intros d' Hd'. destruct (decide (d = d')) as [<-|Hne]; [by rewrite !lookup_insert_eq|].
    rewrite !lookup_insert_ne; [by apply Hro|done|]. by intros ?%path_for_rollup_inj.
  - intros d' r' [[_ <-]|[_ ?]]%lookup_insert_Some; [done|]. by eapply Hrw.
  - intros d' c. rewrite lookup_insert_ne by done. apply Hp.
  - done.
  - done.
Qed.

Lemma dab_store fs :
  fits fs → a_layers a !! d = None →
  ∃ t', dab_store_layer_file d (layer_archive fs) t = (Ok tt, t') ∧ dab_rep t' (add_layer a d fs).
Proof.
  intros Hfit Hno. pose proof (dr_layer _ _ Hr d Hd) as Hl. rewrite Hno in Hl. simpl in Hl.
  pose proof (dr_prefix _ _ Hr d) as Hp. pose proof (λ p, dab_rep_store fs p Hfit) as Hs.
  unfold dab_store_layer_file, path_for_layer in *. cbn [removelast create_dir_all app take] in *. eval_io.
  destruct (t !! [_]) as [[c|]|] eqn:Hpre; [by destruct (Hp c)| |].
  - rewrite Hl. eexists. split; [done|]. apply Hs. by left.
  - rewrite lookup_insert_ne by done. rewrite Hl. eexists. split; [done|]. apply Hs. by right.
Qed.
End layer.

#[export] Program Instance directory_archive_laws : ArchiveBackendLaws tree := {| ab_rep := dab_rep |}.
Next Obligation. intros t a d Hr. apply (dr_names _ _ Hr). Qed.
Next Obligation. intros t a d fs Hr. apply (dr_fits _ _ Hr). Qed.
Next Obligation. intros a d Hd t Hr. exists t. split; [by apply dab_open_layer|done]. Qed.
Next Obligation. intros a d f Hd t Hr. exists t. split; [by apply dab_structure_bytes|done]. Qed.
Next Obligation. intros a d f n Hd t Hr. exists t. split; [by apply dab_read_from|done]. Qed.
Next Obligation. intros a d fs Hd Hfit Hno t Hr. by apply dab_store. Qed.
Next Obligation.
  intros a d Hd t Hr. exists t. split; [|done]. simpl. unfold dab_layer_exists.
  rewrite (dr_layer _ _ Hr d Hd). do 2 f_equal. apply bool_decide_ext. by rewrite fmap_is_Some.
Qed.
Next Obligation.
  intros a d Hd t Hr. exists t. split; [|done]. simpl. unfold dab_layer_size. eval_io.
  rewrite (dab_open_layer _ _ _ Hr Hd). unfold of_layer. by destruct (a_layers a !! d).
Qed.
Next Obligation. intros a d f Hd t Hr. exists t. split; [by apply dab_file_exists|done]. Qed.
Next Obligation. intros a d f Hd t Hr. exists t. split; [by apply dab_size_of|done]. Qed.
Next Obligation. intros a d Hd t Hr. exists t. split; [by apply dab_rollup_of|done]. Qed.
Next Obligation.
  intros a d r Hd Hwf [fs Hfs] t Hr. simpl. unfold dab_set_rollup. eval_io.
  rewrite (dab_open_layer _ _ _ Hr Hd). unfold of_layer. rewrite Hfs, (dr_rollup _ _ Hr d Hd).
  eexists. split; [by destruct (a_rollups a !! d)|]. by apply dab_rep_rollup.
Qed.
Next Obligation. intros a d Hd t Hr. exists t. split; [by apply dab_parent_of|done]. Qed.
End directory_laws.
