(* ===== verification/LruBackend.v ===== *)
(** [LruArchiveBackend] of [src/storage/archive.rs]: a back end that keeps whole
    archives in memory up to a limit, before another back end. The code is cut
    where it waits: each part that holds the lock of the cache is one definition.
    The feature [rollup_metadata_experimental] is off. *)

From S2P Require Import Prelude Names Text Files Consts LayerFiles LayerFileSpec LayerStores Archive ArchiveBackend.

(** ** The cache

    A layer that is being read is an entry with a barrier, that the reader holds
    until it is done: [Resolving] gives its index in the list of barriers. *)
Inductive CacheEntry :=
  | Resolving (barrier : nat)
  | Resolved (bytes : string).

Definition is_resolving (e : CacheEntry) : bool := match e with Resolving _ => true | Resolved _ => false end.

(** The crate [lru]. [lru_set] is an assignment through [get_mut]. *)
Class LruOps := {
  LruCache : Type;
  lru_unbounded : LruCache;
  lru_len : LruCache → nat;
  lru_get : name → LruCache → option CacheEntry * LruCache;
  lru_peek : name → LruCache → option CacheEntry;
  lru_contains : name → LruCache → bool;
  lru_peek_lru : LruCache → option (name * CacheEntry);
  lru_pop_lru : LruCache → option (name * CacheEntry) * LruCache;
  lru_promote : name → LruCache → LruCache;
  lru_demote : name → LruCache → LruCache;
  lru_put : name → CacheEntry → LruCache → LruCache;
  lru_get_or_insert : name → CacheEntry → LruCache → LruCache;
  lru_set : name → CacheEntry → LruCache → option LruCache;
}.

(** The entries from the most to the least recently used one. *)
Notation items := (list (name * CacheEntry)).
Definition without (k : name) (l : items) : items := filter (λ p, p.1 ≠ k) l.
Definition find (k : name) (l : items) : option CacheEntry := (list_to_map l : gmap name CacheEntry) !! k.
Definition to_front (k : name) (l : items) : items :=
  match find k l with Some e => (k, e) :: without k l | None => l end.
Definition to_back (k : name) (l : items) : items :=
  match find k l with Some e => without k l ++ [(k, e)] | None => l end.

Class LruLaws `{LruOps} := {
  lru_items : LruCache → items;
  lru_items_nodup c : NoDup (lru_items c).*1;
  lru_unbounded_spec : lru_items lru_unbounded = [];
  lru_len_spec c : lru_len c = length (lru_items c);
  lru_get_spec k c : (lru_get k c).1 = find k (lru_items c) ∧ lru_items (lru_get k c).2 = to_front k (lru_items c);
  lru_peek_spec k c : lru_peek k c = find k (lru_items c);
  lru_contains_spec k c : lru_contains k c = bool_decide (k ∈ (lru_items c).*1);
  lru_peek_lru_spec c : lru_peek_lru c = last (lru_items c);
  lru_pop_lru_spec c : (lru_pop_lru c).1 = last (lru_items c) ∧ lru_items (lru_pop_lru c).2 = removelast (lru_items c);
  lru_promote_spec k c : lru_items (lru_promote k c) = to_front k (lru_items c);
  lru_demote_spec k c : lru_items (lru_demote k c) = to_back k (lru_items c);
  lru_put_spec k e c : lru_items (lru_put k e c) = (k, e) :: without k (lru_items c);
  lru_get_or_insert_spec k e c :
    lru_items (lru_get_or_insert k e c) =
      (if decide (k ∈ (lru_items c).*1) then to_front k (lru_items c) else (k, e) :: lru_items c);
  lru_set_spec k e c :
    lru_items <$> lru_set k e c =
      (if decide (k ∈ (lru_items c).*1) then Some ((k, e) :: without k (lru_items c)) else None);
}.

(** ** Room in the cache *)

Definition usize_bound : N := 18446744073709551616.

(** [AtomicUsize::fetch_add] and [fetch_sub] wrap around. *)
Definition fetch_add (current n : N) : N := ((current + n) mod usize_bound)%N.
Definition fetch_sub (current n : N) : N := ((current + (usize_bound - n)) mod usize_bound)%N.

Definition byte_len (bytes : string) : N := N.of_nat (String.length bytes).

Section cache.
Context `{LruOps}.

(** The loop of [ensure_additional_cache_space] ([required] is not 0). *)
Fixpoint ensure_loop (fuel : nat) (cache : LruCache) (current required : N) : outcome unit * (LruCache * N) :=
  match fuel with
  | O => (NoFuel, (cache, current))
  | S fuel =>
      match lru_peek_lru cache with
      | None => (Panic, (cache, current))
      | Some (id, e) =>
          if is_resolving e then ensure_loop fuel (lru_promote id cache) current required
          else
            let '(entry, cache) := lru_pop_lru cache in
            match entry with
            | Some (_, Resolved entry) =>
                let current := fetch_sub current (byte_len entry) in
                if (required <=? byte_len entry)%N then (Ok tt, (cache, current))
                else ensure_loop fuel cache current (required - byte_len entry)
            | _ => (Panic, (cache, current))
            end
      end
  end.

Definition ensure_additional_cache_space (cache : LruCache) (current required : N) : outcome unit * (LruCache * N) :=
  if (required =? 0)%N then (Ok tt, (cache, current)) else ensure_loop (lru_len cache) cache current required.

Definition ensure_enough_cache_space (cache : LruCache) (limit current required : N) : outcome bool * (LruCache * N) :=
  if (limit <? required)%N then (Ok false, (cache, current))
  else
    let remaining := (limit - current)%N in
    if (remaining <? required)%N then
      let '(o, r) := ensure_additional_cache_space cache current (required - remaining) in
      ((_ ← o; Ok true), r)
    else (Ok true, (cache, current)).

Definition drop_from_cache (cache : LruCache) (id : name) (current : N) : outcome unit * (LruCache * N) :=
  if lru_contains id cache then
    let current :=
      match lru_peek_lru cache with
      | Some (k, Resolved bytes) => if decide (k = id) then fetch_sub current (byte_len bytes) else current
      | _ => current
      end in
    (Ok tt, ((lru_pop_lru (lru_demote id cache)).2, current))
  else (Panic, (cache, current)).

(** ** The shared state

    A barrier is locked for writing or not, and has a result or none. *)
Record lru_shared := Shared {
  sh_cache : LruCache;
  sh_current : N;
  sh_barriers : list (bool * option (outcome string));
}.

(** What [get_layer_bytes] finds in the cache. *)
Inductive looked := Hit (bytes : string) | Wait (barrier : nat) | Resolve (barrier : nat).

Definition look_up (id : name) (s : lru_shared) : looked * lru_shared :=
  let '(cached, cache) := lru_get id (sh_cache s) in
  match cached with
  | Some (Resolved bytes) => (Hit bytes, Shared cache (sh_current s) (sh_barriers s))
  | Some (Resolving barrier) => (Wait barrier, Shared cache (sh_current s) (sh_barriers s))
  | None =>
      let barrier := length (sh_barriers s) in
      (Resolve barrier,
       Shared (lru_get_or_insert id (Resolving barrier) cache) (sh_current s) (sh_barriers s ++ [(true, None)]))
  end.

(** The result of the origin for those who wait; an error by its kind. *)
Definition publish (barrier : nat) (lookup : outcome string) (s : lru_shared) : lru_shared :=
  Shared (sh_cache s) (sh_current s) (<[barrier := (true, Some lookup)]> (sh_barriers s)).

Definition release (barrier : nat) (s : lru_shared) : lru_shared :=
  Shared (sh_cache s) (sh_current s) (alter (λ b, (false, b.2)) barrier (sh_barriers s)).

(** After the lookup: the entry is resolved or dropped, and the barrier released. *)
Definition settle (limit_bytes : N) (id : name) (barrier : nat) (lookup : outcome string) (s : lru_shared)
    : outcome string * lru_shared :=
  let '(o, s) :=
    match lookup with
    | Ok bytes =>
        let '(fits, (cache, current)) :=
          ensure_enough_cache_space (sh_cache s) limit_bytes (sh_current s) (byte_len bytes) in
        match fits with
        | Ok true =>
            match lru_set id (Resolved bytes) cache with
            | Some cache => (Ok bytes, Shared cache (fetch_add current (byte_len bytes)) (sh_barriers s))
            | None => (Panic, Shared cache current (sh_barriers s))
            end
        | Ok false =>
            let '(o, (cache, current)) := drop_from_cache cache id current in
            ((_ ← o; Ok bytes), Shared cache current (sh_barriers s))
        | Err e => (Err e, Shared cache current (sh_barriers s))
        | Panic => (Panic, Shared cache current (sh_barriers s))
        | NoFuel => (NoFuel, Shared cache current (sh_barriers s))
        end
    | Err e =>
        let '(o, (cache, current)) := drop_from_cache (sh_cache s) id (sh_current s) in
        ((_ ← o; Err e), Shared cache current (sh_barriers s))
    | Panic => (Panic, s)
    | NoFuel => (NoFuel, s)
    end in
  (o, release barrier s).

(** What one who waited reads from the barrier; none while it is locked. *)
Definition await (barrier : nat) (s : lru_shared) : option (outcome string) :=
  match sh_barriers s !! barrier with
  | Some (false, Some lookup) => Some lookup
  | Some (false, None) => Some Panic
  | _ => None
  end.

(** The end of [store_layer_file]. *)
Definition keep_stored (limit_bytes : N) (id : name) (bytes : string) (s : lru_shared) : outcome unit * lru_shared :=
  if lru_contains id (sh_cache s) then (Ok tt, s)
  else
    let '(fits, (cache, current)) :=
      ensure_enough_cache_space (sh_cache s) limit_bytes (sh_current s) (byte_len bytes) in
    match fits with
    | Ok true =>
        (Ok tt, Shared (lru_put id (Resolved bytes) cache) (fetch_add current (byte_len bytes)) (sh_barriers s))
    | o => ((_ ← o; Ok tt), Shared cache current (sh_barriers s))
    end.

(** [evict_to_target]; [target] is the fraction of the limit. *)
Definition evict_to_target (limit_bytes target : N) (s : lru_shared) : outcome unit * lru_shared :=
  if (limit_bytes =? 0)%N then (Ok tt, s)
  else if (target <? sh_current s)%N then
    let '(o, (cache, current)) :=
      ensure_additional_cache_space (sh_cache s) (sh_current s) (sh_current s - target) in
    (o, Shared cache current (sh_barriers s))
  else (Ok tt, s).

Definition peek_resolved (id : name) (s : lru_shared) : option string :=
  match lru_peek id (sh_cache s) with Some (Resolved bytes) => Some bytes | _ => None end.
End cache.

(** ** Lists of entries *)

Lemma find_elem l k e : NoDup l.*1 → find k l = Some e ↔ (k, e) ∈ l.
Proof. intros Hl. unfold find. symmetry. by apply elem_of_list_to_map. Qed.

Lemma find_None l k : find k l = None ↔ k ∉ l.*1.
Proof. unfold find. symmetry. apply not_elem_of_list_to_map. Qed.

Lemma without_absent k l : k ∉ l.*1 → without k l = l.
Proof.
  unfold without. induction l as [|[j e] l IH]; [done|]. csimpl. intros [Hj Hl]%not_elem_of_cons.
  rewrite filter_cons_True by (simpl; congruence). by rewrite IH.
Qed.

Lemma without_elem k l p : p ∈ without k l ↔ p.1 ≠ k ∧ p ∈ l.
Proof. unfold without. by rewrite list_elem_of_filter. Qed.

Lemma without_last k e l : k ∉ l.*1 → without k (l ++ [(k, e)]) = l.
Proof.
  intros Hk. unfold without. rewrite filter_app. fold (without k l). rewrite without_absent by done.
  rewrite filter_cons_False by (simpl; tauto). apply app_nil_r.
Qed.

(** The bytes in the entries. *)
Definition entry_len (e : CacheEntry) : N := match e with Resolved bytes => byte_len bytes | Resolving _ => 0%N end.
Fixpoint sizes (l : items) : N := match l with [] => 0%N | (_, e) :: l => (entry_len e + sizes l)%N end.

Lemma sizes_app l1 l2 : sizes (l1 ++ l2) = (sizes l1 + sizes l2)%N.
Proof. induction l1 as [|[k e] l1 IH]; simpl; lia. Qed.

#[export] Instance sizes_proper : Proper ((≡ₚ) ==> eq) sizes.
Proof. intros l1 l2 Hp. induction Hp as [|[] ? ? ? ?|[] [] ?|]; simpl in *; lia. Qed.

Lemma sizes_resolving l : Forall (λ p, is_resolving p.2 = true) l → sizes l = 0%N.
Proof. induction 1 as [|[k []] l He _ IH]; simpl in *; [done|done|done]. Qed.

(** An entry moved or taken out. *)
Lemma without_perm k e l : NoDup l.*1 → (k, e) ∈ l → l ≡ₚ (k, e) :: without k l.
Proof.
  intros Hl He. apply list_elem_of_split in He as (l1 & l2 & ->).
  rewrite fmap_app, fmap_cons, NoDup_app, NoDup_cons in Hl. destruct Hl as (_ & Hd & Hk & _).
  unfold without. rewrite filter_app, filter_cons_False by (simpl; tauto).
  fold (without k l1) (without k l2). rewrite !without_absent; [|done|].
  - by rewrite Permutation_middle.
  - intros Hin. apply (Hd k Hin). by left.
Qed.

Lemma to_front_perm k l : NoDup l.*1 → to_front k l ≡ₚ l.
Proof.
  intros Hl. unfold to_front. destruct (find k l) as [e|] eqn:He; [|done].
  apply find_elem in He; [|done]. by rewrite <- without_perm.
Qed.

Lemma to_back_perm k l : NoDup l.*1 → to_back k l ≡ₚ l.
Proof.
  intros Hl. unfold to_back. destruct (find k l) as [e|] eqn:He; [|done].
  apply find_elem in He; [|done]. rewrite <- Permutation_cons_append. by rewrite <- without_perm.
Qed.

Lemma without_nodup k l : NoDup l.*1 → NoDup (without k l).*1 ∧ k ∉ (without k l).*1.
Proof.
  intros Hl. split.
  - eapply sublist_NoDup; [exact Hl|]. apply fmap_sublist, sublist_filter.
  - intros ([j e] & -> & [Hne _]%without_elem)%list_elem_of_fmap. done.
Qed.

(** [shrunk l l']: only entries with bytes were taken out. *)
Definition shrunk (l l' : items) : Prop :=
  (∀ p, p ∈ l' → p ∈ l) ∧ ∀ k b, (k, Resolving b) ∈ l → (k, Resolving b) ∈ l'.

Lemma shrunk_refl l : shrunk l l.
Proof. by split. Qed.

Lemma shrunk_trans l1 l2 l3 : shrunk l1 l2 → shrunk l2 l3 → shrunk l1 l3.
Proof. intros [A1 A2] [B1 B2]. split; auto. Qed.

Lemma shrunk_perm l l' : l ≡ₚ l' → shrunk l l'.
Proof. intros Hp. split; intros *; by rewrite Hp. Qed.

(** ** Making room *)

Section room.
Context `{LruLaws}.

(** Entries are taken from the end; what was passed over is at the front. *)
Lemma ensure_loop_spec l : ∀ passed cache current required fuel,
  lru_items cache = passed ++ l → Forall (λ p, is_resolving p.2 = true) passed → length l ≤ fuel →
  (0 < required ≤ sizes l)%N → (sizes l ≤ current < usize_bound)%N →
  ∃ cache' current' freed, ensure_loop fuel cache current required = (Ok tt, (cache', current')) ∧
    shrunk (lru_items cache) (lru_items cache') ∧ (required ≤ freed)%N ∧
    (sizes (lru_items cache') + freed = sizes (lru_items cache))%N ∧ (current' + freed = current)%N.
Proof.
  induction l as [|[k e] l IH] using rev_ind; intros passed cache current required fuel Hi Hp Hf Hreq Hcur.
  { simpl in Hreq. lia. }
  rewrite length_app in Hf. simpl in Hf. destruct fuel as [|fuel]; [lia|]. rewrite app_assoc in Hi.
  cbn [ensure_loop]. rewrite lru_peek_lru_spec, Hi, last_snoc.
  pose proof (lru_items_nodup cache) as Hnd. rewrite Hi, fmap_app in Hnd. apply NoDup_app in Hnd as (Hnd & Hk & _).
  assert (k ∉ (passed ++ l).*1) as Hkl by (intros Hin; apply (Hk k Hin); by left).
  rewrite sizes_app in Hreq, Hcur. simpl in Hreq, Hcur. destruct e as [b|bytes]; simpl.
  - assert (lru_items (lru_promote k cache) = ((k, Resolving b) :: passed) ++ l) as Hi'.
    { rewrite lru_promote_spec. unfold to_front.
      assert (find k (lru_items cache) = Some (Resolving b)) as ->.
      { rewrite find_elem by apply lru_items_nodup. rewrite Hi, elem_of_app. right. by left. }
      by rewrite Hi, without_last. }
    destruct (IH _ _ current required fuel Hi') as (cache' & current' & freed & He & Hs & Hfr & Hsz & Hc);
      [by constructor|lia|simpl in *; lia..|].
    exists cache', current', freed. split_and!; [done| |done| |done].
    + eapply shrunk_trans; [|exact Hs]. apply shrunk_perm. rewrite Hi'. simpl. by rewrite <- Permutation_cons_append.
    + rewrite Hsz, Hi', !sizes_app. simpl. lia.
  - destruct (lru_pop_lru_spec cache) as [Hp1 Hp2]. rewrite Hi in Hp1, Hp2.
    rewrite last_snoc in Hp1. rewrite removelast_last in Hp2.
    destruct (lru_pop_lru cache) as [entry cache1]. simpl in Hp1, Hp2. subst entry.
    assert (fetch_sub current (byte_len bytes) = current - byte_len bytes)%N as Hfs.
    { unfold fetch_sub. simpl in Hcur.
      replace (current + (usize_bound - byte_len bytes))%N with ((current - byte_len bytes) + 1 * usize_bound)%N by lia.
      rewrite N.Div0.mod_add, N.mod_small; lia. }
    assert (shrunk ((passed ++ l) ++ [(k, Resolved bytes)]) (lru_items cache1)) as Hs1.
    { rewrite Hp2. split; [intros p Hin; apply elem_of_app; by left|].
      intros j b [Hin|[= ]%list_elem_of_singleton]%elem_of_app. done. }
    simpl in Hreq, Hcur. rewrite Hfs. case_match eqn:Hle.
    + apply N.leb_le in Hle. eexists _, _, (byte_len bytes). split_and!; [done|done|done| |lia].
      rewrite Hp2, !sizes_app. simpl. lia.
    + apply N.leb_gt in Hle.
      destruct (IH passed cache1 (current - byte_len bytes)%N (required - byte_len bytes)%N fuel Hp2)
        as (cache' & current' & freed & He & Hs & Hfr & Hsz & Hc); [done|lia..|].
      exists cache', current', (freed + byte_len bytes)%N. split_and!; [done|by eapply shrunk_trans|lia| |lia].
      rewrite Hp2, sizes_app in Hsz. rewrite !sizes_app. simpl. lia.
Qed.

Lemma ensure_additional_spec cache current required :
  (required ≤ sizes (lru_items cache))%N → (sizes (lru_items cache) ≤ current < usize_bound)%N →
  ∃ cache' current' freed, ensure_additional_cache_space cache current required = (Ok tt, (cache', current')) ∧
    shrunk (lru_items cache) (lru_items cache') ∧ (required ≤ freed)%N ∧
    (sizes (lru_items cache') + freed = sizes (lru_items cache))%N ∧ (current' + freed = current)%N.
Proof.
  intros Hr Hc. unfold ensure_additional_cache_space. case_match eqn:Hz.
  - apply N.eqb_eq in Hz. exists cache, current, 0%N. split_and!; [done|apply shrunk_refl|lia..].
  - apply N.eqb_neq in Hz. apply (ensure_loop_spec (lru_items cache) []); [done|constructor| |lia|done].
    by rewrite lru_len_spec.
Qed.

(** Bytes that fit find room; there is no change for others. *)
Lemma ensure_enough_spec cache limit current n :
  current = sizes (lru_items cache) → (current ≤ limit < usize_bound)%N →
  if (limit <? n)%N then ensure_enough_cache_space cache limit current n = (Ok false, (cache, current))
  else ∃ cache' current', ensure_enough_cache_space cache limit current n = (Ok true, (cache', current')) ∧
    shrunk (lru_items cache) (lru_items cache') ∧ current' = sizes (lru_items cache') ∧ (current' + n ≤ limit)%N.
Proof.
  intros Hc Hl. unfold ensure_enough_cache_space. case_match eqn:Hbig; [done|]. apply N.ltb_ge in Hbig.
  case_match eqn:Hrem; [apply N.ltb_lt in Hrem|apply N.ltb_ge in Hrem].
  - destruct (ensure_additional_spec cache current (n - (limit - current))%N) as (cache' & current' & freed & -> & Hs & ?); [lia..|].
    exists cache', current'. split_and!; [done|done|lia..].
  - exists cache, current. split_and!; [done|apply shrunk_refl|done|lia].
Qed.

Lemma drop_resolving_spec cache id b current :
  (id, Resolving b) ∈ lru_items cache →
  ∃ cache', drop_from_cache cache id current = (Ok tt, (cache', current)) ∧ lru_items cache' = without id (lru_items cache).
Proof.
  intros Hin. pose proof (lru_items_nodup cache) as Hnd. unfold drop_from_cache.
  rewrite lru_contains_spec, bool_decide_eq_true_2 by (by apply list_elem_of_fmap; exists (id, Resolving b)).
  eexists. split.
  - do 3 f_equal. rewrite lru_peek_lru_spec. destruct (last _) as [[k [|bytes]]|] eqn:Hlast; [done| |done].
    case_decide as Hk; [|done]. subst k. apply last_Some_elem_of in Hlast.
    apply find_elem in Hlast, Hin; [|done..]. congruence.
  - destruct (lru_pop_lru_spec (lru_demote id cache)) as [_ ->]. rewrite lru_demote_spec. unfold to_back.
    apply find_elem in Hin as ->; [|done]. apply removelast_last.
Qed.
End room.

(** ** The state of the cache

    [own id b] when somebody resolves the layer [id] with the barrier [b]. *)
Section state.
Context `{LruLaws, ArchiveOps}.
Context (limit : N) (Hlimit : (limit < usize_bound)%N).

Record cache_inv (a : archives) (own : name → nat → Prop) (s : lru_shared) : Prop := {
  ci_resolving k b : (k, Resolving b) ∈ lru_items (sh_cache s) ↔ own k b;
  ci_resolved k bytes : (k, Resolved bytes) ∈ lru_items (sh_cache s) →
    ∃ fs, a_layers a !! k = Some fs ∧ bytes = layer_archive fs;
  ci_current : sh_current s = sizes (lru_items (sh_cache s));
  ci_limit : (sh_current s ≤ limit)%N;
}.

Lemma cache_inv_shrunk a own cache current barriers cache' current' barriers' :
  cache_inv a own (Shared cache current barriers) → shrunk (lru_items cache) (lru_items cache') →
  current' = sizes (lru_items cache') → (current' ≤ limit)%N →
  cache_inv a own (Shared cache' current' barriers').
Proof.
  intros [Hr Hd _ _] [Hs1 Hs2] Hc Hl. split; simpl in *; [|by eauto|done|done].
  intros k b. rewrite <- Hr. split; auto.
Qed.

Lemma cache_inv_barriers a own s barriers :
  cache_inv a own s → cache_inv a own (Shared (sh_cache s) (sh_current s) barriers).
Proof. by intros []. Qed.

Lemma cache_inv_more a own s id fs :
  cache_inv a own s → a_layers a !! id = None → cache_inv (add_layer a id fs) own s.
Proof.
  intros [Hr Hd Hc Hl] Hno. split; [done| |done|done]. intros k bytes (fs' & Hk & ->)%Hd. exists fs'. split; [|done].
  simpl. rewrite lookup_insert_ne; [done|]. intros ->. congruence.
Qed.

(** An entry that is not being resolved gets bytes. *)
Lemma cache_inv_put a own cache cache' current barriers id fs :
  let bytes := layer_archive fs in
  cache_inv a own (Shared cache current barriers) → a_layers a !! id = Some fs →
  lru_items cache' = (id, Resolved bytes) :: without id (lru_items cache) →
  sizes (without id (lru_items cache)) = current → (current + byte_len bytes ≤ limit)%N →
  cache_inv a (λ k b, own k b ∧ k ≠ id) (Shared cache' (fetch_add current (byte_len bytes)) barriers).
Proof.
  intros bytes [Hr Hd Hc Hl] Hid Hi Hsz Hle. simpl in *.
  assert (fetch_add current (byte_len bytes) = current + byte_len bytes)%N as Hadd.
  { unfold fetch_add. apply N.mod_small. lia. }
  split; simpl; rewrite ?Hi, ?Hadd.
  - intros k b. rewrite elem_of_cons, without_elem, Hr. simpl. naive_solver.
  - intros k bs [[= -> ->]|[_ Hin]%without_elem]%elem_of_cons; eauto.
  - simpl. lia.
  - lia.
Qed.

Lemma without_size k l : NoDup l.*1 → (∀ bytes, (k, Resolved bytes) ∉ l) → sizes (without k l) = sizes l.
Proof.
  intros Hnd Hno. destruct (decide (k ∈ l.*1)) as [Hin|Hout]; [|by rewrite without_absent].
  apply list_elem_of_fmap in Hin as ([j e] & -> & Hin). simpl in *.
  rewrite (without_perm j e l) at 2 by done. destruct e as [b|bytes]; [done|]. by destruct (Hno bytes).
Qed.

Lemma own_not_resolved a own s id b bytes :
  cache_inv a own s → own id b → (id, Resolved bytes) ∉ lru_items (sh_cache s).
Proof.
  intros Hi Hb%(ci_resolving _ _ _ Hi) Hin. pose proof (lru_items_nodup (sh_cache s)) as Hnd.
  apply find_elem in Hb, Hin; [|done..]. congruence.
Qed.

Lemma own_unique a own s id b b' : cache_inv a own s → own id b → own id b' → b = b'.
Proof.
  intros Hi Hb%(ci_resolving _ _ _ Hi) Hb'%(ci_resolving _ _ _ Hi).
  pose proof (lru_items_nodup (sh_cache s)) as Hnd. apply find_elem in Hb, Hb'; [|done..]. congruence.
Qed.

Lemma own_gone a own s id b :
  cache_inv a own s → own id b → ∀ k b', own k b' ∧ k ≠ id ↔ own k b' ∧ (k, b') ≠ (id, b).
Proof.
  intros Hi Hb k b'. split; intros [Hk Hne]; (split; [done|]); [naive_solver|].
  intros ->. apply Hne. f_equal. by eapply own_unique.
Qed.

(** *** Each part preserves the invariant *)

Lemma look_up_spec a own id s :
  cache_inv a own s →
  let '(r, s') := look_up id s in
  match r with
  | Hit bytes => (∃ fs, a_layers a !! id = Some fs ∧ bytes = layer_archive fs) ∧
      sh_barriers s' = sh_barriers s ∧ cache_inv a own s'
  | Wait b => own id b ∧ sh_barriers s' = sh_barriers s ∧ cache_inv a own s'
  | Resolve b => b = length (sh_barriers s) ∧ sh_barriers s' = sh_barriers s ++ [(true, None)] ∧
      cache_inv a (λ k b', own k b' ∨ (k = id ∧ b' = b)) s'
  end.
Proof.
  intros Hi. unfold look_up. destruct (lru_get_spec id (sh_cache s)) as [Hg1 Hg2].
  destruct (lru_get id (sh_cache s)) as [cached cache]. simpl in Hg1, Hg2.
  pose proof (lru_items_nodup (sh_cache s)) as Hnd. pose proof (to_front_perm id _ Hnd) as Hp.
  assert (cache_inv a own (Shared cache (sh_current s) (sh_barriers s))) as Hi'.
  { destruct Hi as [Hr Hd Hc Hl]. split; simpl; rewrite ?Hg2.
    - intros k b. by rewrite Hp.
    - intros k bytes. rewrite Hp. apply Hd.
    - by rewrite Hp.
    - done. }
  destruct cached as [[b|bytes]|].
  - symmetry in Hg1. apply find_elem in Hg1; [|done]. split_and!; [by apply (ci_resolving _ _ _ Hi)|done|done].
  - symmetry in Hg1. apply find_elem in Hg1; [|done]. split_and!; [by apply (ci_resolved _ _ _ Hi)|done|done].
  - symmetry in Hg1. apply find_None in Hg1.
    assert (lru_items (lru_get_or_insert id (Resolving (length (sh_barriers s))) cache) =
            (id, Resolving (length (sh_barriers s))) :: lru_items cache) as He.
    { rewrite lru_get_or_insert_spec, decide_False; [done|]. by rewrite Hg2, Hp. }
    split_and!; [done|done|]. destruct Hi' as [Hr Hd Hc Hl]. simpl in *. split; simpl; rewrite ?He; [| |done|done].
    + intros k b. rewrite elem_of_cons, Hr. naive_solver.
    + intros k bytes [[=]|Hin]%elem_of_cons. by apply Hd.
Qed.

(** What the origin answers for a layer. *)
Definition origin_answer (a : archives) (id : name) (lookup : outcome string) : Prop :=
  match lookup with
  | Ok bytes => ∃ fs, a_layers a !! id = Some fs ∧ bytes = layer_archive fs
  | Err e => e = NotFound
  | Panic | NoFuel => False
  end.

Lemma drop_inv a own cache current barriers id b :
  cache_inv a own (Shared cache current barriers) → own id b →
  ∃ cache', drop_from_cache cache id current = (Ok tt, (cache', current)) ∧
    ∀ bs, cache_inv a (λ k b', own k b' ∧ k ≠ id) (Shared cache' current bs).
Proof.
  intros Hi Hb. pose proof (ci_resolving _ _ _ Hi) as Hr. simpl in Hr.
  destruct (drop_resolving_spec cache id b current) as (cache' & -> & Hc); [by apply Hr|].
  exists cache'. split; [done|]. intros bs. pose proof Hi as [_ Hd Hcur Hl]. simpl in *. split; simpl; rewrite ?Hc.
  - intros k b'. rewrite without_elem, Hr. simpl. tauto.
  - intros k bytes [_ Hin]%without_elem. by apply Hd.
  - rewrite Hcur. symmetry. apply without_size; [apply lru_items_nodup|]. intros bytes.
    apply (own_not_resolved a own (Shared cache current barriers) id b bytes); done.
  - done.
Qed.

(** The one who resolves gets what the origin answered, and nobody resolves the
    layer any more. *)
Lemma settle_spec a own id b lookup s :
  cache_inv a own s → own id b → origin_answer a id lookup →
  ∃ s', settle limit id b lookup s = (lookup, s') ∧
    sh_barriers s' = alter (λ x, (false, x.2)) b (sh_barriers s) ∧
    cache_inv a (λ k b', own k b' ∧ k ≠ id) s'.
Proof.
  intros Hi Hb Hans. destruct s as [cache current barriers]. unfold settle. simpl.
  destruct lookup as [bytes|e| |]; [|by destruct (drop_inv _ _ _ _ _ _ _ Hi Hb) as (cache' & -> & Hc); eauto|done..].
  pose proof (ci_current _ _ _ Hi) as Hc. pose proof (ci_limit _ _ _ Hi) as Hl. simpl in Hc, Hl.
  pose proof (ensure_enough_spec cache limit current (byte_len bytes) Hc (conj Hl Hlimit)) as He.
  destruct (limit <? byte_len bytes)%N.
  - rewrite He. destruct (drop_inv _ _ _ _ _ _ _ Hi Hb) as (cache' & -> & Hd). eauto.
  - destruct He as (cache1 & current1 & -> & Hs & Hc1 & Hl1). destruct Hans as (fs & Hfs & ->).
    assert (cache_inv a own (Shared cache1 current1 barriers)) as Hi1 by (eapply cache_inv_shrunk; [done..|lia]).
    assert ((id, Resolving b) ∈ lru_items cache1) as Hin by by apply (ci_resolving _ _ _ Hi1).
    pose proof (lru_set_spec id (Resolved (layer_archive fs)) cache1) as Hset.
    rewrite decide_True in Hset by (apply list_elem_of_fmap; by exists (id, Resolving b)).
    apply fmap_Some in Hset as (cache2 & -> & Hset). eexists. split_and!; [done|done|].
    apply (cache_inv_barriers _ _ (Shared cache2 _ barriers)), (cache_inv_put a own cache1 cache2 current1 barriers id fs); [done|done|done| |done]. rewrite Hc1. apply without_size; [apply lru_items_nodup|].
    intros bs. by eapply (own_not_resolved _ _ _ _ _ _ Hi1).
Qed.

Lemma keep_stored_spec a own id fs s :
  cache_inv a own s → a_layers a !! id = Some fs →
  ∃ s', keep_stored limit id (layer_archive fs) s = (Ok tt, s') ∧ sh_barriers s' = sh_barriers s ∧ cache_inv a own s'.
Proof.
  intros Hi Hfs. destruct s as [cache current barriers]. unfold keep_stored. simpl.
  rewrite lru_contains_spec. case_bool_decide as Hin; [by eauto|].
  pose proof (ci_current _ _ _ Hi) as Hc. pose proof (ci_limit _ _ _ Hi) as Hl. simpl in Hc, Hl.
  pose proof (ensure_enough_spec cache limit current (byte_len (layer_archive fs)) Hc (conj Hl Hlimit)) as He.
  destruct (limit <? _)%N; [rewrite He; by eauto|].
  destruct He as (cache1 & current1 & -> & Hs & Hc1 & Hl1). eexists. split_and!; [done|done|].
  assert (cache_inv a own (Shared cache1 current1 barriers)) as Hi1 by (eapply cache_inv_shrunk; [done..|lia]).
  assert (id ∉ (lru_items cache1).*1) as Hout.
  { intros (p & -> & Hp)%list_elem_of_fmap. apply Hin, list_elem_of_fmap. exists p. split; [done|]. by apply Hs. }
  assert (cache_inv a (λ k b, own k b ∧ k ≠ id) (Shared (lru_put id (Resolved (layer_archive fs)) cache1)
            (fetch_add current1 (byte_len (layer_archive fs))) barriers)) as [Hr Hd Hcu Hli].
  { apply (cache_inv_put a own cache1); [done|done|by rewrite lru_put_spec| |done]. by rewrite without_absent. }
  split; [|done..]. intros k b. rewrite Hr. split; [by intros []|]. intros Hk. split; [done|]. intros ->.
  apply Hout, list_elem_of_fmap. exists (id, Resolving b). split; [done|]. by apply (ci_resolving _ _ _ Hi1).
Qed.

Lemma evict_spec a own target s :
  cache_inv a own s →
  ∃ s', evict_to_target limit target s = (Ok tt, s') ∧ sh_barriers s' = sh_barriers s ∧ cache_inv a own s' ∧
    (limit = 0 ∨ sh_current s' ≤ target)%N.
Proof.
  intros Hi. destruct s as [cache current barriers]. unfold evict_to_target. simpl.
  pose proof (ci_current _ _ _ Hi) as Hc. pose proof (ci_limit _ _ _ Hi) as Hl. simpl in Hc, Hl.
  case_match eqn:Hz; [apply N.eqb_eq in Hz; eauto 10|].
  case_match eqn:Ht; [apply N.ltb_lt in Ht|apply N.ltb_ge in Ht; eauto 10].
  destruct (ensure_additional_spec cache current (current - target)%N) as (cache' & current' & freed & -> & Hs & ?); [lia..|].
  eexists. split_and!; [done|done| |right; simpl; lia]. eapply cache_inv_shrunk; [done|done|lia..].
Qed.

Lemma peek_resolved_spec a own id s bytes :
  cache_inv a own s → peek_resolved id s = Some bytes →
  ∃ fs, a_layers a !! id = Some fs ∧ bytes = layer_archive fs.
Proof.
  intros Hi. unfold peek_resolved. rewrite lru_peek_spec. destruct (find _ _) as [[|]|] eqn:Hf; try done.
  intros [= ->]. apply find_elem in Hf; [|apply lru_items_nodup]. by eapply (ci_resolved _ _ _ Hi).
Qed.
End state.
