(* ===== verification/LruArchive.v ===== *)
(** [LruArchiveBackend] as a back end: its operations when nobody else is in the
    middle of one, with the proof that they answer as the origin does; the
    interleavings are in [LruConcurrent]. *)

From S2P Require Import Prelude Names Text Files Consts LayerFiles LayerFileSpec LayerStores Archive ArchiveBackend LruBackend.

(** [limit] is in megabytes; the two origins of the code share their state. *)
Record LruArchiveBackend `{LruOps} (O : Type) := Lru {
  lru_limit : N;
  lru_state : lru_shared;
  lru_origin : O;
}.
Arguments Lru {_ O} _ _ _.
Arguments lru_limit {_ O} _.
Arguments lru_state {_ O} _.
Arguments lru_origin {_ O} _.

Section operations.
Context `{LruOps, ArchiveOps} {O : Type} `{!ArchiveBackend O, !ArchiveMetadataBackend O}.

Definition lru_new (origin : O) (limit : N) : LruArchiveBackend O := Lru limit (Shared lru_unbounded 0 []) origin.

Definition limit_bytes (w : LruArchiveBackend O) : N := (lru_limit w * 1024 * 1024)%N.
Definition used_bytes (w : LruArchiveBackend O) : N := sh_current (lru_state w).

Definition on_origin {A} (m : io O A) : io (LruArchiveBackend O) A :=
  λ w, let '(o, origin) := m (lru_origin w) in (o, Lru (lru_limit w) (lru_state w) origin).

Definition on_state {A} (f : N → lru_shared → outcome A * lru_shared) : io (LruArchiveBackend O) A :=
  λ w, let '(o, state) := f (limit_bytes w) (lru_state w) in (o, Lru (lru_limit w) state (lru_origin w)).

(** Who waits for a barrier that nobody will release makes no progress. *)
Definition lru_get_layer_bytes (id : name) : io (LruArchiveBackend O) string :=
  found ← on_state (λ _ s, let '(found, s) := look_up id s in (Ok found, s));
  match found with
  | Hit bytes => mret bytes
  | Wait barrier =>
      on_state (λ _ s, (match await barrier s with Some lookup => lookup | None => NoFuel end, s))
  | Resolve barrier =>
      λ w,
        let '(lookup, w) := on_origin (get_layer_bytes id) w in
        match lookup with
        | Ok _ | Err _ => on_state (λ limit s, settle limit id barrier lookup (publish barrier lookup s)) w
        | _ => on_state (λ _ s, (lookup, release barrier s)) w
        end
  end.

Definition lru_layer_exists (id : name) : io (LruArchiveBackend O) bool :=
  cached ← on_state (λ _ s, (Ok (peek_resolved id s), s));
  match cached with Some _ => mret true | None => on_origin (amb_layer_exists id) end.

Definition lru_layer_size (id : name) : io (LruArchiveBackend O) nat :=
  cached ← on_state (λ _ s, (Ok (peek_resolved id s), s));
  match cached with Some bytes => mret (String.length bytes) | None => on_origin (amb_layer_size id) end.

Definition lru_layer_file_exists (id : name) (file_type : LayerFileEnum) : io (LruArchiveBackend O) bool :=
  cached ← on_state (λ _ s, (Ok (peek_resolved id s), s));
  match cached with
  | Some bytes => '(val, _) ← lift (get_u64 bytes); mret (is_present (presence_new val) file_type)
  | None => on_origin (amb_layer_file_exists id file_type)
  end.

Definition lru_get_layer_structure_size (id : name) (file_type : LayerFileEnum) : io (LruArchiveBackend O) nat :=
  cached ← on_state (λ _ s, (Ok (peek_resolved id s), s));
  match cached with
  | Some bytes =>
      '(header, _) ← lift (header_parse bytes);
      size ← lift (header_size_of header file_type);
      match size with Some size => mret size | None => throw NotFound end
  | None => on_origin (amb_get_layer_structure_size id file_type)
  end.

Definition layer_fits_in_cache (id : name) : io (LruArchiveBackend O) bool :=
  λ w, if (limit_bytes w =? 0)%N then (Ok false, w)
       else (size ← lru_layer_size id; mret (N.of_nat size <=? limit_bytes w)%N) w.

Definition lru_get_layer_structure_bytes (id : name) (file_type : LayerFileEnum) : io (LruArchiveBackend O) (option string) :=
  fits ← layer_fits_in_cache id;
  if fits : bool then
    bytes ← lru_get_layer_bytes id;
    archive ← lift (archive_parse bytes);
    lift (slice_for archive file_type)
  else on_origin (get_layer_structure_bytes id file_type).

Definition lru_store_layer_file (id : name) (bytes : string) : io (LruArchiveBackend O) unit :=
  _ ← on_origin (store_layer_file id bytes);
  on_state (λ limit s, keep_stored limit id bytes s).

(** [Bytes::advance] panics beyond the end. *)
Definition advance (n : nat) (bytes : string) : outcome string :=
  if decide (n ≤ String.length bytes) then Ok (str_drop n bytes) else Panic.

Definition lru_read_layer_structure_bytes_from (id : name) (file_type : LayerFileEnum) (read_from : nat)
    : io (LruArchiveBackend O) string :=
  fits ← layer_fits_in_cache id;
  if fits : bool then
    bytes ← lru_get_layer_structure_bytes id file_type;
    match bytes with Some bytes => lift (advance read_from bytes) | None => throw NotFound end
  else on_origin (read_layer_structure_bytes_from id file_type read_from).

Definition lru_get_parent (id : name) : io (LruArchiveBackend O) (option name) :=
  parent_bytes ← lru_get_layer_structure_bytes id Parent;
  match parent_bytes with
  | Some parent_bytes => parent ← lift (parent_of_bytes parent_bytes); mret (Some parent)
  | None => mret None
  end.

Definition lru_evict_to_target (target : N) : io (LruArchiveBackend O) unit :=
  on_state (λ limit s, evict_to_target limit target s).

#[export] Instance lru_archive_backend : ArchiveBackend (LruArchiveBackend O) := {|
  get_layer_bytes := lru_get_layer_bytes;
  get_layer_structure_bytes := lru_get_layer_structure_bytes;
  store_layer_file := lru_store_layer_file;
  read_layer_structure_bytes_from := lru_read_layer_structure_bytes_from;
|}.

#[export] Instance lru_archive_metadata : ArchiveMetadataBackend (LruArchiveBackend O) := {|
  amb_get_layer_names := on_origin amb_get_layer_names;
  amb_layer_exists := lru_layer_exists;
  amb_layer_size := lru_layer_size;
  amb_layer_file_exists := lru_layer_file_exists;
  amb_get_layer_structure_size := lru_get_layer_structure_size;
  amb_get_rollup id := on_origin (amb_get_rollup id);
  amb_set_rollup id rollup := on_origin (amb_set_rollup id rollup);
  amb_get_parent := lru_get_parent;
|}.
End operations.

(** ** The promise *)

Section laws.
Context `{LruLaws, ArchiveLaws} {O : Type} `{!ArchiveBackend O, !ArchiveMetadataBackend O, !ArchiveBackendLaws O}.

Definition nobody (k : name) (b : nat) : Prop := False.

(** The origin holds the archives, and the cache some of them, within its limit. *)
Record lru_rep (w : LruArchiveBackend O) (a : archives) : Prop := {
  lr_origin : ab_rep (lru_origin w) a;
  lr_cache : cache_inv (limit_bytes w) a nobody (lru_state w);
  lr_limit : (limit_bytes w < usize_bound)%N;
}.

Lemma cache_inv_ext limit a own own' s :
  (∀ k b, own k b ↔ own' k b) → cache_inv limit a own s → cache_inv limit a own' s.
Proof. intros He [Hr Hd Hc Hl]. split; [|done..]. intros k b. by rewrite Hr. Qed.

Lemma on_origin_returns {A} a (m : io O A) o a' :
  returns ab_rep a m o a' → (∀ limit s, cache_inv limit a nobody s → cache_inv limit a' nobody s) →
  returns lru_rep a (on_origin m) o a'.
Proof.
  intros Hm Hc [limit s org] [Ho Hs Hl]. destruct (Hm org Ho) as (org' & He & Ho').
  unfold on_origin. simpl. rewrite He. eexists. split; [done|]. split; [done| |done]. by apply Hc.
Qed.

Lemma on_origin_reads {A} a (m : io O A) o : returns ab_rep a m o a → returns lru_rep a (on_origin m) o a.
Proof. intros Hm. by apply on_origin_returns. Qed.

Lemma on_state_returns {A} a (f : N → lru_shared → outcome A * lru_shared) o :
  (∀ limit s, (limit < usize_bound)%N → cache_inv limit a nobody s →
     ∃ s', f limit s = (o, s') ∧ cache_inv limit a nobody s') →
  returns lru_rep a (on_state f) o a.
Proof.
  intros Hf [limit s org] [Ho Hs Hl]. destruct (Hf _ s Hl Hs) as (s' & He & Hs').
  unfold on_state. change (limit_bytes (Lru limit s org)) with (limit * 1024 * 1024)%N in *. simpl in *. rewrite He.
  eexists. split; [done|]. by split.
Qed.

Lemma peek_returns {A} a d (f : string → io (LruArchiveBackend O) A) (m : io O A) o :
  (∀ fs, a_layers a !! d = Some fs → returns lru_rep a (f (layer_archive fs)) o a) → returns ab_rep a m o a →
  returns lru_rep a (cached ← on_state (λ _ s, (Ok (peek_resolved d s), s));
                     match cached with Some bytes => f bytes | None => on_origin m end) o a.
Proof.
  intros Hf Hm w Hw. unfold mbind, io_bind, on_state. simpl.
  destruct (peek_resolved d (lru_state w)) as [bytes|] eqn:Hp.
  - eapply peek_resolved_spec in Hp as (fs & Hfs & ->); [|apply Hw]. destruct w. by apply Hf.
  - destruct w. by apply (on_origin_returns a m o a).
Qed.

Lemma lru_get_layer_bytes_returns a d :
  name_wf d → returns lru_rep a (lru_get_layer_bytes d) (of_layer a d (λ fs, Ok (layer_archive fs))) a.
Proof.
  intros Hd [limit s org] [Ho Hs Hl]. simpl in Ho. unfold lru_get_layer_bytes, mbind, io_bind, on_state. cbn [lru_state lru_limit lru_origin].
  pose proof (look_up_spec _ a nobody d _ Hs) as Hlook. simpl in Hlook. destruct (look_up d s) as [[bytes|b|b] s1].
  - destruct Hlook as ((fs & Hfs & ->) & _ & Hs1). exists (Lru limit s1 org). split; [|by split]. unfold of_layer. by rewrite Hfs.
  - destruct Hlook as ([] & _).
  - destruct Hlook as (_ & _ & Hs1). unfold on_origin. cbn [lru_state lru_limit lru_origin].
    destruct (get_layer_bytes_spec a d Hd org Ho) as (org' & -> & Ho').
    set (answer := of_layer a d (λ fs, Ok (layer_archive fs))).
    assert (origin_answer a d answer) as Ha.
    { unfold answer, of_layer. destruct (a_layers a !! d) as [fs|] eqn:Hfs; simpl; [|done]. eauto. }
    destruct (settle_spec _ Hl a _ d b answer (publish b answer s1) (cache_inv_barriers _ _ _ _ _ Hs1)) as (s2 & He & _ & Hs2);
      [by right|done|].
    exists (Lru limit s2 org'). split.
    + unfold limit_bytes in *. cbn [lru_limit lru_state lru_origin] in *.
      clearbody answer. by destruct answer; try done; rewrite He.
    + split; [done| |done]. eapply cache_inv_ext; [|exact Hs2]. intros k b'. unfold nobody. naive_solver.
Qed.

Lemma lru_layer_size_returns a d :
  name_wf d → returns lru_rep a (lru_layer_size d) (of_layer a d (λ fs, Ok (String.length (layer_archive fs)))) a.
Proof.
  intros Hd. apply peek_returns; [|by apply layer_size_spec]. intros fs Hfs. unfold of_layer. rewrite Hfs.
  apply returns_lift.
Qed.

(** The size of a layer is looked up when there is a limit. *)
Lemma fits_cases a d w :
  name_wf d → lru_rep w a →
  ∃ o w', layer_fits_in_cache d w = (o, w') ∧ lru_rep w' a ∧
    (o = Ok false ∨ ∃ fits, o = of_layer a d (λ _, Ok fits)).
Proof.
  intros Hd Hw. unfold layer_fits_in_cache. destruct (limit_bytes w =? 0)%N; [by eauto 10|].
  destruct (lru_layer_size_returns a d Hd w Hw) as (w1 & Hsz & Hw1). unfold mbind, io_bind. rewrite Hsz.
  unfold of_layer. destruct (a_layers a !! d) as [fs|]; eexists _, w1; (split_and!; [done|done|right]).
  - by eexists.
  - by exists false.
Qed.

(** Either way a call answers for the layer. *)
Lemma fits_returns {A} a d (p q : io (LruArchiveBackend O) A) (f : layer_files → outcome A) :
  name_wf d → returns lru_rep a p (of_layer a d f) a → returns lru_rep a q (of_layer a d f) a →
  returns lru_rep a (fits ← layer_fits_in_cache d; if fits : bool then p else q) (of_layer a d f) a.
Proof.
  intros Hd Hp Hq w Hw. destruct (fits_cases a d w Hd Hw) as (o & w1 & Hfit & Hw1 & Ho).
  unfold mbind, io_bind. rewrite Hfit. destruct Ho as [->|[fits ->]]; [by apply Hq|].
  unfold of_layer in *. destruct (a_layers a !! d) as [fs|]; [|by eauto].
  destruct fits; [by apply Hp|by apply Hq].
Qed.

Lemma lru_rep_fits w a d fs : lru_rep w a → a_layers a !! d = Some fs → fits fs.
Proof. intros Hw. eapply ab_rep_fits, Hw. Qed.

Lemma lru_structure_bytes_returns a d file_type :
  name_wf d → returns lru_rep a (lru_get_layer_structure_bytes d file_type) (of_layer a d (λ fs, Ok (fs !! file_type))) a.
Proof.
  intros Hd. apply fits_returns; [done| |by apply on_origin_reads, get_layer_structure_bytes_spec].
  apply (returns_use _ _ (∀ fs, a_layers a !! d = Some fs → fits fs)); [intros w Hw fs; by eapply lru_rep_fits|].
  intros Hfit. eapply returns_eq.
  - eapply (returns_bind _ _ _ _ _ _ (λ bytes, archive ← archive_parse bytes; slice_for archive file_type));
      [by apply lru_get_layer_bytes_returns|]. intros bytes _.
    eapply (returns_bind _ _ _ _ _ _ (λ archive, slice_for archive file_type)); [apply returns_lift|].
    intros archive _. apply returns_lift.
  - unfold of_layer. destruct (a_layers a !! d) as [fs|]; [|done]. cbn [mbind outcome_bind].
    destruct (layer_archive_parse fs (Hfit fs eq_refl)) as (h & -> & Hh). cbn [mbind outcome_bind].
    pose proof (layer_slice_for fs h Hh file_type EmptyString) as Hsl. by rewrite string_app_empty in Hsl.
Qed.

Lemma lru_read_from_returns a d file_type n :
  name_wf d → returns lru_rep a (lru_read_layer_structure_bytes_from d file_type n) (of_layer a d (λ fs, file_from fs file_type n)) a.
Proof.
  intros Hd. apply fits_returns; [done| |by apply on_origin_reads, read_layer_structure_bytes_from_spec].
  eapply returns_eq.
  - eapply (returns_bind _ _ _ _ _ _ (λ bytes, match bytes with Some bytes => advance n bytes | None => Err NotFound end));
      [by apply lru_structure_bytes_returns|]. intros [bytes|] _; [apply returns_lift|apply returns_throw].
  - unfold of_layer, file_from. destruct (a_layers a !! d) as [fs|]; [|done]. simpl. by destruct (fs !! file_type).
Qed.

Lemma lru_parent_returns a d : name_wf d → returns lru_rep a (lru_get_parent d) (of_layer a d archive_parent) a.
Proof.
  intros Hd. eapply returns_eq.
  - eapply (returns_bind _ _ _ _ _ _ (λ bytes, match bytes with Some bytes => p ← parent_of_bytes bytes; Ok (Some p) | None => Ok None end));
      [by apply lru_structure_bytes_returns|]. intros [bytes|] _; [|apply returns_ret].
    eapply (returns_bind _ _ _ _ _ _ (λ p, Ok (Some p))); [apply returns_lift|]. intros p _. apply returns_ret.
  - unfold of_layer, archive_parent. destruct (a_layers a !! d) as [fs|]; [|done]. simpl. by destruct (fs !! Parent).
Qed.

Lemma lru_file_exists_returns a d file_type :
  name_wf d →
  returns lru_rep a (lru_layer_file_exists d file_type) (Ok (bool_decide (is_Some (a_layers a !! d ≫= (.!! file_type))))) a.
Proof.
  intros Hd. apply peek_returns; [|by apply layer_file_exists_spec]. intros fs Hfs.
  destruct (get_presence fs) as (rest & Hp). eapply returns_eq.
  - eapply (returns_bind _ _ _ _ _ _ (λ r, Ok (is_present (presence_new r.1) file_type))); [apply returns_lift|].
    intros [val r] _. apply returns_ret.
  - rewrite Hp, Hfs. cbn. f_equal. fold (from_present (sorted_files fs).*1). rewrite is_present_from.
    apply bool_decide_ext, sorted_files_keys.
Qed.

Lemma lru_structure_size_returns a d file_type :
  name_wf d → returns lru_rep a (lru_get_layer_structure_size d file_type) (of_layer a d (λ fs, size_in fs file_type)) a.
Proof.
  intros Hd. apply peek_returns; [|by apply get_layer_structure_size_spec]. intros fs Hfs.
  apply (returns_use _ _ (fits fs)); [intros w Hw; by eapply lru_rep_fits|]. intros Hfit.
  destruct (layer_archive_header fs Hfit) as (h & Hp & Hh). eapply returns_eq.
  - eapply (returns_bind _ _ _ _ _ _ (λ r, size ← header_size_of r.1 file_type;
              match size with Some size => Ok size | None => Err NotFound end)); [apply returns_lift|].
    intros [h' r] _. eapply returns_bind; [apply returns_lift|]. intros [size|] _; [apply returns_ret|apply returns_throw].
  - rewrite Hp. unfold of_layer, size_in. rewrite Hfs. cbn [mbind outcome_bind fst].
    rewrite (layer_size_of fs) by done. by destruct (fs !! file_type).
Qed.

Lemma lru_store_returns a d fs :
  name_wf d → fits fs → a_layers a !! d = None →
  returns lru_rep a (lru_store_layer_file d (layer_archive fs)) (Ok tt) (add_layer a d fs).
Proof.
  intros Hd Hfit Hno w Hw.
  destruct (on_origin_returns a (store_layer_file d (layer_archive fs)) (Ok tt) (add_layer a d fs)
              (store_layer_file_spec a d fs Hd Hfit Hno) (λ limit s Hs, cache_inv_more limit _ _ _ _ _ Hs Hno) w Hw) as (w1 & He & Hw1).
  unfold lru_store_layer_file. rewrite (io_bind_Ok _ _ _ _ _ He). clear He. revert w1 Hw1. apply on_state_returns.
  intros limit s Hl Hs. destruct (keep_stored_spec limit Hl _ _ d fs _ Hs) as (s' & Hk & _ & Hs'); [|by eauto].
  simpl. apply lookup_insert_eq.
Qed.

#[export] Program Instance lru_archive_laws : ArchiveBackendLaws (LruArchiveBackend O) := {| ab_rep := lru_rep |}.
Next Obligation. intros w a d Hw. eapply ab_rep_wf, Hw. Qed.
Next Obligation. intros w a d fs. apply lru_rep_fits. Qed.
Next Obligation. intros. by apply lru_get_layer_bytes_returns. Qed.
Next Obligation. intros. by apply lru_structure_bytes_returns. Qed.
Next Obligation. intros. by apply lru_read_from_returns. Qed.
Next Obligation. intros. by apply lru_store_returns. Qed.
Next Obligation.
  intros a d Hd. apply peek_returns; [|by apply layer_exists_spec]. intros fs Hfs. rewrite Hfs. apply returns_ret.
Qed.
Next Obligation. intros. by apply lru_layer_size_returns. Qed.
Next Obligation. intros. by apply lru_file_exists_returns. Qed.
Next Obligation. intros. by apply lru_structure_size_returns. Qed.
Next Obligation. intros a d Hd. apply on_origin_returns; [by apply get_rollup_spec|done]. Qed.
Next Obligation.
  intros a d r Hd Hr Ha. apply on_origin_returns; [by apply set_rollup_spec|]. by intros limit s [].
Qed.
Next Obligation. intros. by apply lru_parent_returns. Qed.
End laws.
