(* ===== verification/LruConcurrent.v ===== *)
(** Calls of an [LruArchiveBackend] that run at the same time
    ([src/storage/archive.rs]): each part of a call between two waits is a step, and
    the steps of the calls are interleaved in any order. *)

From S2P Require Import Prelude Names Text Files Consts LayerFiles LayerFileSpec LayerStores Archive ArchiveBackend LruBackend LruArchive.

(** Where a call is. [get_layer_bytes] looks up the cache, reads the origin while it
    holds the barrier, and settles; or it waits for the barrier of another call.
    [store_layer_file] stores in the origin and then in the cache. *)
Inductive call :=
  | Get (id : name)
  | Reading (id : name) (barrier : nat)
  | Settling (id : name) (barrier : nat) (lookup : outcome string)
  | Waiting (id : name) (barrier : nat)
  | Got (id : name) (bytes : outcome string)
  | Store (id : name) (bytes : string)
  | Keeping (id : name) (bytes : string)
  | Stored (id : name) (result : outcome unit).

Section system.
Context `{LruOps, ArchiveOps} {O : Type} `{!ArchiveBackend O}.

(** The cache, the origin, and the calls by their numbers. *)
Record system := System { sy_shared : lru_shared; sy_origin : O; sy_calls : gmap nat call }.

Context (limit : N).

(** A step of a call, with its number, or an eviction. *)
Inductive step : option nat → system → system → Prop :=
  | step_look_up s o cs t id found s' :
      cs !! t = Some (Get id) → look_up id s = (found, s') →
      step (Some t) (System s o cs)
        (System s' o (<[t := match found with
                             | Hit bytes => Got id (Ok bytes)
                             | Wait barrier => Waiting id barrier
                             | Resolve barrier => Reading id barrier
                             end]> cs))
  | step_read s o cs t id barrier lookup o' :
      cs !! t = Some (Reading id barrier) → get_layer_bytes id o = (lookup, o') →
      step (Some t) (System s o cs) (System (publish barrier lookup s) o' (<[t := Settling id barrier lookup]> cs))
  | step_settle s o cs t id barrier lookup r s' :
      cs !! t = Some (Settling id barrier lookup) → settle limit id barrier lookup s = (r, s') →
      step (Some t) (System s o cs) (System s' o (<[t := Got id r]> cs))
  | step_wait s o cs t id barrier r :
      cs !! t = Some (Waiting id barrier) → await barrier s = Some r →
      step (Some t) (System s o cs) (System s o (<[t := Got id r]> cs))
  | step_store s o cs t id bytes r o' :
      cs !! t = Some (Store id bytes) → store_layer_file id bytes o = (r, o') →
      step (Some t) (System s o cs)
        (System s o' (<[t := match r with Ok _ => Keeping id bytes | _ => Stored id r end]> cs))
  | step_keep s o cs t id bytes r s' :
      cs !! t = Some (Keeping id bytes) → keep_stored limit id bytes s = (r, s') →
      step (Some t) (System s o cs) (System s' o (<[t := Stored id r]> cs))
  | step_evict s o cs target r s' :
      evict_to_target limit target s = (r, s') →
      step None (System s o cs) (System s' o cs).

Inductive steps : list (option nat) → system → system → Prop :=
  | steps_nil sy : steps [] sy sy
  | steps_cons l ls sy1 sy2 sy3 : step l sy1 sy2 → steps ls sy2 sy3 → steps (l :: ls) sy1 sy3.

Definition is_done (c : call) : bool := match c with Got _ _ | Stored _ _ => true | _ => false end.

(** The steps that a call has left, at most. *)
Definition steps_left (c : call) : nat :=
  match c with
  | Get _ => 3 | Reading _ _ => 2 | Settling _ _ _ => 1 | Waiting _ _ => 1 | Got _ _ => 0
  | Store _ _ => 2 | Keeping _ _ => 1 | Stored _ _ => 0
  end.
Definition total_left (cs : gmap nat call) : nat := sum_list (steps_left <$> (map_to_list cs).*2).
End system.

Section safety.
Context `{LruLaws, ArchiveLaws} {O : Type} `{!ArchiveBackend O, !ArchiveMetadataBackend O, !ArchiveBackendLaws O}.
Context (limit : N) (Hlimit : (limit < usize_bound)%N).

(** The call [c] resolves [id] with the barrier [b]. *)
Definition resolves (c : call) (id : name) (b : nat) : Prop :=
  match c with Reading id' b' | Settling id' b' _ => id' = id ∧ b' = b | _ => False end.
(** The call [c] waits for the barrier [b] of [id], or resolves [id] with it. *)
Definition about (c : call) (id : name) (b : nat) : Prop :=
  match c with Waiting id' b' => id' = id ∧ b' = b | _ => resolves c id b end.
Definition owner (cs : gmap nat call) (id : name) (b : nat) : Prop := ∃ t c, cs !! t = Some c ∧ resolves c id b.

(** What a call may find, when [first] are the layers at the start: a layer is never
    lost, and bytes are always those of the layer. *)
Definition good_answer (first a : archives) (id : name) (r : outcome string) : Prop :=
  match r with
  | Ok bytes => ∃ fs, a_layers a !! id = Some fs ∧ bytes = layer_archive fs
  | Err e => e = NotFound ∧ a_layers first !! id = None
  | Panic | NoFuel => False
  end.

Definition good_call (first a : archives) (s : lru_shared) (c : call) : Prop :=
  match c with
  | Get id => name_wf id
  | Reading id b => name_wf id ∧ sh_barriers s !! b = Some (true, None)
  | Settling id b r => name_wf id ∧ sh_barriers s !! b = Some (true, Some r) ∧ good_answer first a id r
  | Waiting id b => name_wf id ∧
      ∃ l r, sh_barriers s !! b = Some (l, r) ∧
        match r with Some r => good_answer first a id r | None => l = true end
  | Got id r => good_answer first a id r
  | Store id bytes => name_wf id ∧ a_layers a !! id = None ∧ ∃ fs, fits fs ∧ bytes = layer_archive fs
  | Keeping id bytes => ∃ fs, a_layers a !! id = Some fs ∧ bytes = layer_archive fs
  | Stored id r => r = Ok tt
  end.

Record sys_inv (first : archives) (sy : system (O := O)) (a : archives) : Prop := {
  si_origin : ab_rep (sy_origin sy) a;
  si_first d fs : a_layers first !! d = Some fs → a_layers a !! d = Some fs;
  si_cache : cache_inv limit a (owner (sy_calls sy)) (sy_shared sy);
  si_calls t c : sy_calls sy !! t = Some c → good_call first a (sy_shared sy) c;
  si_owner t1 t2 c1 c2 id1 id2 b :
    sy_calls sy !! t1 = Some c1 → sy_calls sy !! t2 = Some c2 → resolves c1 id1 b → resolves c2 id2 b → t1 = t2;
  si_names t1 t2 c1 c2 id1 id2 b :
    sy_calls sy !! t1 = Some c1 → sy_calls sy !! t2 = Some c2 → about c1 id1 b → about c2 id2 b → id1 = id2;
  si_locked b r : sh_barriers (sy_shared sy) !! b = Some (true, r) → ∃ id, owner (sy_calls sy) id b;
  si_stores t1 t2 id bytes1 bytes2 :
    sy_calls sy !! t1 = Some (Store id bytes1) → sy_calls sy !! t2 = Some (Store id bytes2) → t1 = t2;
}.

(** Before the first step. *)
Record started (first : archives) (sy : system (O := O)) : Prop := {
  st_origin : ab_rep (sy_origin sy) first;
  st_cache : cache_inv limit first nobody (sy_shared sy);
  st_barriers : sh_barriers (sy_shared sy) = [];
  st_calls t c : sy_calls sy !! t = Some c →
    match c with
    | Get id => name_wf id
    | Store id bytes => name_wf id ∧ a_layers first !! id = None ∧ ∃ fs, fits fs ∧ bytes = layer_archive fs
    | _ => False
    end;
  st_stores t1 t2 id bytes1 bytes2 :
    sy_calls sy !! t1 = Some (Store id bytes1) → sy_calls sy !! t2 = Some (Store id bytes2) → t1 = t2;
}.

Lemma started_inv first sy : started first sy → sys_inv first sy first.
Proof.
  intros [Ho Hc Hb Hs Hst].
  assert (∀ id b, ¬ owner (sy_calls sy) id b) as Hno.
  { intros id b (t & c & Ht & Hr). specialize (Hs t c Ht). by destruct c. }
  assert (∀ t c id b, sy_calls sy !! t = Some c → ¬ about c id b) as Hab.
  { intros t c id b Ht. specialize (Hs t c Ht). destruct c; simpl; tauto. }
  split; [done|done| | | | | |done].
  - eapply cache_inv_ext; [|exact Hc]. intros k b. split; [done|]. by intros []%Hno.
  - intros t c Ht. specialize (Hs t c Ht). by destruct c.
  - intros t1 t2 c1 c2 id1 id2 b Ht1 _ Hr _. destruct (Hno id1 b). by exists t1, c1.
  - intros t1 t2 c1 c2 id1 id2 b Ht1 _ Hr _. by destruct (Hab _ _ id1 b Ht1).
  - intros b r. by rewrite Hb, lookup_nil.
Qed.

(** *** What a call knows survives the steps of others *)

Lemma good_answer_more first a a' id r :
  (∀ d fs, a_layers a !! d = Some fs → a_layers a' !! d = Some fs) → good_answer first a id r → good_answer first a' id r.
Proof. intros Hm. destruct r as [bytes|e| |]; simpl; [|done..]. intros (fs & Hfs & ->). eauto. Qed.

(** [barriers_grow s s']: barriers are kept, and their results, except those that [P] allows to change. *)
Definition kept (b : nat) (s s' : lru_shared) : Prop := ∀ x, sh_barriers s !! b = Some x → sh_barriers s' !! b = Some x.

Definition barrier_of (c : call) : option nat :=
  match c with Reading _ b | Settling _ b _ | Waiting _ b => Some b | _ => None end.

Lemma good_call_kept first a s s' c :
  good_call first a s c → (∀ b, barrier_of c = Some b → kept b s s') → good_call first a s' c.
Proof.
  intros Hc Hk. destruct c; simpl in *; try done.
  - destruct Hc as [Hw Hr]. split; [done|]. by apply Hk.
  - destruct Hc as (Hw & Hr & Ha). split_and!; [done|by apply Hk|done].
  - destruct Hc as (Hw & l & r & Hr & Ha). split; [done|]. exists l, r. split; [by apply Hk|done].
Qed.

(** The owners after a call went on. *)
Lemma owner_insert cs t c c' id b :
  cs !! t = Some c →
  owner (<[t := c']> cs) id b ↔ resolves c' id b ∨ ∃ t' d, t' ≠ t ∧ cs !! t' = Some d ∧ resolves d id b.
Proof.
  intros Ht. split.
  - intros (t' & d & [[<- <-]|[Hne Hd]]%lookup_insert_Some & Hr); [by left|]. right. by exists t', d.
  - intros [Hr|(t' & d & Hne & Hd & Hr)]; [exists t, c'|exists t', d]; (split; [|done]).
    + apply lookup_insert_eq.
    + by rewrite lookup_insert_ne.
Qed.

Lemma owner_same cs t c c' :
  cs !! t = Some c → (∀ id b, resolves c id b ↔ resolves c' id b) →
  ∀ id b, owner cs id b ↔ owner (<[t := c']> cs) id b.
Proof.
  intros Ht Hr id b. rewrite (owner_insert cs t c c' id b Ht), <- Hr. split.
  - intros (t' & d & Hd & Hrd). destruct (decide (t' = t)) as [->|Hne]; [left; by simplify_eq|]. right. by exists t', d.
  - intros [Hc|(t' & d & _ & Hd & Hrd)]; [by exists t, c|by exists t', d].
Qed.

Lemma resolves_about c id b : resolves c id b → about c id b.
Proof. by destruct c. Qed.

(** *** A step of one call *)

Lemma sys_update first s o cs a t c c' s' o' a' :
  sys_inv first (System s o cs) a → cs !! t = Some c →
  ab_rep o' a' → (∀ d fs, a_layers a !! d = Some fs → a_layers a' !! d = Some fs) →
  cache_inv limit a' (owner (<[t := c']> cs)) s' →
  good_call first a' s' c' → (∀ t' d, t' ≠ t → cs !! t' = Some d → good_call first a' s' d) →
  (∀ id b t' d id', resolves c' id b → t' ≠ t → cs !! t' = Some d → ¬ resolves d id' b) →
  (∀ id b t' d id', about c' id b → t' ≠ t → cs !! t' = Some d → about d id' b → id' = id) →
  (∀ b r, sh_barriers s' !! b = Some (true, r) → ∃ id, owner (<[t := c']> cs) id b) →
  (∀ id bytes, c' ≠ Store id bytes) →
  sys_inv first (System s' o' (<[t := c']> cs)) a'.
Proof.
  intros [Ho Hf Hc Hg Hw Hn Hl Hs] Ht Ho' Ha Hc' Hgood Hothers Hown Hname Hlock Hstore. simpl in *.
  split; simpl; [done|by eauto|done| | | |done|].
  - intros t' d [[<- <-]|[Hne Hd]]%lookup_insert_Some; [done|]. by eapply Hothers.
  - intros t1 t2 c1 c2 id1 id2 b [[<- <-]|[Hne1 Ht1]]%lookup_insert_Some [[<- <-]|[Hne2 Ht2]]%lookup_insert_Some Hr1 Hr2;
      [done|by destruct (Hown id1 b t2 c2 id2)|by destruct (Hown id2 b t1 c1 id1)|by eapply Hw].
  - intros t1 t2 c1 c2 id1 id2 b [[<- <-]|[Hne1 Ht1]]%lookup_insert_Some [[<- <-]|[Hne2 Ht2]]%lookup_insert_Some Hr1 Hr2.
    + destruct c'; simpl in *; intuition congruence.
    + by rewrite (Hname id1 b t2 c2 id2).
    + by rewrite (Hname id2 b t1 c1 id1).
    + exact (Hn t1 t2 c1 c2 id1 id2 b Ht1 Ht2 Hr1 Hr2).
  - intros t1 t2 id b1 b2 [[_ He]|[Hne1 Ht1]]%lookup_insert_Some [[_ He']|[Hne2 Ht2]]%lookup_insert_Some;
      [by destruct (Hstore _ _ He)|by destruct (Hstore _ _ He)|by destruct (Hstore _ _ He')|by eapply Hs].
Qed.

(** The others when the layers grow and the barriers are kept. *)
Lemma others_kept first a a' s s' (cs : gmap nat call) t' d :
  (∀ t' d, cs !! t' = Some d → good_call first a s d) →
  (∀ d fs, a_layers a !! d = Some fs → a_layers a' !! d = Some fs) →
  (∀ id bytes, cs !! t' = Some (Store id bytes) → a_layers a' !! id = a_layers a !! id) →
  (∀ b, barrier_of d = Some b → kept b s s') →
  cs !! t' = Some d → good_call first a' s' d.
Proof.
  intros Hg Ha Hst Hk Hd. specialize (Hg t' d Hd). apply (good_call_kept _ _ s); [|done].
  destruct d; simpl in *; try done.
  - destruct Hg as (Hw & Hb & Hans). split_and!; [done..|by eapply good_answer_more].
  - destruct Hg as (Hw & l & r & Hb & Hans). split; [done|]. exists l, r. split; [done|].
    destruct r; [by eapply good_answer_more|done].
  - by eapply good_answer_more.
  - destruct Hg as (Hw & Hno & Hfs). split_and!; [done| |done]. by rewrite (Hst _ _ Hd).
  - destruct Hg as (fs & Hfs & ->). eauto.
Qed.

Section preserve.
Context (first a : archives) (s : lru_shared) (o : O) (cs : gmap nat call) (t : nat).
Context (Hi : sys_inv first (System s o cs) a).

(** A step that changes neither the layers, nor the barriers, nor who resolves. *)
Lemma quiet_inv c c' s' :
  cs !! t = Some c → (∀ id b, resolves c id b ↔ resolves c' id b) →
  (∀ id b t' d id', about c' id b → t' ≠ t → cs !! t' = Some d → about d id' b → id' = id) →
  sh_barriers s' = sh_barriers s → cache_inv limit a (owner cs) s' →
  good_call first a s' c' → (∀ id bytes, c' ≠ Store id bytes) →
  sys_inv first (System s' o (<[t := c']> cs)) a.
Proof.
  intros Ht Hr Hname Hb Hc Hgood Hst. pose proof (owner_same _ _ _ _ Ht Hr) as Hown.
  eapply (sys_update first s o cs a t c c' s' o a); [done|done|apply Hi|done| |done| | |done| |done].
  - eapply cache_inv_ext; [exact Hown|done].
  - intros t' d Hne Hd. apply (others_kept first a a s s' cs t'); [apply Hi|done|done| |done]. intros b _ x. by rewrite Hb.
  - intros id b t' d id' Hr' Hne Hd Hd'. apply Hne. eapply (si_owner _ _ _ Hi t' t); [done|done|done|by apply Hr].
  - intros b r. rewrite Hb. intros Hlk. destruct (si_locked _ _ _ Hi _ _ Hlk) as [k Hk]. exists k. by apply Hown.
Qed.

Lemma look_up_inv id found s' :
  cs !! t = Some (Get id) → look_up id s = (found, s') →
  sys_inv first (System s' o (<[t := match found with
                                     | Hit bytes => Got id (Ok bytes)
                                     | Wait barrier => Waiting id barrier
                                     | Resolve barrier => Reading id barrier
                                     end]> cs)) a.
Proof.
  intros Ht Hl. pose proof (look_up_spec limit a (owner cs) id s (si_cache _ _ _ Hi)) as Hspec. rewrite Hl in Hspec.
  pose proof (si_calls _ _ _ Hi _ _ Ht) as Hw. simpl in Hw. destruct found as [bytes|b|b].
  - destruct Hspec as (Hfs & Hb & Hc). by apply (quiet_inv (Get id)).
  - destruct Hspec as (Hown & Hb & Hc). apply (quiet_inv (Get id)); try done.
    + intros id' b' t' d id2 [<- <-] Hne Hd Hab. destruct Hown as (t2 & d2 & Hd2 & Hr2).
      by eapply (si_names _ _ _ Hi t' t2); [..|apply resolves_about].
    + simpl. split; [done|]. rewrite Hb. destruct Hown as (t' & d & Hd & Hr).
      pose proof (si_calls _ _ _ Hi _ _ Hd) as Hg. destruct d; simpl in Hr; try done; destruct Hr as [-> ->]; simpl in Hg.
      * exists true, None. by destruct Hg.
      * exists true, (Some lookup). by destruct Hg as (_ & Hr & Ha).
  - destruct Hspec as (-> & Hb & Hc). set (b := length (sh_barriers s)) in *.
    assert (∀ t' d id', cs !! t' = Some d → ¬ about d id' b) as Hfresh.
    { intros t' d id' Hd Hab. pose proof (si_calls _ _ _ Hi _ _ Hd) as Hg. simpl in Hg.
      assert (is_Some (sh_barriers s !! b)) as [x Hx%lookup_lt_Some]; [|unfold b in Hx; lia].
      destruct d; simpl in Hab; try done; destruct Hab as [-> ->]; destruct Hg as [_ Hg]; [eauto|destruct Hg; eauto|].
      destruct Hg as (l & r & Hg & _). eauto. }
    assert (∀ k b', owner (<[t := Reading id b]> cs) k b' ↔ owner cs k b' ∨ (k = id ∧ b' = b)) as Hown.
    { intros k b'. rewrite (owner_insert _ _ _ _ _ _ Ht). simpl. split.
      - intros [[<- <-]|(t' & d & _ & Hd & Hr)]; [by right|left; by exists t', d].
      - intros [(t' & d & Hd & Hr)|[-> ->]]; [|by left]. right. exists t', d. split_and!; [|done|done]. intros ->. by simplify_eq. }
    eapply (sys_update first s o cs a t (Get id) (Reading id b) s' o a); try done.
    + apply Hi.
    + eapply cache_inv_ext; [|exact Hc]. intros k b'. by rewrite Hown.
    + simpl. split; [done|]. rewrite Hb. by apply list_lookup_middle.
    + intros t' d Hne Hd. apply (others_kept first a a s s' cs t'); [apply Hi|done|done| |done].
      intros b' _ x Hx. rewrite Hb. by apply lookup_app_l_Some.
    + intros id' b' t' d id2 [<- <-] Hne Hd Hr. by apply (Hfresh t' d id2), resolves_about.
    + intros id' b' t' d id2 [<- <-] Hne Hd Hr. by destruct (Hfresh t' d id2).
    + intros b' r. rewrite Hb. intros [Hlk|[Hge Hlk]]%lookup_app_Some.
      * destruct (si_locked _ _ _ Hi _ _ Hlk) as [k Hk]. exists k. apply Hown. by left.
      * exists id. apply Hown. right. split; [done|]. apply list_lookup_singleton_Some in Hlk as [? _]. unfold b. lia.
Qed.

(** Others know the barrier of a call that resolves only when they wait for it. *)
Lemma others_barrier c id b t' d :
  cs !! t = Some c → resolves c id b → t' ≠ t → cs !! t' = Some d → barrier_of d = Some b → d = Waiting id b.
Proof.
  intros Ht Hr Hne Hd Hb.
  assert (∃ id', about d id' b) as [id' Hab] by (destruct d; simplify_eq/=; eauto).
  assert (id' = id) as -> by exact (si_names _ _ _ Hi _ _ _ _ _ _ _ Hd Ht Hab (resolves_about _ _ _ Hr)).
  destruct d; simplify_eq/=; try done; [..|by destruct Hab as [-> _]];
    destruct Hne; by eapply (si_owner _ _ _ Hi t' t).
Qed.

Lemma others_changed c id b a' s' t' d :
  cs !! t = Some c → resolves c id b → t' ≠ t → cs !! t' = Some d →
  (∀ d fs, a_layers a !! d = Some fs → a_layers a' !! d = Some fs) →
  (∀ id bytes, cs !! t' = Some (Store id bytes) → a_layers a' !! id = a_layers a !! id) →
  (∀ b', b' ≠ b → kept b' s s') → (d = Waiting id b → good_call first a' s' d) → good_call first a' s' d.
Proof.
  intros Ht Hr Hne Hd Ha Hst Hk Hwait. destruct (decide (barrier_of d = Some b)) as [Hb|Hb].
  - apply Hwait. by eapply others_barrier.
  - apply (others_kept first a a' s s' cs t'); [apply Hi|done|done| |done]. intros b' Hb' . apply Hk. congruence.
Qed.

Lemma read_inv id b lookup o' :
  cs !! t = Some (Reading id b) → get_layer_bytes id o = (lookup, o') →
  sys_inv first (System (publish b lookup s) o' (<[t := Settling id b lookup]> cs)) a.
Proof.
  intros Ht Hg. destruct (si_calls _ _ _ Hi _ _ Ht) as [Hw Hb]. simpl in Hb.
  destruct (get_layer_bytes_spec a id Hw o (si_origin _ _ _ Hi)) as (o1 & He & Ho). rewrite Hg in He. simplify_eq.
  set (lookup := of_layer a id (λ fs, Ok (layer_archive fs))).
  assert (good_answer first a id lookup) as Ha.
  { unfold lookup, of_layer. destruct (a_layers a !! id) as [fs|] eqn:Hfs; simpl; [eauto|]. split; [done|].
    destruct (a_layers first !! id) as [fs|] eqn:Hff; [|done]. apply (si_first _ _ _ Hi) in Hff. congruence. }
  assert (sh_barriers (publish b lookup s) !! b = Some (true, Some lookup)) as Hb'.
  { apply list_lookup_insert_eq. by eapply lookup_lt_Some. }
  assert (∀ k b', owner cs k b' ↔ owner (<[t := Settling id b lookup]> cs) k b') as Hown by by apply (owner_same _ _ (Reading id b)).
  apply (sys_update first s o cs a t (Reading id b) _ _ o1 a); try done.
  - apply cache_inv_barriers. eapply cache_inv_ext; [exact Hown|]. apply Hi.
  - intros t' d Hne Hd. apply (others_changed (Reading id b) id b a (publish b lookup s) t'); try done.
    + intros b' Hb2 x Hx. simpl. by rewrite list_lookup_insert_ne.
    + intros ->. split; [done|]. by exists true, (Some lookup).
  - intros id' b' t' d id2 [<- <-] Hne Hd Hr. apply Hne. by eapply (si_owner _ _ _ Hi t' t).
  - intros id' b' t' d id2 [<- <-] Hne Hd Hr. by eapply (si_names _ _ _ Hi t' t).
  - intros b' r Hlk. simpl in Hlk. destruct (decide (b' = b)) as [->|Hnb].
    + exists id. exists t, (Settling id b lookup). split; [apply lookup_insert_eq|done].
    + rewrite list_lookup_insert_ne in Hlk by done. destruct (si_locked _ _ _ Hi _ _ Hlk) as [k Hk]. exists k. by apply Hown.
Qed.

Lemma settle_inv id b lookup r s' :
  cs !! t = Some (Settling id b lookup) → settle limit id b lookup s = (r, s') →
  sys_inv first (System s' o (<[t := Got id r]> cs)) a.
Proof.
  intros Ht Hs. destruct (si_calls _ _ _ Hi _ _ Ht) as (Hw & Hb & Ha). simpl in Hb.
  assert (owner cs id b) as Hown by by exists t, (Settling id b lookup).
  assert (origin_answer a id lookup) as Horg by (destruct lookup; simpl in *; naive_solver).
  destruct (settle_spec limit Hlimit a (owner cs) id b lookup s (si_cache _ _ _ Hi) Hown Horg) as (s1 & He & Hb' & Hc).
  rewrite Hs in He. simplify_eq.
  assert (∀ k b', owner (<[t := Got id lookup]> cs) k b' ↔ owner cs k b' ∧ k ≠ id) as Hown'.
  { intros k b'. rewrite (owner_insert _ _ _ _ _ _ Ht). simpl. split.
    - intros [[]|(t' & d & Hne & Hd & Hr)]. split; [by exists t', d|]. intros ->.
      assert (b' = b) as ->.
      { eapply (own_unique limit a (owner cs)); [apply Hi|by exists t', d|done]. }
      apply Hne. by eapply (si_owner _ _ _ Hi t' t).
    - intros [(t' & d & Hd & Hr) Hk]. right. exists t', d. split_and!; [|done|done]. intros ->. simplify_eq. by destruct Hr as [-> _]. }
  eapply (sys_update first s o cs a t _ (Got id lookup) s1 o a); try done.
  - apply Hi.
  - eapply cache_inv_ext; [|exact Hc]. intros k b'. by rewrite Hown'.
  - intros t' d Hne Hd. pose proof (si_calls _ _ _ Hi _ _ Hd) as Hg. simpl in Hg.
    apply (others_changed (Settling id b lookup) id b a s1 t'); try done.
    + intros b' Hb2 x Hx. by rewrite Hb', list_lookup_alter_ne.
    + intros ->. split; [by destruct Hg|]. exists false, (Some lookup). split; [|done].
      by rewrite Hb', list_lookup_alter_eq, Hb.
  - intros b' r. rewrite Hb'. destruct (decide (b = b')) as [<-|Hnb].
    + rewrite list_lookup_alter_eq, Hb. done.
    + rewrite list_lookup_alter_ne by done. intros Hlk. destruct (si_locked _ _ _ Hi _ _ Hlk) as [k Hk]. exists k.
      apply Hown'. split; [done|]. intros ->. apply Hnb. symmetry. by eapply (own_unique limit a (owner cs)); [apply Hi|..].
Qed.

Lemma wait_inv id b r :
  cs !! t = Some (Waiting id b) → await b s = Some r → sys_inv first (System s o (<[t := Got id r]> cs)) a.
Proof.
  intros Ht Hr. destruct (si_calls _ _ _ Hi _ _ Ht) as (Hw & l & r' & Hb & Hans). simpl in Hb.
  apply (quiet_inv (Waiting id b)); try done; [apply Hi|].
  unfold await in Hr. rewrite Hb in Hr. destruct l, r'; by simplify_eq.
Qed.

Lemma store_inv id bytes r o' :
  cs !! t = Some (Store id bytes) → store_layer_file id bytes o = (r, o') →
  ∃ a', sys_inv first (System s o' (<[t := match r with Ok _ => Keeping id bytes | _ => Stored id r end]> cs)) a'.
Proof.
  intros Ht Hst. destruct (si_calls _ _ _ Hi _ _ Ht) as (Hw & Hno & fs & Hfit & ->).
  destruct (store_layer_file_spec a id fs Hw Hfit Hno o (si_origin _ _ _ Hi)) as (o1 & He & Ho). rewrite Hst in He. simplify_eq.
  assert (∀ d fs', a_layers a !! d = Some fs' → a_layers (add_layer a id fs) !! d = Some fs') as Ha.
  { intros d fs' Hd. simpl. rewrite lookup_insert_ne; [done|]. intros ->. congruence. }
  assert (∀ k b', owner cs k b' ↔ owner (<[t := Keeping id (layer_archive fs)]> cs) k b') as Hown
    by by apply (owner_same _ _ (Store id (layer_archive fs))).
  exists (add_layer a id fs). apply (sys_update first s o cs a t (Store id (layer_archive fs)) _ s o1 _); try done.
  - apply cache_inv_more; [|done]. eapply cache_inv_ext; [exact Hown|]. apply Hi.
  - exists fs. split; [|done]. simpl. apply lookup_insert_eq.
  - intros t' d Hne Hd. apply (others_kept first a _ s s cs t'); [apply Hi|done| |by intros ? _ ?|done].
    intros id' bytes Hid. simpl. apply lookup_insert_ne. intros <-. apply Hne. by eapply (si_stores _ _ _ Hi).
  - intros b r Hlk. destruct (si_locked _ _ _ Hi _ _ Hlk) as [k Hk]. exists k. by apply Hown.
Qed.

Lemma keep_inv id bytes r s' :
  cs !! t = Some (Keeping id bytes) → keep_stored limit id bytes s = (r, s') →
  sys_inv first (System s' o (<[t := Stored id r]> cs)) a.
Proof.
  intros Ht Hk. destruct (si_calls _ _ _ Hi _ _ Ht) as (fs & Hfs & ->).
  destruct (keep_stored_spec limit Hlimit a (owner cs) id fs s (si_cache _ _ _ Hi) Hfs) as (s1 & He & Hb & Hc).
  rewrite Hk in He. simplify_eq. by apply (quiet_inv (Keeping id (layer_archive fs))).
Qed.

Lemma evict_inv target r s' :
  evict_to_target limit target s = (r, s') → r = Ok tt ∧ sys_inv first (System s' o cs) a.
Proof.
  intros He. destruct (evict_spec limit Hlimit a (owner cs) target s (si_cache _ _ _ Hi)) as (s1 & He' & Hb & Hc & _).
  rewrite He in He'. simplify_eq. split; [done|]. destruct Hi as [Ho Hf Hc' Hg Hw Hn Hl Hs]. simpl in *. split; simpl; try done.
  - intros t' c Hc2. apply (good_call_kept _ _ s); [by eapply Hg|]. intros b _ x. by rewrite Hb.
  - intros b r. rewrite Hb. apply Hl.
Qed.
End preserve.

Lemma step_inv first l sy sy' a : sys_inv first sy a → step limit l sy sy' → ∃ a', sys_inv first sy' a'.
Proof.
  intros Hi Hstep. destruct Hstep.
  - exists a. by eapply look_up_inv.
  - exists a. by eapply read_inv.
  - exists a. by eapply settle_inv.
  - exists a. by eapply wait_inv.
  - by eapply store_inv.
  - exists a. by eapply keep_inv.
  - exists a. by eapply evict_inv.
Qed.

Lemma steps_inv first ls sy sy' a : sys_inv first sy a → steps limit ls sy sy' → ∃ a', sys_inv first sy' a'.
Proof.
  intros Hi Hs. revert a Hi. induction Hs as [sy|l ls sy1 sy2 sy3 Hstep _ IH]; intros a Hi; [by exists a|].
  destruct (step_inv _ _ _ _ _ Hi Hstep) as [a' Hi']. by apply (IH a').
Qed.

(** *** Progress *)

(** A call that is not done can take a step, or waits for one that can. *)
Lemma sys_progress first sy a t c :
  sys_inv first sy a → sy_calls sy !! t = Some c → is_done c = false → ∃ t' sy', step limit (Some t') sy sy'.
Proof.
  destruct sy as [s o cs]. simpl. intros Hi Ht Hdone.
  assert (∀ t d id b, cs !! t = Some d → resolves d id b → ∃ sy', step limit (Some t) (System s o cs) sy') as Hres.
  { intros t' d id b Hd Hr. destruct d as [|id' b'|id' b' r| | | | |]; try done.
    - destruct (get_layer_bytes id' o) as [lookup o'] eqn:Hg. eexists. by eapply step_read.
    - destruct (settle limit id' b' r s) as [r' s'] eqn:Hs. eexists. by eapply step_settle. }
  destruct c as [id|id b|id b r|id b| |id bytes|id bytes|]; try done.
  - destruct (look_up id s) as [found s'] eqn:Hl. exists t. eexists. by eapply step_look_up.
  - exists t. by eapply Hres.
  - exists t. by eapply Hres.
  - destruct (si_calls _ _ _ Hi _ _ Ht) as (_ & l & r & Hb & Hr). simpl in Hb. destruct l.
    + destruct (si_locked _ _ _ Hi _ _ Hb) as (k & t' & d & Hd & Hrd). exists t'. by eapply Hres.
    + exists t. destruct r as [r|]; [|done]. eexists. eapply (step_wait _ _ _ _ _ _ _ r); [done|]. unfold await. by rewrite Hb.
  - destruct (store_layer_file id bytes o) as [r o'] eqn:Hst. exists t. eexists. by eapply step_store.
  - destruct (keep_stored limit id bytes s) as [r s'] eqn:Hk. exists t. eexists. by eapply step_keep.
Qed.

Lemma total_left_delete cs t c : cs !! t = Some c → total_left cs = steps_left c + total_left (delete t cs).
Proof.
  intros Ht. unfold total_left. by rewrite <- (map_to_list_delete cs t c Ht).
Qed.

Lemma total_left_insert cs t c c' :
  cs !! t = Some c → steps_left c' < steps_left c → total_left (<[t := c']> cs) < total_left cs.
Proof.
  intros Ht Hlt. rewrite (total_left_delete cs t c Ht), (total_left_delete (<[t := c']> cs) t c') by apply lookup_insert_eq.
  rewrite delete_insert_eq. lia.
Qed.

(** Each step of a call brings it closer to its end. *)
Lemma step_left t sy sy' : step limit (Some t) sy sy' → total_left (sy_calls sy') < total_left (sy_calls sy).
Proof.
  intros Hs. inversion Hs; subst; simpl; (eapply total_left_insert; [eassumption|]); simpl;
    repeat case_match; simpl; lia.
Qed.

Lemma evict_left sy sy' : step limit None sy sy' → sy_calls sy' = sy_calls sy.
Proof. intros Hs. by inversion Hs. Qed.

Lemma steps_left_bound ls sy sy' :
  steps limit ls sy sy' → total_left (sy_calls sy') + length (omap id ls) ≤ total_left (sy_calls sy).
Proof.
  induction 1 as [sy|[t|] ls sy1 sy2 sy3 Hs _ IH]; [simpl; lia| |]; cbn [omap list_omap id length].
  - apply step_left in Hs. lia.
  - apply evict_left in Hs. by rewrite <- Hs.
Qed.

(** From every state the calls that are left can be finished. *)
Lemma sys_finish first : ∀ n sy a, sys_inv first sy a → total_left (sy_calls sy) ≤ n →
  ∃ ls sy', steps limit ls sy sy' ∧ length ls ≤ n ∧ ∀ t c, sy_calls sy' !! t = Some c → is_done c = true.
Proof.
  induction n as [|n IH]; intros sy a Hi Hn; (destruct (decide (map_Forall (λ _ c, is_done c = true) (sy_calls sy))) as [Hall|Hnot];
    [exists [], sy; repeat split; [constructor|simpl; lia|exact Hall]|]).
  all: apply map_not_Forall in Hnot as (t & c & Ht & Hc%not_true_is_false); try apply _.
  all: destruct (sys_progress _ _ _ _ _ Hi Ht Hc) as (t' & sy1 & Hs); pose proof (step_left _ _ _ Hs) as Hdec.
  { lia. }
  destruct (step_inv _ _ _ _ _ Hi Hs) as [a1 Hi1]. destruct (IH sy1 a1 Hi1) as (ls & sy2 & Hls & Hlen & Hall); [lia|].
  exists (Some t' :: ls), sy2. split_and!; [by econstructor|simpl; lia|done].
Qed.
End safety.
