(* ===== verification/ArchiveStore.v ===== *)
(** [ArchiveLayerStore] of [src/storage/archive.rs]: a persistent layer store that
    collects the files of a layer in memory and stores them as one archive when the
    layer is finalized. *)

From S2P Require Import Prelude Names Text Files Consts LayerFiles LayerFileSpec LayerStores Succinct LayerTypes Order LayerMaps Archive ArchiveBackend.

(** ** [ConstructionFile]

    The state behind the lock of a file that is being written. *)
Inductive ConstructionFile :=
  | UnderConstruction (buf : string)
  | Finalizing
  | Finalized (bytes : string).

Definition cf_new : ConstructionFile := UnderConstruction EmptyString.
Definition cf_new_finalized (bytes : string) : ConstructionFile := Finalized bytes.
Definition is_finalized (c : ConstructionFile) : bool := match c with Finalized _ => true | _ => false end.
Definition finalized_buf (c : ConstructionFile) : outcome string :=
  match c with Finalized bytes => Ok bytes | _ => Panic end.

(** [poll_write] *)
Definition cf_write (c : ConstructionFile) (buf : string) : outcome ConstructionFile :=
  match c with UnderConstruction x => Ok (UnderConstruction (x +:+ buf)) | _ => Err Other end.

Definition cf_sync_all (c : ConstructionFile) : outcome ConstructionFile :=
  match c with UnderConstruction x => Ok (Finalized x) | _ => Err Other end.

Definition cf_exists (c : ConstructionFile) : bool := is_finalized c.
Definition cf_size (c : ConstructionFile) : outcome nat :=
  match c with Finalized x => Ok (String.length x) | _ => Err NotFound end.
Definition cf_open_read_from (c : ConstructionFile) (offset : nat) : outcome string :=
  match c with
  | Finalized data => if decide (String.length data < offset) then Err UnexpectedEof else Ok (str_drop offset data)
  | _ => Err NotFound
  end.
Definition cf_map (c : ConstructionFile) : outcome string :=
  match c with Finalized x => Ok x | _ => Err NotFound end.

(** ** The store *)

Record ArchiveLayerStore (B : Type) := ArchiveStore {
  als_backend : B;
  als_construction : gmap name (gmap LayerFileEnum ConstructionFile);
}.
Arguments ArchiveStore {B} _ _.
Arguments als_backend {B} _.
Arguments als_construction {B} _.

(** [sort] and [dedup] of names. *)
Definition name_words (n : name) : list N := [n0 n; n1 n; n2 n; n3 n; n4 n].
Fixpoint words_le (a b : list N) : bool :=
  match a, b with
  | [], _ => true
  | _, [] => false
  | x :: a, y :: b => if (x =? y)%N then words_le a b else (x <? y)%N
  end.
Definition name_le (a b : name) : Prop := words_le (name_words a) (name_words b) = true.
#[export] Instance name_le_dec : RelDecision name_le.
Proof. intros a b. unfold name_le. apply _. Defined.

Section store.
Context `{ArchiveOps} {B : Type} `{!ArchiveBackend B, !ArchiveMetadataBackend B}.

Definition on_backend {A} (m : io B A) : io (ArchiveLayerStore B) A :=
  λ s, let '(o, b) := m (als_backend s) in (o, ArchiveStore b (als_construction s)).

Definition set_construction (c : gmap name (gmap LayerFileEnum ConstructionFile)) : io (ArchiveLayerStore B) unit :=
  λ s, (Ok tt, ArchiveStore (als_backend s) c).

(** [FILENAME_ENUM_MAP[name]] *)
Definition file_type_of (file : string) : outcome LayerFileEnum := unwrap (FILENAME_ENUM_MAP !! file).

Definition als_write_bytes (n : name) (file : LayerFileEnum) (bytes : string) : io (ArchiveLayerStore B) unit :=
  s ← read_state;
  match als_construction s !! n with
  | Some files =>
      match files !! file with
      | Some _ => lift Panic
      | None => set_construction (<[n := <[file := cf_new_finalized bytes]> files]> (als_construction s))
      end
  | None => lift Panic
  end.

Definition als_directories : io (ArchiveLayerStore B) (list name) :=
  names ← on_backend amb_get_layer_names;
  s ← read_state;
  mret (dedup (merge_sort name_le (names ++ (map_to_list (als_construction s)).*1))).

Definition als_create_named_directory (n : name) : io (ArchiveLayerStore B) name :=
  exists_ ← on_backend (amb_layer_exists n);
  if exists_ : bool then lift Panic
  else
    s ← read_state;
    match als_construction s !! n with
    | Some _ => lift Panic
    | None => _ ← set_construction (<[n := ∅]> (als_construction s)); mret n
    end.

Definition als_directory_exists (n : name) : io (ArchiveLayerStore B) bool :=
  s ← read_state;
  match als_construction s !! n with Some _ => mret true | None => on_backend (amb_layer_exists n) end.

(** The handle of a file is a rollup file, a file under construction, or a slice
    of an archive, as [als_resolve] finds it. *)
Definition als_get_file (directory : name) (file : string) : io (ArchiveLayerStore B) layer_file :=
  file_type ← lift (file_type_of file);
  if decide (file_type = Rollup) then mret (LayerFile directory file)
  else
    s ← read_state;
    match als_construction s !! directory with
    | Some files =>
        match files !! file_type with
        | Some _ => mret (LayerFile directory file)
        | None =>
            _ ← set_construction (<[directory := <[file_type := cf_new]> files]> (als_construction s));
            mret (LayerFile directory file)
        end
    | None => mret (LayerFile directory file)
    end.

Definition als_file_exists (directory : name) (file : string) : io (ArchiveLayerStore B) bool :=
  file_type ← lift (file_type_of file);
  if decide (file_type = Rollup) then
    rollup ← on_backend (amb_get_rollup directory); mret (bool_decide (is_Some rollup))
  else
    s ← read_state;
    match als_construction s !! directory with
    | Some files => mret (bool_decide (is_Some (files !! file_type)))
    | None => on_backend (amb_layer_file_exists directory file_type)
    end.

(** Only the files that were finished are stored. *)
Definition finished (files : gmap LayerFileEnum ConstructionFile) : layer_files :=
  omap (λ c, match c with Finalized bytes => Some bytes | _ => None end) files.

Definition als_finalize (directory : name) : io (ArchiveLayerStore B) unit :=
  s ← read_state;
  match als_construction s !! directory with
  | Some files =>
      _ ← set_construction (delete directory (als_construction s));
      on_backend (store_layer_file directory (layer_archive (finished files)))
  | None => lift Panic
  end.

(** The method that the store overrides. *)
Definition als_layer_parent (n : name) : io (ArchiveLayerStore B) (option name) := on_backend (amb_get_parent n).

(** ** [ArchiveLayerHandle] *)
Inductive ArchiveLayerHandle :=
  | HConstruction (files : gmap LayerFileEnum ConstructionFile) (file_type : LayerFileEnum) (c : ConstructionFile)
  | HPersistent (file_type : LayerFileEnum)
  | HRollup.

Definition als_resolve (f : layer_file) : io (ArchiveLayerStore B) ArchiveLayerHandle :=
  file_type ← lift (file_type_of (lf_name f));
  if decide (file_type = Rollup) then mret HRollup
  else
    s ← read_state;
    match als_construction s !! lf_dir f with
    | Some files => c ← lift (unwrap (files !! file_type)); mret (HConstruction files file_type c)
    | None => mret (HPersistent file_type)
    end.

(** [ArchiveRollupFile::map]: without the newline that the file has. *)
Definition archive_rollup_contents (rollup : name) : string :=
  "1"%string +:+ String newline (name_to_string rollup).

Definition rollup_file_map (d : name) : io (ArchiveLayerStore B) string :=
  id ← on_backend (amb_get_rollup d);
  match id with Some id => mret (archive_rollup_contents id) | None => throw NotFound end.

Definition rollup_file_exists (d : name) : io (ArchiveLayerStore B) bool :=
  rollup ← on_backend (amb_get_rollup d); mret (bool_decide (is_Some rollup)).

(** [size_of::<[u32; 5]>() + 2], which is not the length of what can be read. *)
Definition rollup_file_size (d : name) : io (ArchiveLayerStore B) nat :=
  rollup ← on_backend (amb_get_rollup d);
  match rollup with Some _ => mret (20 + 2) | None => throw NotFound end.

(** [Bytes::advance] panics beyond the end. *)
Definition rollup_file_open_read_from (d : name) (offset : nat) : io (ArchiveLayerStore B) string :=
  bytes ← rollup_file_map d;
  if decide (offset ≤ String.length bytes) then mret (str_drop offset bytes) else lift Panic.

(** [ArchiveRollupFileWriter::sync_all] of the data that was written. *)
Definition rollup_file_sync_all (d : name) (data : string) : io (ArchiveLayerStore B) unit :=
  if is_utf8 data then
    line ← lift (unwrap (lines data !! 1));
    rollup_id ← lift (string_to_name line);
    on_backend (amb_set_rollup d rollup_id)
  else lift Panic.

Definition als_exists (f : layer_file) : io (ArchiveLayerStore B) bool :=
  h ← als_resolve f;
  match h with
  | HConstruction _ _ c => mret (cf_exists c)
  | HPersistent file_type => on_backend (amb_layer_file_exists (lf_dir f) file_type)
  | HRollup => rollup_file_exists (lf_dir f)
  end.

Definition als_size (f : layer_file) : io (ArchiveLayerStore B) nat :=
  h ← als_resolve f;
  match h with
  | HConstruction _ _ c => lift (cf_size c)
  | HPersistent file_type => on_backend (amb_get_layer_structure_size (lf_dir f) file_type)
  | HRollup => rollup_file_size (lf_dir f)
  end.

Definition als_open_read_from (f : layer_file) (offset : nat) : io (ArchiveLayerStore B) string :=
  h ← als_resolve f;
  match h with
  | HConstruction _ _ c => lift (cf_open_read_from c offset)
  | HPersistent file_type => on_backend (read_layer_structure_bytes_from (lf_dir f) file_type offset)
  | HRollup => rollup_file_open_read_from (lf_dir f) offset
  end.

Definition als_map (f : layer_file) : io (ArchiveLayerStore B) string :=
  h ← als_resolve f;
  match h with
  | HConstruction _ _ c => lift (cf_map c)
  | HPersistent file_type =>
      bytes ← on_backend (get_layer_structure_bytes (lf_dir f) file_type);
      match bytes with Some bytes => mret bytes | None => throw NotFound end
  | HRollup => rollup_file_map (lf_dir f)
  end.

(** [open_write], the writes of all of the contents, and [sync_all]. *)
Definition als_write (f : layer_file) (contents : string) : io (ArchiveLayerStore B) unit :=
  h ← als_resolve f;
  match h with
  | HConstruction files file_type c =>
      c ← lift (cf_write c contents);
      c ← lift (cf_sync_all c);
      s ← read_state;
      set_construction (<[lf_dir f := <[file_type := c]> files]> (als_construction s))
  | HPersistent _ => lift Panic
  | HRollup => rollup_file_sync_all (lf_dir f) contents
  end.

#[export] Instance archive_layer_store : PersistentLayerStore (ArchiveLayerStore B) := {|
  directories := als_directories;
  create_named_directory := als_create_named_directory;
  directory_exists := als_directory_exists;
  get_file := als_get_file;
  file_exists := als_file_exists;
  pls_finalize := als_finalize;
  f_exists := als_exists;
  f_read f := als_open_read_from f 0;
  f_write := als_write;
|}.
End store.
