(* ===== verification/ArchiveStoreSpec.v ===== *)
(** What [ArchiveLayerStore] promises: a store without layers under construction
    satisfies the laws of reading and of rollups, whatever its back end; a layer
    that is created, written and finalized reads back as it was written. *)

From S2P Require Import Prelude Names Text Files LabelSpec Consts LayerFiles LayerFileSpec LayerStores Succinct LayerTypes LayerMaps Archive ArchiveBackend ArchiveStore.

(** ** Names and kinds of files *)

Lemma known_elem f : known f = true ↔ f ∈ all_filenames.
Proof.
  unfold known. rewrite existsb_elem. split; [intros (g & Hg & ->%String.eqb_eq); done|].
  intros Hf. exists f. by rewrite String.eqb_refl.
Qed.

Lemma known_type f : known f = true → ∃ ft, FILENAME_ENUM_MAP !! f = Some ft.
Proof.
  intros Hf%known_elem. pose proof all_filenames_numbered as Hall. rewrite Forall_forall in Hall. by apply Hall.
Qed.

(** The rollup file is the only one of its kind. *)
Lemma rollup_type f : known f = true → FILENAME_ENUM_MAP !! f = Some Rollup → f = fn_rollup FILENAMES.
Proof.
  assert (Forall (λ f, FILENAME_ENUM_MAP !! f = Some Rollup → f = fn_rollup FILENAMES) all_filenames) as Hall.
  { apply (bool_decide_unpack _). vm_compute. done. }
  rewrite Forall_forall in Hall. intros Hf%known_elem. by apply Hall.
Qed.

Lemma rollup_known : known (fn_rollup FILENAMES) = true.
Proof. reflexivity. Qed.

Lemma rollup_has_type : FILENAME_ENUM_MAP !! fn_rollup FILENAMES = Some Rollup.
Proof. vm_compute. done. Qed.

Lemma archive_rollup_named r : rollup_named (archive_rollup_contents r) r.
Proof.
  exists "1"%string. unfold archive_rollup_contents. rewrite utf8_lossy_ascii.
  - rewrite lines_line by (split; [by split|done]). rewrite lines_last; [done|apply name_line|].
    intros He. pose proof (name_to_string_length r) as Hl. by rewrite He in Hl.
  - rewrite all_ascii_app. split; [done|]. split; [done|]. apply name_to_string_ascii.
Qed.

#[local] Opaque FILENAME_ENUM_MAP all_filenames.
#[local] Arguments fn_rollup : simpl never.

(** ** What a store holds *)

(** The contents of the files of an archived layer by their names: a base layer
    and a child layer have different names for a file of the same kind. *)
Definition archived (gs : layer_files) (rollup : option name) (fs : layer_contents) : Prop :=
  ∀ f ft, known f = true → FILENAME_ENUM_MAP !! f = Some ft →
    fs !! f = if decide (ft = Rollup) then archive_rollup_contents <$> rollup else gs !! ft.

Definition archives_hold (a : archives) (m : store_map) : Prop :=
  ∀ d, name_wf d →
    match a_layers a !! d, m !! d with
    | Some gs, Some fs => archived gs (a_rollups a !! d) fs
    | None, None => a_rollups a !! d = None
    | _, _ => False
    end.

Section spec.
Context {B : Type} `{ArchiveBackendLaws B}.

Record als_rep (s : ArchiveLayerStore B) (m : store_map) : Prop := {
  ar_idle : als_construction s = ∅;
  ar_backend : ∃ a, ab_rep (als_backend s) a ∧ archives_hold a m;
  ar_names d : is_Some (m !! d) → name_wf d;
}.

(** Calls to the back end. *)
Lemma on_backend_reads {A} m (p : io B A) o :
  (∀ a, archives_hold a m → returns ab_rep a p o a) → returns als_rep m (on_backend p) o m.
Proof.
  intros Hp [b c] [Hi (a & Hb & Ha) Hn]. destruct (Hp a Ha b Hb) as (b' & He & Hb').
  unfold on_backend. simpl. rewrite He. eexists. split; [done|]. split; eauto.
Qed.

Section layer.
Context (m : store_map) (d : name) (Hd : name_wf d).

Lemma hold_layer a : archives_hold a m → is_Some (a_layers a !! d) ↔ is_Some (m !! d).
Proof.
  intros Ha. specialize (Ha d Hd). destruct (a_layers a !! d), (m !! d); try done.
Qed.

Lemma hold_file a f ft :
  archives_hold a m → known f = true → FILENAME_ENUM_MAP !! f = Some ft → ft ≠ Rollup →
  a_layers a !! d ≫= (.!! ft) = m !! d ≫= (.!! f).
Proof.
  intros Ha Hk Hf Hne. specialize (Ha d Hd). destruct (a_layers a !! d) as [gs|], (m !! d) as [fs|]; [|destruct Ha..|reflexivity].
  simpl. by rewrite (Ha f ft), decide_False.
Qed.

Lemma hold_rollup a :
  archives_hold a m →
  archive_rollup_contents <$> (a_layers a !! d ≫= λ _, a_rollups a !! d) = m !! d ≫= (.!! fn_rollup FILENAMES).
Proof.
  intros Ha. specialize (Ha d Hd). destruct (a_layers a !! d) as [gs|], (m !! d) as [fs|]; [|destruct Ha..|reflexivity].
  simpl. by rewrite (Ha _ Rollup rollup_known rollup_has_type), decide_True.
Qed.

(** Reading the state of an idle store. *)
Lemma idle_returns {A} (k : ArchiveLayerStore B → io (ArchiveLayerStore B) A) o :
  (∀ s, als_construction s = ∅ → returns als_rep m (k s) o m) → returns als_rep m (s ← read_state; k s) o m.
Proof. intros Hk s Hs. apply (Hk s); [apply Hs|done]. Qed.

Lemma returns_lift_ok {A C} (o : outcome A) x (k : A → io (ArchiveLayerStore B) C) o' :
  o = Ok x → returns als_rep m (k x) o' m → returns als_rep m (x ← lift o; k x) o' m.
Proof. by intros ->. Qed.

Lemma resolve_returns {A} f (k : ArchiveLayerHandle → io (ArchiveLayerStore B) A) o :
  known f = true →
  (f = fn_rollup FILENAMES → returns als_rep m (k HRollup) o m) →
  (∀ ft, FILENAME_ENUM_MAP !! f = Some ft → ft ≠ Rollup → returns als_rep m (k (HPersistent ft)) o m) →
  returns als_rep m (h ← als_resolve (LayerFile d f); k h) o m.
Proof.
  intros Hk Hr Hp. destruct (known_type f Hk) as [ft Hf].
  intros s Hs. unfold als_resolve, file_type_of, mbind, io_bind, lift. cbn [lf_name lf_dir]. rewrite Hf. simpl.
  case_decide as Hft.
  - subst ft. by apply Hr; [apply rollup_type|].
  - unfold read_state. rewrite (ar_idle _ _ Hs), lookup_empty. by apply (Hp ft Hf Hft).
Qed.

(** The rollup that the back end has, as the map has it. *)
Lemma rollup_returns {A} (k : option name → io (ArchiveLayerStore B) A) o :
  (∀ r, archive_rollup_contents <$> r = m !! d ≫= (.!! fn_rollup FILENAMES) → returns als_rep m (k r) o m) →
  returns als_rep m (r ← on_backend (amb_get_rollup d); k r) o m.
Proof.
  intros Hk [b c] Hs. destruct Hs as [Hi (a & Hb & Ha) Hn].
  destruct (get_rollup_spec a d Hd _ Hb) as (b' & He & Hb').
  unfold mbind, io_bind, on_backend. cbn [als_backend] in *. rewrite He.
  apply (Hk _ (hold_rollup a Ha)). split; eauto.
Qed.

Lemma rollup_exists_returns :
  returns als_rep m (r ← on_backend (amb_get_rollup d); mret (bool_decide (is_Some r)))
    (Ok (bool_decide (is_Some (m !! d ≫= (.!! fn_rollup FILENAMES))))) m.
Proof.
  apply rollup_returns. intros r <-. eapply returns_eq; [apply returns_ret|]. f_equal.
  apply bool_decide_ext. by rewrite fmap_is_Some.
Qed.


(** *** The operations that read *)

Lemma als_directory_exists_returns :
  returns als_rep m (als_directory_exists d) (Ok (bool_decide (is_Some (m !! d)))) m.
Proof.
  apply idle_returns. intros s ->. rewrite lookup_empty. apply on_backend_reads. intros a Ha.
  eapply returns_eq; [by apply layer_exists_spec|]. f_equal. apply bool_decide_ext. by apply hold_layer.
Qed.

Lemma als_layer_file_exists_returns f ft :
  known f = true → FILENAME_ENUM_MAP !! f = Some ft → ft ≠ Rollup →
  returns als_rep m (on_backend (amb_layer_file_exists d ft)) (Ok (bool_decide (is_Some (m !! d ≫= (.!! f))))) m.
Proof.
  intros Hk Hf Hne. apply on_backend_reads. intros a Ha. eapply returns_eq; [by apply layer_file_exists_spec|].
  by rewrite (hold_file a f ft).
Qed.

Lemma als_file_exists_returns f :
  known f = true → returns als_rep m (als_file_exists d f) (Ok (bool_decide (is_Some (m !! d ≫= (.!! f))))) m.
Proof.
  intros Hk. destruct (known_type f Hk) as [ft Hf]. unfold als_file_exists.
  apply (returns_lift_ok _ ft); [by unfold file_type_of; rewrite Hf|]. case_decide as Hft.
  - subst ft. rewrite (rollup_type f Hk Hf). apply rollup_exists_returns.
  - apply idle_returns. intros s ->. rewrite lookup_empty. by apply als_layer_file_exists_returns.
Qed.

Lemma als_get_file_returns f : known f = true → returns als_rep m (als_get_file d f) (Ok (LayerFile d f)) m.
Proof.
  intros Hk. destruct (known_type f Hk) as [ft Hf]. unfold als_get_file.
  apply (returns_lift_ok _ ft); [by unfold file_type_of; rewrite Hf|]. case_decide; [apply returns_ret|].
  apply idle_returns. intros s ->. rewrite lookup_empty. apply returns_ret.
Qed.

Lemma als_exists_returns f :
  known f = true → returns als_rep m (als_exists (LayerFile d f)) (Ok (bool_decide (is_Some (m !! d ≫= (.!! f))))) m.
Proof.
  intros Hk. apply resolve_returns; [done|intros ->; apply rollup_exists_returns|].
  intros ft Hf Hne. by apply als_layer_file_exists_returns.
Qed.

(** Contents of a file of a layer that exists. *)
Definition contents (fs : layer_contents) (f : string) : outcome string :=
  match fs !! f with Some c => Ok c | None => Err NotFound end.

Lemma hold_contents a fs f ft :
  archives_hold a m → m !! d = Some fs → known f = true → FILENAME_ENUM_MAP !! f = Some ft → ft ≠ Rollup →
  ∃ gs, a_layers a !! d = Some gs ∧ gs !! ft = fs !! f.
Proof.
  intros Ha Hm Hk Hf Hne. specialize (Ha d Hd). rewrite Hm in Ha. destruct (a_layers a !! d) as [gs|]; [|destruct Ha].
  exists gs. split; [done|]. by rewrite (Ha f ft), decide_False.
Qed.

Lemma rollup_map_returns fs :
  m !! d = Some fs → returns als_rep m (rollup_file_map d) (contents fs (fn_rollup FILENAMES)) m.
Proof.
  intros Hm. apply rollup_returns. intros r Hr. rewrite Hm in Hr. cbn in Hr. unfold contents. rewrite <- Hr.
  destruct r; [apply returns_ret|apply returns_throw].
Qed.

Lemma als_read_returns f fs :
  known f = true → m !! d = Some fs → returns als_rep m (als_open_read_from (LayerFile d f) 0) (contents fs f) m.
Proof.
  intros Hk Hm. apply resolve_returns; [done| |].
  - intros ->. eapply returns_eq.
    + eapply returns_bind; [by apply rollup_map_returns|]. intros c _.
      rewrite decide_True by lia. rewrite str_drop_0. apply returns_ret.
    + unfold contents. by destruct (fs !! fn_rollup FILENAMES).
  - intros ft Hf Hne. apply on_backend_reads. intros a Ha.
    eapply returns_eq; [by apply read_layer_structure_bytes_from_spec|].
    destruct (hold_contents a fs f ft) as (gs & Hgs & Hc); [done..|]. unfold of_layer, file_from, contents. cbn [lf_dir]. rewrite Hgs, Hc.
    destruct (fs !! f); [|done]. by rewrite decide_True, str_drop_0 by lia.
Qed.

Lemma als_map_returns f fs :
  known f = true → m !! d = Some fs → returns als_rep m (als_map (LayerFile d f)) (contents fs f) m.
Proof.
  intros Hk Hm. apply resolve_returns; [done|intros ->; by apply rollup_map_returns|].
  intros ft Hf Hne. eapply returns_eq.
  - eapply (returns_bind _ _ _ _ (Ok (fs !! f)) _ (λ c, match c with Some c => Ok c | None => Err NotFound end)).
    + apply on_backend_reads. intros a Ha. eapply returns_eq; [by apply get_layer_structure_bytes_spec|].
      destruct (hold_contents a fs f ft) as (gs & Hgs & Hc); [done..|]. unfold of_layer. cbn [lf_dir]. by rewrite Hgs, Hc.
    + intros [c|] _; [apply returns_ret|apply returns_throw].
  - done.
Qed.

(** The size of a rollup file is that of a name, and not that of its contents. *)
Lemma als_size_returns f fs :
  known f = true → m !! d = Some fs →
  returns als_rep m (als_size (LayerFile d f))
    (c ← contents fs f; Ok (if decide (f = fn_rollup FILENAMES) then 22 else String.length c)) m.
Proof.
  intros Hk Hm. apply resolve_returns; [done| |].
  - intros ->. apply rollup_returns. intros r Hr. rewrite Hm in Hr. cbn in Hr.
    unfold contents. rewrite <- Hr. destruct r; [|apply returns_throw].
    eapply returns_eq; [apply returns_ret|]. cbn. by rewrite decide_True.
  - intros ft Hf Hne. apply on_backend_reads. intros a Ha. eapply returns_eq; [by apply get_layer_structure_size_spec|].
    destruct (hold_contents a fs f ft) as (gs & Hgs & Hc); [done..|]. unfold of_layer, size_in, contents. cbn [lf_dir].
    rewrite Hgs, Hc. destruct (fs !! f); [|done]. cbn.
    rewrite decide_False; [done|]. intros ->. rewrite rollup_has_type in Hf. congruence.
Qed.
End layer.

#[export] Program Instance archive_store_reads : PersistentReadLaws (ArchiveLayerStore B) := {| pl_rep := als_rep |}.
Next Obligation. intros m d Hd. exact (als_directory_exists_returns m d Hd). Qed.
Next Obligation. intros m d f Hd Hk. exact (als_file_exists_returns m d Hd f Hk). Qed.
Next Obligation. intros m d f Hd Hm Hk. exact (als_get_file_returns m d f Hk). Qed.
Next Obligation.
  intros m d f fs Hd Hm Hk. pose proof (als_exists_returns m d Hd f Hk) as He. rewrite Hm in He. exact He.
Qed.
Next Obligation. intros m d f fs Hd Hm Hk. exact (als_read_returns m d Hd f fs Hk Hm). Qed.

(** Files are mapped with the method of the handle. *)
#[export] Instance archive_maps : FileMaps (ArchiveLayerStore B) := maps_by als_map.

#[export] Instance archive_maps_laws : FileMapsLaws (ArchiveLayerStore B).
Proof.
  apply maps_by_laws. intros m d [d' f] c [Hd [fs Hm]] [Hdir Hk] Hf. cbn in Hdir, Hk. subst d'.
  unfold file_in in Hf. cbn in Hf. rewrite Hm in Hf. cbn in Hf.
  eapply returns_eq; [by apply (als_map_returns m d Hd f fs)|]. unfold contents. by rewrite Hf.
Qed.

(** *** Rollups *)

Lemma archives_hold_rollup a m d r fs :
  archives_hold a m → name_wf d → m !! d = Some fs →
  archives_hold (add_rollup a d r) (<[d := <[fn_rollup FILENAMES := archive_rollup_contents r]> fs]> m).
Proof.
  intros Ha Hd Hm d' Hd'. pose proof (Ha d' Hd') as Hold. simpl. destruct (decide (d = d')) as [<-|Hne].
  - rewrite Hm in Hold. rewrite !lookup_insert_eq. destruct (a_layers a !! d) as [gs|]; [|done].
    intros f ft Hk Hf. specialize (Hold f ft Hk Hf). case_decide as Hft.
    + subst ft. rewrite (rollup_type f Hk Hf). apply lookup_insert_eq.
    + rewrite lookup_insert_ne; [done|]. intros <-. rewrite rollup_has_type in Hf. congruence.
  - by rewrite !lookup_insert_ne.
Qed.

Lemma resolve_rollup d (s : ArchiveLayerStore B) : als_resolve (LayerFile d (fn_rollup FILENAMES)) s = (Ok HRollup, s).
Proof.
  unfold als_resolve, file_type_of. cbn [lf_name]. rewrite rollup_has_type.
  rewrite (io_bind_Ok _ _ _ Rollup s) by done. by rewrite decide_True.
Qed.

#[export] Program Instance archive_store_rollups : RollupLaws (ArchiveLayerStore B).
Next Obligation.
  intros s m d r fs Hs Hd Hr Hm. exists (archive_rollup_contents r).
  destruct Hs as [Hi (a & Hb & Ha) Hn].
  assert (is_Some (a_layers a !! d)) as Hl by (apply (hold_layer m d Hd a Ha); eauto).
  destruct (set_rollup_spec a d r Hd Hr Hl _ Hb) as (b' & He & Hb').
  exists (ArchiveStore b' (als_construction s)). split_and!.
  - unfold write_rollup_file. rewrite (io_bind_Ok _ _ _ (LayerFile d (fn_rollup FILENAMES)) s).
    + change (als_write (LayerFile d (fn_rollup FILENAMES)) (rollup_contents r) s =
        (Ok tt, ArchiveStore b' (als_construction s))).
      unfold als_write. rewrite (io_bind_Ok _ _ _ HRollup s) by apply resolve_rollup.
      unfold rollup_file_sync_all. rewrite is_utf8_ascii by apply rollup_contents_ascii.
      rewrite rollup_contents_lines. cbn [unwrap].
      rewrite (io_bind_Ok _ _ _ (name_to_string r) s) by done. rewrite string_to_name_to_string by done.
      rewrite (io_bind_Ok _ _ _ r s) by done. cbn [lf_dir]. unfold on_backend. by rewrite He.
    + change (als_get_file d (fn_rollup FILENAMES) s = (Ok (LayerFile d (fn_rollup FILENAMES)), s)).
      unfold als_get_file, file_type_of. rewrite rollup_has_type. rewrite (io_bind_Ok _ _ _ Rollup s) by done.
      by rewrite decide_True.
  - apply archive_rollup_named.
  - split; [done|exists (add_rollup a d r); split; [done|by apply archives_hold_rollup]|].
    intros d' [fs' [[<- _]|[_ ?]]%lookup_insert_Some]; [done|]. apply Hn. eauto.
Qed.

(** ** The parent of an archived layer

    The method that the store overrides agrees with the one it inherits. *)
Lemma parent_of_name p : name_wf p → parent_of_bytes (name_to_string p) = Ok p.
Proof.
  intros Hp. unfold parent_of_bytes. pose proof (slice_middle EmptyString (name_to_string p) EmptyString) as Hs.
  rewrite name_to_string_length, string_app_empty in Hs. cbn [String.append String.length Nat.add] in Hs. rewrite Hs.
  cbn [mbind outcome_bind]. rewrite is_utf8_ascii by apply name_to_string_ascii. by rewrite string_to_name_to_string.
Qed.

(** The parent that the files of a layer name, if the layer exists. *)
Definition parent_answer (m : store_map) (d : name) (o : outcome (option name)) : Prop :=
  match m !! d with
  | None => o = Err NotFound
  | Some fs => match fs !! fn_parent FILENAMES with
               | None => o = Ok None
               | Some _ => ∃ p, parent_in m d p ∧ o = Ok (Some p)
               end
  end.

Lemma als_layer_parent_returns m d :
  name_wf d → layers_wf m →
  ∃ o, parent_answer m d o ∧ returns als_rep m (als_layer_parent d) o m ∧ returns als_rep m (layer_parent d) o m.
Proof.
  intros Hd Hwf. unfold parent_answer. destruct (m !! d) as [fs|] eqn:Hm.
  - assert (∀ o, match fs !! fn_parent FILENAMES with
                 | Some c => p ← parent_of_bytes c; Ok (Some p) | None => Ok None end = o →
              returns als_rep m (als_layer_parent d) o m) as Hover.
    { intros o <-. apply on_backend_reads. intros a Ha. eapply returns_eq; [by apply get_parent_spec|].
      destruct (hold_contents m d Hd a fs (fn_parent FILENAMES) Parent) as (gs & Hgs & Hc); [done|done|done|by vm_compute|done|].
      unfold of_layer, archive_parent. by rewrite Hgs, Hc. }
    destruct (fs !! fn_parent FILENAMES) as [c|] eqn:Hpar.
    + destruct (lw_parents _ Hwf d fs c Hm Hpar) as (p & Hp & _). exists (Ok (Some p)).
      destruct (parent_in_lookup _ _ _ _ Hp Hm) as [Hc Hpw]. rewrite Hpar in Hc. simplify_eq.
      split; [by eauto|]. split.
      * apply Hover. by rewrite parent_of_name.
      * change (runs (S := ArchiveLayerStore B) m (layer_parent d) (Some p) m).
        eapply runs_bind; [by eapply runs_directory_exists|]. cbn iota.
        eapply runs_bind; [by eapply runs_layer_has_parent|]. rewrite Hpar, bool_decide_eq_true_2 by eauto. cbn iota.
        eapply runs_bind; [by eapply runs_read_parent|]. apply runs_ret.
    + exists (Ok None). split; [done|]. split; [by apply Hover|].
      change (runs (S := ArchiveLayerStore B) m (layer_parent d) None m).
      eapply runs_bind; [by eapply runs_directory_exists|]. cbn iota.
      eapply runs_bind; [by eapply runs_layer_has_parent|]. rewrite Hpar, bool_decide_eq_false_2 by by intros [? [=]].
      cbn iota. apply runs_ret.
  - exists (Err NotFound). split; [done|]. split.
    + apply on_backend_reads. intros a Ha. eapply returns_eq; [by apply get_parent_spec|]. unfold of_layer.
      specialize (Ha d Hd). rewrite Hm in Ha. by destruct (a_layers a !! d).
    + change (fails (S := ArchiveLayerStore B) m (layer_parent d) NotFound). by apply fails_if_layer.
Qed.
End spec.

(** ** From creation to reading back *)

(** Write files of a layer one after the other. *)
Fixpoint write_files {S} `{PersistentLayerStore S} (d : name) (files : list (string * string)) : io S unit :=
  match files with
  | [] => mret tt
  | (f, c) :: files => file ← get_file d f; _ ← f_write file c; write_files d files
  end.

(** The files with their kinds; a layer has one file of a kind, and its rollup is
    not one of them. *)
Definition typed (files : list (string * string)) : list (LayerFileEnum * string) :=
  omap (λ p, ft ← FILENAME_ENUM_MAP !! p.1; Some (ft, p.2)) files.

Definition storable (files : list (string * string)) : Prop :=
  Forall (λ p, known p.1 = true ∧ p.1 ≠ fn_rollup FILENAMES) files ∧ NoDup (typed files).*1.

Lemma finished_insert files ft c : finished (<[ft := Finalized c]> files) = <[ft := c]> (finished files).
Proof. apply (omap_insert_Some _ _ _ _ c). done. Qed.

Lemma typed_cons f c files ft :
  FILENAME_ENUM_MAP !! f = Some ft → typed ((f, c) :: files) = (ft, c) :: typed files.
Proof. intros Hf. unfold typed. cbn [omap list_omap fst snd]. by rewrite Hf. Qed.

Section lifecycle.
Context {B : Type} `{ArchiveBackendLaws B}.

(** Writing a file of a layer under construction for the first time. *)
Lemma als_write_file (b : B) c d cs f ft data :
  c !! d = Some cs → FILENAME_ENUM_MAP !! f = Some ft → ft ≠ Rollup → cs !! ft = None →
  (file ← als_get_file d f; als_write file data) (ArchiveStore b c) =
    (Ok tt, ArchiveStore b (<[d := <[ft := Finalized data]> cs]> c)).
Proof.
  intros Hc Hf Hne Hno.
  rewrite (io_bind_Ok _ _ _ (LayerFile d f) (ArchiveStore b (<[d := <[ft := cf_new]> cs]> c))).
  - unfold als_write. rewrite (io_bind_Ok _ _ _ (HConstruction (<[ft := cf_new]> cs) ft cf_new)
        (ArchiveStore b (<[d := <[ft := cf_new]> cs]> c))).
    + unfold cf_new. cbn [cf_write cf_sync_all String.append]. eval_io. unfold set_construction. simpl.
      by rewrite !insert_insert_eq.
    + unfold als_resolve, file_type_of. cbn [lf_name lf_dir]. rewrite Hf. cbn [unwrap]. rewrite lift_bind_Ok.
      rewrite decide_False by done. eval_io. simpl. rewrite lookup_insert_eq, lookup_insert_eq. done.
  - unfold als_get_file, file_type_of. rewrite Hf. cbn [unwrap]. rewrite lift_bind_Ok.
    rewrite decide_False by done. eval_io. simpl. by rewrite Hc, Hno.
Qed.

Lemma write_files_spec (b : B) c d files : ∀ cs,
  storable files → (∀ ft, ft ∈ (typed files).*1 → cs !! ft = None) →
  ∃ cs', write_files d files (ArchiveStore b (<[d := cs]> c)) = (Ok tt, ArchiveStore b (<[d := cs']> c)) ∧
    finished cs' = list_to_map (typed files) ∪ finished cs.
Proof.
  induction files as [|[f data] files IH]; intros cs [Hall Hnd] Hno.
  { exists cs. split; [done|]. symmetry. exact (map_empty_union _). }
  apply Forall_cons in Hall as [[Hk Hne] Hall]. destruct (known_type f Hk) as [ft Hf].
  rewrite (typed_cons f data files ft Hf) in *. csimpl in *. apply NoDup_cons in Hnd as [Hft Hnd].
  assert (ft ≠ Rollup) as Hr by (intros ->; apply Hne; by apply rollup_type).
  destruct (IH (<[ft := Finalized data]> cs)) as (cs' & Hw & Hcs').
  - by split.
  - intros ft' Hft'. rewrite lookup_insert_ne by (intros ->; contradiction). apply Hno. by right.
  - exists cs'. split.
    + pose proof (als_write_file b (<[d := cs]> c) d cs f ft data (lookup_insert_eq _ _ _) Hf Hr (Hno ft ltac:(by left))) as H1.
      rewrite insert_insert_eq in H1. cbn [write_files get_file f_write archive_layer_store].
      apply io_bind_inv in H1 as (file & s1 & Hg & H1). rewrite (io_bind_Ok _ _ _ _ _ Hg).
      rewrite (io_bind_Ok _ _ _ _ _ H1). exact Hw.
    + rewrite Hcs', finished_insert. rewrite <- insert_union_r by by apply not_elem_of_list_to_map_1.
      apply insert_union_l.
Qed.

Lemma archives_hold_add a m d gs fs :
  archives_hold a m → m !! d = None → name_wf d → archived gs None fs →
  archives_hold (add_layer a d gs) (<[d := fs]> m).
Proof.
  intros Ha Hm Hd Hfs d' Hd'. simpl. destruct (decide (d = d')) as [<-|Hne].
  - rewrite !lookup_insert_eq. specialize (Ha d Hd). rewrite Hm in Ha.
    destruct (a_layers a !! d); [destruct Ha|]. rewrite Ha. exact Hfs.
  - rewrite !lookup_insert_ne by done. by apply Ha.
Qed.

(** The contents that a map has for the files of an archive. *)
Definition archived_file (gs : layer_files) (f : string) : option string :=
  ft ← FILENAME_ENUM_MAP !! f; if decide (ft = Rollup) then None else gs !! ft.
Definition archived_contents (gs : layer_files) : layer_contents :=
  list_to_map (omap (λ f, c ← archived_file gs f; Some (f, c)) all_filenames).

Lemma archived_contents_lookup gs f : known f = true → archived_contents gs !! f = archived_file gs f.
Proof.
  intros Hf%known_elem. unfold archived_contents. rewrite (list_to_map_omap _ _ _ filenames_distinct).
  by rewrite decide_True.
Qed.

Lemma archived_contents_spec gs : archived gs None (archived_contents gs).
Proof.
  intros f ft Hk Hf. rewrite archived_contents_lookup by done. unfold archived_file. rewrite Hf. simpl. by case_decide.
Qed.

(** A layer that is created, whose files are written, and that is finalized, is in
    the store with these files. *)
Lemma als_create_layer (s : ArchiveLayerStore B) m d files :
  als_rep s m → name_wf d → m !! d = None → storable files → fits (list_to_map (typed files)) →
  ∃ s', (_ ← create_named_directory d; _ ← write_files d files; pls_finalize d) s = (Ok tt, s') ∧
    als_rep s' (<[d := archived_contents (list_to_map (typed files))]> m).
Proof.
  intros [Hi (a & Hb & Ha) Hn] Hd Hm Hst Hfit. destruct s as [b c]. simpl in Hi, Hb. subst c.
  assert (a_layers a !! d = None) as Hno.
  { specialize (Ha d Hd). rewrite Hm in Ha. by destruct (a_layers a !! d). }
  destruct (layer_exists_spec a d Hd b Hb) as (b1 & He & Hb1).
  destruct (write_files_spec b1 ∅ d files ∅ Hst) as (cs & Hw & Hcs); [intros; apply lookup_empty|].
  assert (finished cs = list_to_map (typed files)) as Hfin.
  { rewrite Hcs. unfold finished. by rewrite omap_empty, map_union_empty. }
  rewrite <- Hfin in Hfit.
  destruct (store_layer_file_spec a d (finished cs) Hd Hfit Hno b1 Hb1) as (b2 & Hst2 & Hb2).
  exists (ArchiveStore b2 ∅). split.
  - cbn [create_named_directory pls_finalize archive_layer_store].
    rewrite (io_bind_Ok _ _ _ d (ArchiveStore b1 (<[d := ∅]> ∅))).
    + rewrite (io_bind_Ok _ _ _ _ _ Hw). unfold als_finalize. eval_io. simpl. rewrite lookup_insert_eq.
      unfold set_construction, on_backend. simpl. rewrite delete_insert_eq, Hst2. by rewrite delete_empty.
    + unfold als_create_named_directory. eval_io. unfold on_backend. simpl. rewrite He, Hno. simpl. by rewrite lookup_empty.
  - split; simpl; [done| |].
    + exists (add_layer a d (finished cs)). split; [done|]. rewrite Hfin.
      apply archives_hold_add; [done..|apply archived_contents_spec].
    + intros d' [fs' [[<- _]|[_ ?]]%lookup_insert_Some]; [done|]. apply Hn. eauto.
Qed.

Lemma als_reads (s : ArchiveLayerStore B) m d fs f :
  als_rep s m → name_wf d → m !! d = Some fs → known f = true →
  ∃ s', (file ← get_file d f; f_read file) s = (contents fs f, s').
Proof.
  intros Hs Hd Hm Hk. destruct (als_get_file_returns m d f Hk s Hs) as (s1 & H1 & Hs1).
  destruct (als_read_returns m d Hd f fs Hk Hm s1 Hs1) as (s2 & H2 & _). exists s2.
  cbn [get_file f_read archive_layer_store]. by rewrite (io_bind_Ok _ _ _ _ _ H1).
Qed.

Lemma als_reads_back (s : ArchiveLayerStore B) m d files f c :
  als_rep s (<[d := archived_contents (list_to_map (typed files))]> m) → name_wf d → storable files → (f, c) ∈ files →
  ∃ s', (file ← get_file d f; f_read file) s = (Ok c, s').
Proof.
  intros Hs Hd [Hall Hnd] Hin. rewrite Forall_forall in Hall. destruct (Hall _ Hin) as [Hk Hne]. simpl in Hk, Hne.
  destruct (als_reads s _ d _ f Hs Hd (lookup_insert_eq _ _ _) Hk) as (s' & He). exists s'. rewrite He.
  unfold contents. rewrite archived_contents_lookup by done. destruct (known_type f Hk) as [ft Hf].
  unfold archived_file. rewrite Hf. cbn [mbind option_bind].
  rewrite decide_False by (intros ->; apply Hne; by apply rollup_type).
  replace (list_to_map (typed files) !! ft) with (Some c); [done|]. symmetry. apply elem_of_list_to_map_1; [exact Hnd|].
  unfold typed. apply list_elem_of_omap. exists (f, c). split; [exact Hin|]. simpl. by rewrite Hf.
Qed.

Lemma als_reads_none (s : ArchiveLayerStore B) m d files f ft :
  als_rep s (<[d := archived_contents (list_to_map (typed files))]> m) → name_wf d →
  known f = true → FILENAME_ENUM_MAP !! f = Some ft → ft ∉ (typed files).*1 →
  ∃ s', (file ← get_file d f; f_read file) s = (Err NotFound, s').
Proof.
  intros Hs Hd Hk Hf Hno.
  destruct (als_reads s _ d _ f Hs Hd (lookup_insert_eq _ _ _) Hk) as (s' & He). exists s'. rewrite He.
  unfold contents. rewrite archived_contents_lookup by done. unfold archived_file. rewrite Hf. cbn [mbind option_bind].
  case_decide; [done|]. by rewrite not_elem_of_list_to_map_1.
Qed.
End lifecycle.

(** ** What the store refuses *)
Section refused.
Context {B : Type} `{ArchiveBackendLaws B}.

Lemma resolve_at (s : ArchiveLayerStore B) d f ft :
  FILENAME_ENUM_MAP !! f = Some ft → ft ≠ Rollup →
  als_resolve (LayerFile d f) s =
    (match als_construction s !! d with
     | Some files => c ← unwrap (files !! ft); Ok (HConstruction files ft c)
     | None => Ok (HPersistent ft)
     end, s).
Proof.
  intros Hf Hft. unfold als_resolve, file_type_of. cbn [lf_name lf_dir]. rewrite Hf.
  rewrite (io_bind_Ok _ (lift (unwrap (Some ft))) s ft s eq_refl). rewrite decide_False by exact Hft.
  rewrite (io_bind_Ok _ read_state s s s eq_refl).
  destruct (als_construction s !! d) as [files|]; [|reflexivity].
  destruct (files !! ft); reflexivity.
Qed.

Lemma create_refused (s : ArchiveLayerStore B) a d :
  ab_rep (als_backend s) a → name_wf d → is_Some (a_layers a !! d) ∨ is_Some (als_construction s !! d) →
  (als_create_named_directory d s).1 = Panic.
Proof.
  destruct s as [b c]. intros Hb Hd Hor. simpl in *. destruct (layer_exists_spec a d Hd b Hb) as (b' & He & _).
  unfold als_create_named_directory.
  rewrite (io_bind_Ok _ _ _ (bool_decide (is_Some (a_layers a !! d))) (ArchiveStore b' c))
    by (unfold on_backend; simpl; by rewrite He).
  case_bool_decide as Hl; [reflexivity|]. destruct Hor as [?|[files Hc]]; [contradiction|].
  rewrite (io_bind_Ok _ read_state (ArchiveStore b' c) _ _ eq_refl). cbn [als_construction]. rewrite Hc. reflexivity.
Qed.

Lemma finalize_refused (s : ArchiveLayerStore B) d : als_construction s !! d = None → (als_finalize d s).1 = Panic.
Proof. intros Hc. unfold als_finalize. rewrite (io_bind_Ok _ read_state s s s eq_refl), Hc. reflexivity. Qed.

Lemma write_archived_refused (s : ArchiveLayerStore B) d f ft contents :
  FILENAME_ENUM_MAP !! f = Some ft → ft ≠ Rollup → als_construction s !! d = None →
  (als_write (LayerFile d f) contents s).1 = Panic.
Proof.
  intros Hf Hft Hc. unfold als_write. rewrite (io_bind_Ok _ _ s (HPersistent ft) s); [reflexivity|].
  rewrite (resolve_at s d f ft Hf Hft), Hc. reflexivity.
Qed.

Lemma write_twice_refused (s : ArchiveLayerStore B) d f ft contents files bytes :
  FILENAME_ENUM_MAP !! f = Some ft → ft ≠ Rollup →
  als_construction s !! d = Some files → files !! ft = Some (Finalized bytes) →
  als_write (LayerFile d f) contents s = (Err Other, s).
Proof.
  intros Hf Hft Hc Hbytes. unfold als_write.
  rewrite (io_bind_Ok _ _ s (HConstruction files ft (Finalized bytes)) s); [reflexivity|].
  rewrite (resolve_at s d f ft Hf Hft), Hc, Hbytes. reflexivity.
Qed.
End refused.
