(* ===== verification/ArchiveExamples.v ===== *)
(** Concrete instances for the theorems about archives: offsets as lists of words,
    an LRU cache as a list of entries, and a small layer in an empty directory. *)

From S2P Require Import Prelude Names Text Files Consts LayerFiles LayerFileSpec LayerStores Archive ArchiveBackend LruBackend LruArchive LruConcurrent ArchiveStore ArchiveStoreSpec.

(** ** Arrays of offsets

    The control word is the length of the rest, and an offset a word of 64 bits. *)
Fixpoint put_words (l : list nat) : string :=
  match l with [] => EmptyString | x :: l => put_u64 (N.of_nat x) +:+ put_words l end.

Fixpoint get_words (n : nat) (s : string) : option (list nat * string) :=
  match n with
  | O => Some ([], s)
  | S n => '(x, s) ← be_value 0 8 s; '(l, s) ← get_words n s; Some (N.to_nat x :: l, s)
  end.

Definition rank_of (v : N) (i : nat) : nat :=
  length (List.filter (λ j, N.testbit v (N.of_nat (63 - j))) (seq 0 (S i))).

#[export] Instance word_ops : ArchiveOps := {|
  SmallBitArray := N;
  sba_new v := v;
  sba_inner v := v;
  sba_get v i := N.testbit v (N.of_nat (63 - i));
  sba_rank1 := rank_of;
  OffsetsBuilder := list nat;
  ob_new := [];
  ob_push b x := b ++ [x];
  ob_finalize_header_first b := put_u64 (N.of_nat (8 * length b)) +:+ put_words b;
  Offsets := list nat;
  off_parse_header_first s := '(n, s) ← be_value 0 8 s; get_words (N.to_nat (n / 8)) s;
  off_entry a i := unwrap (a !! i);
  off_len a := length a;
  logarray_length_from_control_word s := match be_value 0 8 s with Some (n, _) => N.to_nat n | None => 0 end;
|}.

Lemma get_put_words l rest :
  Forall (λ x, (N.of_nat x < 2 ^ 64)%N) l → get_words (length l) (put_words l +:+ rest) = Some (l, rest).
Proof.
  induction 1 as [|x l Hx _ IH]; [done|]. cbn [put_words get_words length]. rewrite string_app_assoc, u64_round_trip by done.
  cbn [mbind option_bind]. rewrite IH. cbn [mbind option_bind]. by rewrite Nat2N.id.
Qed.

Lemma put_words_length l : String.length (put_words l) = 8 * length l.
Proof. induction l as [|x l IH]; [done|]. cbn [put_words length]. rewrite string_length_app, IH. unfold put_u64. rewrite be_bytes_length. lia. Qed.

Lemma offsets_word l : offsets_ok l → (N.of_nat (8 * length l) < 2 ^ 64)%N.
Proof. intros [Hl _]. simpl N.pow. lia. Qed.

#[export] Program Instance word_laws : ArchiveLaws := {| ob_list b := b |}.
Next Obligation. done. Qed.
Next Obligation. done. Qed.
Next Obligation. done. Qed.
Next Obligation. done. Qed.
Next Obligation. done. Qed.
Next Obligation.
  intros b rest Hb. pose proof (offsets_word b Hb) as Hw. destruct Hb as [_ Hall]. exists b. cbn [off_parse_header_first ob_finalize_header_first word_ops].
  rewrite string_app_assoc, u64_round_trip by done. cbn [mbind option_bind].
  replace (N.to_nat (N.of_nat (8 * length b) / 8)) with (length b) by (rewrite Nat2N.inj_mul, N.mul_comm, N.div_mul by done; lia).
  rewrite get_put_words by done. split; [done|]. split; [done|]. intros i x Hx. simpl. by rewrite Hx.
Qed.
Next Obligation.
  intros b Hb. exists (put_u64 (N.of_nat (8 * length b))), (put_words b). split; [done|]. split; [apply be_bytes_length|].
  cbn [logarray_length_from_control_word word_ops]. pose proof (u64_round_trip _ EmptyString (offsets_word b Hb)) as Hr.
  rewrite string_app_empty in Hr. by rewrite Hr, put_words_length, Nat2N.id.
Qed.

(** ** An LRU cache as a list *)

Definition lru_list : Type := { l : items | NoDup l.*1 }.

Lemma to_front_nodup k (l : items) : NoDup l.*1 → NoDup (to_front k l).*1.
Proof. intros Hl. by rewrite (to_front_perm k l Hl). Qed.
Lemma to_back_nodup k (l : items) : NoDup l.*1 → NoDup (to_back k l).*1.
Proof. intros Hl. by rewrite (to_back_perm k l Hl). Qed.
Lemma put_nodup k e (l : items) : NoDup l.*1 → NoDup ((k, e) :: without k l).*1.
Proof. intros Hl. destruct (without_nodup k l Hl) as [Hn Hk]. by constructor. Qed.
Lemma removelast_nodup (l : items) : NoDup l.*1 → NoDup (removelast l).*1.
Proof.
  destruct l as [|x l] using rev_ind; [done|]. rewrite removelast_last, fmap_app. by intros [? _]%NoDup_app.
Qed.
Lemma insert_nodup k e (l : items) :
  NoDup l.*1 → NoDup (if decide (k ∈ l.*1) then to_front k l else (k, e) :: l).*1.
Proof. intros Hl. case_decide; [by apply to_front_nodup|by constructor]. Qed.

#[export] Instance list_lru : LruOps := {|
  LruCache := lru_list;
  lru_unbounded := exist _ [] (NoDup_nil_2 (A := name));
  lru_len c := length (`c);
  lru_get k c := (find k (`c), exist _ (to_front k (`c)) (to_front_nodup k _ (proj2_sig c)));
  lru_peek k c := find k (`c);
  lru_contains k c := bool_decide (k ∈ (`c).*1);
  lru_peek_lru c := last (`c);
  lru_pop_lru c := (last (`c), exist _ (removelast (`c)) (removelast_nodup _ (proj2_sig c)));
  lru_promote k c := exist _ (to_front k (`c)) (to_front_nodup k _ (proj2_sig c));
  lru_demote k c := exist _ (to_back k (`c)) (to_back_nodup k _ (proj2_sig c));
  lru_put k e c := exist _ ((k, e) :: without k (`c)) (put_nodup k e _ (proj2_sig c));
  lru_get_or_insert k e c :=
    exist _ (if decide (k ∈ (`c).*1) then to_front k (`c) else (k, e) :: `c) (insert_nodup k e _ (proj2_sig c));
  lru_set k e c :=
    if decide (k ∈ (`c).*1) then Some (exist _ ((k, e) :: without k (`c)) (put_nodup k e _ (proj2_sig c))) else None;
|}.

#[export] Instance list_lru_laws : LruLaws.
Proof.
  refine {| lru_items := (λ c : LruCache, `c) |}; try done.
  - intros c. apply (proj2_sig c).
  - intros k e c. simpl. by case_decide.
Defined.

(** ** A small archive *)

#[local] Open Scope string_scope.

Definition farm_id : name := Name 1 2 3 4 5.

Definition small_files : list (string * string) :=
  [("parent.hex", "cow"); ("node_dictionary_blocks.tfc", "abc"); ("pos_s_p_adjacency_list_nums.logarray", "")].

Lemma farm_id_wf : name_wf farm_id.
Proof. by repeat split. Qed.

Lemma small_files_storable : storable small_files.
Proof. split; [repeat constructor; done|]. apply (bool_decide_unpack _). vm_compute. done. Qed.

Lemma small_files_fit : fits (list_to_map (typed small_files)).
Proof. vm_compute. done. Qed.

Definition no_archives : archives := Archives ∅ ∅.

Lemma empty_directory_rep : dab_rep ∅ no_archives.
Proof.
  split; simpl.
  - intros d _. by rewrite !lookup_empty.
  - intros d _. by rewrite !lookup_empty.
  - intros d r. by rewrite lookup_empty.
  - intros d c. by rewrite lookup_empty.
  - intros d [fs Hd]. by rewrite lookup_empty in Hd.
  - intros d fs. by rewrite lookup_empty.
Qed.

(** The store of [open_archive_store], with a cache of 1 megabyte. *)
Definition empty_lru : LruArchiveBackend tree := lru_new ∅ 1.
Definition empty_archive_store : ArchiveLayerStore (LruArchiveBackend tree) := ArchiveStore empty_lru ∅.

Lemma empty_lru_rep : lru_rep empty_lru no_archives.
Proof.
  split; [exact empty_directory_rep| |by vm_compute].
  split; simpl; [|intros k bytes Hin; by apply not_elem_of_nil in Hin|done|by vm_compute].
  intros k b. split; [intros Hin; by apply not_elem_of_nil in Hin|done].
Qed.

Lemma empty_archive_store_rep : als_rep empty_archive_store ∅.
Proof.
  split; [done| |intros d [fs Hd]; by rewrite lookup_empty in Hd].
  exists no_archives. split; [exact empty_lru_rep|]. intros d _. simpl. by rewrite !lookup_empty.
Qed.

(** The same back end with a layer, that is in the cache as well. *)
Definition small_layer : layer_files := list_to_map (typed small_files).
Definition filled_lru : LruArchiveBackend tree := (store_layer_file farm_id (layer_archive small_layer) empty_lru).2.
Definition one_archive : archives := add_layer no_archives farm_id small_layer.

Lemma filled_lru_rep : lru_rep filled_lru one_archive.
Proof.
  destruct (lru_store_returns no_archives farm_id small_layer farm_id_wf small_files_fit (lookup_empty _)
              empty_lru empty_lru_rep) as (w & Hw & Hr).
  unfold filled_lru. change (store_layer_file ?d ?b empty_lru) with (lru_store_layer_file d b empty_lru).
  by rewrite Hw.
Qed.

(** Two calls that look for a layer while a third one stores it. *)
Definition three_calls : gmap nat call :=
  {[ 0 := Get farm_id; 1 := Get farm_id; 2 := Store farm_id (layer_archive small_layer) ]}.
Definition busy : system (O := tree) := System (lru_state empty_lru) ∅ three_calls.

Lemma busy_started : started (limit_bytes empty_lru) no_archives busy.
Proof.
  assert (∀ t c, three_calls !! t = Some c →
    (t = 0 ∧ c = Get farm_id) ∨ (t = 1 ∧ c = Get farm_id) ∨ (t = 2 ∧ c = Store farm_id (layer_archive small_layer))) as Hcs.
  { intros t c. unfold three_calls. rewrite !lookup_insert_Some, lookup_singleton_Some. naive_solver. }
  split; [exact empty_directory_rep|exact (lr_cache _ _ empty_lru_rep)|done| |].
  - intros t c [[-> ->]|[[-> ->]|[-> ->]]]%Hcs; [exact farm_id_wf|exact farm_id_wf|].
    split; [exact farm_id_wf|]. split; [apply lookup_empty|]. exists small_layer. split; [exact small_files_fit|done].
  - intros t1 t2 id b1 b2 H1%Hcs H2%Hcs. naive_solver.
Qed.

(** The first call finds nothing and starts to read, the second one waits for it, and
    the layer is stored. *)
Definition busy_then : system (O := tree) :=
  let s1 := (look_up farm_id (lru_state empty_lru)).2 in
  let s2 := (look_up farm_id s1).2 in
  let o := (store_layer_file farm_id (layer_archive small_layer) (∅ : tree)).2 in
  System s2 o (<[2 := Keeping farm_id (layer_archive small_layer)]>
                 (<[1 := Waiting farm_id 0]> (<[0 := Reading farm_id 0]> three_calls))).

Lemma busy_steps limit : steps limit [Some 0; Some 1; Some 2] busy busy_then.
Proof.
  unfold busy, busy_then. cbv zeta.
  eapply steps_cons; [by eapply (step_look_up _ _ _ _ 0 farm_id (Resolve 0))|].
  eapply steps_cons; [by eapply (step_look_up _ _ _ _ 1 farm_id (Wait 0))|].
  eapply steps_cons; [eapply (step_store _ _ _ _ 2 farm_id _ (Ok tt)); [done|]|apply steps_nil].
  assert (dab_rep (∅ : tree) no_archives) as Hr by exact empty_directory_rep.
  destruct (dab_store _ _ farm_id Hr farm_id_wf small_layer small_files_fit (lookup_empty _)) as (o & Ho & _).
  change (store_layer_file ?d ?b (∅ : tree)) with (dab_store_layer_file d b (∅ : tree)). by rewrite Ho.
Qed.

(** A layer and a child of it in an archive store. *)
Definition calf_id : name := Name 1 2 3 4 6.
Definition farm_files : list (string * string) := [("node_dictionary_blocks.tfc", "abc")].
Definition calf_files : list (string * string) := [("parent.hex", name_to_string farm_id)].
Definition family : store_map :=
  <[calf_id := archived_contents (list_to_map (typed calf_files))]>
    (<[farm_id := archived_contents (list_to_map (typed farm_files))]> ∅).

Lemma calf_parent : parent_in family calf_id farm_id.
Proof. split; [exact farm_id_wf|]. eexists. split; [apply lookup_insert_eq|]. by vm_compute. Qed.

Lemma family_wf : layers_wf family.
Proof.
  unfold family. split.
  - intros d [fs [[<- _]|[_ [[<- _]|[_ Hd]]%lookup_insert_Some]]%lookup_insert_Some]; [by repeat split|exact farm_id_wf|].
    by rewrite lookup_empty in Hd.
  - intros d fs c [[<- <-]|[_ [[<- <-]|[_ Hd]]%lookup_insert_Some]]%lookup_insert_Some Hc.
    + exists farm_id. split; [exact calf_parent|]. rewrite lookup_insert_ne by done.
      rewrite lookup_insert_eq. by eexists.
    + exfalso. revert Hc. by vm_compute.
    + by rewrite lookup_empty in Hd.
Qed.

Lemma family_store : ∃ s : ArchiveLayerStore (LruArchiveBackend tree), als_rep s family.
Proof.
  destruct (als_create_layer empty_archive_store ∅ farm_id farm_files empty_archive_store_rep farm_id_wf (lookup_empty _))
    as (s1 & _ & Hs1); [|by vm_compute|].
  { split; [repeat constructor; done|]. apply (bool_decide_unpack _). by vm_compute. }
  destruct (als_create_layer s1 _ calf_id calf_files Hs1) as (s2 & _ & Hs2); [by repeat split|by vm_compute| |by vm_compute|].
  { split; [repeat constructor; done|]. apply (bool_decide_unpack _). by vm_compute. }
  by exists s2.
Qed.
