(* ===== verification/PersistentStore.v ===== *)
(** A persistent layer store with a cache is the layer store of a named graph:
    [get_layer_with_cache] and [layer_is_ancestor_of] keep the promises of
    [NamedGraph.LayerStore] on a store all of whose layers can be loaded. *)

From S2P Require Import Prelude Names Text LabelSpec NamedGraph Consts LayerFiles LayerFileSpec Succinct LayerTypes IdMap InternalLayer LayerIds LayerCache LayerMaps LayerLoad.
From stdpp Require Import relations.

Section persistent_store.
Context `{SuccinctParse} {S C : Type} `{FileMapsLaws S, !LayerCache C, !LayerCacheLaws C}.

(** The loops run with the fuel given: the number of layers that a layer is
    loaded from, and of its ancestors. *)
Context (fuel : nat).

#[export] Instance persistent_layer_store : LayerStore (S * C) := {|
  layer_handle := InternalLayer;
  handle_name := layer_name;
  get_layer := get_layer_with_cache fuel;
  is_ancestor_of d a := on_store (layer_is_ancestor_of fuel d a);
|}.

(** All layers of the store can be loaded, with the fuel given. *)
Record readable (m : store_map) : Prop := {
  rd_wf : layers_wf m;
  rd_loads d : is_Some (m !! d) → ∃ k l, k ≤ fuel ∧ loads m k d l;
  rd_depth d : is_Some (m !! d) → ∃ n, n < fuel ∧ depth m d n;
}.

(** The parents of the layers of a store. *)
Definition store_graph (m : store_map) (g : layer_graph) : Prop :=
  ∀ d o, g !! d = Some o ↔ opt_parent_in m d o.

Lemma store_graph_is_Some m g d : layers_wf m → store_graph m g → is_Some (g !! d) ↔ is_Some (m !! d).
Proof.
  intros Hm Hg. split.
  - intros [o Ho%Hg]. destruct o as [p|]; [by destruct Ho as (_ & fs & ? & _)|by destruct Ho as (fs & ? & _)].
  - intros [fs Hfs]. destruct (fs !! fn_parent FILENAMES) as [c|] eqn:Hc.
    + destruct (lw_parents _ Hm d fs c Hfs Hc) as (p & Hp & _). exists (Some p). by apply Hg.
    + exists None. apply Hg. by exists fs.
Qed.

Lemma store_graph_ancestor m g d a : store_graph m g → graph_ancestor g d a ↔ ancestor_in m d a.
Proof.
  intros Hg. split; apply rtc_subrel; intros x y; unfold graph_parent; by rewrite (Hg x (Some y)).
Qed.

#[export] Program Instance persistent_layer_store_laws : LayerStoreLaws (S * C) := {|
  ly_rep sc g := ∃ m, pl_rep sc.1 m ∧ lc_inv (loaded m) sc.2 ∧ readable m ∧ store_graph m g;
|}.
Next Obligation.
  intros [s c] g d (m & _ & _ & Hm & Hg) Hd. apply (lw_names _ (rd_wf _ Hm)).
  by apply (store_graph_is_Some m g); [apply Hm|..].
Qed.
Next Obligation.
  intros [s c] g d (m & Hs & Hc & Hm & Hg) Hd.
  apply (store_graph_is_Some m g d (rd_wf _ Hm) Hg) in Hd.
  destruct (rd_loads _ Hm d Hd) as (k & l & Hk & Hl).
  destruct (get_layer_with_cache_ok m fuel k d l Hl Hk s c Hs Hc) as (r & s' & c' & Hr & Hs' & Hc' & ->).
  exists l, (s', c'). split; [done|]. split; [by eapply loads_name|]. by exists m.
Qed.
Next Obligation.
  intros [s c] g d (m & Hs & Hc & Hm & Hg) Hw Hd.
  assert (m !! d = None) as Hd'.
  { destruct (m !! d) as [fs|] eqn:Hfs; [|done].
    assert (is_Some (g !! d)) as [o Ho] by (apply (store_graph_is_Some m g d (rd_wf _ Hm) Hg); by exists fs).
    congruence. }
  destruct (get_layer_with_cache_missing m fuel d Hw Hd' s c Hs Hc) as (r & s' & c' & Hr & Hs' & Hc' & ->).
  exists (s', c'). split; [done|]. by exists m.
Qed.
Next Obligation.
  intros [s c] g d a (m & Hs & Hc & Hm & Hg) Hd.
  apply (store_graph_is_Some m g d (rd_wf _ Hm) Hg) in Hd.
  destruct (rd_depth _ Hm d Hd) as (n & Hn & Hdep).
  destruct (runs_is_ancestor m d a n fuel (rd_wf _ Hm) Hdep Hn) as (b & Hb & Hiff).
  destruct (Hb s Hs) as (s' & Heq & Hs'). exists b, (s', c). split.
  - change (on_store (layer_is_ancestor_of fuel d a) (s, c) = (Ok b, (s', c))).
    unfold on_store. cbn [fst snd]. by rewrite Heq.
  - split; [by exists m|]. by rewrite (store_graph_ancestor m g).
Qed.
End persistent_store.
