(* ===== verification/Examples.v ===== *)
(** Two small layers over the list instance of the succinct structures, a base
    layer and a child of it, with the proofs that they are well formed. The
    witnesses of the theorems about layers evaluate on them. *)

From S2P Require Import Prelude Names Succinct SuccinctList LayerTypes Nested SubjectIterator LayerLookup ObjectIterator PredicateIterator StackMerge ChangeMerge IdMap InternalLayer LayerIds LayerQueries.

#[local] Open Scope string_scope.

(** [cow], [duck] and [pig] with the predicates [hears] and [likes]; the id map
    of the nodes exchanges the second and the third entry. *)
Definition base_layout : layout := [[(1, [4]); (2, [2])]; [(0, [0])]; [(2, [1])]].
Definition base_index : list (list nat) := [[4]; [2]; [0]; [1]].

Definition farm_base : BaseLayer := {|
  bl_name := Name 0 0 0 0 1;
  bl_node_dictionary := ["cow"; "duck"; "pig"];
  bl_predicate_dictionary := ["hears"; "likes"];
  bl_value_dictionary := [(0, 5)];
  bl_node_value_idmap := from_parts (Some [0; 2; 1; 3]);
  bl_predicate_idmap := from_parts None;
  bl_subjects := None;
  bl_objects := None;
  bl_s_p_adjacency_list := sp_rows base_layout;
  bl_sp_o_adjacency_list := spo_rows base_layout;
  bl_o_ps_adjacency_list := base_index;
  bl_predicate_wavelet_tree := [1; 2; 0; 2];
  bl_stored_size := 0;
|}.

Definition base_triples : list IdTriple :=
  [new_IdTriple 1 1 4; new_IdTriple 1 2 2; new_IdTriple 3 2 1].

(** The child adds the node [dog], one triple of it, and removes one of [cow]. *)
Definition child_additions : layout := [[(2, [1; 2])]].
Definition child_additions_index : list (list nat) := [[1]; [1]].
Definition child_removals : layout := [[(2, [2])]].

Definition farm_child : ChildLayer := {|
  cl_name := Name 0 0 0 0 2;
  cl_node_dictionary := ["dog"];
  cl_predicate_dictionary := [];
  cl_value_dictionary := [];
  cl_node_value_idmap := from_parts None;
  cl_predicate_idmap := from_parts None;
  cl_parent_node_value_count := 4;
  cl_parent_predicate_count := 2;
  cl_pos_subjects := [5];
  cl_pos_objects := [1; 2];
  cl_pos_s_p_adjacency_list := sp_rows child_additions;
  cl_pos_sp_o_adjacency_list := spo_rows child_additions;
  cl_pos_o_ps_adjacency_list := child_additions_index;
  cl_neg_subjects := [1];
  cl_neg_objects := [2];
  cl_neg_s_p_adjacency_list := sp_rows child_removals;
  cl_neg_sp_o_adjacency_list := spo_rows child_removals;
  cl_neg_o_ps_adjacency_list := [[1]];
  cl_pos_predicate_wavelet_tree := [2];
  cl_neg_predicate_wavelet_tree := [2];
  cl_stored_size := 0;
|}.

Definition farm : InternalLayer := Child (Base farm_base) farm_child.

Definition farm_stack : list (list IdTriple * list IdTriple) :=
  [([new_IdTriple 5 2 1; new_IdTriple 5 2 2], [new_IdTriple 1 2 2]); (base_triples, [])].

(** ** The layers are well formed *)

Ltac sorted_list := repeat (constructor; simpl; try lia).

Ltac unfold_data :=
  unfold base_layout, base_index, child_additions, child_additions_index, child_removals in *.

(** A number in a concrete list, or a position of one. *)
Ltac cases_list :=
  repeat match goal with
  | H : _ ∈ [] |- _ => by apply not_elem_of_nil in H
  | H : _ ∈ _ :: _ |- _ => apply elem_of_cons in H as [H|H]; simplify_eq
  | H : (_ :: _) !! ?i = Some _ |- _ => destruct i; simplify_eq/=
  | H : [] !! _ = Some _ |- _ => by rewrite lookup_nil in H
  end.

(** The rows of a concrete layout, and of a concrete object index. *)
Ltac layout_rows :=
  repeat (apply Forall_cons; split); [..|by constructor];
  (left; reflexivity) ||
  (right; split; [done|]; split; [sorted_list|];
   repeat (apply Forall_cons; split); [..|by constructor]; (split; [done|sorted_list])).

Ltac index_rows :=
  repeat (apply Forall_cons; split); [..|by constructor];
  (left; reflexivity) || (right; split; [done|sorted_list]).

Ltac index_pairs sp :=
  split;
  [intros Hrow; cases_list; (eexists; split; [reflexivity|]; split; [done|]; simpl; set_solver)
  |intros (po & Hpo & Hp & Hin); simpl in *;
   destruct sp as [|sp]; [done|]; simpl in *; rewrite ?Nat.sub_0_r in *; cases_list; set_solver].

Lemma base_indexes :
  indexes None None base_index (sp_rows base_layout) (spo_rows base_layout) base_layout base_index.
Proof.
  split.
  - split; try reflexivity.
    layout_rows.
  - split; try reflexivity; try done. repeat constructor; unfold sp_len; simpl; lia.
  - split; try done.
    + index_rows.
    + intros k1 k2 ??. simpl. lia.
    + intros k ?. simpl. lia.
    + intros k r sp Hk Hsp. unfold_data; cases_list; index_pairs sp.
    + intros i po o Hi Hp Ho Hne. exists (o - 1). unfold_data; simpl in *.
      cases_list; simpl in *; cases_list; simpl; lia.
Qed.

Lemma additions_indexes :
  indexes (Some [5]) (Some [1; 2]) child_additions_index (sp_rows child_additions)
    (spo_rows child_additions) child_additions child_additions_index.
Proof.
  split.
  - split; try reflexivity.
    + layout_rows.
    + split; [done|]. vm_compute ml_list. sorted_list.
  - split; try reflexivity; simpl.
    + split; [done|]. vm_compute as_sorted. sorted_list.
    + split; [done|]. vm_compute as_sorted. sorted_list.
    + repeat constructor; unfold sp_len; simpl; lia.
  - split; vm_compute (ml_list <$> _); try done.
    + index_rows.
    + intros k1 k2 ??. destruct k1 as [|k1], k2 as [|[|k2]]; simpl in *; lia.
    + intros [|[|k]] ?; simpl in *; lia.
    + intros k r sp Hk Hsp. unfold_data; cases_list; index_pairs sp.
    + intros i po o Hi Hp Ho Hne. unfold_data; simpl in *. cases_list; simpl in *; cases_list; simpl;
        [by exists 0; split; [lia|]|by exists 1; split; [lia|]].
Qed.

Lemma removals_indexes :
  indexes (Some [1]) (Some [2]) [[1]] (sp_rows child_removals)
    (spo_rows child_removals) child_removals [[1]].
Proof.
  split.
  - split; try reflexivity.
    + layout_rows.
    + split; [done|]. vm_compute ml_list. sorted_list.
  - split; try reflexivity; simpl.
    + split; [done|]. vm_compute as_sorted. sorted_list.
    + split; [done|]. vm_compute as_sorted. sorted_list.
    + repeat constructor; unfold sp_len; simpl; lia.
  - split; vm_compute (ml_list <$> _); try done.
    + index_rows.
    + simpl. intros k1 k2 ??. lia.
    + intros [|[|k]] ?; simpl in *; lia.
    + intros k r sp Hk Hsp. unfold_data; cases_list; index_pairs sp.
    + intros i po o Hi Hp Ho Hne. unfold_data; simpl in *. cases_list; simpl in *; cases_list; simpl.
      by exists 0; split; [lia|].
Qed.

Lemma farm_base_holds : layer_holds (Base farm_base) (base_triples, []).
Proof. split; [|done]. exists base_layout, base_index. split; [exact base_indexes|done]. Qed.

Lemma farm_stack_holds : stack_holds farm farm_stack.
Proof.
  split.
  - constructor; [|constructor; [exact farm_base_holds|constructor]]. split.
    + exists child_additions, child_additions_index. split; [exact additions_indexes|done].
    + exists child_removals, [[1]]. split; [exact removals_indexes|done].
  - intros t. unfold mention. cbn -[base_triples elem_of].
    repeat case_bool_decide; try done; exfalso; unfold base_triples in *; set_solver.
Qed.

(** ** The names are numbered *)

Lemma farm_ids_wf : ids_wf farm.
Proof.
  split.
  - split.
    + repeat constructor; simpl; intros; simplify_eq/=; try done.
    + intros i l Hl. simpl in Hl. cases_list; reflexivity.
  - split.
    + repeat constructor; simpl; intros; simplify_eq/=; done.
    + intros i l Hl. simpl in Hl. cases_list; reflexivity.
Qed.

(** The only entry of the child is the node [dog]. *)
Lemma farm_entry o : is_Some (find_object farm o) → o = Node "dog".
Proof.
  intros [i (Hi & Hle & Hg)%find_object_spec]. vm_compute in Hle.
  assert (i = 1) as -> by lia.
  assert (get_object farm 1 = Some (Node "dog")) as He by reflexivity.
  unfold id in Hg. congruence.
Qed.

Lemma farm_predicate_entry p : ¬ is_Some (find_predicate farm p).
Proof. intros [i (Hi & Hle & _)%find_predicate_spec]. vm_compute in Hle. lia. Qed.

Lemma farm_entries_distinct : entries_distinct farm.
Proof.
  split.
  - intros o i j l l' Hi Hj. simpl in Hi, Hj. cases_list; try done; intros H1 H2; exfalso.
    + apply farm_entry in H2 as ->. vm_compute in H1. by destruct H1.
    + apply farm_entry in H1 as ->. vm_compute in H2. by destruct H2.
  - intros p i j l l' Hi Hj. simpl in Hi, Hj. cases_list; try done; intros H1 H2; exfalso;
      by eapply farm_predicate_entry.
Qed.
