(* ===== verification/BuilderExamples.v ===== *)
(** A short history of a graph of animals, built over the list instance. *)

From S2P Require Import Prelude Names Succinct SuccinctList LayerTypes Order SuccinctBuild SuccinctBuildList InternalLayer LayerIds LayerQueries NewLayerIds FileBuilder SimpleBuilder SimpleBuilderSpec CommitSteps CommitSpec CommitHistory.

#[local] Open Scope string_scope.

(** A base layer; "pig" comes and goes in one session and leaves no trace. The second
    layer removes a triple of the first, adds one of new names, and removes and adds
    another, which stays as it was. *)
Definition first_session : session := {|
  se_name := Name 0 0 0 0 1; se_stored := 0;
  se_calls := [Adds (new_node "cow" "likes" "duck"); Adds (new_value "duck" "says" (1, 7));
               Adds (new_node "pig" "likes" "cow"); Removes (new_node "pig" "likes" "cow")] |}.
Definition second_session : session := {|
  se_name := Name 0 0 0 0 2; se_stored := 0;
  se_calls := [Removes (new_node "cow" "likes" "duck"); Adds (new_node "ant" "hears" "duck");
               Adds (new_value "duck" "says" (1, 7)); Removes (new_value "duck" "says" (1, 7))] |}.
Definition farm_history : list session := [first_session; second_session].

(** The second session again, partly by ids: the parent has "cow" as 1, "duck" as 2
    and the value as 3, and "likes" as 1 and "says" as 2. *)
Definition mixed_calls : list builder_op :=
  [RemoveId (new_IdTriple 1 1 2); AddValue (new_node "ant" "hears" "duck"); AddId (new_IdTriple 2 1 1)].

Definition base_session : outcome InternalLayer :=
  build_session 2 0 (Name 0 0 0 0 1) None (call_op <$> se_calls first_session).

Lemma base_session_good :
  ∃ l st, base_session = Ok l ∧ layer_good (Some l) st ∧ node_and_value_count l = 3 ∧ predicate_count l = 2.
Proof.
  destruct (session_exact 2 None [] ∅ first_session) as (l & changes & Hb & Hg & _); [apply nothing_good..|].
  exists l, [changes]. split_and!; [exact Hb|exact Hg|..];
    unfold build_session in Hb; vm_compute in Hb; injection Hb as <-; reflexivity.
Qed.
