(* ===== verification/LayerProperties.v ===== *)
(** The contract of layers: what the queries of an [InternalLayer] answer, the
    round trips between names and ids and between triples and the structures
    built from them. Each property is followed by an instance on the layers of
    [Examples]. *)

From S2P Require Import Prelude Names Succinct SuccinctList LayerTypes Nested SubjectIterator LayerLookup TripleBuilder ObjectIterator PredicateIterator StackMerge ChangeMerge IdMap InternalLayer LayerIds LayerQueries Examples.

(** ** Queries *)

(** C8. [Layer::triples] of a stack of layers returns, without an error or a
    panic, exactly the triples that exist in the stack (the topmost layer that
    mentions them adds them), each once, in the order of subject, predicate and
    object. *)
Theorem triples_exact `{SuccinctLaws} (l : InternalLayer) st fuel :
  stack_holds l st → stack_size st < fuel →
  ∃ ts, triples fuel l = Ok ts ∧ triples_sorted spo ts ∧ ∀ t, t ∈ ts ↔ exists_in st t = true.
Proof. apply layer_triples_query. Qed.

Lemma triples_exact_witness :
  ∃ ts, triples 10 farm = Ok ts ∧ triples_sorted spo ts ∧ ∀ t, t ∈ ts ↔ exists_in farm_stack t = true.
Proof. apply (triples_exact farm farm_stack 10 farm_stack_holds). vm_compute. lia. Defined.

(** C9. [Layer::triple_exists] walks up the stack and answers whether the triple
    exists in it, for any three numbers. *)
Theorem triple_exists_exact `{SuccinctLaws} (l : InternalLayer) st (t : IdTriple) :
  stack_holds l st → id_triple_exists l t = Ok (exists_in st t).
Proof. apply layer_exists_query. Qed.

Lemma triple_exists_exact_witness :
  id_triple_exists farm (new_IdTriple 1 2 2) = Ok false ∧ id_triple_exists farm (new_IdTriple 1 1 4) = Ok true.
Proof.
  split.
  - apply (triple_exists_exact farm farm_stack (new_IdTriple 1 2 2) farm_stack_holds).
  - apply (triple_exists_exact farm farm_stack (new_IdTriple 1 1 4) farm_stack_holds).
Defined.

(** [Layer::triples_sp] returns exactly the existing triples of a subject and
    a predicate, in order: the seeks of the iterators of the stack skip nothing. *)
Theorem triples_sp_exact `{SuccinctLaws} (l : InternalLayer) st s p fuel :
  stack_holds l st → stack_size st < fuel →
  ∃ ts, triples_sp fuel l s p = Ok ts ∧ triples_sorted spo ts ∧
    ∀ t, t ∈ ts ↔ (subject t = s ∧ predicate t = p) ∧ exists_in st t = true.
Proof. apply layer_triples_sp_query. Qed.

Lemma triples_sp_exact_witness :
  ∃ ts, triples_sp 10 farm 5 2 = Ok ts ∧ triples_sorted spo ts ∧
    ∀ t, t ∈ ts ↔ (subject t = 5 ∧ predicate t = 2) ∧ exists_in farm_stack t = true.
Proof. apply (triples_sp_exact farm farm_stack 5 2 10 farm_stack_holds). vm_compute. lia. Defined.

(** [Layer::triples_s] returns exactly the existing triples of a subject, in order. *)
Theorem triples_s_exact `{SuccinctLaws} (l : InternalLayer) st s fuel :
  stack_holds l st → stack_size st < fuel →
  ∃ ts, triples_s fuel l s = Ok ts ∧ triples_sorted spo ts ∧
    ∀ t, t ∈ ts ↔ subject t = s ∧ exists_in st t = true.
Proof. apply layer_triples_s_query. Qed.

Lemma triples_s_exact_witness :
  ∃ ts, triples_s 10 farm 1 = Ok ts ∧ triples_sorted spo ts ∧
    ∀ t, t ∈ ts ↔ subject t = 1 ∧ exists_in farm_stack t = true.
Proof. apply (triples_s_exact farm farm_stack 1 10 farm_stack_holds). vm_compute. lia. Defined.

(** [Layer::triples_o] reads the object index and returns exactly the
    existing triples of an object, in the order of subject and predicate. *)
Theorem triples_o_exact `{SuccinctLaws} (l : InternalLayer) st o fuel :
  stack_holds l st → stack_size st < fuel →
  ∃ ts, triples_o fuel l o = Ok ts ∧ triples_sorted osp ts ∧
    ∀ t, t ∈ ts ↔ object t = o ∧ exists_in st t = true.
Proof. apply layer_triples_o_query. Qed.

Lemma triples_o_exact_witness :
  ∃ ts, triples_o 10 farm 2 = Ok ts ∧ triples_sorted osp ts ∧
    ∀ t, t ∈ ts ↔ object t = 2 ∧ exists_in farm_stack t = true.
Proof. apply (triples_o_exact farm farm_stack 2 10 farm_stack_holds). vm_compute. lia. Defined.

(** [Layer::triples_p] reads the wavelet trees and returns exactly the
    existing triples of a predicate, in order. *)
Theorem triples_p_exact `{SuccinctLaws} (l : InternalLayer) st p fuel :
  stack_holds l st → p ≠ 0 → stack_size st < fuel →
  ∃ ts, triples_p fuel l p = Ok ts ∧ triples_sorted spo ts ∧
    ∀ t, t ∈ ts ↔ predicate t = p ∧ exists_in st t = true.
Proof. apply layer_triples_p_query. Qed.

Lemma triples_p_exact_witness :
  ∃ ts, triples_p 10 farm 2 = Ok ts ∧ triples_sorted spo ts ∧
    ∀ t, t ∈ ts ↔ predicate t = 2 ∧ exists_in farm_stack t = true.
Proof. apply (triples_p_exact farm farm_stack 2 10 farm_stack_holds); [lia|vm_compute; lia]. Defined.

(** C10. The four selections of triples, by subject, by subject and predicate, by
    predicate and by object, each over a data structure of its own: a seek followed by
    a merge of the stack skips nothing, returns nothing else, and keeps its order. *)
Theorem selections_exact `{SuccinctLaws} (l : InternalLayer) st s p o fuel :
  stack_holds l st → p ≠ 0 → stack_size st < fuel →
  (∃ ts, triples_s fuel l s = Ok ts ∧ triples_sorted spo ts ∧
     ∀ t, t ∈ ts ↔ subject t = s ∧ exists_in st t = true) ∧
  (∃ ts, triples_sp fuel l s p = Ok ts ∧ triples_sorted spo ts ∧
     ∀ t, t ∈ ts ↔ (subject t = s ∧ predicate t = p) ∧ exists_in st t = true) ∧
  (∃ ts, triples_p fuel l p = Ok ts ∧ triples_sorted spo ts ∧
     ∀ t, t ∈ ts ↔ predicate t = p ∧ exists_in st t = true) ∧
  (∃ ts, triples_o fuel l o = Ok ts ∧ triples_sorted osp ts ∧
     ∀ t, t ∈ ts ↔ object t = o ∧ exists_in st t = true).
Proof.
  intros Hst Hp Hf. split_and!.
  - by apply layer_triples_s_query.
  - by apply layer_triples_sp_query.
  - by apply layer_triples_p_query.
  - by apply layer_triples_o_query.
Qed.

Lemma selections_exact_witness :
  (∃ ts, triples_s 10 farm 1 = Ok ts ∧ triples_sorted spo ts ∧
     ∀ t, t ∈ ts ↔ subject t = 1 ∧ exists_in farm_stack t = true) ∧
  (∃ ts, triples_sp 10 farm 1 2 = Ok ts ∧ triples_sorted spo ts ∧
     ∀ t, t ∈ ts ↔ (subject t = 1 ∧ predicate t = 2) ∧ exists_in farm_stack t = true) ∧
  (∃ ts, triples_p 10 farm 2 = Ok ts ∧ triples_sorted spo ts ∧
     ∀ t, t ∈ ts ↔ predicate t = 2 ∧ exists_in farm_stack t = true) ∧
  (∃ ts, triples_o 10 farm 2 = Ok ts ∧ triples_sorted osp ts ∧
     ∀ t, t ∈ ts ↔ object t = 2 ∧ exists_in farm_stack t = true).
Proof. apply (selections_exact farm farm_stack 1 2 2 10 farm_stack_holds); [lia|vm_compute; lia]. Defined.

(** [Layer::single_triple_sp] returns a triple of the subject and the
    predicate that exists in the stack, and [None] only when there is none. *)
Theorem single_triple_sp_exact `{SuccinctLaws} (l : InternalLayer) st s p :
  stack_holds l st →
  (∃ o, single_triple_sp l s p = Ok (Some (new_IdTriple s p o)) ∧ exists_in st (new_IdTriple s p o) = true) ∨
  (single_triple_sp l s p = Ok None ∧ ∀ o, exists_in st (new_IdTriple s p o) = false).
Proof. apply single_triple_sp_query. Qed.

Lemma single_triple_sp_exact_witness :
  (∃ o, single_triple_sp farm 1 2 = Ok (Some (new_IdTriple 1 2 o)) ∧
     exists_in farm_stack (new_IdTriple 1 2 o) = true) ∨
  (single_triple_sp farm 1 2 = Ok None ∧ ∀ o, exists_in farm_stack (new_IdTriple 1 2 o) = false).
Proof. apply (single_triple_sp_exact farm farm_stack 1 2 farm_stack_holds). Defined.

(** C11. [Layer::triple_count], the additions of all layers less the removals,
    does not underflow and is the number of triples that [triples] returns. *)
Theorem triple_count_exact `{SuccinctLaws} (l : InternalLayer) st fuel :
  stack_holds l st → stack_size st < fuel →
  ∃ ts, triples fuel l = Ok ts ∧ triple_count l = Ok (length ts).
Proof.
  intros Hst Hf. destruct (layer_triples_query _ _ _ Hst Hf) as (ts & Hts & Hs & Hel).
  exists ts. split; [done|]. unfold triple_count. cbn [triple_addition_count triple_removal_count internal_layer_is_layer].
  destruct (layer_counts_query _ _ Hst) as [-> ->]. cbn [mbind outcome_bind].
  destruct (stack_sorted _ _ Hst) as [Hp Hn].
  rewrite (count_exists st ts); [|apply Hst|done|done|by eapply sorted_NoDup|done].
  rewrite checked_sub_ok by lia. f_equal. lia.
Qed.

Lemma triple_count_exact_witness :
  ∃ ts, triples 10 farm = Ok ts ∧ triple_count farm = Ok (length ts).
Proof. apply (triple_count_exact farm farm_stack 10 farm_stack_holds). vm_compute. lia. Defined.

(** C12. The change iterator between a layer and one below it reports, in order,
    as additions exactly the triples that exist in the layer and not in the lower
    one, as removals exactly those that exist in the lower one only; changes
    that cancel out in between are not reported. *)
Theorem layer_changes_exact `{SuccinctLaws} (l : InternalLayer) st upto changes fuel :
  stack_holds l st → change_stack_from_layer l upto = Some changes → stack_size st < fuel →
  ∃ cs above boundary below, collect (change_next fuel) fuel changes = Ok cs ∧
    triples_sorted spo cs.*2 ∧ chain l = above ++ boundary :: below ∧ layer_name boundary = upto ∧
    ∀ c t, (c, t) ∈ cs ↔
      (exists_in st t, exists_in (drop (length above) st) t) =
      match c with Addition => (true, false) | Removal => (false, true) end.
Proof. apply layer_changes_query. Qed.

Lemma layer_changes_exact_witness :
  ∃ changes, change_stack_from_layer farm (Name 0 0 0 0 1) = Some changes ∧
  ∃ cs above boundary below, collect (change_next 10) 10 changes = Ok cs ∧
    triples_sorted spo cs.*2 ∧ chain farm = above ++ boundary :: below ∧
    layer_name boundary = Name 0 0 0 0 1 ∧
    ∀ c t, (c, t) ∈ cs ↔
      (exists_in farm_stack t, exists_in (drop (length above) farm_stack) t) =
      match c with Addition => (true, false) | Removal => (false, true) end.
Proof.
  eexists. split; [reflexivity|].
  apply (layer_changes_exact farm farm_stack (Name 0 0 0 0 1) _ 10 farm_stack_holds); [reflexivity|].
  vm_compute. lia.
Defined.

(** ** Round trips *)

(** Building the files of a layer from triples in increasing order does not
    fail, the iterator over the files returns the triples that were added and
    the lookup finds exactly those; triples with a zero are left out. *)
Theorem built_triples_found `{SuccinctLaws} sparse ts fuel :
  triples_sorted spo (filter triple_pos ts) → length ts < fuel →
  ∃ subjects s_p sp_o, build_triples sparse ts = Ok (subjects, s_p, sp_o) ∧
    collect si_next fuel (si_new subjects s_p sp_o) = Ok (filter triple_pos ts) ∧
    ∀ s p o, layer_triple_exists subjects s_p sp_o s p o =
      Ok (bool_decide (new_IdTriple s p o ∈ filter triple_pos ts)).
Proof.
  intros Hs Hf. destruct (build_triples_holds sparse ts Hs) as (subjects & s_p & sp_o & N & Hb & Hh & HT & _).
  exists subjects, s_p, sp_o. rewrite <- HT. split_and!; [done| |].
  - apply (collect_spec si_next si_yields); [exact (@yields_next _ _ subject_iter_laws)|by apply si_new_yields|].
    rewrite HT. pose proof (length_filter triple_pos ts). lia.
  - intros s p o. by apply layer_triple_exists_spec.
Qed.

Lemma built_triples_found_witness :
  ∃ subjects s_p sp_o, build_triples true base_triples = Ok (subjects, s_p, sp_o) ∧
    collect si_next 10 (si_new subjects s_p sp_o) = Ok (filter triple_pos base_triples) ∧
    ∀ s p o, layer_triple_exists subjects s_p sp_o s p o =
      Ok (bool_decide (new_IdTriple s p o ∈ filter triple_pos base_triples)).
Proof.
  apply (built_triples_found true base_triples 10); [|simpl; lia].
  repeat constructor; unfold triple_lt, key_lt, spo; simpl; lia.
Defined.

(** The ids that a triple of names resolves to, in a stack whose layers
    renumber their entries by an id map, name that triple. *)
Theorem value_triple_round_trip `{SuccinctLaws} (l : InternalLayer) t i :
  ids_wf l → value_triple_to_id l t = Ok (Some i) → id_triple_to_string l i = Ok (Some t).
Proof. apply value_triple_id_resolves. Qed.

Lemma value_triple_round_trip_witness :
  ∃ i, value_triple_to_id farm (new_ValueTriple "dog"%string "likes"%string (Node "pig"%string)) = Ok (Some i) ∧
    id_triple_to_string farm i = Ok (Some (new_ValueTriple "dog"%string "likes"%string (Node "pig"%string))).
Proof.
  eexists. split; [vm_compute; reflexivity|].
  apply (value_triple_round_trip farm _ _ farm_ids_wf). vm_compute. reflexivity.
Defined.

(** When no entry is in two layers of the stack, the names of a triple of ids
    resolve to those ids. *)
Theorem id_triple_round_trip `{SuccinctLaws} (l : InternalLayer) t i :
  ids_wf l → entries_distinct l → id_triple_to_string l i = Ok (Some t) → value_triple_to_id l t = Ok (Some i).
Proof. apply id_triple_names_found. Qed.

Lemma id_triple_round_trip_witness :
  ∃ t, id_triple_to_string farm (new_IdTriple 3 2 4) = Ok (Some t) ∧
    value_triple_to_id farm t = Ok (Some (new_IdTriple 3 2 4)).
Proof.
  eexists. split; [vm_compute; reflexivity|].
  apply (id_triple_round_trip farm _ _ farm_ids_wf farm_entries_distinct). vm_compute. reflexivity.
Defined.

(** C15. Names and ids are in bijection, in a stack whose layers renumber their entries by
    id maps and have no entry twice: a triple of names resolves to the ids of a triple
    exactly when these ids name it. *)
Theorem names_ids_bijection `{SuccinctLaws} (l : InternalLayer) t i :
  ids_wf l → entries_distinct l →
  value_triple_to_id l t = Ok (Some i) ↔ id_triple_to_string l i = Ok (Some t).
Proof. intros Hwf Hd. split; [by apply value_triple_id_resolves|by apply id_triple_names_found]. Qed.

Lemma names_ids_bijection_witness :
  id_triple_to_string farm (new_IdTriple 5 2 2) =
    Ok (Some (new_ValueTriple "dog"%string "likes"%string (Node "pig"%string))).
Proof. apply (names_ids_bijection farm _ _ farm_ids_wf farm_entries_distinct). vm_compute. reflexivity. Defined.

(** An id map that is a permutation of the [n] entries of a layer and its
    inverse undo each other, on ids in range and beyond. *)
Theorem idmap_inverse `{SuccinctLaws} (m : IdMap) id n :
  idmap_wf m → id ≠ 0 → (∀ t, id_wtree m = Some t → length (wt_seq t) = n) →
  (i ← outer_to_inner m id; inner_to_outer m i) = Ok id ∧
  (o ← inner_to_outer m id; outer_to_inner m o) = Ok id.
Proof.
  intros Hm Hid Hn. destruct (outer_inner_outer m id n Hm Hid Hn) as (i & -> & Hi & _).
  by destruct (inner_outer_inner m id n Hm Hid Hn) as (o & -> & Ho & _).
Qed.

Lemma idmap_inverse_witness :
  (i ← outer_to_inner (bl_node_value_idmap farm_base) 3; inner_to_outer (bl_node_value_idmap farm_base) i) = Ok 3 ∧
  (o ← inner_to_outer (bl_node_value_idmap farm_base) 3; outer_to_inner (bl_node_value_idmap farm_base) o) = Ok 3.
Proof.
  apply (idmap_inverse (bl_node_value_idmap farm_base) 3 4); [apply perm_skip, perm_swap|lia|].
  intros t [= <-]. reflexivity.
Defined.

