(* ===== verification/StorageExamples.v ===== *)
(** A small layer store, over the list instance of the succinct structures: a
    base layer, a child of it, and a rollup of the child, kept in memory. The
    witnesses of the theorems about storage evaluate on it. *)

From S2P Require Import Prelude Names Text Files Labels LabelSpec NamedGraph GraphClients Consts LayerFiles LayerFileSpec LayerStores Succinct SuccinctList LayerTypes Nested SubjectIterator LayerLookup ObjectIterator PredicateIterator StackMerge ChangeMerge IdMap InternalLayer LayerCache LayerQueries LayerIds LayerMaps LayerLoad StoreQueries StoreQuerySpec StoreChanges PersistentStore Examples.
From stdpp Require Import relations.

#[local] Open Scope string_scope.
#[local] Open Scope list_scope.
#[local] Open Scope nat_scope.

(** ** A file format for the list instance: one byte per number *)

Definition bytes_of (s : string) : list nat := Ascii.nat_of_ascii <$> String.list_ascii_of_string s.
Definition of_bytes (l : list nat) : string := String.string_of_list_ascii (Ascii.ascii_of_nat <$> l).

(** Numbers in rows; a bit other than zero ends a row. *)
Fixpoint rows_from (row : list nat) (nums bits : list nat) : list (list nat) :=
  match nums, bits with
  | n :: nums, b :: bits =>
      if decide (b = 0) then rows_from (row ++ [n]) nums bits else (row ++ [n]) :: rows_from [] nums bits
  | _, _ => []
  end.

(** One entry per line, the lines in order. *)
Definition in_order {A} (count : A → nat) (blocks : string) (dict : A) : outcome A :=
  if decide (count dict = length (lines blocks)) then Ok dict else Panic.
Definition entry_of_line (line : string) : nat * nat :=
  match bytes_of line with a :: b :: _ => (a, b) | _ => (0, 0) end.
(** Every bit has its number, and the last row ends. *)
Definition complete (bits : list nat) (rows : list (list nat)) : outcome (list (list nat)) :=
  if decide (aj_right_count (SuccinctOps := list_succinct) rows = length bits) then Ok rows else Panic.

#[export] Instance list_parse : SuccinctParse (H := list_succinct) := {|
  sd_parse offsets blocks :=
    in_order (sd_num_entries (SuccinctOps := list_succinct)) blocks (lines blocks);
  td_from_parts types_present type_offsets offsets blocks :=
    in_order (td_num_entries (SuccinctOps := list_succinct)) blocks (entry_of_line <$> lines blocks);
  LogArray := list nat;
  la_parse s := Some (bytes_of s);
  ml_from_logarray l := l : MonotonicLogArray (SuccinctOps := list_succinct);
  aj_parse nums bits blocks sblocks :=
    complete (bytes_of bits) (rows_from [] (bytes_of nums) (bytes_of bits))
    : outcome (AdjacencyList (SuccinctOps := list_succinct));
  aj_nums_width a := 8;
  BitIndex := list nat;
  bi_from_maps bits blocks sblocks := Ok (bytes_of bits);
  wt_from_parts bits width := Ok bits : outcome (WaveletTree (SuccinctOps := list_succinct));
  calculate_width n := S (Nat.log2 n);
|}.

#[export] Instance list_counts {S : Type} `{PersistentLayerStore S} : CountFiles S := {|
  dict_file_get_count f := c ← f_read f; mret (length (lines c));
  logarray_file_get_length_and_width f := c ← f_read f; mret (length (bytes_of c), 8);
  bitarray_len_from_file f := c ← f_read f; mret (length (bytes_of c));
|}.

Lemma in_order_count {A} (count : A → nat) blocks dict dict' :
  in_order count blocks dict = Ok dict' → count dict' = length (lines blocks).
Proof. unfold in_order. case_decide; [by intros [= <-]|done]. Qed.

Lemma runs_count {S : Type} `{PersistentReadLaws S} {A} (m : store_map) d f c (g : string → A) :
  layer_of m d → lf_dir f = d ∧ known (lf_name f) = true → file_in m f = Some c → runs m (x ← f_read f; mret (g x)) (g c) m.
Proof. intros Hd Hf Hc. eapply runs_bind; [by eapply runs_read_file|]. apply runs_ret. Qed.

#[export] Instance list_counts_laws {S : Type} `{PersistentReadLaws S} : CountFilesLaws S (H2 := list_parse).
Proof.
  split; intros m d f.
  - intros maps dict Hd Hf Hm Hp. unfold load_string_dict in Hp. simpl in Hp.
    unfold dictionary_in in Hm. simplify_option_eq. apply in_order_count in Hp. simpl in Hp.
    apply Forall_cons in Hf as [Hb _]. simpl in Hb |- *. rewrite Hp.
    by apply (runs_count m d (df_blocks f) _ (λ c, length (lines c))).
  - intros maps dict Hd Hf Hm Hp. unfold load_typed_dict in Hp. simpl in Hp.
    unfold typed_dictionary_in in Hm. simplify_option_eq. apply in_order_count in Hp. simpl in Hp.
    unfold in_dir in Hf. rewrite !Forall_cons in Hf. destruct Hf as (_ & _ & _ & Hb & _). simpl in Hb |- *. rewrite Hp.
    by apply (runs_count m d (tdf_blocks f) _ (λ c, length (lines c))).
  - intros maps aj Hd Hf Hm Hp. unfold adjacency_list_in in Hm. simplify_option_eq.
    apply Forall_cons in Hf as [Hn _]. match goal with H : file_in m (alf_nums f) = Some ?c |- _ =>
      exists (length (bytes_of c)); exact (runs_count m d _ c (λ c, (length (bytes_of c), 8)) Hd Hn H) end.
  - intros maps aj Hd Hf Hm Hp. unfold adjacency_list_in, bit_index_in in Hm. simplify_option_eq.
    unfold load_adjacency_list in Hp. simpl in Hp. unfold complete in Hp. case_decide as Hc; [|done]. injection Hp as <-.
    unfold in_dir, bit_index_files in Hf. rewrite !Forall_cons in Hf. destruct Hf as (_ & Hb & _). simpl.
    simpl in Hc. rewrite Hc.
    by apply (runs_count m d (bif_bits (alf_bitindex f)) _ (λ c, length (bytes_of c))).
Qed.

(** ** Layers *)

Definition farm_name : name := Name 0 0 0 0 1.
Definition dog_name : name := Name 0 0 0 0 2.
Definition rolled_name : name := Name 0 0 0 0 3.
Definition lonely_name : name := Name 0 0 0 0 4.

(** All files of the list, empty but for those given. *)
Definition files_with (filenames : list string) (contents : gmap string string) : layer_contents :=
  contents ∪ list_to_map ((λ f, (f, "")) <$> list_difference filenames
    [fn_base_subjects FILENAMES; fn_base_objects FILENAMES; fn_node_value_idmap_bits FILENAMES;
     fn_predicate_idmap_bits FILENAMES]).

Definition newline_string : string := String newline "".

(** [cow likes duck]. *)
Definition farm_files : layer_contents := files_with base_filenames (list_to_map [
  (fn_node_dictionary_blocks FILENAMES, "cow" +:+ newline_string +:+ "duck" +:+ newline_string);
  (fn_predicate_dictionary_blocks FILENAMES, "likes" +:+ newline_string);
  (fn_base_s_p_adjacency_list_nums FILENAMES, of_bytes [1; 0]);
  (fn_base_s_p_adjacency_list_bits FILENAMES, of_bytes [1; 1]);
  (fn_base_sp_o_adjacency_list_nums FILENAMES, of_bytes [2; 0]);
  (fn_base_sp_o_adjacency_list_bits FILENAMES, of_bytes [1; 1]);
  (fn_base_o_ps_adjacency_list_nums FILENAMES, of_bytes [0; 1]);
  (fn_base_o_ps_adjacency_list_bits FILENAMES, of_bytes [1; 1]);
  (fn_base_predicate_wavelet_tree_bits FILENAMES, of_bytes [1; 0])]).

(** The child adds [dog] and [dog likes cow]. *)
Definition dog_files : layer_contents := files_with child_filenames (list_to_map [
  (fn_parent FILENAMES, name_to_string farm_name);
  (fn_node_dictionary_blocks FILENAMES, "dog" +:+ newline_string);
  (fn_pos_subjects FILENAMES, of_bytes [3]);
  (fn_pos_objects FILENAMES, of_bytes [1]);
  (fn_pos_s_p_adjacency_list_nums FILENAMES, of_bytes [1]);
  (fn_pos_s_p_adjacency_list_bits FILENAMES, of_bytes [1]);
  (fn_pos_sp_o_adjacency_list_nums FILENAMES, of_bytes [1]);
  (fn_pos_sp_o_adjacency_list_bits FILENAMES, of_bytes [1]);
  (fn_pos_o_ps_adjacency_list_nums FILENAMES, of_bytes [1]);
  (fn_pos_o_ps_adjacency_list_bits FILENAMES, of_bytes [1]);
  (fn_pos_predicate_wavelet_tree_bits FILENAMES, of_bytes [1])]).

(** A rollup of the child: a base layer with both triples. *)
Definition rolled_files : layer_contents := files_with base_filenames (list_to_map [
  (fn_node_dictionary_blocks FILENAMES,
   "cow" +:+ newline_string +:+ "dog" +:+ newline_string +:+ "duck" +:+ newline_string);
  (fn_predicate_dictionary_blocks FILENAMES, "likes" +:+ newline_string);
  (fn_node_value_idmap_bits FILENAMES, of_bytes [0; 2; 1]);
  (fn_base_s_p_adjacency_list_nums FILENAMES, of_bytes [1; 0; 1]);
  (fn_base_s_p_adjacency_list_bits FILENAMES, of_bytes [1; 1; 1]);
  (fn_base_sp_o_adjacency_list_nums FILENAMES, of_bytes [2; 0; 1]);
  (fn_base_sp_o_adjacency_list_bits FILENAMES, of_bytes [1; 1; 1])]).

(** Without rollups; with the rollup of the child. *)
Definition small_store : store_map := {[farm_name := farm_files; dog_name := dog_files]}.
Definition rolled_store : store_map := {[
  farm_name := farm_files;
  dog_name := <[fn_rollup FILENAMES := rollup_contents rolled_name]> dog_files;
  rolled_name := rolled_files]}.

(** The rollup itself has a rollup, another layer. *)
Definition twice_rolled_store : store_map := {[
  farm_name := farm_files;
  dog_name := <[fn_rollup FILENAMES := rollup_contents rolled_name]> dog_files;
  rolled_name := <[fn_rollup FILENAMES := rollup_contents lonely_name]> rolled_files;
  lonely_name := rolled_files]}.

(** A store in memory that holds them. *)
Definition in_memory (m : store_map) : memory_layers :=
  fmap (M := gmap name) (fmap (M := gmap string) Some) m.

Lemma in_memory_rep m : pl_rep (in_memory m) m.
Proof.
  intros d. unfold in_memory. rewrite lookup_fmap. destruct (m !! d) as [fs|]; [|done]. simpl. f_equal.
  apply map_eq. intros f. rewrite lookup_omap, lookup_fmap. by destruct (fs !! f).
Qed.

Ltac name_ok := by vm_compute; repeat split.

Lemma farm_wf : name_wf farm_name. Proof. name_ok. Qed.
Lemma dog_wf : name_wf dog_name. Proof. name_ok. Qed.
Lemma rolled_wf : name_wf rolled_name. Proof. name_ok. Qed.
Lemma lonely_wf : name_wf lonely_name. Proof. name_ok. Qed.

(** ** The layers these files describe *)

(** Load from a store, with no cache. *)
Definition loaded_from (m : store_map) (d : name) : InternalLayer :=
  match (get_layer_with_cache (C := unit) 5 d (in_memory m, tt)).1 with
  | Ok (Some l) => l
  | _ => Base Examples.farm_base
  end.

Definition farm_layer : InternalLayer := Eval vm_compute in loaded_from small_store farm_name.
Definition dog_layer : InternalLayer := Eval vm_compute in loaded_from small_store dog_name.
Definition rolled_layer : InternalLayer := Eval vm_compute in loaded_from rolled_store rolled_name.
Definition dog_rollup : InternalLayer := Eval vm_compute in loaded_from rolled_store dog_name.

Lemma lookup_in (m : store_map) d fs f o : m !! d = Some fs → fs !! f = o → ∃ fs', m !! d = Some fs' ∧ fs' !! f = o.
Proof. eauto. Qed.

Lemma farm_loads : loads small_store 1 farm_name farm_layer.
Proof.
  eapply loads_base; [apply farm_wf|by exists farm_files|by exists farm_files|reflexivity| |].
  - vm_compute. reflexivity.
  - vm_compute. reflexivity.
Qed.

Lemma dog_parent : parent_in small_store dog_name farm_name.
Proof. split; [apply farm_wf|]. by exists dog_files. Qed.

Lemma dog_loads : loads small_store 2 dog_name dog_layer.
Proof.
  eapply loads_child; [apply dog_wf|by exists dog_files|apply dog_parent|apply farm_loads|reflexivity| |].
  - vm_compute. reflexivity.
  - vm_compute. reflexivity.
Qed.

Lemma rolled_loads : loads rolled_store 1 rolled_name rolled_layer.
Proof.
  eapply loads_base; [apply rolled_wf|by exists rolled_files|by exists rolled_files|reflexivity| |].
  - vm_compute. reflexivity.
  - vm_compute. reflexivity.
Qed.

Lemma dog_rollup_loads : loads rolled_store 2 dog_name dog_rollup.
Proof.
  change dog_rollup with (Rollup rolled_layer dog_name (Some farm_name)).
  apply (loads_rollup _ 1 _ rolled_name); [apply dog_wf| |done|by exists rolled_files| |apply rolled_loads|by eexists].
  - split; [apply rolled_wf|]. do 2 eexists. split; [reflexivity|]. split; [reflexivity|apply rollup_contents_named].
  - split; [apply farm_wf|]. by eexists.
Qed.

Lemma small_lookup d fs :
  small_store !! d = Some fs → (d = farm_name ∧ fs = farm_files) ∨ (d = dog_name ∧ fs = dog_files).
Proof.
  unfold small_store. intros [[<- <-]|[_ Hd]]%lookup_insert_Some; [by left|].
  apply lookup_singleton_Some in Hd as [<- <-]. by right.
Qed.

Lemma small_wf : layers_wf small_store.
Proof.
  split.
  - intros d [fs [[-> _]|[-> _]]%small_lookup]; [apply farm_wf|apply dog_wf].
  - intros d fs c [[-> ->]|[-> ->]]%small_lookup Hc; [by vm_compute in Hc|].
    exists farm_name. split; [apply dog_parent|by exists farm_files].
Qed.

Lemma farm_depth : depth small_store farm_name 0.
Proof. by apply depth_base with farm_files. Qed.

Lemma dog_depth : depth small_store dog_name 1.
Proof. apply depth_child with farm_name; [apply dog_parent|apply farm_depth]. Qed.

Lemma small_readable : readable 5 small_store.
Proof.
  split; [apply small_wf|..]; intros d [fs [[-> _]|[-> _]]%small_lookup].
  - exists 1, farm_layer. split; [lia|apply farm_loads].
  - exists 2, dog_layer. split; [lia|apply dog_loads].
  - exists 0. split; [lia|apply farm_depth].
  - exists 1. split; [lia|apply dog_depth].
Qed.

(** ** A named graph at the base layer *)

Definition small_graph : layer_graph := {[farm_name := None; dog_name := Some farm_name]}.

Lemma farm_no_parent : no_parent small_store farm_name.
Proof. by exists farm_files. Qed.

Lemma small_graph_ok : store_graph small_store small_graph.
Proof.
  intros d o. unfold small_graph. rewrite lookup_insert_Some, lookup_singleton_Some. split.
  - intros [[<- <-]|[_ [<- <-]]]; [exact farm_no_parent|exact dog_parent].
  - intros Ho.
    assert (d = farm_name ∨ d = dog_name) as [->| ->].
    { assert (is_Some (small_store !! d)) as [fs Hd].
      { destruct o as [p|]; [destruct Ho as (_ & fs & Hd & _)|destruct Ho as (fs & Hd & _)]; by exists fs. }
      apply small_lookup in Hd as [[-> _]|[-> _]]; [by left|by right]. }
    + left. split; [done|]. exact (opt_parent_functional small_store farm_name None o farm_no_parent Ho).
    + right. split; [done|]. split; [done|].
      exact (opt_parent_functional small_store dog_name (Some farm_name) o dog_parent Ho).
Qed.

#[export] Instance small_layer_store : LayerStore (memory_layers * gmap name Weak) := persistent_layer_store 5.
#[export] Instance small_layer_store_laws : LayerStoreLaws (memory_layers * gmap name Weak) :=
  persistent_layer_store_laws 5.

Definition main_label : Label := {| label_name := "main"; label_layer := Some farm_name; label_version := 0 |}.
Definition main_labels : label_map := {["main" := main_label]}.

Definition main_store : Store label_map (memory_layers * gmap name Weak) :=
  new_store main_labels (in_memory small_store, ∅).

Lemma main_store_rep : store_rep main_store main_labels small_graph.
Proof.
  split.
  - split; [done|]. unfold main_labels. intros n l [<- <-]%lookup_singleton_Some. split; [done|]. split; [done|].
    intros a [= <-]. apply farm_wf.
  - exists small_store. split; [apply in_memory_rep|]. split; [by intros n l|].
    split; [apply small_readable|apply small_graph_ok].
Qed.

Lemma dog_in_graph : is_Some (small_graph !! layer_name dog_layer).
Proof. by exists (Some farm_name). Qed.

Lemma farm_in_graph : is_Some (small_graph !! layer_name farm_layer).
Proof. by exists None. Qed.

Definition dog_handle : layer_handle (Y := memory_layers * gmap name Weak) := dog_layer.
Definition farm_handle : layer_handle (Y := memory_layers * gmap name Weak) := farm_layer.

(** Two clients set the head to the same layer; both read the label first. *)
Definition race : system label_map (memory_layers * gmap name Weak) :=
  foldl (call_at (S := label_map) "main")
    (new_system [SetHeadRead dog_handle; SetHeadRead dog_handle] main_store small_graph) [0; 1; 0; 1; 0; 1].

Lemma race_runs P : P (SetHeadRead dog_handle) → rtc (sys_step "main" P) (new_system [] main_store small_graph) race.
Proof.
  intros HP. apply rtc_l with (new_system [SetHeadRead dog_handle] main_store small_graph).
  { exact (start_step "main" P [] main_store small_graph (SetHeadRead dog_handle) dog_handle HP I eq_refl dog_in_graph). }
  apply rtc_l with (new_system [SetHeadRead dog_handle; SetHeadRead dog_handle] main_store small_graph).
  { exact (start_step "main" P [SetHeadRead dog_handle] main_store small_graph (SetHeadRead dog_handle) dog_handle HP I eq_refl dog_in_graph). }
  apply schedule_steps.
Qed.

(** ** The queries answered from the files *)

Lemma farm_own : own small_store farm_name farm_layer.
Proof. apply (loads_own _ 1); [apply farm_loads|done]. Qed.

Lemma dog_own : own small_store dog_name dog_layer.
Proof. apply (loads_own _ 2); [apply dog_loads|done]. Qed.

(** The rollup of a layer is not looked at. *)
Lemma dog_own_rolled : own rolled_store dog_name dog_layer.
Proof.
  eapply (own_child _ _ farm_layer); [apply dog_wf|split; [apply farm_wf|by eexists]|reflexivity|..];
    vm_compute; reflexivity.
Qed.

Lemma small_parents : parents small_store dog_name [dog_name; farm_name].
Proof.
  apply parents_child with farm_name; [apply dog_wf|apply dog_parent|].
  apply parents_base; [apply farm_wf|apply farm_no_parent].
Qed.

(** The triples of the small store. *)

Definition farm_layout : layout := [[(1, [2])]; [(0, [0])]].
Definition dog_layout : layout := [[(1, [1])]].

Lemma farm_indexes :
  indexes None None [[0]; [1]] (sp_rows farm_layout) (spo_rows farm_layout) farm_layout [[0]; [1]].
Proof.
  split.
  - split; try reflexivity. layout_rows.
  - split; try reflexivity; try done. repeat constructor; unfold sp_len; simpl; lia.
  - split; try done.
    + index_rows.
    + intros k1 k2 ??. simpl. lia.
    + intros k ?. simpl. lia.
    + intros k r sp Hk Hsp. unfold farm_layout in *; cases_list; index_pairs sp.
    + intros i po o Hi Hp Ho Hne. exists (o - 1). unfold farm_layout in *; simpl in *.
      cases_list; simpl in *; cases_list; simpl; lia.
Qed.

Lemma dog_indexes :
  indexes (Some [3]) (Some [1]) [[1]] (sp_rows dog_layout) (spo_rows dog_layout) dog_layout [[1]].
Proof.
  split.
  - split; try reflexivity.
    + layout_rows.
    + split; [done|]. vm_compute ml_list. sorted_list.
  - split; try reflexivity; simpl.
    + split; [done|]. vm_compute as_sorted. sorted_list.
    + split; [done|]. vm_compute as_sorted. sorted_list.
    + repeat constructor; unfold sp_len; simpl; lia.
  - split; vm_compute (ml_list <$> _); try done.
    + index_rows.
    + simpl. intros k1 k2 ??. lia.
    + intros [|[|k]] ?; simpl in *; lia.
    + intros k r sp Hk Hsp. unfold dog_layout in *; cases_list; index_pairs sp.
    + intros i po o Hi Hp Ho Hne. unfold dog_layout in *; simpl in *. cases_list; simpl in *; cases_list; simpl.
      by exists 0; split; [lia|].
Qed.

Lemma no_indexes : indexes (Some []) (Some []) [] [] [] [] [].
Proof.
  split; [split|split|split]; try done.
  all: try by constructor.
  1-3: split; [done|]; simpl; change (as_sorted lt []) with (@nil nat); sorted_list.
  all: simpl; lia.
Qed.

Definition small_stack : list (list IdTriple * list IdTriple) :=
  [([new_IdTriple 3 1 1], []); ([new_IdTriple 1 1 2], [])].

Lemma small_holds : Forall2 layer_holds [dog_layer; farm_layer] small_stack.
Proof.
  repeat constructor; simpl.
  - exists dog_layout, [[1]]. split; [exact dog_indexes|done].
  - exists [], []. split; [exact no_indexes|done].
  - exists farm_layout, [[0]; [1]]. split; [exact farm_indexes|done].
Qed.

Lemma small_disk_stack : disk_stack small_store dog_name [dog_name; farm_name] [dog_layer; farm_layer] small_stack.
Proof.
  split; [apply small_parents| |apply small_holds|].
  - constructor; [apply dog_own|]. constructor; [apply farm_own|constructor].
  - intros t. unfold mention. cbn -[elem_of]. repeat case_bool_decide; try done; exfalso; set_solver.
Qed.
