(* ===== verification/StorageProperties.v ===== *)
(** The contract of storage: loading layers, named graphs and their labels, and
    the files that labels and layers are kept in. Each property is followed by an
    instance on the stores of [StorageExamples]. *)

From S2P Require Import Prelude Names Text Files Labels LabelSpec LabelCache NamedGraph GraphClients Consts LayerFiles LayerFileSpec LayerStores Succinct SuccinctList LayerTypes IdMap InternalLayer LayerCache LayerIds LayerMaps LayerLoad PersistentStore StorageExamples.
From stdpp Require Import relations.

#[local] Open Scope string_scope.
#[local] Open Scope list_scope.
#[local] Open Scope nat_scope.

(** ** Loading layers *)




(** C25. The layer cache answers like a plain map of the layers that are still in
    use, under any sequence of lookups, insertions, invalidations, sweeps and
    dropped layers: when and whether dead entries are swept cannot be told.
    [cleanup_stale] returns the number of dead entries and leaves none, and
    [stats] counts them right. *)
Theorem cache_is_a_map `{SuccinctOps} (c : gmap name Weak) :
  (∀ calls, cache_answers calls c = map_answers calls (visible c)) ∧
  ∃ c', cleanup_stale c = (Ok (count_dead c), c') ∧ visible c' = visible c ∧
    stats c = (Ok (size c, size (visible c), count_dead c), c) ∧
    stats c' = (Ok (size (visible c), size (visible c), 0), c').
Proof.
  split; [intros calls; apply cache_answers_map|].
  exists (retain_alive c). split; [apply cleanup_stale_run|]. split; [apply visible_retain|].
  rewrite !stats_run, count_dead_retain, size_retain, !count_alive_visible, visible_retain. done.
Qed.

(** ** Named graphs *)

(** C26. Any number of clients, each running [set_head], [force_set_head] or
    [force_set_head_version] on one graph, with their calls interleaved with each
    other and with commits of layers: no other label changes, the version counts
    the calls that reported success (no update is lost), a label with the same
    version is the same label, and, if all clients use [set_head], the head only
    moves to layers that are built on it. *)
Theorem concurrent_heads {S Y : Type} `{LabelStoreLaws S, LayerStoreLaws Y} n P (st : Store S Y) m g cur sys :
  store_rep st m g → m !! n = Some cur → rtc (sys_step n P) (new_system [] st g) sys →
  ∃ cur', store_rep (sys_store sys) (<[n := cur']> m) (sys_layers sys) ∧
    label_version cur' = (label_version cur + N.of_nat (successes (sys_clients sys)))%N ∧
    (label_version cur' = label_version cur → cur' = cur) ∧
    ((∀ c, P c → is_set_head c) → head_forward (sys_layers sys) (label_layer cur) (label_layer cur')).
Proof.
  intros Hst Hcur Hs.
  destruct (sys_steps_ok P n m cur _ _ (system_ok_start n m cur st g Hst Hcur) Hs) as (cur' & Hok & [_ Hv _ Hsame Hhead]).
  exists cur'. split; [apply Hok|]. split; [cbn in Hv; lia|]. split; [done|].
  intros HP. by apply Hhead.
Qed.

(** Both clients read the label before either writes: one of them succeeds. *)
Lemma concurrent_heads_witness :
  successes (sys_clients race) = 1 ∧
  ∃ cur', store_rep (sys_store race) (<["main" := cur']> main_labels) (sys_layers race) ∧
    label_version cur' = (label_version main_label + N.of_nat (successes (sys_clients race)))%N ∧
    (label_version cur' = label_version main_label → cur' = main_label) ∧
    ((∀ c, c = SetHeadRead dog_handle → is_set_head c) →
     head_forward (sys_layers race) (label_layer main_label) (label_layer cur')).
Proof.
  split; [vm_compute; reflexivity|].
  apply (concurrent_heads "main" (λ c, c = SetHeadRead dog_handle) main_store main_labels small_graph main_label race);
    [apply main_store_rep|reflexivity|by apply race_runs].
Defined.

(** [set_head] alone: it fails on a graph that does not exist, moves the
    head (incrementing the version) exactly when the graph is empty or its head is
    an ancestor of the layer, and otherwise returns [false] and changes nothing. *)
Theorem set_head_exact {S Y : Type} `{LabelStoreLaws S, LayerStoreLaws Y} (st : Store S Y) m g n (y : layer_handle) :
  store_rep st m g → is_Some (g !! handle_name y) → (∀ l, m !! n = Some l → can_update l) →
  match m !! n with
  | None => set_head (new_graph n) y st = (Err NotFound, st)
  | Some l =>
      ∃ b st', set_head (new_graph n) y st = (Ok b, st') ∧
        (b = true ↔ moves_forward g (label_layer l) (handle_name y)) ∧
        store_rep st' (if b then <[n := updated l (Some (handle_name y))]> m else m) g
  end.
Proof.
  intros Hst Hy Hu. destruct (m !! n) as [l|] eqn:Hl; [apply set_head_run; auto|by eapply set_head_missing].
Qed.

Lemma set_head_exact_witness :
  ∃ b st', set_head (new_graph "main") dog_handle main_store = (Ok b, st') ∧
    (b = true ↔ moves_forward small_graph (Some farm_name) dog_name) ∧
    store_rep st' (if b then <["main" := updated main_label (Some dog_name)]> main_labels else main_labels) small_graph.
Proof.
  apply (set_head_exact main_store main_labels small_graph "main" dog_handle);
    [apply main_store_rep|apply dog_in_graph|by intros l [= <-]].
Defined.

(** C27. [force_set_head] and [force_set_head_version] alone: the first sets the
    head to any layer in one round of its loop; the second does exactly when the
    version is the one given. *)
Theorem force_set_head_exact {S Y : Type} `{LabelStoreLaws S, LayerStoreLaws Y} (st : Store S Y) m g n l (y : layer_handle) v fuel :
  store_rep st m g → m !! n = Some l → can_update l → is_Some (g !! handle_name y) →
  (∃ st', force_set_head (Datatypes.S fuel) (new_graph n) y st = (Ok tt, st') ∧
     store_rep st' (<[n := updated l (Some (handle_name y))]> m) g) ∧
  (∃ st', force_set_head_version (new_graph n) y v st = (Ok (bool_decide (label_version l = v)), st') ∧
     store_rep st' (if decide (label_version l = v) then <[n := updated l (Some (handle_name y))]> m else m) g).
Proof. split; [by apply force_set_head_run|by apply force_set_head_version_run]. Qed.

Lemma force_set_head_exact_witness :
  (∃ st', force_set_head 1 (new_graph "main") farm_handle main_store = (Ok tt, st') ∧
     store_rep st' (<["main" := updated main_label (Some farm_name)]> main_labels) small_graph) ∧
  (∃ st', force_set_head_version (new_graph "main") farm_handle 7 main_store = (Ok (bool_decide (0 = 7)%N), st') ∧
     store_rep st' (if decide (0 = 7)%N then <["main" := updated main_label (Some farm_name)]> main_labels else main_labels)
       small_graph).
Proof.
  apply (force_set_head_exact main_store main_labels small_graph "main" main_label farm_handle 7 0);
    [apply main_store_rep|reflexivity|reflexivity|apply farm_in_graph].
Defined.

(** [head_version] returns the version of the label with its layer, loaded
    under its own name, and reports a missing graph and a missing layer. *)
Theorem head_version_exact {S Y : Type} `{LabelStoreLaws S, LayerStoreLaws Y} (st : Store S Y) m g n :
  store_rep st m g →
  match m !! n with
  | None => head_version (new_graph n) st = (Err NotFound, st)
  | Some l =>
      match label_layer l with
      | None => head_version (new_graph n) st = (Ok (None, label_version l), st)
      | Some d =>
          (is_Some (g !! d) → ∃ y st', head_version (new_graph n) st = (Ok (Some y, label_version l), st') ∧
            handle_name y = d ∧ store_rep st' m g) ∧
          (g !! d = None → ∃ st', head_version (new_graph n) st = (Err NotFound, st') ∧ store_rep st' m g)
      end
  end.
Proof. apply head_version_run. Qed.

Lemma head_version_exact_witness :
  ∃ y st', head_version (new_graph "main") main_store = (Ok (Some y, 0%N), st') ∧
    handle_name y = farm_name ∧ store_rep st' main_labels small_graph.
Proof.
  destruct (head_version_exact main_store main_labels small_graph "main" main_store_rep) as [Hfound _].
  apply Hfound. by exists None.
Defined.

(** A graph that was created is found, empty and at version 0, and cannot be
    created again; once deleted it is not found. *)
Theorem graph_life_cycle {S Y : Type} `{LabelStoreLaws S, LayerStoreLaws Y} (st : Store S Y) m g n :
  store_rep st m g → ls_name_ok (S := S) n → m !! n = None →
  ∃ st1, store_create n st = (Ok (new_graph n), st1) ∧ store_rep st1 (<[n := new_empty n]> m) g ∧
    store_open n st1 = (Ok (Some (new_graph n)), st1) ∧ store_create n st1 = (Err InvalidInput, st1) ∧
    head_version (new_graph n) st1 = (Ok (None, 0%N), st1) ∧
    ∃ st2, store_delete n st1 = (Ok true, st2) ∧ store_rep st2 m g ∧ store_open n st2 = (Ok None, st2).
Proof.
  intros Hst Hn Hm. destruct (store_create_open_run st m g n Hst Hn Hm) as (st1 & Hc & Hst1 & Ho & Hc' & Hh).
  destruct (store_delete_run st1 _ g n Hst1) as (st2 & Hd & Hst2 & Ho2).
  rewrite lookup_insert_eq, bool_decide_eq_true_2 in Hd by eauto. rewrite delete_insert_id in Hst2 by done.
  exists st1. repeat (split; [done|]). by exists st2.
Qed.

Lemma graph_life_cycle_witness :
  ∃ st1, store_create "other" main_store = (Ok (new_graph "other"), st1) ∧
    store_rep st1 (<["other" := new_empty "other"]> main_labels) small_graph ∧
    store_open "other" st1 = (Ok (Some (new_graph "other")), st1) ∧ store_create "other" st1 = (Err InvalidInput, st1) ∧
    head_version (new_graph "other") st1 = (Ok (None, 0%N), st1) ∧
    ∃ st2, store_delete "other" st1 = (Ok true, st2) ∧ store_rep st2 main_labels small_graph ∧
      store_open "other" st2 = (Ok None, st2).
Proof.
  apply (graph_life_cycle main_store main_labels small_graph "other"); [apply main_store_rep|done|reflexivity].
Defined.

(** ** Labels *)

(** [DirectoryLabelStore::set_label] is a compare-and-set on the whole label:
    the file is rewritten exactly when it holds the label given, with the new
    layer and the next version; on any other label the result is [None], without
    one it is an error, and nothing changes. *)
Theorem directory_set_label_exact (d : directory) (m : label_map) (l : Label) (layer : option name) :
  dir_rep d m → can_update l → layer_wf layer →
  match m !! label_name l with
  | None => set_label_option l layer d = (Err NotFound, d)
  | Some l0 =>
      if decide (l0 = l) then
        ∃ d', set_label_option l layer d = (Ok (Some (updated l layer)), d') ∧
          dir_rep d' (<[label_name l := updated l layer]> m) ∧
          get_label (label_name l) d' = (Ok (Some (updated l layer)), d')
      else set_label_option l layer d = (Ok None, d)
  end.
Proof.
  intros Hr Hu Hw. destruct (m !! label_name l) as [l0|] eqn:Hl.
  - case_decide as Heq.
    + subst l0. destruct (@set_label_current directory _ directory_label_laws d m l layer Hr Hl Hu Hw) as (d' & Hs & Hr'). exists d'.
      split; [done|]. split; [done|]. rewrite (@get_label_spec directory _ directory_label_laws d' _ (label_name l) Hr'). by rewrite lookup_insert_eq.
    + cbn. by rewrite (directory_set_eq d m l layer Hr), with_updated_layer_ok, Hl, decide_False.
  - cbn. by rewrite (directory_set_eq d m l layer Hr), with_updated_layer_ok, Hl.
Qed.

Lemma directory_set_label_exact_witness :
  let d := {[label_path "main" := label_file main_label]} : directory in
  ∃ d', set_label_option main_label (Some dog_name) d = (Ok (Some (updated main_label (Some dog_name))), d') ∧
    dir_rep d' (<["main" := updated main_label (Some dog_name)]> main_labels) ∧
    get_label "main" d' = (Ok (Some (updated main_label (Some dog_name))), d').
Proof.
  intros d. assert (dir_rep d main_labels) as Hr.
  { apply (dir_rep_insert ∅ ∅ main_label durable_empty); [|done]. split; [done|]. intros n [= <-]. apply farm_wf. }
  apply (directory_set_label_exact d main_labels main_label (Some dog_name) Hr); [done|].
  intros n [= <-]. apply dog_wf.
Defined.

(** The memory store compares only versions: a label that was deleted and
    created again, and set as often, is overwritten through a label read before
    the deletion, which both directory stores refuse. *)
Theorem memory_label_aba (m : label_map) (d : directory) (l0 l : Label) (layer : option name) :
  keyed m → dir_rep d m → m !! label_name l = Some l0 → label_version l0 = label_version l → l0 ≠ l → can_update l →
  set_label_option l layer m = (Ok (Some (updated l layer)), <[label_name l := updated l layer]> m) ∧
  set_label_option l layer d = (Ok None, d) ∧
  set_label_option l layer (Cached d m) = (Ok None, Cached d m).
Proof.
  intros Hk Hr Hl Hv Hne Hu. split_and!.
  - cbn. unfold memory_set_label_option. eval_io. rewrite with_updated_layer_ok by done. cbn. rewrite Hl.
    by rewrite decide_False by (rewrite Hv; auto).
  - cbn. by rewrite (directory_set_eq d m l layer Hr), with_updated_layer_ok, Hl, decide_False.
  - cbn. by rewrite (cached_set_eq _ m l layer (durable_rep (Cached d m) Hr)), with_updated_layer_ok, Hl, decide_False.
Qed.

(** The graph was at [farm], was deleted, created and set to [lonely]; the label
    read at [farm] still sets the head, to a child of [farm]. *)
Lemma memory_label_aba_witness :
  let other := {| label_name := "main"; label_layer := Some lonely_name; label_version := 0 |} in
  let m := {["main" := other]} : label_map in
  let d := {[label_path "main" := label_file other]} : directory in
  set_label_option main_label (Some dog_name) m =
    (Ok (Some (updated main_label (Some dog_name))), <["main" := updated main_label (Some dog_name)]> m) ∧
  set_label_option main_label (Some dog_name) d = (Ok None, d) ∧
  set_label_option main_label (Some dog_name) (Cached d m) = (Ok None, Cached d m).
Proof.
  intros other m d. assert (dir_rep d m) as Hr.
  { apply (dir_rep_insert ∅ ∅ other durable_empty); [|done]. split; [done|]. intros n [= <-]. apply lonely_wf. }
  apply (memory_label_aba m d other main_label (Some dog_name) (dr_keyed _ _ Hr) Hr); [reflexivity|reflexivity|done|done].
Defined.






(** ** Names and files *)

(** C31. Layer names: 40 hexadecimal digits that read back as the name, as a string
    and as bytes. *)
Theorem name_round_trip (n : name) :
  name_wf n →
  String.length (name_to_string n) = 40 ∧ string_to_name (name_to_string n) = Ok n ∧
  bytes_to_name (name_to_string n) = Ok n.
Proof.
  intros Hn. split; [apply name_to_string_length|]. split; [by apply string_to_name_to_string|].
  by apply bytes_to_name_to_string.
Qed.

Lemma name_round_trip_witness :
  let n := Name 3735928559 0 4294967295 1 305419896 in
  String.length (name_to_string n) = 40 ∧ string_to_name (name_to_string n) = Ok n ∧
  bytes_to_name (name_to_string n) = Ok n.
Proof. apply (name_round_trip (Name 3735928559 0 4294967295 1 305419896)). name_ok. Defined.

(** C32. Whatever [string_to_name] accepts has 40 bytes, and each part of the name
    fits 32 bits. *)
Theorem string_to_name_bounds (s : string) n :
  string_to_name s = Ok n → String.length s = 40 ∧ name_wf n.
Proof. intros Hs. by apply string_to_name_wf in Hs as [? ?]. Qed.

Lemma string_to_name_bounds_witness :
  let s := "FFFFFFFF+0000001000000020000000300000004" in
  string_to_name s = Ok (Name 4294967295 1 2 3 4) ∧ String.length s = 40 ∧ name_wf (Name 4294967295 1 2 3 4).
Proof.
  intros s. split; [vm_compute; reflexivity|].
  apply (string_to_name_bounds s). vm_compute. reflexivity.
Defined.

(** C33. The tables of file names: no two fields of [FILENAMES] name the same file,
    every name has a number, the numbers of the files of a layer differ, and a
    number identifies the file of the enumeration and fits the 64 bits of an
    archive header. *)
Theorem file_tables_exact :
  NoDup all_filenames ∧ Forall (λ f, is_Some (FILENAME_ENUM_MAP !! f)) all_filenames ∧
  NoDup ((λ f, FILENAME_ENUM_MAP !! f) <$> base_files) ∧ NoDup ((λ f, FILENAME_ENUM_MAP !! f) <$> child_files) ∧
  ∀ f, layer_file_of_number (file_number f) = Some f ∧ file_number f < 64.
Proof.
  split; [apply filenames_distinct|]. split; [apply all_filenames_numbered|].
  split; [by apply (numbers_distinct base_files); left|]. split; [by apply (numbers_distinct child_files); right|].
  intros f. split; [apply file_number_spec|apply file_number_bound].
Qed.

(** Parent and rollup files: what was written is read back, whatever else the
    layer holds, and the other files of the layer keep their contents. *)
Theorem parent_and_rollup_round_trip {S : Type} `{PersistentLayerStoreLaws S} (m : store_map) (d p r : name) fs :
  name_wf d → name_wf p → name_wf r → m !! d = Some fs →
  ∃ fs', fs' = <[fn_rollup FILENAMES := rollup_contents r]> (<[fn_parent FILENAMES := name_to_string p]> fs) ∧
    runs m (_ ← write_parent_file d p; write_rollup_file d r) tt (<[d := fs']> m) ∧
    runs (<[d := fs']> m) (layer_parent d) (Some p) (<[d := fs']> m) ∧
    runs (<[d := fs']> m) (read_rollup_file d) r (<[d := fs']> m).
Proof. intros. eexists. split; [done|]. by apply runs_parent_rollup. Qed.

Lemma parent_and_rollup_round_trip_witness :
  ∃ fs', fs' = <[fn_rollup FILENAMES := rollup_contents rolled_name]>
                 (<[fn_parent FILENAMES := name_to_string farm_name]> dog_files) ∧
    runs (S := memory_layers) small_store
      (_ ← write_parent_file dog_name farm_name; write_rollup_file dog_name rolled_name) tt
      (<[dog_name := fs']> small_store) ∧
    runs (S := memory_layers) (<[dog_name := fs']> small_store) (layer_parent dog_name) (Some farm_name)
      (<[dog_name := fs']> small_store) ∧
    runs (S := memory_layers) (<[dog_name := fs']> small_store) (read_rollup_file dog_name) rolled_name
      (<[dog_name := fs']> small_store).
Proof.
  apply (parent_and_rollup_round_trip (S := memory_layers) small_store dog_name farm_name rolled_name dog_files);
    [apply dog_wf|apply farm_wf|apply rolled_wf|reflexivity].
Defined.

(** C34. [layer_is_ancestor_of] terminates on a store whose parent files are
    acyclic, and answers whether the one layer is reached from the other through
    parent files. *)
Theorem is_ancestor_exact {S : Type} `{PersistentReadLaws S} (m : store_map) (d a : name) n fuel :
  layers_wf m → depth m d n → n < fuel →
  ∃ b, runs m (layer_is_ancestor_of fuel d a) b m ∧ (b = true ↔ ancestor_in m d a).
Proof. apply runs_is_ancestor. Qed.

Lemma is_ancestor_exact_witness :
  ∃ b, runs (S := tree) small_store (layer_is_ancestor_of 2 dog_name farm_name) b small_store ∧
    (b = true ↔ ancestor_in small_store dog_name farm_name).
Proof. apply (is_ancestor_exact (S := tree) small_store dog_name farm_name 1 2 small_wf dog_depth). lia. Defined.

(** Listing the layers of a [DirectoryLayerStore] fails as soon as it has
    one: the directories that it reads names from are those of the prefixes. *)
Theorem directory_listing_fails (t t' : tree) (d : name) :
  create_named_directory d t = (Ok d, t') → ∀ ns, (directories t').1 ≠ Ok ns.
Proof.
  intros Hc. cbn. apply (dir_directories_fail t' (str_take PREFIX_DIR_SIZE (name_to_string d))).
  - by apply (create_makes_prefix t t' d).
  - apply layer_prefix_length.
Qed.

Lemma directory_listing_fails_witness :
  ∃ t', create_named_directory farm_name (∅ : tree) = (Ok farm_name, t') ∧ ∀ ns, (directories t').1 ≠ Ok ns.
Proof.
  destruct (@create_named_directory_spec tree _ directory_layer_store_reads directory_layer_store_laws ∅ farm_name farm_wf (lookup_empty _) ∅ tree_rep_empty) as (t' & Ht & _).
  exists t'. split; [exact Ht|exact (directory_listing_fails ∅ t' farm_name Ht)].
Defined.
