(* ===== verification/StoreProperties.v ===== *)
(** The contract of the queries that a layer store answers without loading the
    stack of a layer: from the files of the layer, or from the cache. Each
    property is followed by an instance on the stores of [StorageExamples]. *)

From S2P Require Import Prelude Names Text LabelSpec Consts LayerFiles LayerFileSpec LayerStores Succinct SuccinctList LayerTypes Nested SubjectIterator LayerLookup ObjectIterator PredicateIterator StackMerge ChangeMerge IdMap InternalLayer LayerCache LayerQueries LayerIds LayerMaps LayerLoad StoreQueries StoreQuerySpec StoreChanges CachedStore StorageExamples.

#[local] Open Scope string_scope.
#[local] Open Scope list_scope.
#[local] Open Scope nat_scope.

Notation memory_cached := (memory_layers * gmap name Weak)%type.





(** C21. Registering a rollup through the store with a cache writes the rollup file
    of the layer and nothing else, no cached layer gets wrong by it, and of the
    whole stack of the layer nothing is left in the cache. *)
Theorem register_rollup_exact `{SuccinctParse} {W C : Type}
    `{!LayerQueries W, !LayerQueriesLaws W, !LayerCache C, !LayerCacheLaws C}
    (m : store_map) (layer rollup : name) fs ns fuel (w : W) (c : C) :
  cached_rep (w, c) m → name_wf rollup → m !! layer = Some fs → parents m layer ns → length ns ≤ fuel →
  ∃ contents w' c', cached_register_rollup fuel layer rollup (w, c) = (Ok tt, (w', c')) ∧
    rollup_named contents rollup ∧
    lq_rep w' (rolled_up m layer rollup fs contents) ∧
    lc_inv (λ l, cache_ok (rolled_up m layer rollup fs contents) l ∧ layer_name l ∉ ns) c'.
Proof. apply cached_register_rollup_spec. Qed.

Lemma register_rollup_exact_witness :
  ∃ contents (w' : memory_layers) (c' : gmap name Weak),
    cached_register_rollup 2 dog_name rolled_name (in_memory small_store, ({[dog_name := downgrade dog_layer]} : gmap name Weak))
      = (Ok tt, (w', c')) ∧
    rollup_named contents rolled_name ∧
    lq_rep w' (<[dog_name := <[fn_rollup FILENAMES := contents]> dog_files]> small_store) ∧
    lc_inv (λ l, cache_ok (<[dog_name := <[fn_rollup FILENAMES := contents]> dog_files]> small_store) l ∧
                 layer_name l ∉ [dog_name; farm_name]) c'.
Proof.
  apply (register_rollup_exact (W := memory_layers) (C := gmap name Weak) small_store dog_name rolled_name dog_files
    [dog_name; farm_name] 2); [|apply rolled_wf|reflexivity|apply small_parents|done].
  split; [apply in_memory_rep|]. intros n l Hn. rewrite visible_lookup in Hn. apply bind_Some in Hn as (w & Hw & Hl).
  simpl in Hw. apply lookup_singleton_Some in Hw as [<- <-]. injection Hl as <-. split; [apply dog_own|done].
Defined.

(** The count of predicates is the exception: for a layer that is not in the
    cache, the store with a cache gives the count of values. *)
Theorem cached_predicate_count_is_of_values `{SuccinctParse} {W C : Type}
    `{!LayerQueries W, !LayerCache C} (n : name) (w : W) (c c' : C) :
  get_layer_from_cache n c = (Ok None, c') →
  get_predicate_count n (w, c) = on_store (get_value_count n) (w, c').
Proof.
  intros Hg. unfold get_predicate_count. simpl. unfold cached_get_predicate_count, from_cache.
  rewrite (io_bind_Ok _ _ _ None (w, c')); [done|]. unfold on_cache. simpl. by rewrite Hg.
Qed.

Lemma cached_predicate_count_is_of_values_witness :
  (get_predicate_count farm_name (in_memory small_store, (∅ : gmap name Weak))).1 = Ok (Some 0) ∧
  answers (W := memory_layers) pl_rep small_store (get_predicate_count farm_name) (Ok (Some 1)).
Proof.
  pose proof (own_parts (S := memory_layers) small_store farm_name farm_layer farm_own) as Hp.
  split; [|exact (predicate_count_answers (S := memory_layers) small_store farm_name farm_layer Hp)].
  assert (get_layer_from_cache (C := gmap name Weak) farm_name ∅ = (Ok None, ∅)) as Hg by reflexivity.
  rewrite (cached_predicate_count_is_of_values (W := memory_layers) farm_name (in_memory small_store) ∅ ∅ Hg).
  destruct (value_count_answers (S := memory_layers) small_store farm_name farm_layer Hp _ (in_memory_rep small_store))
    as (w' & Heq & _). unfold on_store, get_value_count. simpl. by rewrite Heq.
Defined.

(** C23. The names of a stack of layers are read from the parent files, base layer
    first, up to the base layer or to a given ancestor, and the walk ends after
    as many rounds as there are layers; a layer that is no ancestor is reported. *)
Theorem stack_names_exact `{SuccinctParse} {W : Type} `{!LayerQueries W, !LayerQueriesLaws W}
    (m : store_map) (d : name) ns (upto : name) fuel :
  parents m d ns → length ns ≤ fuel →
  answers lq_rep m (retrieve_layer_stack_names fuel d) (Ok (reverse ns)) ∧
  answers lq_rep m (retrieve_layer_stack_names_upto fuel d upto)
    (match names_before upto (tail ns) with Some ms => Ok (reverse (d :: ms)) | None => Err NotFound end).
Proof. intros Hp Hf. split; [by apply stack_names_answers|by apply stack_names_upto_answers]. Qed.

Lemma stack_names_exact_witness :
  answers (W := memory_layers) lq_rep small_store (retrieve_layer_stack_names 2 dog_name) (Ok [farm_name; dog_name]) ∧
  answers (W := memory_layers) lq_rep small_store (retrieve_layer_stack_names_upto 2 dog_name farm_name) (Ok [dog_name]) .
Proof. exact (stack_names_exact (W := memory_layers) small_store dog_name _ farm_name 2 small_parents ltac:(done)). Defined.

(** C22. The changes between a layer and one of its ancestors, read from the files
    of the layers in between, are in order exactly the triples that exist in
    the layer and not in the ancestor, as additions, and those that exist in the
    ancestor only, as removals. *)
Theorem disk_changes_exact `{SuccinctLaws} `{!SuccinctParse} {W : Type} `{!LayerQueries W, !LayerQueriesLaws W}
    (m : store_map) (d : name) ns ls st (upto : name) above fuel :
  disk_stack m d ns ls st → names_before upto ns = Some above → length ns ≤ fuel → stack_size st < fuel →
  ∃ changes, answers lq_rep m (layer_changes_upto fuel d upto) (Ok changes) ∧
  ∃ cs, collect (change_next fuel) fuel changes = Ok cs ∧ triples_sorted spo cs.*2 ∧
    ∀ c t, (c, t) ∈ cs ↔
      (exists_in st t, exists_in (drop (length above) st) t) =
      match c with Addition => (true, false) | Removal => (false, true) end.
Proof. apply layer_changes_upto_query. Qed.

Lemma disk_changes_exact_witness :
  ∃ changes, answers (W := memory_layers) lq_rep small_store (layer_changes_upto 5 dog_name farm_name) (Ok changes) ∧
  ∃ cs, collect (change_next 5) 5 changes = Ok cs ∧ triples_sorted spo cs.*2 ∧
    ∀ c t, (c, t) ∈ cs ↔
      (exists_in small_stack t, exists_in (drop 1 small_stack) t) =
      match c with Addition => (true, false) | Removal => (false, true) end.
Proof.
  apply (disk_changes_exact (W := memory_layers) small_store dog_name [dog_name; farm_name] [dog_layer; farm_layer]
    small_stack farm_name [dog_name] 5); [apply small_disk_stack|reflexivity|simpl; lia|vm_compute; lia].
Defined.

(** C24. [layer_changes] does not: it reads the additions and removals of the layer
    it is asked about once for every layer of the stack, and of no other layer. *)
Theorem layer_changes_repeats `{SuccinctParse} {W : Type} `{!LayerQueries W, !LayerQueriesLaws W}
    (m : store_map) (d : name) l ns ls fuel :
  own m d l → parents m d ns → Forall2 (own m) ns ls → length ns ≤ fuel →
  answers lq_rep m (layer_changes fuel d)
    (Ok (ChangeMerge.from_parts (replicate (length ns) (internal_triple_additions l))
                                (replicate (length ns) (internal_triple_removals l)))).
Proof. apply layer_changes_answers. Qed.

Lemma layer_changes_repeats_witness :
  answers (W := memory_layers) lq_rep small_store (layer_changes 2 dog_name)
    (Ok (ChangeMerge.from_parts [internal_triple_additions dog_layer; internal_triple_additions dog_layer]
                                [internal_triple_removals dog_layer; internal_triple_removals dog_layer])).
Proof.
  apply (layer_changes_repeats (W := memory_layers) small_store dog_name dog_layer [dog_name; farm_name]
    [dog_layer; farm_layer] 2); [apply dog_own|apply small_parents| |done].
  constructor; [apply dog_own|]. constructor; [apply farm_own|constructor].
Defined.
