(* ===== verification/ArchiveProperties.v ===== *)
(** The properties of archives ([src/storage/archive.rs]), with concrete inputs for
    each. *)

From S2P Require Import Prelude Names Text Files Consts LayerFiles LayerFileSpec LayerStores Archive ArchiveBackend LruBackend LruArchive LruConcurrent ArchiveStore ArchiveStoreSpec ArchiveExamples.

#[local] Open Scope string_scope.

(** C39. The bytes that [finalize] makes for the files of a layer are parsed back, in
    memory and from a reader that goes on, and the archive has exactly these files,
    with their contents and their sizes. *)
Theorem archive_format_round_trip `{ArchiveLaws} (fs : layer_files) rest :
  fits fs → fs ≠ ∅ →
  ∃ a, archive_parse (layer_archive fs) = Ok a ∧
    (∃ h, archive_parse_from_reader (layer_archive fs +:+ rest) = Ok (Build_Archive h (ar_data a)) ∧
       ∀ f, range_for h f = range_for (ar_header a) f) ∧
    ∀ f, slice_for a f = Ok (fs !! f) ∧ archive_size_of a f = Ok (String.length <$> fs !! f) ∧
      is_present (file_presence (ar_header a)) f = bool_decide (is_Some (fs !! f)).
Proof.
  intros Hfit Hne. destruct (layer_archive_parse fs Hfit) as (h & Hp & Hh).
  destruct (layer_archive_parse_reader fs rest Hfit) as (h' & Hh' & Hr). rewrite decide_False in Hr by done.
  exists {| ar_header := h; ar_data := concat_data (sorted_files fs) |}. split; [exact Hp|]. split.
  - exists h'. split; [exact Hr|]. intros f. by apply (header_for_range fs).
  - intros f. pose proof (layer_slice_for fs h Hh f EmptyString) as Hs. rewrite string_app_empty in Hs.
    split_and!; [exact Hs|by apply layer_size_of|by apply layer_is_present].
Qed.

Lemma archive_format_round_trip_witness :
  let fs : layer_files := list_to_map (typed small_files) in
  ∃ a, archive_parse (layer_archive fs) = Ok a ∧
    (∃ h, archive_parse_from_reader (layer_archive fs +:+ "and more") = Ok (Build_Archive h (ar_data a)) ∧
       ∀ f, range_for h f = range_for (ar_header a) f) ∧
    ∀ f, slice_for a f = Ok (fs !! f) ∧ archive_size_of a f = Ok (String.length <$> fs !! f) ∧
      is_present (file_presence (ar_header a)) f = bool_decide (is_Some (fs !! f)).
Proof. apply archive_format_round_trip; [exact small_files_fit|]. intros He. apply (f_equal size) in He. by vm_compute in He. Defined.

(** C35. A layer that is created in an archive store, whose files are written one
    after the other, and that is finalized, reads back as it was written: every file
    with its contents, and no other file of another kind; the layers that were there
    before are as they were. *)
Theorem archive_layer_round_trip {B} `{ArchiveBackendLaws B} (s : ArchiveLayerStore B) m d files :
  als_rep s m → name_wf d → m !! d = None → storable files → fits (list_to_map (typed files)) →
  ∃ s' fs, (_ ← create_named_directory d; _ ← write_files d files; pls_finalize d) s = (Ok tt, s') ∧
    als_rep s' (<[d := fs]> m) ∧
    (∀ f c, (f, c) ∈ files → ∃ s'', (file ← get_file d f; f_read file) s' = (Ok c, s'')) ∧
    (∀ f ft, known f = true → FILENAME_ENUM_MAP !! f = Some ft → ft ∉ (typed files).*1 →
       ∃ s'', (file ← get_file d f; f_read file) s' = (Err NotFound, s'')).
Proof.
  intros Hs Hd Hm Hst Hfit. destruct (als_create_layer s m d files Hs Hd Hm Hst Hfit) as (s' & He & Hs').
  exists s', (archived_contents (list_to_map (typed files))). split_and!; [exact He|exact Hs'| |].
  - intros f c Hf. by apply (als_reads_back s' m d files f c).
  - intros f ft Hk Hf Hno. by apply (als_reads_none s' m d files f ft).
Qed.

Lemma archive_layer_round_trip_witness :
  ∃ s' fs, (_ ← create_named_directory farm_id; _ ← write_files farm_id small_files; pls_finalize farm_id) empty_archive_store = (Ok tt, s') ∧
    als_rep s' (<[farm_id := fs]> ∅) ∧
    (∀ f c, (f, c) ∈ small_files → ∃ s'', (file ← get_file farm_id f; f_read file) s' = (Ok c, s'')) ∧
    (∀ f ft, known f = true → FILENAME_ENUM_MAP !! f = Some ft → ft ∉ (typed small_files).*1 →
       ∃ s'', (file ← get_file farm_id f; f_read file) s' = (Err NotFound, s'')).
Proof.
  exact (archive_layer_round_trip empty_archive_store ∅ farm_id small_files empty_archive_store_rep farm_id_wf
           (lookup_empty _) small_files_storable small_files_fit).
Defined.

(** C38. A back end with an LRU cache before it answers every question about a layer
    as its origin does, errors included, whatever is in the cache; and the bytes in
    the cache stay within the limit. *)
Theorem lru_answers_like_origin {O} `{LruLaws, ArchiveLaws, !ArchiveBackend O, !ArchiveMetadataBackend O, !ArchiveBackendLaws O}
    (w : LruArchiveBackend O) (a : archives) (d : name) (f : LayerFileEnum) (n : nat) :
  lru_rep w a → name_wf d →
  (used_bytes w ≤ limit_bytes w)%N ∧
  (get_layer_bytes d w).1 = (get_layer_bytes d (lru_origin w)).1 ∧
  (get_layer_structure_bytes d f w).1 = (get_layer_structure_bytes d f (lru_origin w)).1 ∧
  (read_layer_structure_bytes_from d f n w).1 = (read_layer_structure_bytes_from d f n (lru_origin w)).1 ∧
  (amb_layer_exists d w).1 = (amb_layer_exists d (lru_origin w)).1 ∧
  (amb_layer_size d w).1 = (amb_layer_size d (lru_origin w)).1 ∧
  (amb_layer_file_exists d f w).1 = (amb_layer_file_exists d f (lru_origin w)).1 ∧
  (amb_get_layer_structure_size d f w).1 = (amb_get_layer_structure_size d f (lru_origin w)).1 ∧
  (amb_get_rollup d w).1 = (amb_get_rollup d (lru_origin w)).1 ∧
  (amb_get_parent d w).1 = (amb_get_parent d (lru_origin w)).1.
Proof.
  intros Hw Hd. split; [unfold used_bytes; eapply ci_limit, Hw|]. pose proof (lr_origin _ _ Hw) as Ho.
  pose proof (λ A m1 m2 o, same_answer (A := A) ab_rep ab_rep a m1 m2 o a a w (lru_origin w) Hw Ho) as Hsame.
  split_and!; eapply Hsame.
  all: first [by apply get_layer_bytes_spec|by apply get_layer_structure_bytes_spec|by apply read_layer_structure_bytes_from_spec
             |by apply layer_exists_spec|by apply layer_size_spec|by apply layer_file_exists_spec
             |by apply get_layer_structure_size_spec|by apply get_rollup_spec|by apply get_parent_spec].
Qed.

Lemma lru_answers_like_origin_witness :
  (used_bytes filled_lru ≤ limit_bytes filled_lru)%N ∧
  (get_layer_bytes farm_id filled_lru).1 = (get_layer_bytes farm_id (lru_origin filled_lru)).1 ∧
  (get_layer_structure_bytes farm_id Parent filled_lru).1 = (get_layer_structure_bytes farm_id Parent (lru_origin filled_lru)).1 ∧
  (read_layer_structure_bytes_from farm_id Parent 0 filled_lru).1 = (read_layer_structure_bytes_from farm_id Parent 0 (lru_origin filled_lru)).1 ∧
  (amb_layer_exists farm_id filled_lru).1 = (amb_layer_exists farm_id (lru_origin filled_lru)).1 ∧
  (amb_layer_size farm_id filled_lru).1 = (amb_layer_size farm_id (lru_origin filled_lru)).1 ∧
  (amb_layer_file_exists farm_id Parent filled_lru).1 = (amb_layer_file_exists farm_id Parent (lru_origin filled_lru)).1 ∧
  (amb_get_layer_structure_size farm_id Parent filled_lru).1 = (amb_get_layer_structure_size farm_id Parent (lru_origin filled_lru)).1 ∧
  (amb_get_rollup farm_id filled_lru).1 = (amb_get_rollup farm_id (lru_origin filled_lru)).1 ∧
  (amb_get_parent farm_id filled_lru).1 = (amb_get_parent farm_id (lru_origin filled_lru)).1.
Proof. exact (lru_answers_like_origin filled_lru one_archive farm_id Parent 0 filled_lru_rep farm_id_wf). Defined.



(** C37. Calls that run at the same time come to an end: each takes at most three
    steps, whatever the order, and whatever happened so far, those that are left can
    be finished, so that none waits for ever. *)
Theorem lru_calls_finish {O} `{LruLaws, ArchiveLaws, !ArchiveBackend O, !ArchiveMetadataBackend O, !ArchiveBackendLaws O}
    (limit : N) (first : archives) (sy sy' : system (O := O)) ls :
  (limit < usize_bound)%N → started limit first sy → steps limit ls sy sy' →
  (total_left (sy_calls sy') + List.length (omap id ls) ≤ total_left (sy_calls sy))%nat ∧
  ∃ ls' sy'', steps limit ls' sy' sy'' ∧ (List.length ls' ≤ total_left (sy_calls sy'))%nat ∧
    ∀ t c, sy_calls sy'' !! t = Some c → is_done c = true.
Proof.
  intros Hl Hst Hs. split; [by apply (steps_left_bound limit)|].
  destruct (steps_inv limit Hl first ls sy sy' first (started_inv limit first sy Hst) Hs) as [a Hi].
  by apply (sys_finish limit Hl first _ sy' a Hi).
Qed.

Lemma lru_calls_finish_witness :
  (total_left (sy_calls busy_then) + List.length (omap id [Some 0; Some 1; Some 2]) ≤ total_left (sy_calls busy))%nat ∧
  ∃ ls' sy'', steps (limit_bytes empty_lru) ls' busy_then sy'' ∧ (List.length ls' ≤ total_left (sy_calls busy_then))%nat ∧
    ∀ t c, sy_calls sy'' !! t = Some c → is_done c = true.
Proof.
  exact (lru_calls_finish (limit_bytes empty_lru) no_archives busy busy_then _ (lr_limit _ _ empty_lru_rep) busy_started (busy_steps _)).
Defined.

(** The method of an archive store that finds the parent of a layer in the
    archive answers as the one that it overrides, which reads the parent file, and as
    the files of the store say; a layer that is missing is reported by both. *)
Theorem archive_parent_exact {B} `{ArchiveBackendLaws B} (s : ArchiveLayerStore B) m d :
  als_rep s m → layers_wf m → name_wf d →
  ∃ o s1 s2, parent_answer m d o ∧ als_layer_parent d s = (o, s1) ∧ layer_parent d s = (o, s2) ∧
    als_rep s1 m ∧ als_rep s2 m.
Proof.
  intros Hs Hwf Hd. destruct (als_layer_parent_returns m d Hd Hwf) as (o & Ho & H1 & H2).
  destruct (H1 s Hs) as (s1 & He1 & Hs1). destruct (H2 s Hs) as (s2 & He2 & Hs2). by exists o, s1, s2.
Qed.

Lemma archive_parent_exact_witness :
  ∃ (s : ArchiveLayerStore (LruArchiveBackend tree)) o s1 s2, als_rep s family ∧ parent_in family calf_id farm_id ∧
    parent_answer family calf_id o ∧ als_layer_parent calf_id s = (o, s1) ∧ layer_parent calf_id s = (o, s2) ∧
    als_rep s1 family ∧ als_rep s2 family.
Proof.
  destruct family_store as [s Hs].
  assert (name_wf calf_id) as Hd by (by repeat split).
  destruct (archive_parent_exact s family calf_id Hs family_wf Hd) as (o & s1 & s2 & Ho).
  exists s, o, s1, s2. split; [exact Hs|]. split; [exact calf_parent|exact Ho].
Defined.


