(* ===== verification/BuilderProperties.v ===== *)
(** The contract of the layer builders: a history of commits holds what the same
    additions and removals make of a set, triples by name or by id; what the file
    builders write is what the layer reads; and ids that nobody gave out. *)

From S2P Require Import Prelude Names Succinct SuccinctList LayerTypes Order Nested SubjectIterator LayerLookup ObjectIterator TripleBuilder SuccinctBuild SuccinctBuildList IndexBuilder StackMerge IdMap InternalLayer LayerIds LayerQueries NewLayerIds FileBuilder FileBuilderSpec SimpleBuilder SimpleBuilderSpec CommitSteps CommitPlan CommitSpec CommitHistory Examples BuilderExamples.

(** Building layers one on top of another, each with a [SimpleLayerBuilder] that is
    given additions and removals of triples of names and committed, never fails; the
    last layer is well formed, with one layer per session, and
    [value_triple_exists] answers membership in the set that results when every
    session adds to a set what it adds and does not remove, and removes what it
    removes and does not add. *)
Theorem history_refines_set `{BuildLaws} limit sessions :
  ∃ l st, run_history limit None sessions = Ok l ∧ layer_good l st ∧ length st = length sessions ∧
    contents_are l (foldl apply_session ∅ sessions).
Proof.
  destruct (history_exact limit sessions None [] ∅) as (l & st & Hr & Hg & Hlen & Hc); [apply nothing_good..|].
  exists l, st. by rewrite Nat.add_0_r in Hlen.
Qed.

Lemma history_refines_set_witness :
  ∃ l, run_history 2 None farm_history = Ok (Some l) ∧
    value_triple_exists l (new_node "ant" "hears" "duck")%string = Ok true ∧
    value_triple_exists l (new_value "duck" "says" (1, 7))%string = Ok true ∧
    value_triple_exists l (new_node "cow" "likes" "duck")%string = Ok false ∧
    value_triple_exists l (new_node "pig" "likes" "cow")%string = Ok false.
Proof.
  destruct (history_refines_set 2 farm_history) as (l & st & Hr & _ & _ & Hc).
  destruct l as [l|]; [|vm_compute in Hr; discriminate]. exists l. split; [exact Hr|].
  split_and!; (etransitivity; [apply (Hc _)|vm_compute; reflexivity]).
Defined.

(** C4. A builder of a layer on a well formed parent, or on none, that is called with
    additions and removals by names or by ids of the parent, in any order, commits. The
    layer has the name and the parent asked for, is well formed with one level of changes
    on top of the parent's, and [value_triple_exists] is true for what was added and not
    removed, false for what was removed and not added, and otherwise what it was in the
    parent. *)
Theorem commit_exact `{BuildLaws} limit stored n parent st ops :
  layer_good parent st → Forall (op_in_range parent) ops →
  ∃ l changes, build_session limit stored n parent ops = Ok l ∧
    layer_name l = n ∧ immediate_parent l = parent ∧ layer_good (Some l) (changes :: st) ∧
    ∀ vt, ∃ before, parent_has parent vt = Ok before ∧ value_triple_exists l vt = Ok (after parent ops vt before).
Proof. apply build_session_exact. Qed.

Lemma commit_exact_witness :
  ∃ p l, base_session = Ok p ∧ build_session 2 0 (Name 0 0 0 0 2) (Some p) mixed_calls = Ok l ∧
    value_triple_exists l (new_node "cow" "likes" "duck")%string = Ok false ∧
    value_triple_exists l (new_node "duck" "likes" "cow")%string = Ok true ∧
    value_triple_exists l (new_node "ant" "hears" "duck")%string = Ok true.
Proof.
  destruct base_session_good as (p & st & Hp & Hg & Hn & Hq).
  assert (Forall (op_in_range (Some p)) mixed_calls) as Hin.
  { repeat constructor; unfold nv_count, p_count; cbn [subject predicate object fmap option_fmap option_map default];
      rewrite ?Hn, ?Hq; cbn; lia. }
  destruct (commit_exact 2 0 (Name 0 0 0 0 2) (Some p) st mixed_calls Hg Hin) as (l & changes & Hl & _ & _ & _ & Hans).
  exists p, l. split; [exact Hp|]. split; [exact Hl|].
  vm_compute in Hp. injection Hp as <-.
  split_and!; match goal with |- value_triple_exists _ ?vt = _ => destruct (Hans vt) as (before & Hb & ->) end;
    vm_compute in Hb; injection Hb as <-; vm_compute; reflexivity.
Defined.




(** C14. An addition by ids that neither the parent nor the builder gave out, unless the same
    ids are removed as well, makes the commit panic (the index into the vector of ids in use
    is out of range). *)
Theorem unknown_ids_panic `{BuildLaws} limit stored n parent ops b t :
  ids_ok parent → run_ops (sb_start n parent) ops = Ok b →
  AddId t ∈ ops → RemoveId t ∉ ops → triple_pos t → ¬ sb_range b t → sb_commit limit stored b = Panic.
Proof. apply unknown_id_panics. Qed.

Lemma unknown_ids_panic_witness :
  ∃ b, run_ops (sb_start (Name 0 0 0 0 1) None) [AddId (new_IdTriple 1 1 1)] = Ok b ∧ sb_commit 2 0 b = Panic ∧
    ∃ l, build_session 2 0 (Name 0 0 0 0 1) None [RemoveId (new_IdTriple 1 1 1)] = Ok l.
Proof.
  eexists. split; [vm_compute; reflexivity|]. split; [|eexists; vm_compute; reflexivity].
  apply (unknown_ids_panic 2 0 (Name 0 0 0 0 1) None [AddId (new_IdTriple 1 1 1)] _ (new_IdTriple 1 1 1)).
  - exact I.
  - vm_compute. reflexivity.
  - by left.
  - by intros [=]%list_elem_of_singleton.
  - unfold triple_pos. simpl. lia.
  - unfold sb_range, in_range. simpl. lia.
Defined.
