(* ===== verification/DeltaProperties.v ===== *)
(** The contract of rollups: a layer that is rolled up, entirely or down to one of the
    layers below, is replaced by one that answers the same, ids included, and that
    can be built upon; so histories with rollups hold what the sessions made. *)

From S2P Require Import Prelude Names Text LabelSpec Consts LayerFiles LayerFileSpec Succinct SuccinctList LayerTypes Order Nested SubjectIterator LayerLookup ObjectIterator PredicateIterator TripleBuilder SuccinctBuild SuccinctBuildList SuccinctMerge SuccinctMergeList IndexBuilder StackMerge ChangeMerge IdMap InternalLayer LayerIds LayerQueries NewLayerIds FileBuilder FileBuilderSpec SimpleBuilder SimpleBuilderSpec CommitSteps CommitPlan CommitSpec CommitHistory IdMapBuild IdMapSpec RollupIds RollupLayer Delta DeltaSpec RollupHistory Examples BuilderExamples.

#[local] Open Scope string_scope.



(** The two sessions of the farm. *)
Definition farm_top : outcome (option InternalLayer) := run_events 2 None [Session first_session; Session second_session].

Lemma farm_top_good : ∃ l st, farm_top = Ok (Some l) ∧ layer_good (Some l) st ∧ stack_size st < 5.
Proof.
  destruct (run_events_spec 2 [Session first_session; Session second_session] None [] ∅) as (l & st & Hr & Hg & _);
    [apply nothing_good..|].
  destruct l as [l|]; [|vm_compute in Hr; discriminate]. exists l, st. split_and!; [exact Hr|exact Hg|].
  destruct (rollup_fuel_spec l st (lg_stack _ _ Hg)) as (fuel & Hfuel & Hlt).
  vm_compute in Hr. injection Hr as <-. vm_compute in Hfuel. by injection Hfuel as <-.
Qed.



(** C2. Rolling up a well formed layer, with fuel for all of its triples, gives a base layer
    of the name asked for, and this layer, alone or in place of the original, is well
    formed, has every triple of names under the same ids, answers lookups by names, by
    ids and of ids alike, and lists the same triples. *)
Theorem rollup_exact `{BuildLaws, !MergeOps, !MergeLaws} fuel limit n stored l st :
  layer_good (Some l) st → stack_size st < fuel →
  ∃ r, delta_rollup fuel limit n stored l = Ok r ∧ layer_name r = n ∧ immediate_parent r = None ∧
    ∀ x, layer_or_rollup r x →
      (∃ ts, layer_good (Some x) [(ts, [])] ∧ triples fuel l = Ok ts) ∧
      (∀ t, value_triple_to_id x t = value_triple_to_id l t ∧ value_triple_exists x t = value_triple_exists l t) ∧
      (∀ t, id_triple_exists x t = id_triple_exists l t) ∧
      (∀ id o, layer_id_object x id = Ok (Some o) ↔ layer_id_object l id = Ok (Some o)).
Proof.
  intros Hl Hf. destruct (delta_rollup_spec fuel limit n stored l st Hl Hf) as (r & ts & Hr & Hn & Hp & Hts & Hx).
  exists r. split_and!; [done|done|done|]. intros x Hor. specialize (Hx x Hor). split_and!.
  - exists ts. split; [apply Hx|done].
  - intros t. split; [by eapply stands_for_ids|by eapply stands_for_value_triple].
  - intros t. by eapply stands_for_id_triple.
  - intros id o. by eapply stands_for_object.
Qed.

Lemma rollup_exact_witness :
  ∃ l r, farm_top = Ok (Some l) ∧ delta_rollup 5 2 (Name 0 0 0 0 9) 0 l = Ok r ∧ layer_stack_size l = 2 ∧
    id_wtree (node_value_id_map r) = Some [3; 0; 1; 2] ∧
    value_triple_to_id (Rollup r (Name 0 0 0 0 2) None) (new_node "ant" "hears" "duck")
      = value_triple_to_id l (new_node "ant" "hears" "duck").
Proof.
  destruct farm_top_good as (l & st & Hl & Hg & Hsize).
  destruct (rollup_exact 5 2 (Name 0 0 0 0 9) 0 l st Hg Hsize) as (r & Hr & _ & _ & Hx).
  exists l, r. split; [exact Hl|]. split; [exact Hr|].
  destruct (Hx (Rollup r (Name 0 0 0 0 2) None) (or_intror (ex_intro _ _ (ex_intro _ _ eq_refl)))) as (_ & Hids & _).
  split_and!; [| |apply (Hids _)].
  - vm_compute in Hl. injection Hl as <-. reflexivity.
  - vm_compute in Hl. injection Hl as <-. vm_compute in Hr. injection Hr as <-. reflexivity.
Defined.

(** C3. Rolling up a well formed layer down to the first layer below with a given name gives a
    child of that layer. Alone or in place of the original it is well formed, with one
    level of changes above the lower layer, and it answers as the original does, by
    names, by ids and of ids. *)
Theorem partial_rollup_exact `{BuildLaws, !MergeOps, !MergeLaws} fuel limit n stored l st upto boundary :
  layer_good (Some l) st → stack_size st < fuel → below upto l = Some boundary →
  ∃ r, memory_delta_rollup_upto fuel limit n stored boundary l upto = Ok r ∧
    layer_name r = n ∧ immediate_parent r = Some boundary ∧
    ∀ x, layer_or_rollup r x →
      (∃ changes st', layer_good (Some x) (changes :: st') ∧ stack_holds boundary st') ∧
      (∀ t, value_triple_to_id x t = value_triple_to_id l t ∧ value_triple_exists x t = value_triple_exists l t) ∧
      (∀ t, id_triple_exists x t = id_triple_exists l t) ∧
      (∀ id o, layer_id_object x id = Ok (Some o) ↔ layer_id_object l id = Ok (Some o)).
Proof.
  intros Hl Hf Hb. destruct (below_spec _ _ _ Hb) as (above & ls & Hc & Hne & <- & Hnames).
  destruct (memory_rollup_spec fuel limit n stored l st above boundary ls Hl Hf Hc Hne Hnames) as (r & changes & Hr & Hn & Hp & Hst & Hx).
  exists r. split_and!; [done|done|done|]. intros x Hor. specialize (Hx x Hor). split_and!.
  - eexists _, _. split; [apply Hx|done].
  - intros t. split; [by eapply stands_for_ids|by eapply stands_for_value_triple].
  - intros t. by eapply stands_for_id_triple.
  - intros id o. by eapply stands_for_object.
Qed.

Lemma partial_rollup_exact_witness :
  ∃ l b r, farm_top = Ok (Some l) ∧ below (Name 0 0 0 0 1) l = Some b ∧
    memory_delta_rollup_upto 5 2 (Name 0 0 0 0 9) 0 b l (Name 0 0 0 0 1) = Ok r ∧
    value_triple_exists r (new_node "cow" "likes" "duck") = Ok false ∧
    value_triple_exists r (new_node "ant" "hears" "duck") = Ok true.
Proof.
  destruct farm_top_good as (l & st & Hl & Hg & Hsize). pose proof Hl as Hl'. vm_compute in Hl'. injection Hl' as Hl'.
  assert (∃ b, below (Name 0 0 0 0 1) l = Some b) as [b Hb] by (rewrite <- Hl'; eexists; vm_compute; reflexivity).
  destruct (partial_rollup_exact 5 2 (Name 0 0 0 0 9) 0 l st _ b Hg Hsize Hb) as (r & Hr & _ & _ & Hx).
  exists l, b, r. split; [exact Hl|]. split; [exact Hb|]. split; [exact Hr|].
  destruct (Hx r (or_introl eq_refl)) as (_ & Hans & _). subst l.
  split; (etransitivity; [apply (Hans _)|vm_compute; reflexivity]).
Defined.
