(* ===== verification/StoreBuilder.v ===== *)
(** [StoreLayerBuilder] and [StoreLayer] of [src/store/mod.rs]: a layer builder that is
    shared between threads and committed once, with the operations that carry the
    changes of a layer, or the difference to it, over to another; and layers with the
    store they came out of. *)

From S2P Require Import Prelude Names Text LabelSpec Consts LayerFiles LayerFileSpec Succinct LayerTypes Order Nested SubjectIterator LayerLookup ObjectIterator PredicateIterator TripleBuilder SuccinctBuild IndexBuilder StackMerge ChangeMerge IdMap InternalLayer LayerIds FileBuilder SimpleBuilder LayerMaps StoreQueries.

(** ** What the two ask of a layer store *)
Class BuildStore `{BuildOps} (W : Type) := {
  create_base_layer : io W SimpleLayerBuilder;
  create_child_layer : name → io W SimpleLayerBuilder;
  (** [LayerBuilder::commit_boxed] *)
  commit_boxed : SimpleLayerBuilder → io W unit;
  finalize_layer : name → io W unit;
  retrieve_layer : name → io W (option InternalLayer);
  store_squash : InternalLayer → io W name;
  store_squash_upto : InternalLayer → name → io W name;
  store_rollup : InternalLayer → io W name;
  store_rollup_upto : InternalLayer → name → io W name;
  store_imprecise_rollup_upto : InternalLayer → name → io W name;
}.

Section store_builder.
Context `{BuildOps} {W : Type} `{!BuildStore W}.

(** ** The state

    The lock around the builder is poisoned when a thread panics while it writes. *)
Inductive rwlock (A : Type) := Unlocked (content : A) | Poisoned.
#[local] Arguments Unlocked {A} content.
#[local] Arguments Poisoned {A}.

Record StoreLayerBuilder := {
  slb_parent : option InternalLayer;
  slb_builder : rwlock (option SimpleLayerBuilder);
  slb_name : name;
}.

Definition wrap_builder (builder : SimpleLayerBuilder) : StoreLayerBuilder := {|
  slb_parent := sb_parent builder; slb_builder := Unlocked (Some builder); slb_name := sb_name builder |}.

Definition store_layer_builder_new : io W StoreLayerBuilder :=
  builder ← create_base_layer; mret (wrap_builder builder).

Definition with_lock (s : StoreLayerBuilder) (l : rwlock (option SimpleLayerBuilder)) : StoreLayerBuilder := {|
  slb_parent := slb_parent s; slb_builder := l; slb_name := slb_name s |}.

(** ** Calls *)

Definition with_builder (f : SimpleLayerBuilder → outcome SimpleLayerBuilder) : io StoreLayerBuilder unit := λ s,
  match slb_builder s with
  | Poisoned => (Panic, s)
  | Unlocked None => (Err InvalidData, s)
  | Unlocked (Some builder) =>
      match f builder with
      | Ok builder => (Ok tt, with_lock s (Unlocked (Some builder)))
      | Err e => (Err e, s)
      | Panic => (Panic, with_lock s Poisoned)
      | NoFuel => (NoFuel, s)
      end
  end.

Definition slb_add_value_triple (t : ValueTriple) : io StoreLayerBuilder unit := with_builder (λ b, add_value_triple b t).
Definition slb_add_id_triple (t : IdTriple) : io StoreLayerBuilder unit := with_builder (λ b, add_id_triple b t).
Definition slb_remove_value_triple (t : ValueTriple) : io StoreLayerBuilder unit := with_builder (λ b, remove_value_triple b t).
Definition slb_remove_id_triple (t : IdTriple) : io StoreLayerBuilder unit := with_builder (λ b, remove_id_triple b t).

Definition committed : io StoreLayerBuilder bool := λ s,
  match slb_builder s with
  | Poisoned => (Panic, s)
  | Unlocked builder => (Ok (bool_decide (builder = None)), s)
  end.

(** The builder is taken out of the lock before anything else. *)
Definition take_builder : io StoreLayerBuilder (option SimpleLayerBuilder) := λ s,
  match slb_builder s with
  | Poisoned => (Panic, s)
  | Unlocked builder => (Ok builder, with_lock s (Unlocked None))
  end.

Definition on_builder {A} (p : io StoreLayerBuilder A) : io (W * StoreLayerBuilder) A := λ ws,
  let '(o, s') := p ws.2 in (o, (ws.1, s')).
Definition on_layers {A} (p : io W A) : io (W * StoreLayerBuilder) A := λ ws,
  let '(o, w') := p ws.1 in (o, (w', ws.2)).

Definition commit_no_load : io (W * StoreLayerBuilder) unit :=
  builder ← on_builder take_builder;
  match builder with
  | None => throw InvalidData
  | Some builder =>
      let id := sb_name builder in
      _ ← on_layers (commit_boxed builder);
      on_layers (finalize_layer id)
  end.

Definition commit : io (W * StoreLayerBuilder) InternalLayer :=
  s ← on_builder read_state;
  let n := slb_name s in
  _ ← commit_no_load;
  layer ← on_layers (retrieve_layer n);
  lift (unwrap layer).

(** What the holders of a builder call, one after the other; a call that fails does not
    keep the next one from being made. *)
Inductive holder_call := Call (op : builder_op) | IsCommitted | CommitNoLoad | Commit.
Inductive answer := Done | Flag (b : bool) | Loaded (l : InternalLayer).

Definition slb_op (op : builder_op) : io StoreLayerBuilder unit :=
  match op with
  | AddValue t => slb_add_value_triple t
  | AddId t => slb_add_id_triple t
  | RemoveValue t => slb_remove_value_triple t
  | RemoveId t => slb_remove_id_triple t
  end.

Definition hold (c : holder_call) : io (W * StoreLayerBuilder) answer :=
  match c with
  | Call op => _ ← on_builder (slb_op op); mret Done
  | IsCommitted => b ← on_builder committed; mret (Flag b)
  | CommitNoLoad => _ ← commit_no_load; mret Done
  | Commit => l ← commit; mret (Loaded l)
  end.

Fixpoint hold_all (cs : list holder_call) (ws : W * StoreLayerBuilder)
    : list (outcome answer) * (W * StoreLayerBuilder) :=
  match cs with
  | [] => ([], ws)
  | c :: cs => let '(o, ws) := hold c ws in let '(os, ws) := hold_all cs ws in (o :: os, ws)
  end.

(** ** Carrying changes over

    The threads of the pool call the builder in some order: [order] is applied to
    the calls the two branches make. *)

(** The triples that have names. *)
Fixpoint names_of (l : InternalLayer) (ts : list IdTriple) : outcome (list ValueTriple) :=
  match ts with
  | [] => Ok []
  | t :: ts =>
      st ← id_triple_to_string l t;
      rest ← names_of l ts;
      Ok (match st with Some st => st :: rest | None => rest end)
  end.

(** Those that are not in the other layer. *)
Fixpoint missing_in (other : InternalLayer) (ts : list ValueTriple) : outcome (list ValueTriple) :=
  match ts with
  | [] => Ok []
  | t :: ts =>
      exists_ ← value_triple_exists other t;
      rest ← missing_in other ts;
      Ok (if exists_ : bool then rest else t :: rest)
  end.

(** A call from one of the threads. *)
Inductive thread_call := Add (t : ValueTriple) | Remove (t : ValueTriple).

Definition thread_run (c : thread_call) : io StoreLayerBuilder unit :=
  match c with Add t => slb_add_value_triple t | Remove t => slb_remove_value_triple t end.

(** [unwrap()] of every call. *)
Fixpoint unwrap_calls (calls : list thread_call) : io StoreLayerBuilder unit :=
  match calls with
  | [] => mret tt
  | c :: calls => λ s,
      match thread_run c s with
      | (Ok _, s') => unwrap_calls calls s'
      | (Err _, s') => (Panic, s')
      | (o, s') => (o, s')
      end
  end.

(** The errors of the calls are dropped. *)
Fixpoint drop_errors (calls : list thread_call) : io StoreLayerBuilder unit :=
  match calls with
  | [] => mret tt
  | c :: calls => λ s,
      match thread_run c s with
      | (Ok _, s') | (Err _, s') => drop_errors calls s'
      | (o, s') => (o, s')
      end
  end.

Definition diff_removals (fuel : nat) (parent : option InternalLayer) (other : InternalLayer) : outcome (list ValueTriple) :=
  match parent with
  | None => Ok []
  | Some this => ts ← triples fuel this; sts ← names_of this ts; missing_in other sts
  end.

Definition diff_additions (fuel : nat) (parent : option InternalLayer) (other : InternalLayer) : outcome (list ValueTriple) :=
  ts ← triples fuel other;
  sts ← names_of other ts;
  match parent with
  | None => Ok sts
  | Some this => missing_in this sts
  end.

Definition apply_diff (order : list thread_call → list thread_call) (fuel : nat) (other : InternalLayer)
    : io StoreLayerBuilder unit :=
  s ← read_state;
  removals ← lift (diff_removals fuel (slb_parent s) other);
  additions ← lift (diff_additions fuel (slb_parent s) other);
  unwrap_calls (order ((Remove <$> removals) ++ (Add <$> additions))).

Definition apply_delta `{!LayerQueries W} (order : list thread_call → list thread_call) (fuel : nat) (delta : InternalLayer)
    : io (W * StoreLayerBuilder) unit :=
  triple_additions ← on_layers (triple_additions (layer_name delta));
  triple_removals ← on_layers (triple_removals (layer_name delta));
  added ← lift (collect opt_next fuel triple_additions);
  removed ← lift (collect opt_next fuel triple_removals);
  additions ← lift (names_of delta added);
  removals ← lift (names_of delta removed);
  on_builder (drop_errors (order ((Add <$> additions) ++ (Remove <$> removals)))).

(** ** [StoreLayer] *)

Definition open_write (layer : InternalLayer) : io W StoreLayerBuilder :=
  builder ← create_child_layer (layer_name layer); mret (wrap_builder builder).

Definition store_layer_parent (layer : InternalLayer) : io W (option InternalLayer) :=
  match parent_name layer with
  | None => mret None
  | Some parent_name =>
      l ← retrieve_layer parent_name;
      match l with
      | None => throw NotFound
      | Some l => mret (Some l)
      end
  end.

(** The layer is looked up again by its name, since the store wants an [InternalLayer]. *)
Definition with_internal_layer {A} (layer : InternalLayer) (f : InternalLayer → io W A) : io W A :=
  layer_opt ← retrieve_layer (layer_name layer);
  match layer_opt with
  | None => throw NotFound
  | Some l => f l
  end.

Definition squash (layer : InternalLayer) : io W InternalLayer :=
  n ← with_internal_layer layer store_squash;
  l ← retrieve_layer n; lift (unwrap l).
Definition squash_upto (layer upto : InternalLayer) : io W InternalLayer :=
  n ← with_internal_layer layer (λ l, store_squash_upto l (layer_name upto));
  l ← retrieve_layer n; lift (unwrap l).
Definition rollup (layer : InternalLayer) : io W unit :=
  _ ← with_internal_layer layer store_rollup; mret tt.
Definition rollup_upto (layer upto : InternalLayer) : io W unit :=
  _ ← with_internal_layer layer (λ l, store_rollup_upto l (layer_name upto)); mret tt.
Definition imprecise_rollup_upto (layer upto : InternalLayer) : io W unit :=
  _ ← with_internal_layer layer (λ l, store_imprecise_rollup_upto l (layer_name upto)); mret tt.
End store_builder.

#[global] Arguments Unlocked {A} content.
#[global] Arguments Poisoned {A}.
