(* ===== verification/StoreBuilderSpec.v ===== *)
(** What a shared builder promises: its calls do to the builder inside what they do
    to a [SimpleLayerBuilder]; and what the calls that carry changes over ask for. *)

From S2P Require Import Prelude Names Text LabelSpec Consts LayerFiles LayerFileSpec Succinct LayerTypes Order Nested SubjectIterator LayerLookup ObjectIterator PredicateIterator TripleBuilder SuccinctBuild IndexBuilder StackMerge ChangeMerge IdMap InternalLayer LayerIds LayerQueries NewLayerIds FileBuilder FileBuilderSpec SimpleBuilder SimpleBuilderSpec CommitSteps CommitPlan CommitSpec CommitHistory LayerMaps StoreQueries StoreBuilder.

(** ** Ids that a layer gave out resolve *)
Section totals.
Context `{SuccinctLaws} {A : Type}.
Context (len count : InternalLayer → nat) (idmap : InternalLayer → IdMap) (get : InternalLayer → nat → option A).

Lemma walk_get_total ls id :
  numbered len count idmap ls → id ≠ 0 → id ≤ sum_lens len ls → ∃ r, walk_get len idmap get id (sum_lens len ls) ls = Ok r.
Proof.
  unfold walk_get. induction ls as [|l ls IH]; intros Hn Hid Hle; [by eexists|]. cbn [resolve_walk sum_lens].
  pose proof (proj1 Hn) as [[Hwf Hlen] _]%Forall_cons.
  assert (∀ i, i ≠ 0 → ∃ r, (o ← outer_to_inner (idmap l) i; Ok (get l o)) = Ok r) as Hget.
  { intros i Hi. destruct (outer_inner_outer _ i (len l) Hwf Hi Hlen) as (o & -> & _). by eexists. }
  destruct ls as [|l' ls]; [by apply Hget|].
  replace (len l + sum_lens len (l' :: ls)) with (sum_lens len (l' :: ls) + len l) by lia.
  unfold checked_sub. rewrite decide_True by lia. cbn [mbind outcome_bind].
  replace (sum_lens len (l' :: ls) + len l - len l) with (sum_lens len (l' :: ls)) by lia.
  case_decide; [apply Hget; lia|]. apply IH; [by eapply numbered_tail|done|lia].
Qed.
End totals.

Section names.
Context `{SuccinctLaws}.

Lemma id_triple_to_string_total l t :
  ids_wf l → triple_pos t → in_range (node_and_value_count l) (predicate_count l) t → ∃ r, id_triple_to_string l t = Ok r.
Proof.
  intros Hwf (Hs & Hp & Ho) (Ls & Lp & Lo). pose proof (ids_nodes _ Hwf) as Hn. pose proof (ids_predicates _ Hwf) as Hq.
  rewrite (numbered_total _ _ _ _ Hn) in Ls, Lo. rewrite (numbered_total _ _ _ _ Hq) in Lp.
  unfold id_triple_to_string. cbn [id_subject id_predicate id_object internal_layer_is_layer].
  rewrite layer_subject_walk, layer_predicate_walk, layer_id_object_walk by (done || lia).
  destruct (walk_get_total _ _ _ node_dict_get _ _ Hn Hs Ls) as [[s|] ->]; cbn [mbind outcome_bind]; [|by eexists].
  destruct (walk_get_total _ _ _ predicate_dict_get _ _ Hq Hp Lp) as [[p|] ->]; cbn [mbind outcome_bind]; [|by eexists].
  destruct (walk_get_total _ _ _ get_object _ _ Hn Ho Lo) as [o ->]. by eexists.
Qed.

(** The names of triples that the layer knows. *)
Lemma names_of_spec l ts :
  ids_wf l → entries_distinct l → Forall triple_pos ts → Forall (in_range (node_and_value_count l) (predicate_count l)) ts →
  ∃ sts, names_of l ts = Ok sts ∧ ∀ vt, vt ∈ sts ↔ ∃ t, t ∈ ts ∧ value_triple_to_id l vt = Ok (Some t).
Proof.
  intros Hwf Hd. induction ts as [|t ts IH]; intros Hpos Hin.
  { exists []. split; [done|]. intros vt. split; [by intros ?%not_elem_of_nil|by intros (? & ?%not_elem_of_nil & _)]. }
  apply Forall_cons in Hpos as [Hpos1 Hpos], Hin as [Hin1 Hin]. destruct (IH Hpos Hin) as (sts & Hsts & Hmem).
  destruct (id_triple_to_string_total l t Hwf Hpos1 Hin1) as [r Hr]. simpl. rewrite Hr, Hsts. cbn [mbind outcome_bind].
  eexists. split; [done|]. intros vt. setoid_rewrite elem_of_cons. destruct r as [st|].
  - rewrite elem_of_cons, Hmem. split.
    + intros [->|(t' & Ht & Hvt)]; [|by eauto]. exists t. split; [by left|]. by apply id_triple_names_found.
    + intros (t' & [->|Ht] & Hvt); [left|by eauto]. apply value_triple_id_resolves in Hvt; [|done]. congruence.
  - rewrite Hmem. split; [intros (t' & Ht & Hvt); by eauto|].
    intros (t' & [->|Ht] & Hvt); [|by eauto]. apply value_triple_id_resolves in Hvt; [|done]. congruence.
Qed.

Lemma parent_has_total l st vt : layer_good l st → ∃ b, parent_has l vt = Ok b.
Proof.
  intros [Hok Hst _ _]. destruct (sees_cases l vt) as [[t Ht]|Hno].
  - rewrite (parent_has_sees l st vt t Hst Ht). by eexists.
  - rewrite parent_has_unknown by done. by eexists.
Qed.

Lemma value_exists_iff l st vt :
  layer_good (Some l) st →
  value_triple_exists l vt = Ok true ↔ ∃ t, exists_in st t = true ∧ value_triple_to_id l vt = Ok (Some t).
Proof.
  intros [Hok Hst _ _]. change (value_triple_exists l vt) with (parent_has (Some l) vt).
  destruct (sees_cases (Some l) vt) as [[t Ht]|Hno].
  - rewrite (parent_has_sees _ st vt t Hst Ht). apply sees_to_id in Ht. rewrite Ht.
    split; [intros [= ?]; by exists t|]. by intros (t' & He & [= ->]); f_equal.
  - rewrite parent_has_unknown by done. split; [done|]. intros (t & _ & Ht%sees_to_id). by apply Hno in Ht.
Qed.

(** The triples of a layer, by their names. *)
Lemma triples_names l st fuel :
  layer_good (Some l) st → stack_size st < fuel →
  ∃ ts sts, triples fuel l = Ok ts ∧ names_of l ts = Ok sts ∧ ∀ vt, vt ∈ sts ↔ value_triple_exists l vt = Ok true.
Proof.
  intros Hg Hf. pose proof Hg as [[Hwf Hd] Hst Hr _].
  destruct (layer_triples_query l st fuel Hst Hf) as (ts & Hts & _ & Hin).
  destruct (names_of_spec l ts Hwf Hd) as (sts & Hn & Hmem).
  - apply Forall_forall. intros t Ht%Hin. by eapply exists_in_pos; [apply Hst|].
  - apply Forall_forall. intros t Ht%Hin. by apply Hr.
  - exists ts, sts. split_and!; [done..|]. intros vt. rewrite Hmem, (value_exists_iff l st vt Hg). by setoid_rewrite Hin.
Qed.

Lemma missing_in_spec other st ts :
  layer_good (Some other) st →
  ∃ r, missing_in other ts = Ok r ∧ ∀ vt, vt ∈ r ↔ vt ∈ ts ∧ value_triple_exists other vt = Ok false.
Proof.
  intros Hg. induction ts as [|t ts (r & Hr & Hmem)].
  { exists []. split; [done|]. intros vt. rewrite !elem_of_nil. tauto. }
  destruct (parent_has_total _ _ t Hg) as [b Hb]. change (parent_has (Some other) t) with (value_triple_exists other t) in Hb.
  simpl. rewrite Hb, Hr. cbn [mbind outcome_bind]. eexists. split; [done|]. intros vt.
  destruct b; rewrite ?elem_of_cons, Hmem, ?elem_of_cons; split; intros Hvt; naive_solver congruence.
Qed.
End names.

#[export] Instance thread_call_eq_dec `{SuccinctOps} : EqDecision thread_call.
Proof. solve_decision. Defined.

(** ** Calls of the builder inside *)
Section calls.
Context `{BuildLaws}.

(** A builder between two calls. *)
Definition ready (b : SimpleLayerBuilder) : Prop := sb_tables b ∧ ∃ ops, collected b ops.

Lemma sb_start_ready n parent : ids_ok parent → ready (sb_start n parent).
Proof. intros Hok. destruct (sb_start_spec n parent Hok) as (Ht & Hc & _). split; [done|by exists []]. Qed.

(** A call of the shared builder is the call of the builder inside. *)
Lemma slb_op_step b op :
  ready b → ∃ b', run_op b op = Ok b' ∧ ready b' ∧ slb_op op (wrap_builder b) = (Ok tt, wrap_builder b').
Proof.
  intros [Ht [ops Hc]]. destruct (run_op_spec b op ops Ht Hc) as (b' & Hr & Ht' & [Hn Hp _ _] & Hc').
  exists b'. split_and!; [done|split; [done|by eexists]|].
  assert (with_builder (λ b, run_op b op) (wrap_builder b) = (Ok tt, wrap_builder b')) as Hw.
  { unfold with_builder. simpl. rewrite Hr. unfold with_lock, wrap_builder. simpl. by rewrite Hn, Hp. }
  by destruct op.
Qed.

Definition call_value (c : thread_call) : value_call := match c with Add t => Adds t | Remove t => Removes t end.
Definition thread_ops (calls : list thread_call) : list builder_op := call_op <$> (call_value <$> calls).

(** The calls of the threads are those of the builder inside, and none fails. *)
Lemma thread_calls_spec calls : ∀ b,
  ready b →
  ∃ b', run_ops b (thread_ops calls) = Ok b' ∧
    unwrap_calls calls (wrap_builder b) = (Ok tt, wrap_builder b') ∧
    drop_errors calls (wrap_builder b) = (Ok tt, wrap_builder b').
Proof.
  induction calls as [|c calls IH]; intros b Hb; [by exists b|].
  destruct (slb_op_step b (call_op (call_value c)) Hb) as (b1 & Hr & Hb1 & Hs).
  destruct (IH b1 Hb1) as (b' & Hrs & Hu & Hd). exists b'. cbn [thread_ops fmap list_fmap run_ops].
  rewrite Hr. split; [exact Hrs|]. simpl.
  assert (thread_run c (wrap_builder b) = (Ok tt, wrap_builder b1)) as -> by (by destruct c). done.
Qed.

Lemma thread_ops_asks parent calls vt :
  asks_add parent (thread_ops calls) vt = bool_decide (Add vt ∈ calls) ∧
  asks_remove parent (thread_ops calls) vt = bool_decide (Remove vt ∈ calls).
Proof.
  unfold thread_ops. rewrite asks_add_calls, asks_remove_calls.
  split; apply bool_decide_ext; rewrite list_elem_of_fmap; (split; [by intros ([t|t] & [= ->] & Hin)|intros Hin; eexists; (split; [|exact Hin]); reflexivity]).
Qed.

(** The calls of a list of removals and additions, in any order. *)
Lemma elem_of_calls order (adds removes : list ValueTriple) calls vt :
  (∀ cs, order cs ≡ₚ cs) → calls ≡ₚ (Remove <$> removes) ++ (Add <$> adds) →
  (Add vt ∈ order calls ↔ vt ∈ adds) ∧ (Remove vt ∈ order calls ↔ vt ∈ removes).
Proof.
  intros Ho Hc. rewrite (Ho _), Hc, !elem_of_app, !list_elem_of_fmap.
  split; (split; [by intros [(t & [= ->] & Ht)|(t & [= ->] & Ht)]|eauto]).
Qed.

Lemma hold_ops W `{!BuildStore W} ops : ∀ b (w : W),
  ready b →
  ∃ b', run_ops b ops = Ok b' ∧
    ∀ cs, hold_all ((Call <$> ops) ++ cs) (w, wrap_builder b) =
      let '(os, ws) := hold_all cs (w, wrap_builder b') in (replicate (length ops) (Ok Done) ++ os, ws).
Proof.
  induction ops as [|op ops IH]; intros b w Hb.
  { exists b. split; [done|]. intros cs. simpl. by destruct (hold_all _ _). }
  destruct (slb_op_step b op Hb) as (b1 & Hr & Hb1 & Hs). destruct (IH b1 w Hb1) as (b' & Hrs & Hall).
  exists b'. split; [simpl; by rewrite Hr|]. intros cs. cbn [fmap list_fmap app hold_all].
  assert (hold (Call op) (w, wrap_builder b) = (Ok Done, (w, wrap_builder b1))) as Hh.
  { unfold hold, mbind, io_bind, on_builder. simpl. by rewrite Hs. }
  rewrite Hh, Hall. by destruct (hold_all cs _).
Qed.

(** ** After a commit was tried *)

Definition is_commit (c : holder_call) : bool := match c with Commit | CommitNoLoad => true | _ => false end.
Definition closed_answer (c : holder_call) : outcome answer :=
  match c with IsCommitted => Ok (Flag true) | _ => Err InvalidData end.

Definition closed (s : StoreLayerBuilder) : Prop := slb_builder s = Unlocked None.

Lemma hold_closed W `{!BuildStore W} c (w : W) s : closed s → hold c (w, s) = (closed_answer c, (w, s)).
Proof.
  destruct s as [p l n]. unfold closed. simpl. intros ->.
  destruct c as [[t|t|t|t]| | |]; try reflexivity.
Qed.

Lemma hold_all_closed W `{!BuildStore W} cs (w : W) s : closed s → hold_all cs (w, s) = (closed_answer <$> cs, (w, s)).
Proof. intros Hs. induction cs as [|c cs IH]; [done|]. simpl. by rewrite hold_closed, IH. Qed.

(** Whatever the store answers. *)
Lemma hold_commit W `{!BuildStore W} c (w : W) s b :
  is_commit c = true → slb_builder s = Unlocked (Some b) → closed (hold c (w, s)).2.2.
Proof.
  destruct s as [p l n]. intros Hc Hs. simpl in Hs. subst l.
  destruct c; try done; unfold closed, hold, commit, commit_no_load, mbind, io_bind, on_builder, on_layers, take_builder, read_state, lift; simpl;
    repeat (case_match; simplify_eq/=); done.
Qed.
End calls.

(** ** Differences *)
Section difference.
Context `{BuildLaws}.

Lemma diff_removals_spec parent st other st' fuel :
  layer_good parent st → layer_good (Some other) st' → stack_size st < fuel →
  ∃ r, diff_removals fuel parent other = Ok r ∧
    ∀ vt, vt ∈ r ↔ parent_has parent vt = Ok true ∧ value_triple_exists other vt = Ok false.
Proof.
  intros Hg Hg' Hf. destruct parent as [this|]; simpl.
  - destruct (triples_names this st fuel Hg Hf) as (ts & sts & -> & Hn & Hmem). cbn [mbind outcome_bind]. rewrite Hn.
    cbn [mbind outcome_bind]. destruct (missing_in_spec other st' sts Hg') as (r & -> & Hr). exists r. split; [done|].
    intros vt. by rewrite Hr, Hmem.
  - exists []. split; [done|]. intros vt. rewrite elem_of_nil. naive_solver.
Qed.

Lemma diff_additions_spec parent st other st' fuel :
  layer_good parent st → layer_good (Some other) st' → stack_size st' < fuel →
  ∃ a, diff_additions fuel parent other = Ok a ∧
    ∀ vt, vt ∈ a ↔ value_triple_exists other vt = Ok true ∧ parent_has parent vt = Ok false.
Proof.
  intros Hg Hg' Hf. unfold diff_additions.
  destruct (triples_names other st' fuel Hg' Hf) as (ts & sts & -> & Hn & Hmem). cbn [mbind outcome_bind]. rewrite Hn.
  cbn [mbind outcome_bind]. destruct parent as [this|].
  - destruct (missing_in_spec this st sts Hg) as (r & -> & Hr). exists r. split; [done|]. intros vt. by rewrite Hr, Hmem.
  - exists sts. split; [done|]. intros vt. rewrite Hmem. simpl. naive_solver.
Qed.

(** A session of calls of threads, and its commit. *)
Lemma threads_commit limit stored n parent st calls :
  layer_good parent st →
  ∃ b l changes, run_ops (sb_start n parent) (thread_ops calls) = Ok b ∧ sb_commit limit stored b = Ok l ∧
    layer_name l = n ∧ immediate_parent l = parent ∧ layer_good (Some l) (changes :: st) ∧
    unwrap_calls calls (wrap_builder (sb_start n parent)) = (Ok tt, wrap_builder b) ∧
    drop_errors calls (wrap_builder (sb_start n parent)) = (Ok tt, wrap_builder b) ∧
    ∀ vt, ∃ before, parent_has parent vt = Ok before ∧
      value_triple_exists l vt = Ok (match bool_decide (Add vt ∈ calls), bool_decide (Remove vt ∈ calls) with
                                     | true, false => true | false, true => false | _, _ => before end).
Proof.
  intros Hg. destruct (build_session_exact limit stored n parent st (thread_ops calls) Hg) as (l & changes & Hb & Hn & Hp & Hgl & Hans).
  { apply calls_in_range. }
  destruct (thread_calls_spec calls (sb_start n parent)) as (b & Hr & Hu & Hd); [apply sb_start_ready, Hg|].
  unfold build_session in Hb. rewrite Hr in Hb. exists b, l, changes. split_and!; [done..|].
  intros vt. destruct (Hans vt) as (before & Hbef & Haft). exists before. split; [done|].
  unfold after in Haft. destruct (thread_ops_asks parent calls vt) as [Ha Hrm]. by rewrite Ha, Hrm in Haft.
Qed.

Lemma diff_exact limit stored n parent st other st' order fuel :
  layer_good parent st → layer_good (Some other) st' → (∀ cs, order cs ≡ₚ cs) → stack_size st < fuel → stack_size st' < fuel →
  ∃ b l changes, apply_diff order fuel other (wrap_builder (sb_start n parent)) = (Ok tt, wrap_builder b) ∧
    sb_commit limit stored b = Ok l ∧ layer_name l = n ∧ immediate_parent l = parent ∧ layer_good (Some l) (changes :: st) ∧
    ∀ vt, value_triple_exists l vt = value_triple_exists other vt.
Proof.
  intros Hg Hg' Ho Hf Hf'.
  destruct (diff_removals_spec parent st other st' fuel Hg Hg' Hf) as (r & Hr & Hrm).
  destruct (diff_additions_spec parent st other st' fuel Hg Hg' Hf') as (a & Ha & Hadd).
  destruct (threads_commit limit stored n parent st (order ((Remove <$> r) ++ (Add <$> a))) Hg)
    as (b & l & changes & _ & Hc & Hn & Hp & Hgl & Hu & _ & Hans).
  exists b, l, changes. split_and!; [|done..|].
  { unfold apply_diff, mbind, io_bind, read_state, lift.
    assert (slb_parent (wrap_builder (sb_start n parent)) = parent) as -> by (by destruct parent). by rewrite Hr, Ha. }
  intros vt. destruct (Hans vt) as (before & Hbef & ->).
  destruct (elem_of_calls order a r _ vt Ho (reflexivity _)) as [Ea Er].
  destruct (parent_has_total (Some other) st' vt Hg') as [o Hov]. simpl in Hov.
  rewrite (bool_decide_ext _ _ Ea), (bool_decide_ext _ _ Er), (bool_decide_ext _ _ (Hadd vt)), (bool_decide_ext _ _ (Hrm vt)), Hbef, Hov.
  f_equal. destruct before, o; repeat case_bool_decide; naive_solver.
Qed.

(** ** The changes of a layer *)

Lemma layer_holds_pos l PN : layer_holds l PN → Forall triple_pos (PN.1 ++ PN.2).
Proof.
  intros [Hp Hn]. apply Forall_app. split; apply Forall_forall; intros t Ht; [by eapply part_pos|].
  repeat case_match; try done; [by eapply part_pos|]. rewrite Hn in Ht. by apply not_elem_of_nil in Ht.
Qed.

(** A triple of names is one of a list of triples of a layer. *)
Definition named_in (l : InternalLayer) (ts : list IdTriple) (vt : ValueTriple) : bool :=
  match value_triple_to_id l vt with Ok (Some t) => bool_decide (t ∈ ts) | _ => false end.

Lemma named_in_iff l ts vt : named_in l ts vt = true ↔ ∃ t, t ∈ ts ∧ value_triple_to_id l vt = Ok (Some t).
Proof.
  unfold named_in. destruct (value_triple_to_id l vt) as [[t|]| | |]; [rewrite bool_decide_eq_true|..]; naive_solver.
Qed.

Lemma delta_exact {W} `{!LayerQueries W} limit stored n parent st delta st' order fuel (w w1 w2 : W) added_it removed_it added removed :
  layer_good parent st → layer_good (Some delta) st' → (∀ cs, order cs ≡ₚ cs) →
  triple_additions (layer_name delta) w = (Ok added_it, w1) → triple_removals (layer_name delta) w1 = (Ok removed_it, w2) →
  collect opt_next fuel added_it = Ok added → collect opt_next fuel removed_it = Ok removed →
  Forall triple_pos (added ++ removed) → Forall (in_range (node_and_value_count delta) (predicate_count delta)) (added ++ removed) →
  ∃ b l changes, apply_delta order fuel delta (w, wrap_builder (sb_start n parent)) = (Ok tt, (w2, wrap_builder b)) ∧
    sb_commit limit stored b = Ok l ∧ layer_name l = n ∧ immediate_parent l = parent ∧ layer_good (Some l) (changes :: st) ∧
    ∀ vt, ∃ before, parent_has parent vt = Ok before ∧
      value_triple_exists l vt = Ok (match named_in delta added vt, named_in delta removed vt with
                                     | true, false => true | false, true => false | _, _ => before end).
Proof.
  intros Hg [[Hwf Hd] _ _ _] Ho Hta Htr Hca Hcr [Hpa Hpr]%Forall_app [Hra Hrr]%Forall_app.
  destruct (names_of_spec delta added Hwf Hd Hpa Hra) as (a & Ha & Hadd).
  destruct (names_of_spec delta removed Hwf Hd Hpr Hrr) as (r & Hr & Hrm).
  destruct (threads_commit limit stored n parent st (order ((Add <$> a) ++ (Remove <$> r))) Hg)
    as (b & l & changes & _ & Hc & Hn & Hp & Hgl & _ & Hu & Hans).
  exists b, l, changes. split_and!; [|done..|].
  { unfold apply_delta, mbind, io_bind, on_layers, on_builder, lift. simpl. rewrite Hta. simpl. rewrite Htr. simpl.
    by rewrite Hca, Hcr, Ha, Hr, Hu. }
  intros vt. destruct (Hans vt) as (before & Hbef & ->). exists before. split; [done|].
  destruct (elem_of_calls order a r ((Add <$> a) ++ (Remove <$> r)) vt Ho) as [Ea Er]; [apply (comm (++))|].
  rewrite Hadd, <- named_in_iff in Ea. rewrite Hrm, <- named_in_iff in Er.
  rewrite (bool_decide_ext _ _ Ea), (bool_decide_ext _ _ Er).
  by destruct (named_in delta added vt), (named_in delta removed vt).
Qed.
End difference.
