(* ===== verification/StoreBuilderProperties.v ===== *)
(** The contract of a shared layer builder: it is committed once, and the layer that
    comes out of [apply_diff] has the triples of the other layer, the one that comes out
    of [apply_delta] the changes of the other layer on top of its own parent. *)

From S2P Require Import Prelude Names Text LabelSpec Consts LayerFiles LayerFileSpec LayerStores Succinct SuccinctList LayerTypes Order Nested SubjectIterator LayerLookup ObjectIterator PredicateIterator TripleBuilder SuccinctBuild SuccinctBuildList IndexBuilder StackMerge ChangeMerge IdMap InternalLayer LayerCache LayerIds LayerQueries NewLayerIds FileBuilder FileBuilderSpec SimpleBuilder SimpleBuilderSpec CommitSteps CommitPlan CommitSpec CommitHistory LayerMaps LayerLoad StoreQueries StoreQuerySpec StoreChanges StorageExamples Examples BuilderExamples StoreBuilder StoreBuilderSpec.

#[local] Open Scope string_scope.
#[local] Open Scope list_scope.
#[local] Open Scope nat_scope.

(** A store that keeps the layers it is given in a table. *)
#[local] Instance table_store : BuildStore (gmap name InternalLayer) := {|
  create_base_layer := mret (sb_new (Name 0 0 0 0 9));
  create_child_layer n := λ w, (p ← unwrap (w !! n); Ok (sb_from_parent (Name 0 0 0 0 9) p), w);
  commit_boxed b := λ w,
    match sb_commit 2 0 b with
    | Ok l => (Ok tt, <[sb_name b := l]> w)
    | Err e => (Err e, w) | Panic => (Panic, w) | NoFuel => (NoFuel, w)
    end;
  finalize_layer _ := mret tt;
  retrieve_layer n := λ w, (Ok (w !! n), w);
  store_squash _ := throw InvalidData; store_squash_upto _ _ := throw InvalidData;
  store_rollup _ := throw InvalidData; store_rollup_upto _ _ := throw InvalidData;
  store_imprecise_rollup_upto _ _ := throw InvalidData |}.

(** C7. A shared builder takes additions and removals like the builder inside, and the
    first call to commit it, whatever the store makes of it, is the last that has an
    effect: every later call fails with [InvalidData] and changes neither the store nor
    the builder, and [committed] is true. *)
Theorem builder_commits_once `{BuildLaws} {W : Type} `{!BuildStore W} n parent ops c cs (w : W) :
  ids_ok parent → is_commit c = true →
  ∃ b, run_ops (sb_start n parent) ops = Ok b ∧
    hold_all ((Call <$> ops) ++ c :: cs) (w, wrap_builder (sb_start n parent)) =
      (replicate (length ops) (Ok Done) ++ (hold c (w, wrap_builder b)).1 :: (closed_answer <$> cs),
       (hold c (w, wrap_builder b)).2) ∧
    closed (hold c (w, wrap_builder b)).2.2.
Proof.
  intros Hok Hc. destruct (hold_ops W ops (sb_start n parent) w (sb_start_ready n parent Hok)) as (b & Hr & Hall).
  exists b. split; [done|]. pose proof (hold_commit W c w (wrap_builder b) b Hc eq_refl) as Hcl. split; [|done].
  rewrite Hall. cbn [hold_all]. destruct (hold c (w, wrap_builder b)) as [o [w' s']]. by rewrite hold_all_closed.
Qed.

Definition late_calls : list holder_call :=
  [IsCommitted; Call (AddValue (new_node "pig" "likes" "cow")); CommitNoLoad; Commit].

Definition called_builder : SimpleLayerBuilder :=
  match run_ops (sb_start (Name 0 0 0 0 1) None) (call_op <$> se_calls first_session) with Ok b => b | _ => sb_new (Name 0 0 0 0 1) end.

Lemma builder_commits_once_witness :
  ∃ l ws, hold_all ((Call <$> (call_op <$> se_calls first_session)) ++ Commit :: late_calls)
      (∅ : gmap name InternalLayer, wrap_builder (sb_start (Name 0 0 0 0 1) None)) =
    ([Ok Done; Ok Done; Ok Done; Ok Done; Ok (Loaded l); Ok (Flag true); Err InvalidData; Err InvalidData; Err InvalidData], ws) ∧
    closed ws.2 ∧ base_session = Ok l.
Proof.
  destruct (builder_commits_once (Name 0 0 0 0 1) None (call_op <$> se_calls first_session) Commit late_calls
    (∅ : gmap name InternalLayer)) as (b & Hb & Hall & Hcl); [exact I|reflexivity|].
  assert (b = called_builder) as -> by (unfold called_builder; rewrite Hb; reflexivity).
  let l := eval vm_compute in base_session in match l with Ok ?l => exists l end. eexists. split; [|split; [exact Hcl|]].
  - etransitivity; [exact Hall|]. apply (f_equal2 pair); [|reflexivity]. vm_compute. reflexivity.
  - vm_compute. reflexivity.
Defined.

(** C5. [apply_diff] on a new builder, whatever the order in which its threads call the
    builder, and a commit make a layer on the parent of the builder that has exactly the
    triples of the other layer. *)
Theorem apply_diff_exact `{BuildLaws} limit stored n parent st other st' order fuel :
  layer_good parent st → layer_good (Some other) st' → (∀ cs, order cs ≡ₚ cs) → stack_size st < fuel → stack_size st' < fuel →
  ∃ b l changes, apply_diff order fuel other (wrap_builder (sb_start n parent)) = (Ok tt, wrap_builder b) ∧
    sb_commit limit stored b = Ok l ∧ layer_name l = n ∧ immediate_parent l = parent ∧ layer_good (Some l) (changes :: st) ∧
    ∀ vt, value_triple_exists l vt = value_triple_exists other vt.
Proof. apply diff_exact. Qed.

(** The two layers of the farm, and the second one made over into the first. *)
Lemma farm_layers_good :
  ∃ p st l st', base_session = Ok p ∧ layer_good (Some p) st ∧ stack_size st < 5 ∧
    run_history 2 None farm_history = Ok (Some l) ∧ layer_good (Some l) st' ∧ stack_size st' < 5.
Proof.
  assert (∀ l st, layer_good (Some l) st → layer_triple_addition_count l = Ok 2 ∨ layer_triple_addition_count l = Ok 3 →
    layer_triple_removal_count l = Ok 0 ∨ layer_triple_removal_count l = Ok 1 → stack_size st < 5) as Hsize.
  { intros l st [_ Hst _ _] Ha Hr. destruct (layer_counts_query l st Hst) as [Ha' Hr']. rewrite Ha' in Ha. rewrite Hr' in Hr.
    unfold stack_size. destruct Ha as [[= ->]|[= ->]], Hr as [[= ->]|[= ->]]; lia. }
  destruct base_session_good as (p & st & Hp & Hg & _).
  destruct (history_exact 2 farm_history None [] ∅) as (l & st' & Hl & Hg' & _); [apply nothing_good..|].
  destruct l as [l|]; [|vm_compute in Hl; discriminate].
  exists p, st, l, st'. split_and!; [exact Hp|exact Hg| |exact Hl|exact Hg'|].
  - apply (Hsize p st Hg); vm_compute in Hp; injection Hp as <-; vm_compute; auto.
  - apply (Hsize l st' Hg'); vm_compute in Hl; injection Hl as <-; vm_compute; auto.
Qed.

Lemma apply_diff_exact_witness :
  ∃ p top b l, base_session = Ok p ∧ run_history 2 None farm_history = Ok (Some top) ∧
    apply_diff reverse 5 p (wrap_builder (sb_from_parent (Name 0 0 0 0 7) top)) = (Ok tt, wrap_builder b) ∧
    sb_commit 2 0 b = Ok l ∧ immediate_parent l = Some top ∧
    value_triple_exists top (new_node "cow" "likes" "duck") = Ok false ∧
    value_triple_exists l (new_node "cow" "likes" "duck") = Ok true ∧
    value_triple_exists l (new_node "ant" "hears" "duck") = Ok false.
Proof.
  destruct farm_layers_good as (p & st & top & st' & Hp & Hg & Hf & Htop & Hg' & Hf').
  destruct (apply_diff_exact 2 0 (Name 0 0 0 0 7) (Some top) st' p st reverse 5 Hg' Hg) as (b & l & changes & Hd & Hc & _ & Hpar & _ & Hans);
    [intros cs; apply reverse_Permutation|exact Hf'|exact Hf|].
  exists p, top, b, l. split; [exact Hp|]. split; [exact Htop|]. split; [exact Hd|]. split; [exact Hc|]. split; [exact Hpar|].
  rewrite !Hans. clear -Hp Htop. vm_compute in Hp, Htop. injection Hp as <-. injection Htop as <-.
  split_and!; vm_compute; reflexivity.
Defined.

(** C6. [apply_delta] on a new builder and a commit make a layer that differs from the
    parent of the builder by the additions and the removals of the other layer, as they
    are in its own files and by the names of their parts; a triple that is among both
    stays as it was. *)
Theorem apply_delta_exact `{BuildLaws} `{!SuccinctParse} {W : Type} `{!LayerQueries W, !LayerQueriesLaws W}
    limit stored n parent st delta st' dl PN order fuel (m : store_map) (w : W) :
  layer_good parent st → layer_good (Some delta) st' → (∀ cs, order cs ≡ₚ cs) →
  lq_rep w m → own m (layer_name delta) dl → layer_holds dl PN →
  Forall (in_range (node_and_value_count delta) (predicate_count delta)) (PN.1 ++ PN.2) →
  length (PN.1 ++ PN.2) < fuel →
  ∃ b l changes w', apply_delta order fuel delta (w, wrap_builder (sb_start n parent)) = (Ok tt, (w', wrap_builder b)) ∧
    lq_rep w' m ∧ sb_commit limit stored b = Ok l ∧
    layer_name l = n ∧ immediate_parent l = parent ∧ layer_good (Some l) (changes :: st) ∧
    ∀ vt, ∃ before, parent_has parent vt = Ok before ∧
      value_triple_exists l vt = Ok (match named_in delta PN.1 vt, named_in delta PN.2 vt with
                                     | true, false => true | false, true => false | _, _ => before end).
Proof.
  intros Hg Hg' Ho Hw Hown Hh Hin Hf. rewrite length_app in Hf. pose proof (own_answers m (layer_name delta) dl Hown) as Ha.
  destruct (af_additions _ _ _ _ Ha w Hw) as (w1 & Hta & Hw1). destruct (af_removals _ _ _ _ Ha w1 Hw1) as (w2 & Htr & Hw2).
  destruct (delta_exact limit stored n parent st delta st' order fuel w w1 w2 _ _ PN.1 PN.2 Hg Hg' Ho Hta Htr)
    as (b & l & changes & Hd & Hl).
  - apply (collect_spec opt_next (yields (I := option InternalLayerTripleSubjectIterator))); [exact yields_next|by apply additions_yield|lia].
  - apply (collect_spec opt_next (yields (I := option InternalLayerTripleSubjectIterator))); [exact yields_next|by apply removals_yield|lia].
  - exact (layer_holds_pos dl PN Hh).
  - exact Hin.
  - exists b, l, changes, w2. split; [exact Hd|]. split; [exact Hw2|exact Hl].
Qed.

(** The child of the small store. *)
Lemma dog_entry o : is_Some (find_object dog_layer o) → o = Node "dog".
Proof.
  intros [i (Hi & Hle & Hg)%find_object_spec]. vm_compute in Hle.
  assert (i = 1) as -> by lia.
  assert (get_object dog_layer 1 = Some (Node "dog")) as He by reflexivity.
  unfold id in Hg. congruence.
Qed.

Lemma dog_predicate_entry p : ¬ is_Some (find_predicate dog_layer p).
Proof. intros [i (Hi & Hle & _)%find_predicate_spec]. vm_compute in Hle. lia. Qed.

Lemma dog_good : layer_good (Some dog_layer) small_stack.
Proof.
  split.
  - split; [split; split|split].
    + repeat constructor; simpl; intros; simplify_eq/=; try done.
    + intros i l Hl. simpl in Hl. cases_list; reflexivity.
    + repeat constructor; simpl; intros; simplify_eq/=; done.
    + intros i l Hl. simpl in Hl. cases_list; reflexivity.
    + intros o i j l l' Hi Hj. simpl in Hi, Hj. cases_list; try done; intros H1 H2; exfalso.
      * apply dog_entry in H2 as ->. vm_compute in H1. by destruct H1.
      * apply dog_entry in H1 as ->. vm_compute in H2. by destruct H2.
    + intros p i j l l' Hi Hj. simpl in Hi, Hj. cases_list; try done; intros H1 H2; exfalso;
        by eapply dog_predicate_entry.
  - destruct small_disk_stack as [_ _ Hh Hwf]. by split.
  - intros t. unfold exists_in. cbn -[elem_of]. repeat case_bool_decide; try done; intros _;
      assert (t = new_IdTriple 3 1 1 ∨ t = new_IdTriple 1 1 2) as [-> | ->] by set_solver; vm_compute; lia.
  - simpl. repeat constructor.
Qed.

Lemma apply_delta_exact_witness :
  ∃ p b l w', base_session = Ok p ∧
    apply_delta reverse 5 dog_layer (in_memory small_store, wrap_builder (sb_from_parent (Name 0 0 0 0 7) p)) = (Ok tt, (w', wrap_builder b)) ∧
    sb_commit 2 0 b = Ok l ∧
    value_triple_exists l (new_node "dog" "likes" "cow") = Ok true ∧
    value_triple_exists l (new_node "cow" "likes" "duck") = Ok true ∧
    value_triple_exists l (new_node "duck" "likes" "cow") = Ok false.
Proof.
  destruct base_session_good as (p & st & Hp & Hg & _).
  destruct (apply_delta_exact (W := memory_layers) 2 0 (Name 0 0 0 0 7) (Some p) st dog_layer small_stack dog_layer
    ([new_IdTriple 3 1 1], []) reverse 5 small_store (in_memory small_store) Hg dog_good)
    as (b & l & changes & w' & Hd & _ & Hc & _ & _ & _ & Hans).
  - intros cs. apply reverse_Permutation.
  - apply in_memory_rep.
  - apply dog_own.
  - exact (proj1 (Forall2_cons_1 _ _ _ _ _ small_holds)).
  - repeat constructor; vm_compute; lia.
  - simpl. lia.
  - exists p, b, l, w'. split; [exact Hp|]. split; [exact Hd|]. split; [exact Hc|].
    vm_compute in Hp. injection Hp as <-.
    split_and!; match goal with |- value_triple_exists _ ?vt = _ => destruct (Hans vt) as (before & Hb & ->) end;
      vm_compute in Hb; injection Hb as <-; vm_compute; reflexivity.
Defined.
